(** * vrpy: the column-generation loop and its pricing strategies

    A shallow embedding of [vrpy/main.py] (class [VehicleRoutingProblem])
    and [vrpy/master_solve_pulp.py] (class [MasterSolvePulp]).

    Conventions.
    - Python numbers that may be floats (times, costs, objective values,
      variable values) are rationals [Q]; integers are [Z].
    - Node identifiers are strings (["Source"], ["Sink"], customers).
    - [None] is [option]'s [None]; a raised exception is [Raise e] in the
      [result] monad below.
    - The LP/MIP solver, the pricing subproblems and the hyper-heuristic
      selector are collaborators outside these two files: they are
      parameters of the development (section variables). *)

From Stdlib Require Import ZArith QArith Bool Lia Lqa String.
From Stdlib Require Import List.
From stdpp Require Import gmap strings list fin_maps.
Import ListNotations.

Open Scope string_scope.
Open Scope list_scope.
Open Scope Z_scope.

(** ** Python helpers *)

Module Py.

(** Exceptions the two files can raise. *)
Inductive exn : Type :=
| Exception (msg : string)
| KeyError
| IndexError
| TypeError
| NodeNotFound
| NetworkXNoPath.

Inductive result (A : Type) : Type :=
| Ok (a : A)
| Raise (e : exn).
Arguments Ok {A} a.
Arguments Raise {A} e.

Definition bind {A B} (m : result A) (k : A -> result B) : result B :=
  match m with
  | Ok a => k a
  | Raise e => Raise e
  end.

Definition of_option {A} (e : exn) (o : option A) : result A :=
  match o with
  | Some a => Ok a
  | None => Raise e
  end.

(** [for x in xs: body] over a state, stopping at the first exception. *)
Fixpoint for_each {A S} (xs : list A) (body : A -> S -> result S) (s : S)
  : result S :=
  match xs with
  | [] => Ok s
  | x :: xs' => bind (body x s) (for_each xs' body)
  end.

(** [range(n)] for a Python int [n] (empty when [n <= 0]). *)
Definition range (n : Z) : list Z := map Z.of_nat (seq 0 (Z.to_nat n)).

(** [l[i]] with Python's negative indices; [IndexError] out of range. *)
Definition index {A} (l : list A) (i : Z) : result A :=
  let n := Z.of_nat (length l) in
  let k := if i <? 0 then i + n else i in
  if (k <? 0) || (n <=? k) then Raise IndexError
  else of_option IndexError (nth_error l (Z.to_nat k)).

(** [l[i] = x] with Python's negative indices; [IndexError] out of range. *)
Definition setitem {A} (l : list A) (i : Z) (x : A) : result (list A) :=
  let n := Z.of_nat (length l) in
  let k := if i <? 0 then i + n else i in
  if (k <? 0) || (n <=? k) then Raise IndexError
  else Ok (<[Z.to_nat k := x]> l).

(** Comparisons on numbers. *)
Definition Qltb (a b : Q) : bool := negb (Qle_bool b a).
Definition Qgtb (a b : Q) : bool := Qltb b a.

(** [max(a, b)]: the first argument unless the second is strictly larger. *)
Definition max (a b : Q) : Q := if Qgtb b a then b else a.

(** Truth value of an optional number: [None] and zero are false. *)
Definition truthy (x : option Q) : bool :=
  match x with
  | Some t => negb (Qeq_bool t 0)
  | None => false
  end.

(** [int(x)]: the integer part of a number, rounding toward zero. *)
Definition int (x : Q) : Z := Z.quot (Qnum x) (Z.pos (Qden x)).

(** [sum(xs)]: the left-to-right sum, starting from 0. *)
Definition sum (xs : list Q) : Q := fold_left Qplus xs 0%Q.

(** [max(xs)] of a sequence: the first of the largest elements;
    [ValueError] (an [Exception]) when the sequence is empty. *)
Definition max_of (xs : list Q) : result Q :=
  match xs with
  | [] => Raise (Exception "max() arg is an empty sequence")
  | x :: rest => Ok (fold_left max rest x)
  end.

End Py.

Import Py.

Declare Scope py_scope.
Delimit Scope py_scope with py.
Notation "x <- m ;; k" := (Py.bind m (fun x => k))
  (at level 100, m at next level, right associativity) : py_scope.
Open Scope py_scope.

(** ** The time budget: [VehicleRoutingProblem._get_time_remaining] *)

(** [time_limit] is [self._time_limit], [start_time] is [self._start_time]
    and [now] is the reading of [time()]. *)
Definition _get_time_remaining
    (time_limit : option Q) (start_time now : Q) (mip : bool) : option Q :=
  if Py.truthy time_limit then
    match time_limit with
    | Some limit =>
        let remaining_time := (limit - (now - start_time))%Q in
        if mip then Some (Py.max 5 remaining_time)
        else if Py.Qgtb remaining_time 0 then Some remaining_time
        else Some 0%Q
    | None => None
    end
  else None.

(** ** networkx directed graphs *)

(** The network [self.G]: nodes in insertion order with their attribute
    dictionaries (["demand"], ["frequency"], ["depot_from"], ...), and edges
    with their ["cost"] attribute, a list with one cost per vehicle type. *)
Module Network.

Record t : Type := mk {
  nodes : list (string * gmap string Q);
  edges : gmap (string * string) (list Q)
}.

Definition node_names (g : t) : list string := map fst (nodes g).

(** [G.remove_nodes_from(vs)]: the nodes and their incident edges go. *)
Definition remove_nodes_from (vs : list string) (g : t) : t :=
  {| nodes := List.filter (fun n => negb (existsb (String.eqb (fst n)) vs)) (nodes g);
     edges := filter (fun e => negb (existsb (String.eqb (fst (fst e))) vs)
                               && negb (existsb (String.eqb (snd (fst e))) vs))
                     (edges g) |}.

(** [G.edges[i, j]["cost"][k]]. *)
Definition edge_cost (g : t) (i j : string) (k : Z) : result Q :=
  costs <- Py.of_option KeyError (edges g !! (i, j)) ;;
  Py.index costs k.

(** [G.edges[i, j]["cost"][k] = c]. *)
Definition set_edge_cost (g : t) (i j : string) (k : Z) (c : Q) : result t :=
  costs <- Py.of_option KeyError (edges g !! (i, j)) ;;
  costs' <- Py.setitem costs k c ;;
  Ok {| nodes := nodes g; edges := <[(i, j) := costs']> (edges g) |}.

End Network.

(** A route: a [DiGraph] whose graph attributes are ["name"], ["cost"],
    ["vehicle_type"] and, once tagged, ["heuristic"]; its edges carry a
    scalar ["cost"].  Nodes and edges are kept in insertion order. *)
Module Route.

Record t : Type := mk {
  name : Z;
  nodes : list string;
  edges : list ((string * string) * Q);
  cost : Q;
  vehicle_type : Z;
  heuristic : option string
}.

(** [DiGraph(name=route_id)]; ["cost"] and ["vehicle_type"] are set by the
    caller right after the edges. *)
Definition empty (route_id : Z) : t :=
  {| name := route_id; nodes := []; edges := []; cost := 0%Q;
     vehicle_type := 0; heuristic := None |}.

Definition has_node (g : t) (v : string) : bool :=
  existsb (String.eqb v) (nodes g).

Definition add_node (v : string) (ns : list string) : list string :=
  if existsb (String.eqb v) ns then ns else ns ++ [v].

(** Setting [adj[i][j]]: a new edge goes last, an existing one is updated
    in place. *)
Fixpoint put_edge (i j : string) (c : Q) (es : list ((string * string) * Q))
  : list ((string * string) * Q) :=
  match es with
  | [] => [((i, j), c)]
  | ((i', j'), c') :: es' =>
      if String.eqb i i' && String.eqb j j' then ((i, j), c) :: es'
      else ((i', j'), c') :: put_edge i j c es'
  end.

(** [G.add_edge(i, j, cost=c)]. *)
Definition add_edge (i j : string) (c : Q) (g : t) : t :=
  {| name := name g;
     nodes := add_node j (add_node i (nodes g));
     edges := put_edge i j c (edges g);
     cost := cost g; vehicle_type := vehicle_type g;
     heuristic := heuristic g |}.

Definition set_cost (c : Q) (g : t) : t :=
  {| name := name g; nodes := nodes g; edges := edges g; cost := c;
     vehicle_type := vehicle_type g; heuristic := heuristic g |}.

Definition set_vehicle_type (k : Z) (g : t) : t :=
  {| name := name g; nodes := nodes g; edges := edges g; cost := cost g;
     vehicle_type := k; heuristic := heuristic g |}.

(** [r.graph["heuristic"] = tag]. *)
Definition set_heuristic (tag : string) (g : t) : t :=
  {| name := name g; nodes := nodes g; edges := edges g; cost := cost g;
     vehicle_type := vehicle_type g; heuristic := Some tag |}.

(** Successors of [u], in the order their edges were added. *)
Definition successors (g : t) (u : string) : list string :=
  map (fun e => snd (fst e))
      (List.filter (fun e => String.eqb (fst (fst e)) u) (edges g)).

(** Breadth-first search over a queue of reversed paths; [seen] holds the
    nodes already enqueued, so every node is expanded at most once and
    [fuel] steps are enough when [fuel] exceeds the number of nodes. *)
Fixpoint bfs (fuel : nat) (g : t) (target : string)
    (queue : list (list string)) (seen : list string) : option (list string) :=
  match fuel with
  | O => None
  | S fuel' =>
      match queue with
      | [] => None
      | [] :: _ => None
      | (u :: before) :: rest =>
          if String.eqb u target then Some (rev (u :: before))
          else
            let fresh := List.filter (fun v => negb (existsb (String.eqb v) seen))
                                (successors g u) in
            bfs fuel' g target
                (rest ++ map (fun v => v :: u :: before) fresh)
                (seen ++ fresh)
      end
  end.

(** [networkx.shortest_path(g, source, target)] without weights: a path
    with the fewest edges, [NodeNotFound] when an end point is not a node,
    [NetworkXNoPath] when the target cannot be reached. *)
Definition shortest_path (g : t) (source target : string)
  : result (list string) :=
  if negb (has_node g source) || negb (has_node g target)
  then Raise NodeNotFound
  else Py.of_option NetworkXNoPath
         (bfs (S (length (nodes g) + 2 * length (edges g))) g target
              [[source]] [source]).

End Route.

(** ** The pulp objects the master problem uses *)

Module Pulp.

Inductive Status : Type :=
| LpStatusNotSolved
| LpStatusOptimal
| LpStatusInfeasible
| LpStatusUnbounded
| LpStatusUndefined.

(** [pulp.LpStatus[status]]. *)
Definition LpStatus (s : Status) : string :=
  match s with
  | LpStatusNotSolved => "Not Solved"
  | LpStatusOptimal => "Optimal"
  | LpStatusInfeasible => "Infeasible"
  | LpStatusUnbounded => "Unbounded"
  | LpStatusUndefined => "Undefined"
  end.

Inductive Category : Type := LpContinuous | LpInteger.

Inductive Sense : Type := LpConstraintGE | LpConstraintLE.

(** Variable names: ["y<route name>"], ["drop_<node>"], ["periodic_<node>"]
    and ["artificial_bound_<k>"]. *)
Inductive VarId : Type :=
| y_ (route_name : Z)
| drop_ (node : string)
| periodic_ (node : string)
| artificial_bound_ (k : Z).

(** Constraint names: ["visit_node_<node>"], ["upper_bound_vehicles_<k>"]. *)
Inductive ConstrId : Type :=
| visit_node_ (node : string)
| upper_bound_vehicles_ (k : Z).

Record LpVariable : Type := mkVar {
  var : VarId;
  lowBound : option Q;
  upBound : option Q;
  cat : Category
}.

(** A constraint built column-wise ([LpConstraintVar]): the variables that
    entered it with [e=...], each with its coefficient, in entry order. *)
Record LpConstraintVar : Type := mkConstr {
  sense : option Sense;
  rhs : option Q;
  terms : list (VarId * Q)
}.

Definition addVariable (v : VarId) (coeff : Q) (c : LpConstraintVar)
  : LpConstraintVar :=
  {| sense := sense c; rhs := rhs c; terms := terms c ++ [(v, coeff)] |}.

(** What a solver run leaves on the problem: the status, the objective
    value, the variables' values and the constraints' duals. *)
Record Solution : Type := mkSolution {
  status : Status;
  objective_value : option Q;
  varValue : VarId -> option Q;
  pi : ConstrId -> option Q
}.

Definition set_cat (c : Category) (v : LpVariable) : LpVariable :=
  {| var := var v; lowBound := lowBound v; upBound := upBound v; cat := c |}.

Definition fix_to_zero (v : LpVariable) : LpVariable :=
  {| var := var v; lowBound := Some 0%Q; upBound := Some 0%Q; cat := cat v |}.

End Pulp.

(** ** The master problem: [vrpy/master_solve_pulp.py] *)

(** [get_duals]'s dictionary: one dual per customer node and, when the
    fleet is bounded, one per vehicle type under ["upper_bound_vehicles"]. *)
Record Duals : Type := mkDuals {
  node_duals : list (string * option Q);
  upper_bound_vehicles : option (list (Z * option Q))
}.

Module MasterSolvePulp.

Import Pulp.

(** The attributes of a [MasterSolvePulp].  [self.G] and [self.routes] are
    the caller's own objects (the network and the shared route list), so
    the methods below take them as arguments instead of copies. *)
Record t : Type := mk {
  drop_penalty : option Q;
  num_vehicles : list Z;
  periodic : option Z;
  solver : string;
  y : gmap Z LpVariable;
  drop : list (string * LpVariable);
  dummy : list (string * LpVariable);
  dummy_bound : list (Z * LpVariable);
  set_covering_constrs : gmap string LpConstraintVar;
  vehicle_bound_constrs : gmap Z LpConstraintVar;
  objective : LpConstraintVar;
  dropped_nodes : list string;
  prob : Solution
}.

Definition set_prob (p : Solution) (m : t) : t :=
  {| drop_penalty := drop_penalty m; num_vehicles := num_vehicles m;
     periodic := periodic m; solver := solver m; y := y m; drop := drop m;
     dummy := dummy m; dummy_bound := dummy_bound m;
     set_covering_constrs := set_covering_constrs m;
     vehicle_bound_constrs := vehicle_bound_constrs m;
     objective := objective m; dropped_nodes := dropped_nodes m;
     prob := p |}.

Definition set_dropped_nodes (vs : list string) (m : t) : t :=
  {| drop_penalty := drop_penalty m; num_vehicles := num_vehicles m;
     periodic := periodic m; solver := solver m; y := y m; drop := drop m;
     dummy := dummy m; dummy_bound := dummy_bound m;
     set_covering_constrs := set_covering_constrs m;
     vehicle_bound_constrs := vehicle_bound_constrs m;
     objective := objective m; dropped_nodes := vs;
     prob := prob m |}.

(** [node not in ["Source", "Sink"]]. *)
Definition is_depot (node : string) : bool :=
  String.eqb node "Source" || String.eqb node "Sink".

Definition truthyZ (x : option Z) : bool :=
  match x with
  | Some n => negb (n =? 0)
  | None => false
  end.

(** The nodes of a route that carry a set covering constraint. *)
Definition visited (route : Route.t) : list string :=
  List.filter (fun r => negb (is_depot r)) (Route.nodes route).

(** The vehicle bound constraints a route enters:
    [k in range(len(num_vehicles)) if route.graph["vehicle_type"] == k]. *)
Definition bounded (route : Route.t) (m : t) : list Z :=
  List.filter (fun k => Route.vehicle_type route =? k)
              (Py.range (Z.of_nat (length (num_vehicles m)))).

(** [_add_route_selection_variable]: the expression [e] looks up every
    constraint first (a missing one is a [KeyError]); the new variable
    then enters each of them, and the objective, as one more term. *)
Definition _add_route_selection_variable (route : Route.t) (m : t)
  : result t :=
  let v := y_ (Route.name route) in
  _ <- Py.for_each (visited route)
         (fun r _ => _ <- Py.of_option KeyError (set_covering_constrs m !! r) ;;
                     Ok tt) tt ;;
  _ <- Py.for_each (bounded route m)
         (fun k _ => _ <- Py.of_option KeyError (vehicle_bound_constrs m !! k) ;;
                     Ok tt) tt ;;
  Ok {| drop_penalty := drop_penalty m; num_vehicles := num_vehicles m;
        periodic := periodic m; solver := solver m;
        y := <[Route.name route :=
                 mkVar v (Some 0%Q) (Some 1%Q) LpInteger]> (y m);
        drop := drop m; dummy := dummy m; dummy_bound := dummy_bound m;
        set_covering_constrs :=
          fold_right (fun r cs => alter (addVariable v 1%Q) r cs)
                     (set_covering_constrs m) (visited route);
        vehicle_bound_constrs :=
          fold_right (fun k cs => alter (addVariable v 1%Q) k cs)
                     (vehicle_bound_constrs m) (bounded route m);
        objective := addVariable v (Route.cost route) (objective m);
        dropped_nodes := dropped_nodes m;
        prob := prob m |}.

(** [update]: add a new column. *)
Definition update (new_route : Route.t) (m : t) : result t :=
  _add_route_selection_variable new_route m.

(** [pulp.value(self.y[r.graph["name"]])]. *)
Definition y_value (m : t) (r : Route.t) : result (option Q) :=
  v <- Py.of_option KeyError (y m !! Route.name r) ;;
  Ok (varValue (prob m) (var v)).

(** [get_duals()], called without a relaxed copy. *)
Definition get_duals (G : Network.t) (m : t) : result Duals :=
  nd <- Py.for_each (Network.nodes G)
          (fun n (acc : list (string * option Q)) =>
             if negb (is_depot (fst n))
                && negb (bool_decide (is_Some (snd n !! "depot_from")))
                && negb (bool_decide (is_Some (snd n !! "depot_to")))
             then
               _ <- Py.of_option KeyError (set_covering_constrs m !! fst n) ;;
               Ok (acc ++ [(fst n, pi (prob m) (visit_node_ (fst n)))])
             else Ok acc) [] ;;
  if negb (Nat.eqb (length (num_vehicles m)) 0) && negb (truthyZ (periodic m))
  then
    ub <- Py.for_each (Py.range (Z.of_nat (length (num_vehicles m))))
            (fun k (acc : list (Z * option Q)) =>
               _ <- Py.of_option KeyError (vehicle_bound_constrs m !! k) ;;
               Ok (acc ++ [(k, pi (prob m) (upper_bound_vehicles_ k))])) [] ;;
    Ok (mkDuals nd (Some ub))
  else Ok (mkDuals nd None).

(** *** The formulation: [_formulate] and the methods it calls *)

(** [d[k] = v] on a dictionary kept in insertion order: an existing key
    keeps its place. *)
Fixpoint assign {K V} (eqb : K -> K -> bool) (k : K) (v : V)
    (d : list (K * V)) : list (K * V) :=
  match d with
  | [] => [(k, v)]
  | (k', v') :: d' =>
      if eqb k k' then (k, v) :: d' else (k', v') :: assign eqb k v d'
  end.

Definition set_set_covering_constrs (cs : gmap string LpConstraintVar)
    (m : t) : t :=
  {| drop_penalty := drop_penalty m; num_vehicles := num_vehicles m;
     periodic := periodic m; solver := solver m; y := y m; drop := drop m;
     dummy := dummy m; dummy_bound := dummy_bound m;
     set_covering_constrs := cs;
     vehicle_bound_constrs := vehicle_bound_constrs m;
     objective := objective m; dropped_nodes := dropped_nodes m;
     prob := prob m |}.

Definition set_vehicle_bound_constrs (cs : gmap Z LpConstraintVar) (m : t)
  : t :=
  {| drop_penalty := drop_penalty m; num_vehicles := num_vehicles m;
     periodic := periodic m; solver := solver m; y := y m; drop := drop m;
     dummy := dummy m; dummy_bound := dummy_bound m;
     set_covering_constrs := set_covering_constrs m;
     vehicle_bound_constrs := cs;
     objective := objective m; dropped_nodes := dropped_nodes m;
     prob := prob m |}.

Definition set_objective (c : LpConstraintVar) (m : t) : t :=
  {| drop_penalty := drop_penalty m; num_vehicles := num_vehicles m;
     periodic := periodic m; solver := solver m; y := y m; drop := drop m;
     dummy := dummy m; dummy_bound := dummy_bound m;
     set_covering_constrs := set_covering_constrs m;
     vehicle_bound_constrs := vehicle_bound_constrs m;
     objective := c; dropped_nodes := dropped_nodes m;
     prob := prob m |}.

Definition set_drop (d : list (string * LpVariable)) (m : t) : t :=
  {| drop_penalty := drop_penalty m; num_vehicles := num_vehicles m;
     periodic := periodic m; solver := solver m; y := y m; drop := d;
     dummy := dummy m; dummy_bound := dummy_bound m;
     set_covering_constrs := set_covering_constrs m;
     vehicle_bound_constrs := vehicle_bound_constrs m;
     objective := objective m; dropped_nodes := dropped_nodes m;
     prob := prob m |}.

Definition set_dummy (d : list (string * LpVariable)) (m : t) : t :=
  {| drop_penalty := drop_penalty m; num_vehicles := num_vehicles m;
     periodic := periodic m; solver := solver m; y := y m; drop := drop m;
     dummy := d; dummy_bound := dummy_bound m;
     set_covering_constrs := set_covering_constrs m;
     vehicle_bound_constrs := vehicle_bound_constrs m;
     objective := objective m; dropped_nodes := dropped_nodes m;
     prob := prob m |}.

Definition set_dummy_bound (d : list (Z * LpVariable)) (m : t) : t :=
  {| drop_penalty := drop_penalty m; num_vehicles := num_vehicles m;
     periodic := periodic m; solver := solver m; y := y m; drop := drop m;
     dummy := dummy m; dummy_bound := d;
     set_covering_constrs := set_covering_constrs m;
     vehicle_bound_constrs := vehicle_bound_constrs m;
     objective := objective m; dropped_nodes := dropped_nodes m;
     prob := prob m |}.

(** [1e10], the cost of an artificial variable. *)
Definition big_cost : Q := 10000000000%Q.

(** [_add_set_covering_constraints]: one empty constraint [>= 1] (or
    [>= frequency] when periodic) per node that is neither Source nor Sink
    nor a depot copy. *)
Definition _add_set_covering_constraints (G : Network.t) (m : t) : result t :=
  Py.for_each (Network.nodes G)
    (fun n m =>
       if negb (is_depot (fst n))
          && negb (bool_decide (is_Some (snd n !! "depot_from")))
          && negb (bool_decide (is_Some (snd n !! "depot_to")))
       then
         right_hand_term <-
           (if truthyZ (periodic m)
            then Py.of_option KeyError (snd n !! "frequency")
            else Ok 1%Q) ;;
         Ok (set_set_covering_constrs
               (<[fst n := mkConstr (Some LpConstraintGE)
                                    (Some right_hand_term) []]>
                  (set_covering_constrs m)) m)
       else Ok m) m.

(** [_add_bound_vehicles]: one empty constraint [<= num_vehicles[k]] per
    vehicle type. *)
Definition _add_bound_vehicles (m : t) : result t :=
  Py.for_each (Py.range (Z.of_nat (length (num_vehicles m))))
    (fun k m =>
       bound <- Py.index (num_vehicles m) k ;;
       Ok (set_vehicle_bound_constrs
             (<[k := mkConstr (Some LpConstraintLE) (Some (inject_Z bound))
                              []]>
                (vehicle_bound_constrs m)) m)) m.

(** [_add_drop_variables]: a node with positive demand, other than
    Source, gets a variable that pays the penalty in the objective and
    enters the node's covering constraint. *)
Definition _add_drop_variables (G : Network.t) (m : t) : result t :=
  Py.for_each (Network.nodes G)
    (fun n m =>
       demand <- Py.of_option KeyError (snd n !! "demand") ;;
       if Py.Qgtb demand 0 && negb (String.eqb (fst n) "Source") then
         penalty <- Py.of_option TypeError (drop_penalty m) ;;
         _ <- Py.of_option KeyError (set_covering_constrs m !! fst n) ;;
         let v := drop_ (fst n) in
         Ok (set_drop
               (assign String.eqb (fst n)
                       (mkVar v (Some 0%Q) (Some 1%Q) LpInteger) (drop m))
               (set_objective (addVariable v penalty (objective m))
                  (set_set_covering_constrs
                     (alter (addVariable v 1%Q) (fst n)
                            (set_covering_constrs m)) m)))
       else Ok m) m.

(** [_add_artificial_variables]: a node with a frequency above 1, other
    than Source, gets an expensive variable in its covering constraint. *)
Definition _add_artificial_variables (G : Network.t) (m : t) : result t :=
  Py.for_each (Network.nodes G)
    (fun n m =>
       frequency <- Py.of_option KeyError (snd n !! "frequency") ;;
       if Py.Qgtb frequency 1 && negb (String.eqb (fst n) "Source") then
         _ <- Py.of_option KeyError (set_covering_constrs m !! fst n) ;;
         let v := periodic_ (fst n) in
         Ok (set_dummy
               (assign String.eqb (fst n)
                       (mkVar v (Some 0%Q) None LpInteger) (dummy m))
               (set_objective (addVariable v big_cost (objective m))
                  (set_set_covering_constrs
                     (alter (addVariable v 1%Q) (fst n)
                            (set_covering_constrs m)) m)))
       else Ok m) m.

(** [_add_vehicle_dummy_variables]: every vehicle type gets an expensive
    variable with coefficient -1 in its vehicle bound constraint. *)
Definition _add_vehicle_dummy_variables (m : t) : result t :=
  Py.for_each (Py.range (Z.of_nat (length (num_vehicles m))))
    (fun key m =>
       _ <- Py.of_option KeyError (vehicle_bound_constrs m !! key) ;;
       let v := artificial_bound_ key in
       Ok (set_dummy_bound
             (assign Z.eqb key (mkVar v (Some 0%Q) None LpContinuous)
                     (dummy_bound m))
             (set_objective (addVariable v big_cost (objective m))
                (set_vehicle_bound_constrs
                   (alter (addVariable v (-1)%Q) key
                          (vehicle_bound_constrs m)) m)))) m.

(** [_formulate], over the network [self.G] and the routes [self.routes].
    The constraints are shared with the problem object, so handing them
    to [self.prob] and setting its objective changes nothing here. *)
Definition _formulate (G : Network.t) (routes : list Route.t) (m : t)
  : result t :=
  m1 <- _add_set_covering_constraints G m ;;
  m2 <- (if negb (Nat.eqb (length (num_vehicles m1)) 0)
            && negb (truthyZ (periodic m1))
         then _add_bound_vehicles m1
         else Ok m1) ;;
  m3 <- Py.for_each routes _add_route_selection_variable m2 ;;
  m4 <- (if Py.truthy (drop_penalty m3) then _add_drop_variables G m3
         else Ok m3) ;;
  m5 <- (if truthyZ (periodic m4) then _add_artificial_variables G m4
         else Ok m4) ;;
  _add_vehicle_dummy_variables m5.

Section Solver.

(** The solver behind [prob.solve(...)] (by solver name, with its time
    limit), behind [prob.resolve()], and the diving heuristic
    [pricing_heuristics.run_dive(prob)]. *)
Variable lp_solve : string -> option Q -> t -> Solution.
Variable lp_resolve : t -> Solution.
Variable run_dive : t -> t.

(** [_solve]: set the variable categories, then call the solver chosen by
    name; an unknown name solves nothing. *)
Definition _solve (m : t) (relax : bool) (time_limit : option Q) : t :=
  let retype (v : LpVariable) :=
    if relax then set_cat LpContinuous v else set_cat LpInteger v in
  let m1 :=
    {| drop_penalty := drop_penalty m; num_vehicles := num_vehicles m;
       periodic := periodic m; solver := solver m;
       y := retype <$> y m;
       drop := map (fun p => (fst p, retype (snd p))) (drop m);
       dummy := map (fun p => (fst p, retype (snd p))) (dummy m);
       dummy_bound :=
         map (fun p => (fst p, if relax then retype (snd p)
                               else fix_to_zero (retype (snd p))))
             (dummy_bound m);
       set_covering_constrs := set_covering_constrs m;
       vehicle_bound_constrs := vehicle_bound_constrs m;
       objective := objective m; dropped_nodes := dropped_nodes m;
       prob := prob m |} in
  if String.eqb (solver m) "cbc" || String.eqb (solver m) "cplex"
     || String.eqb (solver m) "gurobi"
  then set_prob (lp_solve (solver m) time_limit m1) m1
  else m1.

(** [solve(relax, time_limit)]. *)
Definition solve (G : Network.t) (routes : list Route.t) (m : t)
    (relax : bool) (time_limit : option Q) : result (t * Duals * option Q) :=
  let m1 := _solve m relax time_limit in
  if negb (String.eqb (LpStatus (status (prob m1))) "Optimal")
  then Raise (Exception (String.append "problem "
                                       (LpStatus (status (prob m1)))))
  else
    _ <- (if relax
          then Py.for_each routes
                 (fun r _ =>
                    val <- y_value m1 r ;;
                    _ <- Py.of_option TypeError val ;;
                    Ok tt) tt
          else Ok tt) ;;
    duals <- get_duals G m1 ;;
    Ok (m1, duals, objective_value (prob m1)).

(** [solve_and_dive(time_limit)]. *)
Definition solve_and_dive (G : Network.t) (m : t) (time_limit : option Q)
  : result (t * Duals * option Q) :=
  let m1 := run_dive (_solve m true time_limit) in
  let m2 := set_prob (lp_resolve m1) m1 in
  duals <- get_duals G m2 ;;
  Ok (m2, duals, objective_value (prob m2)).

(** [get_total_cost_and_routes(relax)].  The arguments of the debug line
    are evaluated for every selected route, so a route without a
    Source-Sink path or with a node without ["demand"] raises. *)
Definition get_total_cost_and_routes (G : Network.t) (routes : list Route.t)
    (m : t) (relax : bool) : result (t * Q * list Route.t) :=
  best_routes <-
    Py.for_each routes
      (fun r (best : list Route.t) =>
         val <- y_value m r ;;
         match val with
         | Some v =>
             if Py.Qgtb v 0 then
               _ <- Route.shortest_path r "Source" "Sink" ;;
               _ <- Py.for_each (Route.nodes r)
                      (fun v _ =>
                         attrs <- Py.of_option KeyError
                                    (snd <$> List.find
                                       (fun n => String.eqb (fst n) v)
                                       (Network.nodes G)) ;;
                         _ <- Py.of_option KeyError (attrs !! "demand") ;;
                         Ok tt) tt ;;
               Ok (best ++ [r])
             else Ok best
         | None => Ok best
         end) [] ;;
  m1 <- (if Py.truthy (drop_penalty m)
         then
           dropped <-
             Py.for_each (drop m)
               (fun d (acc : list string) =>
                  val <- Py.of_option TypeError
                           (varValue (prob m) (var (snd d))) ;;
                  if Py.Qgtb val (1 # 2) then Ok (acc ++ [fst d])
                  else Ok acc) [] ;;
           Ok (set_dropped_nodes dropped m)
         else Ok m) ;;
  let m2 := set_prob (lp_resolve m1) m1 in
  let total_cost :=
    match objective_value (prob m2) with
    | Some c => if Qeq_bool c 0 then 0%Q else c
    | None => 0%Q
    end in
  Ok (m2, total_cost, best_routes).

(** The counters of [get_heuristic_distribution], by strategy name. *)
Definition best_routes_heuristic0 : gmap string Z :=
  <["BestPaths" := 0]> (<["BestEdges1" := 0]> (<["BestEdges2" := 0]>
    (<["Exact" := 0]> (<["Other" := 0]> ∅)))).

(** [get_heuristic_distribution()]: a selected route whose tag is missing
    or is not one of the counters is retagged ["Other"]; the route list
    is returned with these tags. *)
Definition get_heuristic_distribution (routes : list Route.t) (m : t)
  : result (list Route.t * list Route.t * gmap string Z) :=
  Py.for_each routes
    (fun r (acc : list Route.t * list Route.t * gmap string Z) =>
       let '(routes', best_routes, counts) := acc in
       val <- y_value m r ;;
       let selected :=
         match val with
         | Some v => Py.Qgtb v 0
         | None => false
         end in
       if selected then
         let tag :=
           match Route.heuristic r with
           | Some h => if bool_decide (is_Some (counts !! h)) then h
                       else "Other"
           | None => "Other"
           end in
         let r' := match Route.heuristic r with
                   | Some h => if bool_decide (is_Some (counts !! h)) then r
                               else Route.set_heuristic "Other" r
                   | None => Route.set_heuristic "Other" r
                   end in
         Ok (routes' ++ [r'], best_routes ++ [r'],
             alter (Z.add 1) tag counts)
       else Ok (routes' ++ [r], best_routes, counts))
    ([], [], best_routes_heuristic0).

End Solver.

End MasterSolvePulp.

(** ** The problem object: [vrpy/main.py] *)

(** A pricing subproblem as [_def_subproblem] instantiates it. *)
Inductive SubProblemClass : Type :=
| SubProblemGreedy
| SubProblemCSPY
| SubProblemLP.

Record SubProblem : Type := mkSubProblem {
  sp_class : SubProblemClass;
  sp_duals : Duals;
  sp_vehicle_type : Z;
  sp_pricing_strategy : string;
  sp_pricing_parameter : option Q
}.

Section ColumnGeneration.

(** The selector of [vrpy/hyperheuristic.py]: the attributes [main.py]
    reads and writes, and [inner] for everything else it keeps. *)
Context {HH : Type}.

Record HyperHeuristic : Type := mkHyperHeuristic {
  initialisation : bool;
  performance_measure : string;
  n_exact : Z;
  timeend : option Q;
  inner : HH
}.

(** The attributes of a [VehicleRoutingProblem] that the column generation
    reads and writes.  [routes] is the one route list that [self.routes],
    [self._routes] and the master problem's [routes] refer to: a pricing
    subproblem adds its routes to it and hands it back.  [pricing_log] is
    not an attribute: it records every call of a pricing subproblem's
    [solve] (other than the greedy pre-pass) with the flag it returned, the
    latest call last. *)
Record VRP : Type := mkVRP {
  G : Network.t;
  time_windows : bool;
  pickup_delivery : bool;
  distribution_collection : bool;
  masterproblem : MasterSolvePulp.t;
  routes : list Route.t;
  _solver : string;
  _time_limit : option Q;
  _pricing_strategy : string;
  _exact : bool;
  _cspy : bool;
  _dive : bool;
  _start_time : Q;
  _greedy : bool;
  _max_iter : option Z;
  _more_routes : bool;
  _iteration : Z;
  _no_improvement : Z;
  _lower_bound : list (option Q);
  _initial_routes : list (list string);
  _preassignments : list (list string);
  _routes_with_node : gmap string (list Z);
  _vehicle_types : Z;
  hyper_heuristic : HyperHeuristic;
  produced_column : option bool;
  do_exact : Z;
  pricing_log : list (SubProblem * bool)
}.

(** Attribute assignments. *)
Definition set_G (x : Network.t) (s : VRP) : VRP :=
  {| G := x; time_windows := time_windows s;
     pickup_delivery := pickup_delivery s;
     distribution_collection := distribution_collection s;
     masterproblem := masterproblem s; routes := routes s;
     _solver := _solver s; _time_limit := _time_limit s;
     _pricing_strategy := _pricing_strategy s; _exact := _exact s;
     _cspy := _cspy s; _dive := _dive s; _start_time := _start_time s;
     _greedy := _greedy s; _max_iter := _max_iter s;
     _more_routes := _more_routes s; _iteration := _iteration s;
     _no_improvement := _no_improvement s; _lower_bound := _lower_bound s;
     _initial_routes := _initial_routes s;
     _preassignments := _preassignments s;
     _routes_with_node := _routes_with_node s;
     _vehicle_types := _vehicle_types s;
     hyper_heuristic := hyper_heuristic s;
     produced_column := produced_column s; do_exact := do_exact s;
     pricing_log := pricing_log s |}.

Definition set_masterproblem (x : MasterSolvePulp.t) (s : VRP) : VRP :=
  {| G := G s; time_windows := time_windows s;
     pickup_delivery := pickup_delivery s;
     distribution_collection := distribution_collection s;
     masterproblem := x; routes := routes s; _solver := _solver s;
     _time_limit := _time_limit s; _pricing_strategy := _pricing_strategy s;
     _exact := _exact s; _cspy := _cspy s; _dive := _dive s;
     _start_time := _start_time s; _greedy := _greedy s;
     _max_iter := _max_iter s; _more_routes := _more_routes s;
     _iteration := _iteration s; _no_improvement := _no_improvement s;
     _lower_bound := _lower_bound s; _initial_routes := _initial_routes s;
     _preassignments := _preassignments s;
     _routes_with_node := _routes_with_node s;
     _vehicle_types := _vehicle_types s;
     hyper_heuristic := hyper_heuristic s;
     produced_column := produced_column s; do_exact := do_exact s;
     pricing_log := pricing_log s |}.

Definition set_routes (x : list Route.t) (s : VRP) : VRP :=
  {| G := G s; time_windows := time_windows s;
     pickup_delivery := pickup_delivery s;
     distribution_collection := distribution_collection s;
     masterproblem := masterproblem s; routes := x; _solver := _solver s;
     _time_limit := _time_limit s; _pricing_strategy := _pricing_strategy s;
     _exact := _exact s; _cspy := _cspy s; _dive := _dive s;
     _start_time := _start_time s; _greedy := _greedy s;
     _max_iter := _max_iter s; _more_routes := _more_routes s;
     _iteration := _iteration s; _no_improvement := _no_improvement s;
     _lower_bound := _lower_bound s; _initial_routes := _initial_routes s;
     _preassignments := _preassignments s;
     _routes_with_node := _routes_with_node s;
     _vehicle_types := _vehicle_types s;
     hyper_heuristic := hyper_heuristic s;
     produced_column := produced_column s; do_exact := do_exact s;
     pricing_log := pricing_log s |}.

Definition set_more_routes (x : bool) (s : VRP) : VRP :=
  {| G := G s; time_windows := time_windows s;
     pickup_delivery := pickup_delivery s;
     distribution_collection := distribution_collection s;
     masterproblem := masterproblem s; routes := routes s;
     _solver := _solver s; _time_limit := _time_limit s;
     _pricing_strategy := _pricing_strategy s; _exact := _exact s;
     _cspy := _cspy s; _dive := _dive s; _start_time := _start_time s;
     _greedy := _greedy s; _max_iter := _max_iter s; _more_routes := x;
     _iteration := _iteration s; _no_improvement := _no_improvement s;
     _lower_bound := _lower_bound s; _initial_routes := _initial_routes s;
     _preassignments := _preassignments s;
     _routes_with_node := _routes_with_node s;
     _vehicle_types := _vehicle_types s;
     hyper_heuristic := hyper_heuristic s;
     produced_column := produced_column s; do_exact := do_exact s;
     pricing_log := pricing_log s |}.

Definition set_iteration (x : Z) (s : VRP) : VRP :=
  {| G := G s; time_windows := time_windows s;
     pickup_delivery := pickup_delivery s;
     distribution_collection := distribution_collection s;
     masterproblem := masterproblem s; routes := routes s;
     _solver := _solver s; _time_limit := _time_limit s;
     _pricing_strategy := _pricing_strategy s; _exact := _exact s;
     _cspy := _cspy s; _dive := _dive s; _start_time := _start_time s;
     _greedy := _greedy s; _max_iter := _max_iter s;
     _more_routes := _more_routes s; _iteration := x;
     _no_improvement := _no_improvement s; _lower_bound := _lower_bound s;
     _initial_routes := _initial_routes s;
     _preassignments := _preassignments s;
     _routes_with_node := _routes_with_node s;
     _vehicle_types := _vehicle_types s;
     hyper_heuristic := hyper_heuristic s;
     produced_column := produced_column s; do_exact := do_exact s;
     pricing_log := pricing_log s |}.

Definition set_no_improvement (x : Z) (s : VRP) : VRP :=
  {| G := G s; time_windows := time_windows s;
     pickup_delivery := pickup_delivery s;
     distribution_collection := distribution_collection s;
     masterproblem := masterproblem s; routes := routes s;
     _solver := _solver s; _time_limit := _time_limit s;
     _pricing_strategy := _pricing_strategy s; _exact := _exact s;
     _cspy := _cspy s; _dive := _dive s; _start_time := _start_time s;
     _greedy := _greedy s; _max_iter := _max_iter s;
     _more_routes := _more_routes s; _iteration := _iteration s;
     _no_improvement := x; _lower_bound := _lower_bound s;
     _initial_routes := _initial_routes s;
     _preassignments := _preassignments s;
     _routes_with_node := _routes_with_node s;
     _vehicle_types := _vehicle_types s;
     hyper_heuristic := hyper_heuristic s;
     produced_column := produced_column s; do_exact := do_exact s;
     pricing_log := pricing_log s |}.

Definition set_lower_bound (x : list (option Q)) (s : VRP) : VRP :=
  {| G := G s; time_windows := time_windows s;
     pickup_delivery := pickup_delivery s;
     distribution_collection := distribution_collection s;
     masterproblem := masterproblem s; routes := routes s;
     _solver := _solver s; _time_limit := _time_limit s;
     _pricing_strategy := _pricing_strategy s; _exact := _exact s;
     _cspy := _cspy s; _dive := _dive s; _start_time := _start_time s;
     _greedy := _greedy s; _max_iter := _max_iter s;
     _more_routes := _more_routes s; _iteration := _iteration s;
     _no_improvement := _no_improvement s; _lower_bound := x;
     _initial_routes := _initial_routes s;
     _preassignments := _preassignments s;
     _routes_with_node := _routes_with_node s;
     _vehicle_types := _vehicle_types s;
     hyper_heuristic := hyper_heuristic s;
     produced_column := produced_column s; do_exact := do_exact s;
     pricing_log := pricing_log s |}.

Definition set_routes_with_node (x : gmap string (list Z)) (s : VRP) : VRP :=
  {| G := G s; time_windows := time_windows s;
     pickup_delivery := pickup_delivery s;
     distribution_collection := distribution_collection s;
     masterproblem := masterproblem s; routes := routes s;
     _solver := _solver s; _time_limit := _time_limit s;
     _pricing_strategy := _pricing_strategy s; _exact := _exact s;
     _cspy := _cspy s; _dive := _dive s; _start_time := _start_time s;
     _greedy := _greedy s; _max_iter := _max_iter s;
     _more_routes := _more_routes s; _iteration := _iteration s;
     _no_improvement := _no_improvement s; _lower_bound := _lower_bound s;
     _initial_routes := _initial_routes s;
     _preassignments := _preassignments s; _routes_with_node := x;
     _vehicle_types := _vehicle_types s;
     hyper_heuristic := hyper_heuristic s;
     produced_column := produced_column s; do_exact := do_exact s;
     pricing_log := pricing_log s |}.

Definition set_hyper_heuristic (x : HyperHeuristic) (s : VRP) : VRP :=
  {| G := G s; time_windows := time_windows s;
     pickup_delivery := pickup_delivery s;
     distribution_collection := distribution_collection s;
     masterproblem := masterproblem s; routes := routes s;
     _solver := _solver s; _time_limit := _time_limit s;
     _pricing_strategy := _pricing_strategy s; _exact := _exact s;
     _cspy := _cspy s; _dive := _dive s; _start_time := _start_time s;
     _greedy := _greedy s; _max_iter := _max_iter s;
     _more_routes := _more_routes s; _iteration := _iteration s;
     _no_improvement := _no_improvement s; _lower_bound := _lower_bound s;
     _initial_routes := _initial_routes s;
     _preassignments := _preassignments s;
     _routes_with_node := _routes_with_node s;
     _vehicle_types := _vehicle_types s; hyper_heuristic := x;
     produced_column := produced_column s; do_exact := do_exact s;
     pricing_log := pricing_log s |}.

Definition set_produced_column (x : option bool) (s : VRP) : VRP :=
  {| G := G s; time_windows := time_windows s;
     pickup_delivery := pickup_delivery s;
     distribution_collection := distribution_collection s;
     masterproblem := masterproblem s; routes := routes s;
     _solver := _solver s; _time_limit := _time_limit s;
     _pricing_strategy := _pricing_strategy s; _exact := _exact s;
     _cspy := _cspy s; _dive := _dive s; _start_time := _start_time s;
     _greedy := _greedy s; _max_iter := _max_iter s;
     _more_routes := _more_routes s; _iteration := _iteration s;
     _no_improvement := _no_improvement s; _lower_bound := _lower_bound s;
     _initial_routes := _initial_routes s;
     _preassignments := _preassignments s;
     _routes_with_node := _routes_with_node s;
     _vehicle_types := _vehicle_types s;
     hyper_heuristic := hyper_heuristic s; produced_column := x;
     do_exact := do_exact s; pricing_log := pricing_log s |}.

Definition set_do_exact (x : Z) (s : VRP) : VRP :=
  {| G := G s; time_windows := time_windows s;
     pickup_delivery := pickup_delivery s;
     distribution_collection := distribution_collection s;
     masterproblem := masterproblem s; routes := routes s;
     _solver := _solver s; _time_limit := _time_limit s;
     _pricing_strategy := _pricing_strategy s; _exact := _exact s;
     _cspy := _cspy s; _dive := _dive s; _start_time := _start_time s;
     _greedy := _greedy s; _max_iter := _max_iter s;
     _more_routes := _more_routes s; _iteration := _iteration s;
     _no_improvement := _no_improvement s; _lower_bound := _lower_bound s;
     _initial_routes := _initial_routes s;
     _preassignments := _preassignments s;
     _routes_with_node := _routes_with_node s;
     _vehicle_types := _vehicle_types s;
     hyper_heuristic := hyper_heuristic s;
     produced_column := produced_column s; do_exact := x;
     pricing_log := pricing_log s |}.

Definition set_pricing_log (x : list (SubProblem * bool)) (s : VRP) : VRP :=
  {| G := G s; time_windows := time_windows s;
     pickup_delivery := pickup_delivery s;
     distribution_collection := distribution_collection s;
     masterproblem := masterproblem s; routes := routes s;
     _solver := _solver s; _time_limit := _time_limit s;
     _pricing_strategy := _pricing_strategy s; _exact := _exact s;
     _cspy := _cspy s; _dive := _dive s; _start_time := _start_time s;
     _greedy := _greedy s; _max_iter := _max_iter s;
     _more_routes := _more_routes s; _iteration := _iteration s;
     _no_improvement := _no_improvement s; _lower_bound := _lower_bound s;
     _initial_routes := _initial_routes s;
     _preassignments := _preassignments s;
     _routes_with_node := _routes_with_node s;
     _vehicle_types := _vehicle_types s;
     hyper_heuristic := hyper_heuristic s;
     produced_column := produced_column s; do_exact := do_exact s;
     pricing_log := x |}.

Definition set_dive (x : bool) (s : VRP) : VRP :=
  {| G := G s; time_windows := time_windows s;
     pickup_delivery := pickup_delivery s;
     distribution_collection := distribution_collection s;
     masterproblem := masterproblem s; routes := routes s;
     _solver := _solver s; _time_limit := _time_limit s;
     _pricing_strategy := _pricing_strategy s; _exact := _exact s;
     _cspy := _cspy s; _dive := x; _start_time := _start_time s;
     _greedy := _greedy s; _max_iter := _max_iter s;
     _more_routes := _more_routes s; _iteration := _iteration s;
     _no_improvement := _no_improvement s; _lower_bound := _lower_bound s;
     _initial_routes := _initial_routes s;
     _preassignments := _preassignments s;
     _routes_with_node := _routes_with_node s;
     _vehicle_types := _vehicle_types s;
     hyper_heuristic := hyper_heuristic s;
     produced_column := produced_column s; do_exact := do_exact s;
     pricing_log := pricing_log s |}.
Definition set_initialisation (b : bool) (h : HyperHeuristic) : HyperHeuristic :=
  {| initialisation := b; performance_measure := performance_measure h;
     n_exact := n_exact h; timeend := timeend h; inner := inner h |}.

Definition set_n_exact (n : Z) (h : HyperHeuristic) : HyperHeuristic :=
  {| initialisation := initialisation h;
     performance_measure := performance_measure h;
     n_exact := n; timeend := timeend h; inner := inner h |}.

Definition set_timeend (t : Q) (h : HyperHeuristic) : HyperHeuristic :=
  {| initialisation := initialisation h;
     performance_measure := performance_measure h;
     n_exact := n_exact h; timeend := Some t; inner := inner h |}.

(** *** Collaborators *)

(** The clock [time()]. *)
Variable time : VRP -> Q.

(** [subproblem.solve(time_remaining)] of the pricing subproblems and
    [subproblem.solve(n_runs)] of the greedy one: the route list and the
    flag telling whether a route with negative reduced cost was found. *)
Variable subproblem_solve : SubProblem -> option Q -> VRP -> list Route.t * bool.
Variable greedy_solve : SubProblem -> Z -> VRP -> list Route.t * bool.

(** The LP/MIP solver and the diving heuristic of the master problem. *)
Variable lp_solve : string -> option Q -> MasterSolvePulp.t -> Pulp.Solution.
Variable lp_resolve : MasterSolvePulp.t -> Pulp.Solution.
Variable run_dive : MasterSolvePulp.t -> MasterSolvePulp.t.

(** The methods of the selector. *)
Variable set_current_objective : HyperHeuristic -> option Q -> HyperHeuristic.
Variable set_initial_time : HyperHeuristic -> Q -> HyperHeuristic.
Variable current_performance :
  HyperHeuristic -> option Q -> option bool -> gmap string Z -> HyperHeuristic.
Variable move_acceptance : HyperHeuristic -> bool * HyperHeuristic.
Variable update_parameters : HyperHeuristic -> HyperHeuristic.
Variable pick_heurestic : HyperHeuristic -> string * HyperHeuristic.

(** *** Pricing *)

(** [self._get_time_remaining(mip)]. *)
Definition time_remaining (st : VRP) (mip : bool) : option Q :=
  _get_time_remaining (_time_limit st) (_start_time st) (time st) mip.

(** [_def_subproblem]; the defaults [pricing_strategy="Exact"],
    [pricing_parameter=None] and [greedy=False] are written out by the
    callers. *)
Definition _def_subproblem (st : VRP) (duals : Duals) (vehicle_type : Z)
    (pricing_strategy : string) (pricing_parameter : option Q)
    (greedy : bool) : SubProblem :=
  if greedy then
    mkSubProblem SubProblemGreedy duals vehicle_type pricing_strategy
                 pricing_parameter
  else if _cspy st then
    mkSubProblem SubProblemCSPY duals vehicle_type pricing_strategy
                 pricing_parameter
  else
    mkSubProblem SubProblemLP duals vehicle_type pricing_strategy
                 pricing_parameter.

(** [self.routes, self._more_routes = subproblem.solve(
    self._get_time_remaining())]. *)
Definition run_subproblem (sp : SubProblem) (st : VRP) : VRP :=
  let out := subproblem_solve sp (time_remaining st false) st in
  set_pricing_log (pricing_log st ++ [(sp, snd out)])
    (set_more_routes (snd out) (set_routes (fst out) st)).

(** The [for ... else] of the three heuristic attempts: one solve per
    parameter value, leaving at the first success; after the last failure
    the flag is set back to [True].  Returns [produced_column]. *)
Fixpoint sweep (strategy : string) (parameters : list Q) (vehicle : Z)
    (duals : Duals) (st : VRP) : VRP * bool :=
  match parameters with
  | [] => (set_more_routes true st, false)
  | p :: rest =>
      let subproblem := _def_subproblem st duals vehicle strategy (Some p)
                                        false in
      let st1 := run_subproblem subproblem st in
      if _more_routes st1 then (st1, true)
      else sweep strategy rest vehicle duals st1
  end.

Definition k_shortest_paths : list Q := [3; 5; 7; 9]%Q.
Definition alpha : list Q := [0.3; 0.5; 0.7; 0.9]%Q.
Definition ratio : list Q := [0.1; 0.2; 0.3]%Q.

Definition _attempt_solve_best_paths (vehicle : Z) (duals : Duals)
    (st : VRP) : VRP * bool :=
  sweep "BestPaths" k_shortest_paths vehicle duals st.

Definition _attempt_solve_BestEdges1 (vehicle : Z) (duals : Duals)
    (st : VRP) : VRP * bool :=
  sweep "BestEdges1" alpha vehicle duals st.

Definition _attempt_solve_BestEdges2 (vehicle : Z) (duals : Duals)
    (st : VRP) : VRP * bool :=
  sweep "BestEdges2" ratio vehicle duals st.

Definition _attempt_solve_Exact (vehicle : Z) (duals : Duals) (st : VRP)
  : VRP * bool :=
  let subproblem := _def_subproblem st duals vehicle "Exact" None false in
  let st1 := run_subproblem subproblem st in
  (st1, _more_routes st1).

(** [_solve_subproblem_with_heuristic]. *)
Definition _solve_subproblem_with_heuristic (pricing_strategy : string)
    (vehicle : Z) (duals : Duals) (st : VRP) : VRP * bool :=
  if String.eqb (_pricing_strategy st) "Hyper" then
    if String.eqb pricing_strategy "BestPaths" then
      _attempt_solve_best_paths vehicle duals st
    else if String.eqb pricing_strategy "BestEdges1" then
      _attempt_solve_BestEdges1 vehicle duals st
    else if String.eqb pricing_strategy "BestEdges2" then
      _attempt_solve_BestEdges2 vehicle duals st
    else if String.eqb pricing_strategy "Exact" then
      let hh := hyper_heuristic st in
      _attempt_solve_Exact vehicle duals
        (set_hyper_heuristic (set_n_exact (n_exact hh + 1) hh) st)
    else (st, false)
  else
    let '(st1, produced_column) :=
      if String.eqb pricing_strategy "BestPaths" then
        _attempt_solve_best_paths vehicle duals st
      else if String.eqb pricing_strategy "BestEdges1" then
        _attempt_solve_BestEdges1 vehicle duals st
      else if String.eqb pricing_strategy "BestEdges2" then
        _attempt_solve_BestEdges2 vehicle duals st
      else (st, false) in
    if String.eqb pricing_strategy "Exact" || negb produced_column then
      _attempt_solve_Exact vehicle duals st1
    else (st1, produced_column).

(** *** One iteration: [_find_columns] *)

(** [a == b] on objective values, either of which may be [None]. *)
Definition objective_eqb (a b : option Q) : bool :=
  match a, b with
  | Some x, Some y => Qeq_bool x y
  | None, None => true
  | _, _ => false
  end.

(** The block under [#pick the heuristic]: the strategy of this iteration
    ([dynamic_pricing_strategy]). *)
Definition pick_strategy (relaxed_cost : option Q)
    (best_paths_freq : gmap string Z) (st : VRP) : VRP * string :=
  if String.eqb (_pricing_strategy st) "Hyper"
     && negb (_no_improvement st =? do_exact st) then
    let hh := hyper_heuristic st in
    if initialisation hh then
      let st1 :=
        if String.eqb (performance_measure hh) "Relative improvement"
        then set_do_exact 30 st else st in
      let hh1 := set_current_objective hh relaxed_cost in
      let hh2 := set_initial_time hh1 (time st1) in
      (set_hyper_heuristic (set_initialisation false hh2) st1, "BestPaths")
    else
      let hh1 := current_performance hh relaxed_cost (produced_column st)
                                     best_paths_freq in
      let hh2 := snd (move_acceptance hh1) in
      let hh3 := update_parameters hh2 in
      let picked := pick_heurestic hh3 in
      (set_hyper_heuristic (snd picked) st, fst picked)
  else if _no_improvement st =? do_exact st then
    (set_no_improvement 0 st, "Exact")
  else (st, _pricing_strategy st).

(** The greedy pre-pass of the loop over vehicle types: every returned
    route that is not yet a column becomes one. *)
Definition greedy_columns (duals : Duals) (vehicle : Z) (st : VRP)
  : result VRP :=
  if _greedy st && negb (time_windows st)
     && negb (distribution_collection st) && negb (pickup_delivery st)
  then
    let subproblem := _def_subproblem st duals vehicle "Exact" None true in
    let out := greedy_solve subproblem 20 st in
    let st1 := set_more_routes (snd out) (set_routes (fst out) st) in
    if _more_routes st1 then
      m <- Py.for_each (routes st1)
             (fun r m =>
                if bool_decide (is_Some (MasterSolvePulp.y m !! Route.name r))
                then Ok m
                else MasterSolvePulp.update r m)
             (masterproblem st1) ;;
      Ok (set_masterproblem m st1)
    else Ok st1
  else Ok st.

(** The rest of the loop body, from [# Continue searching for columns]:
    the pricing attempt with the strategy of the iteration and, when it
    produced a column, the tagging of [self.routes[-1]] and its addition
    to the master problem. *)
Definition search_columns (dynamic_pricing_strategy : string)
    (duals : Duals) (vehicle : Z) (st : VRP) : result VRP :=
  let st1 := set_more_routes false st in
  let attempt := _solve_subproblem_with_heuristic dynamic_pricing_strategy
                                                  vehicle duals st1 in
  let st2 := set_produced_column (Some (snd attempt)) (fst attempt) in
  if _more_routes st2 then
    if snd attempt then
      last <- Py.index (routes st2) (-1) ;;
      let tagged := Route.set_heuristic dynamic_pricing_strategy last in
      rs <- Py.setitem (routes st2) (-1) tagged ;;
      m <- MasterSolvePulp.update tagged (masterproblem st2) ;;
      Ok (set_masterproblem m (set_routes rs st2))
    else Ok st2
  else
    Ok (set_hyper_heuristic (set_timeend (time st2) (hyper_heuristic st2))
                            st2).

(** The end of [_find_columns]: the iteration counter, the no-improvement
    counter and the lower bounds. *)
Definition update_stopping_criteria (relaxed_cost : option Q) (st : VRP)
  : result VRP :=
  let st1 := set_iteration (_iteration st + 1) st in
  st2 <- (if _iteration st1 >? 1 then
            last <- Py.index (_lower_bound st1) (-1) ;;
            if objective_eqb relaxed_cost last
            then Ok (set_no_improvement (_no_improvement st1 + 1) st1)
            else Ok (set_no_improvement 0 st1)
          else Ok (set_no_improvement 0 st1)) ;;
  if _dive st2 then Ok st2
  else Ok (set_lower_bound (_lower_bound st2 ++ [relaxed_cost]) st2).

(** [_find_columns]: solve the master problem, pick the strategy, price
    once per vehicle type, update the stopping criteria.  The log lines
    and the CSV row of [store_info_heuristic] are left out. *)
Definition _find_columns (st : VRP) : result VRP :=
  solved <- (if _dive st
             then MasterSolvePulp.solve_and_dive lp_solve lp_resolve run_dive
                    (G st) (masterproblem st) (time_remaining st false)
             else MasterSolvePulp.solve lp_solve (G st) (routes st)
                    (masterproblem st) true (time_remaining st false)) ;;
  let duals := snd (fst solved) in
  let relaxed_cost := snd solved in
  let st1 := set_masterproblem (fst (fst solved)) st in
  dist <- MasterSolvePulp.get_heuristic_distribution (routes st1)
            (masterproblem st1) ;;
  let best_paths_freq := snd dist in
  let st2 := set_routes (fst (fst dist)) st1 in
  let picked := pick_strategy relaxed_cost best_paths_freq st2 in
  let dynamic_pricing_strategy := snd picked in
  st3 <- Py.for_each (Py.range (_vehicle_types (fst picked)))
           (fun vehicle s =>
              s1 <- greedy_columns duals vehicle s ;;
              search_columns dynamic_pricing_strategy duals vehicle s1)
           (fst picked) ;;
  update_stopping_criteria relaxed_cost st3.

(** *** The loop: [_column_generation] *)

(** How the [while] loop was left: the flag was false at its top, the time
    was up, the no-improvement or iteration limit was passed; or the
    iterations granted to the model ran out with the loop still going. *)
Inductive Exit : Type :=
| Converged
| TimeUp
| LimitReached
| StillIterating.

(** [self._max_iter and self._iteration >= self._max_iter]. *)
Definition max_iter_reached (st : VRP) : bool :=
  match _max_iter st with
  | Some n => negb (n =? 0) && (n <=? _iteration st)
  | None => false
  end.

Fixpoint _column_generation (fuel : nat) (st : VRP) : result (Exit * VRP) :=
  if negb (_more_routes st) then Ok (Converged, st)
  else
    match fuel with
    | O => Ok (StillIterating, st)
    | S fuel' =>
        st1 <- _find_columns st ;;
        if match time_remaining st1 false with
           | Some t => Qeq_bool t 0
           | None => false
           end
        then Ok (TimeUp, st1)
        else if (_no_improvement st1 >? 1000) || max_iter_reached st1
        then Ok (LimitReached, st1)
        else _column_generation fuel' st1
    end.

(** *** After the loop: the integer solve of [solve] *)

(** The branch [elif len(self.G.nodes()) > 2:] at the end of [solve]: the
    master problem is solved as a MIP and the best value and the best
    routes are read off it.  Returns the state with [_best_value] and
    [_best_routes_as_graphs]. *)
Definition solve_as_mip (st : VRP)
  : result (VRP * option Q * list Route.t) :=
  if (2 <? Z.of_nat (length (Network.nodes (G st)))) then
    solved <- MasterSolvePulp.solve lp_solve (G st) (routes st)
                (masterproblem st) false (time_remaining st true) ;;
    out <- MasterSolvePulp.get_total_cost_and_routes lp_resolve (G st)
             (routes st) (fst (fst solved)) false ;;
    Ok (set_masterproblem (fst (fst out)) st, Some (snd (fst out)), snd out)
  else Ok (st, None, []).

(** *** Preassigned and initial routes *)

(** [list(zip(route[:-1], route[1:]))] and [route[1:-1]]. *)
Definition route_edges (route : list string) : list (string * string) :=
  combine (removelast route) (tl route).

Definition inner_nodes (route : list string) : list string :=
  removelast (tl route).

(** [_lock]: a preassigned route from Source to Sink is complete and its
    inner nodes leave the network; the edges of any other one get cost 0
    for every vehicle type.  With only Source and Sink left, no column is
    generated. *)
Definition _lock (st : VRP) : result VRP :=
  g <- Py.for_each (_preassignments st)
         (fun route g =>
            first <- Py.index route 0 ;;
            complete <- (if String.eqb first "Source" then
                           last <- Py.index route (-1) ;;
                           Ok (String.eqb last "Sink")
                         else Ok false) ;;
            if complete : bool then
              Ok (Network.remove_nodes_from (inner_nodes route) g)
            else
              Py.for_each (route_edges route)
                (fun e g1 =>
                   Py.for_each (Py.range (_vehicle_types st))
                     (fun k g2 =>
                        Network.set_edge_cost g2 (fst e) (snd e) k 0%Q) g1)
                g)
         (G st) ;;
  let st1 := set_G g st in
  if Nat.eqb (length (Network.nodes (G st1))) 2
  then Ok (set_more_routes false st1)
  else Ok st1.

(** The body of the loop of [_convert_initial_routes_to_digraphs] for one
    initial route [r] and its [route_id]: the route as a [DiGraph], with
    the costs of vehicle type 0. *)
Definition initial_route_to_digraph (g : Network.t) (route_id : Z)
    (r : list string) : result Route.t :=
  built <- Py.for_each (route_edges r)
             (fun e (acc : Route.t * Q) =>
                edge_cost <- Network.edge_cost g (fst e) (snd e) 0 ;;
                Ok (Route.add_edge (fst e) (snd e) edge_cost (fst acc),
                    (snd acc + edge_cost)%Q))
             (Route.empty route_id, 0%Q) ;;
  Ok (Route.set_vehicle_type 0 (Route.set_cost (snd built) (fst built))).

(** [_convert_initial_routes_to_digraphs]; [_routes_with_node] keeps the
    names of the routes through each node. *)
Definition _convert_initial_routes_to_digraphs (st : VRP) : result VRP :=
  out <- Py.for_each (_initial_routes st)
           (fun r (acc : Z * list Route.t * gmap string (list Z)) =>
              let route_id := fst (fst acc) + 1 in
              d <- initial_route_to_digraph (G st) route_id r ;;
              Ok (route_id, snd (fst acc) ++ [d],
                  fold_left
                    (fun with_node v =>
                       match with_node !! v with
                       | Some ds => <[v := ds ++ [Route.name d]]> with_node
                       | None => <[v := [Route.name d]]> with_node
                       end)
                    (inner_nodes r) (snd acc)))
           (0, [], ∅) ;;
  Ok (set_routes_with_node (snd out) (set_routes (snd (fst out)) st)).

(** The first loop of [_best_routes_as_node_lists]: each best route, a
    [DiGraph], becomes the node list of a Source-Sink path, under the
    ids 1, 2, ... *)
Definition _best_routes_as_node_lists (best_routes_as_graphs : list Route.t)
  : result (list (Z * list string)) :=
  out <- Py.for_each best_routes_as_graphs
           (fun route (acc : Z * list (Z * list string)) =>
              node_list <- Route.shortest_path route "Source" "Sink" ;;
              Ok (fst acc + 1, snd acc ++ [(fst acc, node_list)]))
           (1, []) ;;
  Ok (snd out).

End ColumnGeneration.

(** ** The stop-count bound: [knapsack] *)

(** The body of the two loops of [knapsack]: the entry [sol[i][j]], from
    the row [sol[i - 1]].  This is Python indexing, so the row before row 0
    is the last one. *)
Definition knapsack_cell (weights : list Z) (i j : Z) (sol : list (list Z))
  : result (list (list Z)) :=
  w <- Py.index weights i ;;
  v <- (if w >? j then
          prev <- Py.index sol (i - 1) ;;
          Py.index prev j
        else
          prev <- Py.index sol (i - 1) ;;
          below <- Py.index prev (j - w) ;;
          let sol_add := 1 + below in
          same <- Py.index prev j ;;
          if sol_add >? same then Ok sol_add else Ok same) ;;
  row <- Py.index sol i ;;
  row' <- Py.setitem row j v ;;
  Py.setitem sol i row'.

(** [knapsack(weights, capacity)]: the table [sol], one row per item and
    one column per capacity from 0 to [capacity], is filled row by row.
    The table [added] is written and never read; it is left out. *)
Definition knapsack (weights : list Z) (capacity : Z) : result Z :=
  let n := Z.of_nat (length weights) in
  let sol0 : list (list Z) :=
    repeat (repeat 0 (Z.to_nat (capacity + 1))) (length weights) in
  sol <- Py.for_each (Py.range n)
           (fun i sol =>
              Py.for_each (Py.range (capacity + 1))
                          (fun j sol => knapsack_cell weights i j sol) sol)
           sol0 ;;
  last <- Py.index sol (n - 1) ;;
  Py.index last capacity.

(** [_get_num_stops_upper_bound(max_capacity)]: the new value of
    [self.num_stops], from the network, [self.distribution_collection] and
    the old [self.num_stops]. *)
Definition node_ints (attribute : string) (g : Network.t) : result (list Z) :=
  Py.for_each (Network.nodes g)
    (fun n (acc : list Z) =>
       x <- Py.of_option KeyError (snd n !! attribute) ;;
       Ok (acc ++ [Py.int x])) [].

Definition _get_num_stops_upper_bound (g : Network.t)
    (distribution_collection : bool) (num_stops : option Z)
    (max_capacity : Z) : result Z :=
  demands <- node_ints "demand" g ;;
  max_num_stops <- knapsack demands max_capacity ;;
  max_num_stops <-
    (if distribution_collection then
       collect <- node_ints "collect" g ;;
       other <- knapsack collect max_capacity ;;
       Ok (Z.min max_num_stops other)
     else Ok max_num_stops) ;;
  match num_stops with
  | Some stops =>
      if negb (stops =? 0) then Ok (Z.min max_num_stops stops)
      else Ok max_num_stops
  | None => Ok max_num_stops
  end.

(** ** Preprocessing: the helpers of [_pre_solve] *)

(** [g.nodes[v][attribute]]. *)
Definition node_attribute (g : Network.t) (v attribute : string) : result Q :=
  attrs <- Py.of_option KeyError
             (snd <$> List.find (fun n => String.eqb (fst n) v)
                                (Network.nodes g)) ;;
  Py.of_option KeyError (attrs !! attribute).

(** [g.nodes[v][attribute] = x]. *)
Definition set_node_attribute (g : Network.t) (v attribute : string) (x : Q)
  : result Network.t :=
  if existsb (String.eqb v) (Network.node_names g) then
    Ok {| Network.nodes :=
            map (fun n => if String.eqb (fst n) v
                          then (fst n, <[attribute := x]> (snd n)) else n)
                (Network.nodes g);
          Network.edges := Network.edges g |}
  else Raise KeyError.

(** [if attribute not in attrs: attrs[attribute] = x]. *)
Definition set_missing (attribute : string) (x : Q) (attrs : gmap string Q)
  : gmap string Q :=
  if bool_decide (is_Some (attrs !! attribute)) then attrs
  else <[attribute := x]> attrs.

(** [_set_zero_attributes]. *)
Definition _set_zero_attributes (g : Network.t) : result Network.t :=
  nodes <- Py.for_each (Network.nodes g)
             (fun n (acc : list (string * gmap string Q)) =>
                let attrs1 :=
                  fold_left (fun attrs attribute => set_missing attribute 0 attrs)
                            ["demand"; "collect"; "service_time"; "lower";
                             "upper"] (snd n) in
                attrs2 <-
                  (if MasterSolvePulp.is_depot (fst n) then
                     demand <- Py.of_option KeyError (attrs1 !! "demand") ;;
                     if Py.Qgtb demand 0 then Ok (<["demand" := 0%Q]> attrs1)
                     else Ok attrs1
                   else Ok attrs1) ;;
                Ok (acc ++ [(fst n, set_missing "frequency" 1 attrs2)])) [] ;;
  Ok {| Network.nodes := nodes; Network.edges := Network.edges g |}.

(** The edges of the network.  A dictionary of the model has an order of
    its own; the loops below that run over the edges give the same result
    in any order. *)
Definition edge_list (g : Network.t) : list (string * string) :=
  map fst (map_to_list (Network.edges g)).

(** [g.successors(u)] and [g.predecessors(v)]; a [NetworkXError] (an
    [Exception]) when the node is not in the graph. *)
Definition successors (g : Network.t) (u : string) : result (list string) :=
  if existsb (String.eqb u) (Network.node_names g) then
    Ok (map snd (List.filter (fun e => String.eqb (fst e) u) (edge_list g)))
  else Raise (Exception "The node is not in the digraph.").

Definition predecessors (g : Network.t) (v : string) : result (list string) :=
  if existsb (String.eqb v) (Network.node_names g) then
    Ok (map fst (List.filter (fun e => String.eqb (snd e) v) (edge_list g)))
  else Raise (Exception "The node is not in the digraph.").

(** [_add_fixed_costs]: [fixed_cost] is [self.fixed_cost], a list with one
    cost per vehicle type. *)
Definition _add_fixed_costs (fixed_cost : list Q) (vehicle_types : Z)
    (g : Network.t) : result Network.t :=
  vs <- successors g "Source" ;;
  Py.for_each vs
    (fun v g1 =>
       Py.for_each (Py.range vehicle_types)
         (fun k g2 =>
            c <- Network.edge_cost g2 "Source" v k ;;
            f <- Py.index fixed_cost k ;;
            Network.set_edge_cost g2 "Source" v k (c + f)%Q) g1) g.

(** [_remove_infeasible_arcs_capacities], with [self._max_capacity]. *)
Definition _remove_infeasible_arcs_capacities (max_capacity : Q)
    (g : Network.t) : result Network.t :=
  infeasible_arcs <-
    Py.for_each (edge_list g)
      (fun e (acc : list (string * string)) =>
         di <- node_attribute g (fst e) "demand" ;;
         dj <- node_attribute g (snd e) "demand" ;;
         if Py.Qgtb (di + dj) max_capacity then Ok (acc ++ [e]) else Ok acc)
      [] ;;
  Ok {| Network.nodes := Network.nodes g;
        Network.edges := fold_left (fun es e => delete e es) infeasible_arcs
                                   (Network.edges g) |}.

(** The network together with the ["time"] attribute of its edges, where
    it is set: what the methods that read travel times work on. *)
Module Timed.

Record t : Type := mk {
  network : Network.t;
  time : gmap (string * string) Q
}.

(** [g.edges[i, j]["time"]]. *)
Definition edge_time (g : t) (i j : string) : result Q :=
  _ <- Py.of_option KeyError (Network.edges (network g) !! (i, j)) ;;
  Py.of_option KeyError (time g !! (i, j)).

End Timed.

(** [_set_time_to_zero_if_missing]. *)
Definition _set_time_to_zero_if_missing (g : Timed.t) : Timed.t :=
  {| Timed.network := Timed.network g;
     Timed.time :=
       fold_left (fun times e =>
                    if bool_decide (is_Some (times !! e)) then times
                    else <[e := 0%Q]> times)
                 (edge_list (Timed.network g)) (Timed.time g) |}.

(** [_readjust_sink_time_windows]. *)
Definition _readjust_sink_time_windows (g : Timed.t) : result Timed.t :=
  upper <- node_attribute (Timed.network g) "Sink" "upper" ;;
  if Qeq_bool upper 0 then
    us <- predecessors (Timed.network g) "Sink" ;;
    arrivals <-
      Py.for_each us
        (fun u (acc : list Q) =>
           up <- node_attribute (Timed.network g) u "upper" ;;
           service <- node_attribute (Timed.network g) u "service_time" ;;
           travel <- Timed.edge_time g u "Sink" ;;
           Ok (acc ++ [(up + service + travel)%Q])) [] ;;
    latest <- Py.max_of arrivals ;;
    net <- set_node_attribute (Timed.network g) "Sink" "upper" latest ;;
    Ok {| Timed.network := net; Timed.time := Timed.time g |}
  else Ok g.

(** [g.add_edge("Source", "Sink", cost=[0] * vehicle_types)] when the edge
    is missing: the end points become nodes if they are not. *)
Definition add_node_if_missing (v : string) (ns : list (string * gmap string Q))
  : list (string * gmap string Q) :=
  if existsb (fun n => String.eqb (fst n) v) ns then ns else ns ++ [(v, ∅)].

Definition add_source_sink (vehicle_types : Z) (g : Network.t) : Network.t :=
  if bool_decide (is_Some (Network.edges g !! ("Source", "Sink"))) then g
  else {| Network.nodes :=
            add_node_if_missing "Sink"
              (add_node_if_missing "Source" (Network.nodes g));
          Network.edges :=
            <[("Source", "Sink") := repeat 0%Q (Z.to_nat vehicle_types)]>
              (Network.edges g) |}.

(** [_update_dummy_attributes]: the network it leaves in [self.G], of
    which [self._H] is a copy. *)
Definition _update_dummy_attributes (vehicle_types : Z) (g : Timed.t)
  : result Timed.t :=
  net <- _set_zero_attributes (Timed.network g) ;;
  let g1 := {| Timed.network := add_source_sink vehicle_types net;
               Timed.time := Timed.time g |} in
  _readjust_sink_time_windows (_set_time_to_zero_if_missing g1).

(** ** Reading the solution *)

(** The properties below read [self._best_routes], a dictionary from
    route ids to node lists, kept in insertion order with one entry per
    id, and [self._best_routes_vehicle_type]; the costs, demands and times
    come from the copy [self._H]. *)

(** [d[k]] and [del d[k]] on a dictionary kept in insertion order. *)
Definition getitem {V} (k : string) (d : list (string * V)) : result V :=
  Py.of_option KeyError
    (snd <$> List.find (fun entry => String.eqb (fst entry) k) d).

Definition delitem {V} (k : string) (d : list (string * V))
  : result (list (string * V)) :=
  if existsb (fun entry => String.eqb (fst entry) k) d
  then Ok (List.filter (fun entry => negb (String.eqb (fst entry) k)) d)
  else Raise KeyError.

(** [sum(self._H.edges[i, j]["cost"][k] for (i, j) in edges)]. *)
Definition route_cost (H : Network.t) (k : Z) (route : list string)
  : result Q :=
  Py.for_each (route_edges route)
    (fun e (acc : Q) =>
       c <- Network.edge_cost H (fst e) (snd e) k ;;
       Ok (acc + c)%Q) 0%Q.

(** [best_routes_cost]. *)
Definition best_routes_cost (H : Network.t)
    (best_routes : list (Z * list string)) (vehicle_type : gmap Z Z)
  : result (list (Z * Q)) :=
  Py.for_each best_routes
    (fun entry (cost : list (Z * Q)) =>
       k <- Py.of_option KeyError (vehicle_type !! fst entry) ;;
       c <- route_cost H k (snd entry) ;;
       Ok (MasterSolvePulp.assign Z.eqb (fst entry) c cost)) [].

(** [best_value]. *)
Definition best_value (H : Network.t) (best_routes : list (Z * list string))
    (vehicle_type : gmap Z Z) (drop_penalty : option Q)
    (dropped_nodes : list string) : result Q :=
  if Py.truthy drop_penalty then
    penalty <- Py.of_option TypeError drop_penalty ;;
    cost <- best_routes_cost H best_routes vehicle_type ;;
    Ok (Py.sum (map snd cost)
        + penalty * inject_Z (Z.of_nat (length dropped_nodes)))%Q
  else
    cost <- best_routes_cost H best_routes vehicle_type ;;
    Ok (Py.sum (map snd cost)).

(** [sum(self._H.nodes[v][attribute] for v in route)]. *)
Definition route_sum (H : Network.t) (attribute : string)
    (route : list string) : result Q :=
  Py.for_each route
    (fun v (acc : Q) =>
       x <- node_attribute H v attribute ;;
       Ok (acc + x)%Q) 0%Q.

(** [best_routes_load]; [load_capacity] is [self.load_capacity], a list
    with one capacity per vehicle type, empty for [None]. *)
Definition best_routes_load (H : Network.t)
    (best_routes : list (Z * list string)) (load_capacity : list Z)
    (distribution_collection pickup_delivery : bool)
  : result (list (Z * Q)) :=
  if Nat.eqb (length load_capacity) 0 || distribution_collection
     || pickup_delivery
  then Ok []
  else
    Py.for_each best_routes
      (fun entry (load : list (Z * Q)) =>
         x <- route_sum H "demand" (snd entry) ;;
         Ok (MasterSolvePulp.assign Z.eqb (fst entry) x load)) [].

(** The inner loop of [node_load] for one route, and the [del] after it:
    the load accumulated at each node. *)
Definition node_load_of_route (H : Network.t) (distribution_collection : bool)
    (route : list string) : result (list (string * Q)) :=
  out <- Py.for_each route
           (fun v (acc : Q * list (string * Q)) =>
              demand <- node_attribute H v "demand" ;;
              let amount := (fst acc + demand)%Q in
              amount <- (if distribution_collection then
                           collect <- node_attribute H v "collect" ;;
                           Ok (amount - collect)%Q
                         else Ok amount) ;;
              Ok (amount, MasterSolvePulp.assign String.eqb v amount (snd acc)))
           (0%Q, []) ;;
  delitem "Source" (snd out).

(** [node_load]. *)
Definition node_load (H : Network.t) (best_routes : list (Z * list string))
    (load_capacity : list Z) (distribution_collection pickup_delivery : bool)
  : result (list (Z * list (string * Q))) :=
  if Nat.eqb (length load_capacity) 0 && negb pickup_delivery
     && negb distribution_collection
  then Ok []
  else
    Py.for_each best_routes
      (fun entry (load : list (Z * list (string * Q))) =>
         l <- node_load_of_route H distribution_collection (snd entry) ;;
         Ok (MasterSolvePulp.assign Z.eqb (fst entry) l load)) [].


(** The time at [head] when leaving [tail] at [at_tail]:
    [max(at_tail + service_time[tail] + time[tail, head], lower[head])]. *)
Definition reach (H : Timed.t) (tail head : string) (at_tail : Q) : result Q :=
  service <- node_attribute (Timed.network H) tail "service_time" ;;
  travel <- Timed.edge_time H tail head ;;
  lower <- node_attribute (Timed.network H) head "lower" ;;
  Ok (Py.max (at_tail + service + travel) lower).

(** The loop of [arrival_time] for one route, before the [del]: the
    pairs [(route[j - 1], route[j])] for [j] from 1 are the edges of the
    route. *)
Definition arrivals_of_route (H : Timed.t) (route : list string)
  : result (list (string * Q)) :=
  start <- node_attribute (Timed.network H) "Source" "lower" ;;
  Py.for_each (route_edges route)
    (fun e (arrival : list (string * Q)) =>
       at_tail <- getitem (fst e) arrival ;;
       at_head <- reach H (fst e) (snd e) at_tail ;;
       Ok (MasterSolvePulp.assign String.eqb (snd e) at_head arrival))
    [("Source", start)].

(** [arrival_time]. *)
Definition arrival_time (H : Timed.t) (best_routes : list (Z * list string))
    (duration : option Q) (time_windows : bool)
  : result (list (Z * list (string * Q))) :=
  if negb (Py.truthy duration) && negb time_windows then Ok []
  else
    Py.for_each best_routes
      (fun entry (arrival : list (Z * list (string * Q))) =>
         a <- arrivals_of_route H (snd entry) ;;
         a <- delitem "Source" a ;;
         Ok (MasterSolvePulp.assign Z.eqb (fst entry) a arrival)) [].

(** The loop of [departure_time] for one route: [j] stops before the
    last node, and the service time at [head] is added. *)
Definition departures_of_route (H : Timed.t) (route : list string)
  : result (list (string * Q)) :=
  start <- node_attribute (Timed.network H) "Source" "lower" ;;
  Py.for_each (removelast (route_edges route))
    (fun e (departure : list (string * Q)) =>
       at_tail <- getitem (fst e) departure ;;
       at_head <- reach H (fst e) (snd e) at_tail ;;
       service <- node_attribute (Timed.network H) (snd e) "service_time" ;;
       Ok (MasterSolvePulp.assign String.eqb (snd e) (at_head + service)%Q
                                  departure))
    [("Source", start)].

(** [departure_time]. *)
Definition departure_time (H : Timed.t) (best_routes : list (Z * list string))
    (duration : option Q) (time_windows : bool)
  : result (list (Z * list (string * Q))) :=
  if negb (Py.truthy duration) && negb time_windows then Ok []
  else
    Py.for_each best_routes
      (fun entry (departure : list (Z * list (string * Q))) =>
         d <- departures_of_route H (snd entry) ;;
         Ok (MasterSolvePulp.assign Z.eqb (fst entry) d departure)) [].

(** The loop over the vehicle types in the second half of
    [_best_routes_as_node_lists]: the type recorded for a complete
    preassigned route, if any. *)
Definition choose_vehicle_type (H : Network.t) (vehicle_types : Z)
    (load_capacity : list Z) (route : list string) : result (option Z) :=
  out <- Py.for_each (Py.range vehicle_types)
           (fun k (acc : Q * option Z) =>
              cost <- route_cost H k route ;;
              load <- route_sum H "demand" route ;;
              if Py.Qltb cost (fst acc) then
                if negb (Nat.eqb (length load_capacity) 0) then
                  capacity <- Py.index load_capacity k ;;
                  if Qle_bool load (inject_Z capacity) then Ok (cost, Some k)
                  else Ok acc
                else Ok (cost, Some k)
              else Ok acc)
           (MasterSolvePulp.big_cost, None) ;;
  Ok (snd out).

(** The second loop of [_best_routes_as_node_lists]: the complete
    preassigned routes are merged into the best routes, under the ids
    that follow.  The state is [route_id], [self._best_routes] and
    [self._best_routes_vehicle_type]. *)
Definition merge_preassigned (H : Network.t) (preassignments : list (list string))
    (vehicle_types : Z) (load_capacity : list Z)
    (state : Z * list (Z * list string) * gmap Z Z)
  : result (Z * list (Z * list string) * gmap Z Z) :=
  Py.for_each preassignments
    (fun route (acc : Z * list (Z * list string) * gmap Z Z) =>
       first <- Py.index route 0 ;;
       complete <- (if String.eqb first "Source" then
                      last <- Py.index route (-1) ;;
                      Ok (String.eqb last "Sink")
                    else Ok false) ;;
       if complete : bool then
         let route_id := fst (fst acc) in
         chosen <- choose_vehicle_type H vehicle_types load_capacity route ;;
         Ok (route_id + 1,
             MasterSolvePulp.assign Z.eqb route_id route (snd (fst acc)),
             match chosen with
             | Some k => <[route_id := k]> (snd acc)
             | None => snd acc
             end)
       else Ok acc)
    state.

(** ** The benchmark report: [examples/benchmarks/report.py] *)

Module Report.

(** The figures [get_data_from_VRP_instance] stores. *)
Record t : Type := mk {
  upper_bound : Q;
  lower_bound : Q;
  integrality_gap : Q;
  optimality_gap : Q;
  optimal : bool
}.

(** [get_data_from_VRP_instance], after [prob.solve], for a given best
    known solution: [best_value] is [prob.best_value] and [_lower_bound]
    is [prob._lower_bound].  A division by zero is a [ZeroDivisionError]
    (an [Exception]). *)
Definition get_data_from_VRP_instance (best_value : Q)
    (_lower_bound : list (option Q)) (best_known_solution : Q) : result t :=
  last <- Py.index _lower_bound (-1) ;;
  lower <- Py.of_option TypeError last ;;
  if Qeq_bool lower 0 then Raise (Exception "division by zero")
  else
    let integrality := ((best_value - lower) / lower * 100)%Q in
    if Qeq_bool best_known_solution 0 then Raise (Exception "division by zero")
    else
      let optimality :=
        ((best_value - best_known_solution) / best_known_solution * 100)%Q in
      Ok {| upper_bound := best_value; lower_bound := lower;
            integrality_gap := integrality; optimality_gap := optimality;
            optimal := Qeq_bool optimality 0 |}.

End Report.

(** ** Notions used in the statements *)

(** A route is selected when its variable exists and has a value strictly
    above [threshold]. *)
Definition value_above (threshold : Q) (m : MasterSolvePulp.t) (r : Route.t)
  : bool :=
  match MasterSolvePulp.y m !! Route.name r with
  | Some v =>
      match Pulp.varValue (MasterSolvePulp.prob m) (Pulp.var v) with
      | Some x => Py.Qgtb x threshold
      | None => false
      end
  | None => false
  end.

(** What a parameter sweep must have done when it returns [out], the
    state and [produced_column]: the calls [tried], appended to the log,
    are the subproblems of the first parameters, in order, one each; on
    success all of them failed but the last; on failure every parameter
    was tried and failed.  Either way the more-routes flag is true. *)
Definition sweep_outcome {HH : Type} (strategy : string)
    (parameters : list Q) (vehicle : Z) (duals : Duals) (st : @VRP HH)
    (out : @VRP HH * bool) : Prop :=
  exists tried : list (SubProblem * bool),
    pricing_log (fst out) = pricing_log st ++ tried /\
    map fst tried
    = map (fun p => _def_subproblem st duals vehicle strategy (Some p) false)
          (firstn (length tried) parameters) /\
    _more_routes (fst out) = true /\
    if snd out then
      exists failed sp,
        tried = failed ++ [(sp, true)] /\
        Forall (fun call => snd call = false) failed
    else
      length tried = length parameters /\
      Forall (fun call => snd call = false) tried.

(** A logged call is an Exact attempt. *)
Definition is_exact_call (call : SubProblem * bool) : Prop :=
  sp_pricing_strategy (fst call) = "Exact" /\
  sp_pricing_parameter (fst call) = None /\
  sp_class (fst call) <> SubProblemGreedy.

(** What no pricing attempt touches. *)
Definition untouched_by_pricing {HH : Type} (st st' : @VRP HH) : Prop :=
  masterproblem st' = masterproblem st /\
  _pricing_strategy st' = _pricing_strategy st /\
  _cspy st' = _cspy st /\
  _vehicle_types st' = _vehicle_types st /\
  _no_improvement st' = _no_improvement st /\
  do_exact st' = do_exact st /\
  _iteration st' = _iteration st /\
  _lower_bound st' = _lower_bound st /\
  _dive st' = _dive st /\
  _max_iter st' = _max_iter st /\
  _time_limit st' = _time_limit st /\
  _start_time st' = _start_time st /\
  _greedy st' = _greedy st /\
  time_windows st' = time_windows st /\
  distribution_collection st' = distribution_collection st /\
  pickup_delivery st' = pickup_delivery st.

(** A logged call returned no route. *)
Definition failed (call : SubProblem * bool) : Prop := snd call = false.

(** The strategy names the pricing dispatch knows. *)
Definition strategy_names : list string :=
  ["BestPaths"; "BestEdges1"; "BestEdges2"; "Exact"].

(** What a pricing attempt ([_solve_subproblem_with_heuristic]) for
    [pricing_strategy] and [vehicle] can have done when it returns [out],
    having made the calls [tried]: a heuristic sweep succeeded; or Exact
    was called last, after the failed calls of a sweep if any, and decides
    the result; or, under "Hyper" only, the sweep failed and nothing
    followed, or the strategy name is none of the four and nothing was
    called. *)
Inductive attempt_outcome {HH : Type} (pricing_strategy : string)
    (vehicle : Z) (st : @VRP HH) (out : @VRP HH * bool)
    (tried : list (SubProblem * bool)) : Prop :=
| heuristic_succeeded (before : list (SubProblem * bool)) (sp : SubProblem) :
    tried = before ++ [(sp, true)] ->
    Forall failed before ->
    Forall (fun call => ~ is_exact_call call) tried ->
    snd out = true -> _more_routes (fst out) = true ->
    attempt_outcome pricing_strategy vehicle st out tried
| exact_attempted (before : list (SubProblem * bool))
                  (call : SubProblem * bool) :
    tried = before ++ [call] ->
    Forall failed before ->
    is_exact_call call ->
    sp_vehicle_type (fst call) = vehicle ->
    snd out = snd call -> _more_routes (fst out) = snd call ->
    attempt_outcome pricing_strategy vehicle st out tried
| hyper_sweep_failed :
    _pricing_strategy st = "Hyper" ->
    tried <> [] ->
    Forall failed tried ->
    Forall (fun call => ~ is_exact_call call) tried ->
    snd out = false -> _more_routes (fst out) = true ->
    attempt_outcome pricing_strategy vehicle st out tried
| hyper_nothing_attempted :
    _pricing_strategy st = "Hyper" ->
    ~ In pricing_strategy strategy_names ->
    tried = [] -> fst out = st -> snd out = false ->
    attempt_outcome pricing_strategy vehicle st out tried.

(** The settings no iteration changes, and the counters only the head and
    the tail of an iteration change. *)
Definition same_settings {HH : Type} (st st' : @VRP HH) : Prop :=
  _pricing_strategy st' = _pricing_strategy st /\
  _cspy st' = _cspy st /\
  _vehicle_types st' = _vehicle_types st /\
  _dive st' = _dive st /\
  _max_iter st' = _max_iter st /\
  _time_limit st' = _time_limit st /\
  _start_time st' = _start_time st /\
  _greedy st' = _greedy st /\
  time_windows st' = time_windows st /\
  distribution_collection st' = distribution_collection st /\
  pickup_delivery st' = pickup_delivery st.

Definition same_counters {HH : Type} (st st' : @VRP HH) : Prop :=
  _no_improvement st' = _no_improvement st /\
  do_exact st' = do_exact st /\
  _iteration st' = _iteration st /\
  _lower_bound st' = _lower_bound st.

(** The calls [tried] of one iteration end with a failed Exact attempt. *)
Definition ends_with_failed_exact (tried : list (SubProblem * bool)) : Prop :=
  exists before call,
    tried = before ++ [call] /\ is_exact_call call /\ snd call = false.

(** Every call in [tried] that is not an Exact attempt failed. *)
Definition heuristics_failed (tried : list (SubProblem * bool)) : Prop :=
  Forall (fun call => ~ is_exact_call call -> failed call) tried.

(** Exact was attempted for [vehicle] among the calls [tried]. *)
Definition exact_attempted_for (vehicle : Z)
    (tried : list (SubProblem * bool)) : Prop :=
  exists call,
    In call tried /\ is_exact_call call /\
    sp_vehicle_type (fst call) = vehicle.

(** The counter an iteration starts from, once the strategy is picked:
    reaching [do_exact] resets it. *)
Definition counter_after_pick {HH : Type} (st : @VRP HH) : Z :=
  if _no_improvement st =? do_exact st then 0 else _no_improvement st.

(** [is_exact_call], decided. *)
Definition is_exact_callb (call : SubProblem * bool) : bool :=
  String.eqb (sp_pricing_strategy (fst call)) "Exact"
  && match sp_pricing_parameter (fst call) with
     | None => true
     | Some _ => false
     end
  && match sp_class (fst call) with
     | SubProblemGreedy => false
     | _ => true
     end.

(** The constraint [c'] is [c] with further terms of the variable [v]
    only, each with coefficient 1. *)
Definition gains_terms_of (v : Pulp.VarId) (c c' : Pulp.LpConstraintVar)
  : Prop :=
  Pulp.sense c' = Pulp.sense c /\ Pulp.rhs c' = Pulp.rhs c /\
  exists k : nat, Pulp.terms c' = Pulp.terms c ++ repeat (v, 1%Q) k.

(** The master problem [m'] is [m] with the one column of [route] added:
    its variable is in [y] under the route's name, every other entry of
    [y] is as before, the constraints keep their keys and their terms and
    gain terms of the new variable only, and only those of the nodes the
    route visits (or of its vehicle type) do; the objective gains the
    route's cost; nothing else changes. *)
Definition column_added (route : Route.t) (m m' : MasterSolvePulp.t) : Prop :=
  let v := Pulp.y_ (Route.name route) in
  MasterSolvePulp.y m'
  = <[Route.name route := Pulp.mkVar v (Some 0%Q) (Some 1%Q) Pulp.LpInteger]>
      (MasterSolvePulp.y m) /\
  (forall name, name <> Route.name route ->
     MasterSolvePulp.y m' !! name = MasterSolvePulp.y m !! name) /\
  (forall node,
     option_Forall2 (gains_terms_of v)
       (MasterSolvePulp.set_covering_constrs m !! node)
       (MasterSolvePulp.set_covering_constrs m' !! node)) /\
  (forall node, ~ In node (MasterSolvePulp.visited route) ->
     MasterSolvePulp.set_covering_constrs m' !! node
     = MasterSolvePulp.set_covering_constrs m !! node) /\
  (forall k,
     option_Forall2 (gains_terms_of v)
       (MasterSolvePulp.vehicle_bound_constrs m !! k)
       (MasterSolvePulp.vehicle_bound_constrs m' !! k)) /\
  (forall k, k <> Route.vehicle_type route ->
     MasterSolvePulp.vehicle_bound_constrs m' !! k
     = MasterSolvePulp.vehicle_bound_constrs m !! k) /\
  MasterSolvePulp.objective m'
  = Pulp.addVariable v (Route.cost route) (MasterSolvePulp.objective m) /\
  MasterSolvePulp.drop m' = MasterSolvePulp.drop m /\
  MasterSolvePulp.dummy m' = MasterSolvePulp.dummy m /\
  MasterSolvePulp.dummy_bound m' = MasterSolvePulp.dummy_bound m /\
  MasterSolvePulp.prob m' = MasterSolvePulp.prob m.

(** An initial route that is a simple path from Source to Sink: it starts
    at Source, ends at Sink and visits no node twice. *)
Definition simple_route (r : list string) : Prop :=
  head r = Some "Source" /\ last r = Some "Sink" /\ List.NoDup r.

(** The cost [_convert_initial_routes_to_digraphs] reads for an edge. *)
Definition cost0 (g : Network.t) (e : string * string) : Q :=
  match Network.edge_cost g (fst e) (snd e) 0 with
  | Ok c => c
  | Raise _ => 0%Q
  end.

(** The sum of the weights of the chosen items. *)
Definition total (chosen : list Z) : Z := fold_right Z.add 0 chosen.

(** [n] is the maximum number of items of [weights] whose weights add up
    to at most [capacity]: some choice of [n] items fits, and no choice
    that fits has more. *)
Definition is_max_number_of_items (weights : list Z) (capacity n : Z)
  : Prop :=
  (exists chosen, sublist chosen weights /\ total chosen <= capacity /\
                  Z.of_nat (length chosen) = n) /\
  (forall chosen, sublist chosen weights -> total chosen <= capacity ->
                  Z.of_nat (length chosen) <= n).

(** The recurrence the table of [knapsack] follows, on the items taken
    last first. *)
Fixpoint max_items (items : list Z) (capacity : Z) : Z :=
  match items with
  | [] => 0
  | w :: rest =>
      if w >? capacity then max_items rest capacity
      else
        let sol_add := 1 + max_items rest (capacity - w) in
        if sol_add >? max_items rest capacity then sol_add
        else max_items rest capacity
  end.

(** Row [i] of the table of [knapsack] once the items before [i] are
    done: for every capacity from 0 to [capacity], the value of the
    recurrence on the first [i] items. *)
Definition table_row (weights : list Z) (capacity : nat) (i : nat) : list Z :=
  map (fun j => max_items (rev (take i weights)) (Z.of_nat j))
      (seq 0 (S capacity)).

(** The row read as [sol[i - 1]] in a table of [n] rows: the one before,
    or the last one for [i] = 0. *)
Definition row_before (n i : nat) : nat :=
  match i with
  | O => (n - 1)%nat
  | S k => k
  end.

(** The table after the rows before [i]: they hold their values, the
    others are still zero. *)
Definition table_rows_done (weights : list Z) (capacity : nat) (i : nat)
    (sol : list (list Z)) : Prop :=
  length sol = length weights /\
  (forall k, (k < i)%nat -> sol !! k = Some (table_row weights capacity (S k))) /\
  (forall k, (i <= k < length weights)%nat ->
              sol !! k = Some (repeat 0 (S capacity))).

(** *** The master problem *)

(** A node of the network that is to be visited: neither Source nor Sink
    nor a depot copy. *)
Definition is_customer (n : string * gmap string Q) : bool :=
  negb (MasterSolvePulp.is_depot (fst n))
  && negb (bool_decide (is_Some (snd n !! "depot_from")))
  && negb (bool_decide (is_Some (snd n !! "depot_to"))).

Definition customers (g : Network.t) : list string :=
  map fst (List.filter is_customer (Network.nodes g)).

(** The master problem as [__init__] has it when it calls [_formulate]:
    empty dictionaries and an empty objective. *)
Definition unformulated (m : MasterSolvePulp.t) : Prop :=
  MasterSolvePulp.y m = ∅ /\
  MasterSolvePulp.drop m = [] /\
  MasterSolvePulp.dummy m = [] /\
  MasterSolvePulp.dummy_bound m = [] /\
  MasterSolvePulp.set_covering_constrs m = ∅ /\
  MasterSolvePulp.vehicle_bound_constrs m = ∅ /\
  MasterSolvePulp.objective m = Pulp.mkConstr None None [].

(** The column of a route in the covering constraint of [node]. *)
Definition visits (node : string) (r : Route.t) : bool :=
  existsb (String.eqb node) (Route.nodes r).

(** The routes visit customers only (besides Source and Sink). *)
Definition routes_visit_customers (g : Network.t) (routes : list Route.t)
  : Prop :=
  forall r v, In r routes -> In v (MasterSolvePulp.visited r) ->
              In v (customers g).

(** What [_formulate] leaves when there is neither a drop penalty nor a
    period. *)
Definition settings_kept (m m' : MasterSolvePulp.t) : Prop :=
  MasterSolvePulp.drop_penalty m' = MasterSolvePulp.drop_penalty m /\
  MasterSolvePulp.num_vehicles m' = MasterSolvePulp.num_vehicles m /\
  MasterSolvePulp.periodic m' = MasterSolvePulp.periodic m /\
  MasterSolvePulp.solver m' = MasterSolvePulp.solver m /\
  MasterSolvePulp.prob m' = MasterSolvePulp.prob m.

(** The constraint [c] with the terms [ts] entered after its own. *)
Definition with_terms (ts : list (Pulp.VarId * Q)) (c : Pulp.LpConstraintVar)
  : Pulp.LpConstraintVar :=
  {| Pulp.sense := Pulp.sense c; Pulp.rhs := Pulp.rhs c;
     Pulp.terms := Pulp.terms c ++ ts |}.

(** The variable [_add_route_selection_variable] creates for a route. *)
Definition route_variable (r : Route.t) : Pulp.LpVariable :=
  Pulp.mkVar (Pulp.y_ (Route.name r)) (Some 0%Q) (Some 1%Q) Pulp.LpInteger.

(** The variable [_add_vehicle_dummy_variables] creates for a vehicle
    type. *)
Definition bound_variable (k : Z) : Pulp.LpVariable :=
  Pulp.mkVar (Pulp.artificial_bound_ k) (Some 0%Q) None Pulp.LpContinuous.

(** The routes of a vehicle type. *)
Definition of_type (k : Z) (r : Route.t) : bool := Route.vehicle_type r =? k.

(** The counters of [get_heuristic_distribution]. *)
Definition heuristic_names : list string :=
  ["BestPaths"; "BestEdges1"; "BestEdges2"; "Exact"; "Other"].

(** The route carries the tag [tag]. *)
Definition tagged (tag : string) (r : Route.t) : bool :=
  match Route.heuristic r with
  | Some h => String.eqb h tag
  | None => false
  end.

(** *** Preassigned routes *)

(** A preassigned route that cannot be extended: it starts at Source and
    ends at Sink. *)
Definition complete (route : list string) : bool :=
  match head route, last route with
  | Some first, Some final =>
      String.eqb first "Source" && String.eqb final "Sink"
  | _, _ => false
  end.

(** The nodes [_lock] takes out of the network. *)
Definition locked_nodes (preassignments : list (list string)) : list string :=
  flat_map inner_nodes (List.filter complete preassignments).

(** The costs of an edge are 0 for every vehicle type. *)
Definition zeroed (vehicle_types : Z) (costs : list Q) : Prop :=
  forall k, 0 <= k < vehicle_types -> Py.index costs k = Ok 0%Q.

(** The state of an edge once its route is processed: if the edge is
    still there, its costs are zero for all vehicle types. *)
Definition zero_if_there (vehicle_types : Z) (e : string * string)
    (g : Network.t) : Prop :=
  forall costs, Network.edges g !! e = Some costs ->
                zeroed vehicle_types costs.

(** *** The bound on the number of stops *)

(** The integer parts of an attribute of the nodes, in node order; 0
    stands for a missing one. *)
Definition ints_of (attribute : string) (g : Network.t) : list Z :=
  map (fun n => match snd n !! attribute with
                | Some x => Py.int x
                | None => 0
                end) (Network.nodes g).

(** Every node has the attribute, and it is not negative. *)
Definition attribute_nonneg (attribute : string) (g : Network.t) : Prop :=
  forall n, In n (Network.nodes g) ->
            exists x, snd n !! attribute = Some x /\ (0 <= x)%Q.

(** [min(bound, self.num_stops)] when [self.num_stops] is set and not 0. *)
Definition capped (num_stops : option Z) (bound : Z) : Z :=
  match num_stops with
  | Some stops => if stops =? 0 then bound else Z.min bound stops
  | None => bound
  end.

(** *** Times *)

(** An entry of a dictionary of times is not before the lower time
    window of its node. *)
Definition after_lower (H : Timed.t) (entry : string * Q) : Prop :=
  exists lower,
    node_attribute (Timed.network H) (fst entry) "lower" = Ok lower
    /\ (lower <= snd entry)%Q.

(** *** Preassigned routes in the solution *)

(** Vehicle type [k] can carry [load]: there are no capacities, or the
    capacity of [k] is at least [load]. *)
Definition fits (load_capacity : list Z) (load : Q) (k : Z) : Prop :=
  load_capacity = [] \/
  exists capacity, load_capacity !! Z.to_nat k = Some capacity
                   /\ (load <= inject_Z capacity)%Q.

(** The ids [first], [first + 1], ... for the routes of a list. *)
Fixpoint numbered {A} (first : Z) (l : list A) : list (Z * A) :=
  match l with
  | [] => []
  | x :: rest => (first, x) :: numbered (first + 1) rest
  end.

(** *** Default attributes *)

(** The attributes every node has after [_set_zero_attributes]. *)
Definition node_defaults : list string :=
  ["demand"; "collect"; "service_time"; "lower"; "upper"; "frequency"].

(** What [_set_zero_attributes] makes of the attributes of the node
    [v]. *)
Definition defaulted (v : string) (attrs : gmap string Q) : gmap string Q :=
  let attrs1 :=
    fold_left (fun attrs attribute => set_missing attribute 0 attrs)
              ["demand"; "collect"; "service_time"; "lower"; "upper"] attrs in
  let attrs2 :=
    match attrs1 !! "demand" with
    | Some demand =>
        if MasterSolvePulp.is_depot v && Py.Qgtb demand 0
        then <["demand" := 0%Q]> attrs1 else attrs1
    | None => attrs1
    end in
  set_missing "frequency" 1 attrs2.

(** The value of attribute [a] of node [v] after [_set_zero_attributes],
    from the attributes before. *)
Definition attribute_after (v : string) (attrs : gmap string Q) (a : string)
  : option Q :=
  if String.eqb a "demand" then
    match attrs !! "demand" with
    | Some demand =>
        if MasterSolvePulp.is_depot v && Py.Qgtb demand 0 then Some 0%Q
        else Some demand
    | None => Some 0%Q
    end
  else if existsb (String.eqb a) ["collect"; "service_time"; "lower"; "upper"]
  then Some (default 0%Q (attrs !! a))
  else if String.eqb a "frequency" then Some (default 1%Q (attrs !! a))
  else attrs !! a.

(** *** Preprocessing of the edges *)

(** The costs of an edge leaving Source once the fixed costs are added:
    the cost of each vehicle type below [vehicle_types] is increased by
    the fixed cost of that type. *)
Definition with_fixed_costs (fixed_cost : list Q) (vehicle_types : Z)
    (costs : list Q) : list Q :=
  imap (fun n c => if Z.of_nat n <? vehicle_types
                   then (c + nth n fixed_cost 0)%Q else c) costs.

(** The demands at the end points of the edge from [i] to [j] fit in a
    vehicle of capacity [max_capacity]. *)
Definition demands_fit (g : Network.t) (max_capacity : Q) (i j : string)
  : Prop :=
  exists di dj,
    node_attribute g i "demand" = Ok di /\
    node_attribute g j "demand" = Ok dj /\
    (di + dj <= max_capacity)%Q.

(** *** Arrivals and departures *)

(** The departure times [D] of a route are consistent with its arrival
    times [A]: a node with an arrival time has a departure time that is
    not earlier, and, Source apart, not earlier than the arrival plus the
    service time at the node. *)
Definition departs_after (H : Timed.t) (A D : list (string * Q)) : Prop :=
  forall v ta, getitem v A = Ok ta ->
    exists td, getitem v D = Ok td /\ (ta <= td)%Q /\
      (v <> "Source" ->
       exists s, node_attribute (Timed.network H) v "service_time" = Ok s
                 /\ (ta + s <= td)%Q).

(** *** The pricing engine *)

(** The calls [calls] were made to the pricing engine one after the
    other, taking the state [st] to [st']: each subproblem was solved
    with the time then remaining, the flag logged is the one the engine
    answered, and the engine's route list and flag became [self.routes]
    and [self._more_routes] before the next call. *)
Inductive engine_calls {HH : Type} (time : @VRP HH -> Q)
    (subproblem_solve :
       SubProblem -> option Q -> @VRP HH -> list Route.t * bool)
  : @VRP HH -> list (SubProblem * bool) -> @VRP HH -> Prop :=
| engine_idle (st : @VRP HH) :
    engine_calls time subproblem_solve st [] st
| engine_called (st st' : @VRP HH) (sp : SubProblem)
                (answer : list Route.t * bool)
                (calls : list (SubProblem * bool)) :
    answer = subproblem_solve sp (time_remaining time st false) st ->
    engine_calls time subproblem_solve
      (set_pricing_log (pricing_log st ++ [(sp, snd answer)])
         (set_more_routes (snd answer) (set_routes (fst answer) st)))
      calls st' ->
    engine_calls time subproblem_solve st ((sp, snd answer) :: calls) st'.

(** What a parameter sweep has done when it returns [out], the state and
    [produced_column]: the calls [tried], made to the engine one after
    the other and appended to the log, are the subproblems of the first
    parameters, in order, one each: the subproblem of a parameter value
    carries the strategy, that value, the vehicle type and the duals.  On
    success all of them failed but the last, which the engine answered
    with a route, and the state is the one that call left.  On failure
    every parameter was tried and the engine answered each with no route;
    the state is the one the last call left, with the more-routes flag
    set back.  Either way the more-routes flag is true. *)
Definition sweep_trace {HH : Type} (time : @VRP HH -> Q)
    (subproblem_solve :
       SubProblem -> option Q -> @VRP HH -> list Route.t * bool)
    (strategy : string) (parameters : list Q) (vehicle : Z) (duals : Duals)
    (st : @VRP HH) (out : @VRP HH * bool) : Prop :=
  exists (tried : list (SubProblem * bool)) (last : @VRP HH),
    engine_calls time subproblem_solve st tried last /\
    pricing_log (fst out) = pricing_log st ++ tried /\
    map fst tried
    = map (fun p => _def_subproblem st duals vehicle strategy (Some p) false)
          (firstn (length tried) parameters) /\
    Forall2 (fun call p =>
               sp_pricing_strategy (fst call) = strategy /\
               sp_pricing_parameter (fst call) = Some p /\
               sp_vehicle_type (fst call) = vehicle /\
               sp_duals (fst call) = duals /\
               sp_class (fst call) <> SubProblemGreedy)
            tried (firstn (length tried) parameters) /\
    _more_routes (fst out) = true /\
    if snd out then
      fst out = last /\
      exists failed sp,
        tried = failed ++ [(sp, true)] /\
        Forall (fun call => snd call = false) failed
    else
      fst out = set_more_routes true last /\
      length tried = length parameters /\
      Forall (fun call => snd call = false) tried.

(** The calls [tried], made from the state [st] on, were answered by the
    pricing engine: each of them was solved, with the time then
    remaining, in a state of the run that has the settings of [st] and
    has logged the calls before it, and its flag is what the engine
    answered there. *)
Definition answered_by_engine {HH : Type} (time : @VRP HH -> Q)
    (subproblem_solve :
       SubProblem -> option Q -> @VRP HH -> list Route.t * bool)
    (st : @VRP HH) (tried : list (SubProblem * bool)) : Prop :=
  forall before call after, tried = before ++ call :: after ->
    exists s : @VRP HH,
      same_settings st s /\
      pricing_log s = pricing_log st ++ before /\
      snd call
      = snd (subproblem_solve (fst call) (time_remaining time s false) s).

(** *** A tagged route and its column *)

(** The route [tagged] is [route] with the heuristic tag [tag]: its
    ["heuristic"] attribute is [tag] and everything else is as in
    [route]. *)
Definition tagged_with (tag : string) (route tagged : Route.t) : Prop :=
  Route.heuristic tagged = Some tag /\
  Route.name tagged = Route.name route /\
  Route.nodes tagged = Route.nodes route /\
  Route.edges tagged = Route.edges route /\
  Route.cost tagged = Route.cost route /\
  Route.vehicle_type tagged = Route.vehicle_type route.

(** The column of [route] has entered the constraints of [m], giving
    [m'].  The covering constraint of every node of the route other than
    Source and Sink is there, and gains the term of the route's variable
    with coefficient 1, once for each time the node is among the route's
    nodes (once, in a digraph); the constraints of Source, of Sink and of
    the nodes the route does not visit are as they were.  The bound
    constraint of the route's vehicle type, when the fleet has a bound
    for that type, is there and gains the same term once; the other bound
    constraints are as they were.  The objective gains the variable with
    the route's cost. *)
Definition column_entered (route : Route.t) (m m' : MasterSolvePulp.t)
  : Prop :=
  let v := Pulp.y_ (Route.name route) in
  let fleet := Z.of_nat (length (MasterSolvePulp.num_vehicles m)) in
  (forall node, In node (Route.nodes route) ->
     node <> "Source" -> node <> "Sink" ->
     is_Some (MasterSolvePulp.set_covering_constrs m !! node)) /\
  (forall node,
     MasterSolvePulp.set_covering_constrs m' !! node
     = if String.eqb node "Source" || String.eqb node "Sink"
       then MasterSolvePulp.set_covering_constrs m !! node
       else with_terms
              (repeat (v, 1%Q)
                 (count_occ String.string_dec (Route.nodes route) node))
            <$> MasterSolvePulp.set_covering_constrs m !! node) /\
  (forall k, Route.vehicle_type route = k -> 0 <= k < fleet ->
     exists c,
       MasterSolvePulp.vehicle_bound_constrs m !! k = Some c /\
       MasterSolvePulp.vehicle_bound_constrs m' !! k
       = Some (with_terms [(v, 1%Q)] c)) /\
  (forall k, ~ (Route.vehicle_type route = k /\ 0 <= k < fleet) ->
     MasterSolvePulp.vehicle_bound_constrs m' !! k
     = MasterSolvePulp.vehicle_bound_constrs m !! k) /\
  MasterSolvePulp.objective m'
  = with_terms [(v, Route.cost route)] (MasterSolvePulp.objective m).

(** ** Worked instances *)

Module Instance.

Import Pulp.

Definition not_solved : Solution :=
  mkSolution LpStatusNotSolved None (fun _ => None) (fun _ => None).

Definition infeasible : Solution :=
  mkSolution LpStatusInfeasible None (fun _ => None) (fun _ => None).

(** An optimal solution: the objective value and one value for all
    variables; all duals are 0. *)
Definition optimal (objective value : Q) : Solution :=
  mkSolution LpStatusOptimal (Some objective) (fun _ => Some value)
             (fun _ => Some 0%Q).

(** A master problem without columns and constraints, solved with cbc. *)
Definition empty_master : MasterSolvePulp.t :=
  {| MasterSolvePulp.drop_penalty := None;
     MasterSolvePulp.num_vehicles := [];
     MasterSolvePulp.periodic := None;
     MasterSolvePulp.solver := "cbc";
     MasterSolvePulp.y := ∅;
     MasterSolvePulp.drop := [];
     MasterSolvePulp.dummy := [];
     MasterSolvePulp.dummy_bound := [];
     MasterSolvePulp.set_covering_constrs := ∅;
     MasterSolvePulp.vehicle_bound_constrs := ∅;
     MasterSolvePulp.objective := mkConstr None None [];
     MasterSolvePulp.dropped_nodes := [];
     MasterSolvePulp.prob := not_solved |}.

(** The network Source, a, Sink with demands 0, 1, 0 and unit costs. *)
Definition line_network : Network.t :=
  {| Network.nodes := [("Source", {["demand" := 0%Q]});
                       ("a", {["demand" := 1%Q]});
                       ("Sink", {["demand" := 0%Q]})];
     Network.edges := <[("Source", "a") := [1%Q]]>
                        (<[("a", "Sink") := [1%Q]]>
                           (<[("Source", "Sink") := [0%Q]]> ∅)) |}.

(** The route Source, a, Sink, named 1. *)
Definition route1 : Route.t :=
  {| Route.name := 1; Route.nodes := ["Source"; "a"; "Sink"];
     Route.edges := [(("Source", "a"), 1%Q); (("a", "Sink"), 1%Q)];
     Route.cost := 2%Q; Route.vehicle_type := 0; Route.heuristic := None |}.

(** The master problem of [line_network] with the one column [route1],
    whose variable has the value 1/4. *)
Definition quarter_master : MasterSolvePulp.t :=
  {| MasterSolvePulp.drop_penalty := None;
     MasterSolvePulp.num_vehicles := [];
     MasterSolvePulp.periodic := None;
     MasterSolvePulp.solver := "cbc";
     MasterSolvePulp.y := {[1 := mkVar (y_ 1) (Some 0%Q) (Some 1%Q) LpContinuous]};
     MasterSolvePulp.drop := [];
     MasterSolvePulp.dummy := [];
     MasterSolvePulp.dummy_bound := [];
     MasterSolvePulp.set_covering_constrs :=
       {["a" := mkConstr (Some LpConstraintGE) (Some 1%Q) [(y_ 1, 1%Q)]]};
     MasterSolvePulp.vehicle_bound_constrs := ∅;
     MasterSolvePulp.objective := mkConstr None None [(y_ 1, 2%Q)];
     MasterSolvePulp.dropped_nodes := [];
     MasterSolvePulp.prob := optimal (1 # 2) (1 # 4) |}.


(** The master problem of [line_network] with the one column [route1]. *)
Definition line_master : MasterSolvePulp.t :=
  {| MasterSolvePulp.drop_penalty := None;
     MasterSolvePulp.num_vehicles := [];
     MasterSolvePulp.periodic := None;
     MasterSolvePulp.solver := "cbc";
     MasterSolvePulp.y := {[1 := mkVar (y_ 1) (Some 0%Q) (Some 1%Q) LpInteger]};
     MasterSolvePulp.drop := [];
     MasterSolvePulp.dummy := [];
     MasterSolvePulp.dummy_bound := [];
     MasterSolvePulp.set_covering_constrs :=
       {["a" := mkConstr (Some LpConstraintGE) (Some 1%Q) [(y_ 1, 1%Q)]]};
     MasterSolvePulp.vehicle_bound_constrs := ∅;
     MasterSolvePulp.objective := mkConstr None None [(y_ 1, 2%Q)];
     MasterSolvePulp.dropped_nodes := [];
     MasterSolvePulp.prob := not_solved |}.

(** A second route through a, named 2, as a pricing subproblem builds it. *)
Definition route2 : Route.t :=
  {| Route.name := 2; Route.nodes := ["Source"; "a"; "Sink"];
     Route.edges := [(("Source", "a"), 1%Q); (("a", "Sink"), 1%Q)];
     Route.cost := 2%Q; Route.vehicle_type := 0; Route.heuristic := None |}.

(** A selector that does nothing and always picks BestPaths. *)
Definition selector : @HyperHeuristic unit :=
  {| initialisation := true; performance_measure := "Weighted average";
     n_exact := 0; timeend := None; inner := tt |}.

(** The state [solve] hands to [_column_generation] on [line_network],
    for a configured pricing strategy: one vehicle type, no time limit,
    no iteration limit, no greedy pre-pass, no diving. *)
Definition start (pricing_strategy : string) : @VRP unit :=
  {| G := line_network; time_windows := false; pickup_delivery := false;
     distribution_collection := false; masterproblem := line_master;
     routes := [route1]; _solver := "cbc"; _time_limit := None;
     _pricing_strategy := pricing_strategy; _exact := true; _cspy := true;
     _dive := false; _start_time := 0%Q; _greedy := false;
     _max_iter := None; _more_routes := true; _iteration := 0;
     _no_improvement := 0; _lower_bound := [];
     _initial_routes := [["Source"; "a"; "Sink"]]; _preassignments := [];
     _routes_with_node := {["a" := [1]]}; _vehicle_types := 1;
     hyper_heuristic := selector; produced_column := None;
     do_exact := 1000; pricing_log := [] |}.

(** A pricing engine that never finds a route, and one that always finds
    [route2]. *)
Definition never_finds (sp : SubProblem) (time_remaining : option Q)
    (st : @VRP unit) : list Route.t * bool :=
  (routes st, false).

Definition always_finds (sp : SubProblem) (time_remaining : option Q)
    (st : @VRP unit) : list Route.t * bool :=
  ([route1; route2], true).

(** One iteration and the loop, with a given pricing engine, a solver
    that always reports the optimum 10 with all variables at 1, and the
    selector above. *)
Definition find_columns_with
    (engine : SubProblem -> option Q -> @VRP unit -> list Route.t * bool)
    (st : @VRP unit) : result (@VRP unit) :=
  _find_columns (fun _ => 0%Q) engine (fun _ _ st => (routes st, false))
    (fun _ _ _ => optimal 10 1) (fun _ => optimal 10 1) (fun m => m)
    (fun hh _ => hh) (fun hh _ => hh) (fun hh _ _ _ => hh)
    (fun hh => (true, hh)) (fun hh => hh) (fun hh => ("BestPaths", hh)) st.

Definition column_generation_with
    (engine : SubProblem -> option Q -> @VRP unit -> list Route.t * bool)
    (fuel : nat) (st : @VRP unit) : result (Exit * @VRP unit) :=
  _column_generation (fun _ => 0%Q) engine (fun _ _ st => (routes st, false))
    (fun _ _ _ => optimal 10 1) (fun _ => optimal 10 1) (fun m => m)
    (fun hh _ => hh) (fun hh _ => hh) (fun hh _ _ _ => hh)
    (fun hh => (true, hh)) (fun hh => hh) (fun hh => ("BestPaths", hh))
    fuel st.

(** [start] with every customer preassigned to a complete route, as
    [solve] leaves it before [_pre_solve]. *)
Definition all_preassigned : @VRP unit :=
  {| G := line_network; time_windows := false; pickup_delivery := false;
     distribution_collection := false; masterproblem := line_master;
     routes := []; _solver := "cbc"; _time_limit := None;
     _pricing_strategy := "BestEdges1"; _exact := true; _cspy := true;
     _dive := false; _start_time := 0%Q; _greedy := false;
     _max_iter := None; _more_routes := true; _iteration := 0;
     _no_improvement := 0; _lower_bound := [];
     _initial_routes := []; _preassignments := [["Source"; "a"; "Sink"]];
     _routes_with_node := ∅; _vehicle_types := 1;
     hyper_heuristic := selector; produced_column := None;
     do_exact := 1000; pricing_log := [] |}.

(** The network Source, a, b, Sink in which a and b are joined both
    ways. *)
Definition loop_network : Network.t :=
  {| Network.nodes := [("Source", {["demand" := 0%Q]});
                       ("a", {["demand" := 1%Q]});
                       ("b", {["demand" := 1%Q]});
                       ("Sink", {["demand" := 0%Q]})];
     Network.edges := <[("Source", "a") := [1%Q]]>
                        (<[("a", "b") := [1%Q]]>
                           (<[("b", "a") := [1%Q]]>
                              (<[("a", "Sink") := [1%Q]]> ∅))) |}.

(** An initial route from Source to Sink that passes a twice. *)
Definition detour : list string := ["Source"; "a"; "b"; "a"; "Sink"].

(** The state in which [_initialize] converts given initial routes. *)
Definition initial (g : Network.t) (initial_routes : list (list string))
  : @VRP unit :=
  {| G := g; time_windows := false; pickup_delivery := false;
     distribution_collection := false; masterproblem := empty_master;
     routes := []; _solver := "cbc"; _time_limit := None;
     _pricing_strategy := "BestEdges1"; _exact := true; _cspy := true;
     _dive := false; _start_time := 0%Q; _greedy := false;
     _max_iter := None; _more_routes := true; _iteration := 0;
     _no_improvement := 0; _lower_bound := [];
     _initial_routes := initial_routes; _preassignments := [];
     _routes_with_node := ∅; _vehicle_types := 1;
     hyper_heuristic := selector; produced_column := None;
     do_exact := 1000; pricing_log := [] |}.

(** A master problem as [__init__] has it before [_formulate], without a
    drop penalty. *)
Definition before_formulation (num_vehicles : list Z) (periodic : option Z)
    (solver : string) : MasterSolvePulp.t :=
  {| MasterSolvePulp.drop_penalty := None;
     MasterSolvePulp.num_vehicles := num_vehicles;
     MasterSolvePulp.periodic := periodic;
     MasterSolvePulp.solver := solver;
     MasterSolvePulp.y := ∅;
     MasterSolvePulp.drop := [];
     MasterSolvePulp.dummy := [];
     MasterSolvePulp.dummy_bound := [];
     MasterSolvePulp.set_covering_constrs := ∅;
     MasterSolvePulp.vehicle_bound_constrs := ∅;
     MasterSolvePulp.objective := mkConstr None None [];
     MasterSolvePulp.dropped_nodes := [];
     MasterSolvePulp.prob := Instance.not_solved |}.

(** A route through a node that is not in [line_network]. *)
Definition stray_route : Route.t :=
  {| Route.name := 3; Route.nodes := ["Source"; "z"; "Sink"];
     Route.edges := [(("Source", "z"), 1%Q); (("z", "Sink"), 1%Q)];
     Route.cost := 2%Q; Route.vehicle_type := 0; Route.heuristic := None |}.

(** [start "BestEdges1"] with an iteration limit. *)
Definition limited (max_iter : Z) : @VRP unit :=
  {| G := line_network; time_windows := false; pickup_delivery := false;
     distribution_collection := false; masterproblem := line_master;
     routes := [route1]; _solver := "cbc"; _time_limit := None;
     _pricing_strategy := "BestEdges1"; _exact := true; _cspy := true;
     _dive := false; _start_time := 0%Q; _greedy := false;
     _max_iter := Some max_iter; _more_routes := true; _iteration := 0;
     _no_improvement := 0; _lower_bound := [];
     _initial_routes := [["Source"; "a"; "Sink"]]; _preassignments := [];
     _routes_with_node := {["a" := [1]]}; _vehicle_types := 1;
     hyper_heuristic := selector; produced_column := None;
     do_exact := 1000; pricing_log := [] |}.

(** [all_preassigned] with the open route Source, a preassigned instead. *)
Definition open_preassigned : @VRP unit :=
  {| G := line_network; time_windows := false; pickup_delivery := false;
     distribution_collection := false; masterproblem := line_master;
     routes := []; _solver := "cbc"; _time_limit := None;
     _pricing_strategy := "BestEdges1"; _exact := true; _cspy := true;
     _dive := false; _start_time := 0%Q; _greedy := false;
     _max_iter := None; _more_routes := true; _iteration := 0;
     _no_improvement := 0; _lower_bound := [];
     _initial_routes := []; _preassignments := [["Source"; "a"]];
     _routes_with_node := ∅; _vehicle_types := 1;
     hyper_heuristic := selector; produced_column := None;
     do_exact := 1000; pricing_log := [] |}.

(** [line_network] with time windows, service times and travel times:
    the customer a opens at 5 and takes 2 to serve; every edge takes 3. *)
Definition timed_line : Timed.t :=
  {| Timed.network :=
       {| Network.nodes :=
            [("Source", {["demand" := 0%Q; "service_time" := 0%Q;
                          "lower" := 0%Q; "upper" := 0%Q]});
             ("a", {["demand" := 1%Q; "service_time" := 2%Q;
                     "lower" := 5%Q; "upper" := 20%Q]});
             ("Sink", {["demand" := 0%Q; "service_time" := 0%Q;
                        "lower" := 0%Q; "upper" := 0%Q]})];
          Network.edges := Network.edges line_network |};
     Timed.time := {[("Source", "a") := 3%Q; ("a", "Sink") := 3%Q]} |}.

End Instance.

(** * Properties *)

(** ** Facts about the helpers *)

Lemma bind_Ok {A B} (m : result A) (k : A -> result B) (b : B) :
  Py.bind m k = Ok b -> exists a, m = Ok a /\ k a = Ok b.
Proof. destruct m as [a|e]; simpl; intros H; [eauto | discriminate]. Qed.

Lemma bind_Raise {A B} (m : result A) (k : A -> result B) (e : exn) :
  Py.bind m k = Raise e ->
  m = Raise e \/ exists a, m = Ok a /\ k a = Raise e.
Proof. destruct m as [a|e']; simpl; intros H; [eauto | left; congruence]. Qed.

(** A loop that raises does so in one of its passes. *)
Lemma for_each_Raise {A S} (xs : list A) (body : A -> S -> result S) s e :
  Py.for_each xs body s = Raise e ->
  exists x s', In x xs /\ body x s' = Raise e.
Proof.
  revert s. induction xs as [|x xs IH]; simpl; intros s H; [discriminate|].
  apply bind_Raise in H as [H | (s1 & _ & H)].
  - exists x, s. auto.
  - destruct (IH _ H) as (x' & s' & Hin & Hb). exists x', s'. auto.
Qed.

(** A property kept by every pass is kept by the loop. *)
Lemma for_each_invariant {A S} (P : S -> Prop) (xs : list A)
    (body : A -> S -> result S) s s' :
  (forall x a b, In x xs -> P a -> body x a = Ok b -> P b) ->
  P s -> Py.for_each xs body s = Ok s' -> P s'.
Proof.
  revert s. induction xs as [|x xs IH]; simpl; intros s Hb Hs H.
  - congruence.
  - apply bind_Ok in H as (s1 & H1 & H2).
    apply (IH s1); eauto.
Qed.

Lemma Qgtb_true (a b : Q) : Py.Qgtb a b = true <-> (b < a)%Q.
Proof.
  unfold Py.Qgtb, Py.Qltb. rewrite negb_true_iff.
  split; intros H.
  - apply Qnot_le_lt. intros Hle. apply Qle_bool_iff in Hle. congruence.
  - destruct (Qle_bool a b) eqn:E; [|reflexivity].
    apply Qle_bool_iff in E. exfalso. exact (Qlt_not_le _ _ H E).
Qed.

Lemma Qgtb_false (a b : Q) : Py.Qgtb a b = false <-> (a <= b)%Q.
Proof.
  unfold Py.Qgtb, Py.Qltb. rewrite negb_false_iff. apply Qle_bool_iff.
Qed.

Lemma max_lower_bound (a b : Q) : (a <= Py.max a b)%Q.
Proof.
  unfold Py.max. destruct (Py.Qgtb b a) eqn:E.
  - apply Qgtb_true in E. apply Qlt_le_weak, E.
  - apply Qle_refl.
Qed.

(** ** The time budget *)

(** C4, as amended.  Without a time limit, and with a limit of zero (which
    Python takes as false), the remaining time is [None].  With any other
    limit a MIP request gets [max(5, remaining)], never less than 5; any
    other request gets the remaining time when it is positive, and 0 once
    the elapsed time has reached the limit. *)
Theorem get_time_remaining_spec (time_limit : option Q) (start_time now : Q) :
  (Py.truthy time_limit = false ->
   forall mip, _get_time_remaining time_limit start_time now mip = None) /\
  (forall limit, time_limit = Some limit -> ~ (limit == 0)%Q ->
   let remaining := (limit - (now - start_time))%Q in
   _get_time_remaining time_limit start_time now true
     = Some (Py.max 5 remaining) /\
   (5 <= Py.max 5 remaining)%Q /\
   ((0 < remaining)%Q ->
    _get_time_remaining time_limit start_time now false = Some remaining) /\
   ((limit <= now - start_time)%Q ->
    _get_time_remaining time_limit start_time now false = Some 0%Q)).
Proof.
  split.
  - intros H mip. unfold _get_time_remaining. now rewrite H.
  - intros limit -> Hnz remaining.
    assert (Ht : Py.truthy (Some limit) = true).
    { simpl. apply negb_true_iff. destruct (Qeq_bool limit 0) eqn:E; [|easy].
      apply Qeq_bool_iff in E. contradiction. }
    unfold _get_time_remaining. rewrite Ht. fold remaining.
    repeat split.
    + apply max_lower_bound.
    + intros Hpos. apply Qgtb_true in Hpos. now rewrite Hpos.
    + intros Hle.
      assert (E : Py.Qgtb remaining 0 = false).
      { apply Qgtb_false. unfold remaining. lra. }
      now rewrite E.
Qed.

Lemma get_time_remaining_spec_witness :
  _get_time_remaining (Some 10%Q) 0%Q 3%Q true = Some (Py.max 5 (10 - (3 - 0)))
  /\ _get_time_remaining (Some 10%Q) 0%Q 3%Q false = Some (10 - (3 - 0))%Q
  /\ _get_time_remaining (Some 10%Q) 0%Q 12%Q false = Some 0%Q
  /\ _get_time_remaining None 0%Q 12%Q false = None.
Proof.
  assert (Hnz : ~ (10 == 0)%Q) by discriminate.
  destruct (get_time_remaining_spec (Some 10%Q) 0%Q 3%Q) as [_ H3].
  destruct (H3 10%Q eq_refl Hnz) as (Hmip & _ & Hpos & _).
  destruct (get_time_remaining_spec (Some 10%Q) 0%Q 12%Q) as [_ H12].
  destruct (H12 10%Q eq_refl Hnz) as (_ & _ & _ & Hup).
  destruct (get_time_remaining_spec None 0%Q 12%Q) as [Hnone _].
  split; [exact Hmip|].
  split; [apply Hpos; reflexivity|].
  split; [apply Hup; discriminate|].
  apply Hnone. reflexivity.
Defined.

(** C4 as stated fails for a configured limit of 0: the elapsed time (1)
    has reached the limit, yet the answer is [None], not 0, and a MIP
    request gets [None] too, not [max(5, remaining)]. *)
Lemma get_time_remaining_zero_limit :
  (0 <= 1 - 0)%Q /\
  _get_time_remaining (Some 0%Q) 0%Q 1%Q false <> Some 0%Q /\
  _get_time_remaining (Some 0%Q) 0%Q 1%Q true
    <> Some (Py.max 5 (0 - (1 - 0))).
Proof. repeat split; discriminate. Qed.

(** ** The master problem *)

Lemma LpStatus_Optimal (s : Pulp.Status) :
  String.eqb (Pulp.LpStatus s) "Optimal" = true <-> s = Pulp.LpStatusOptimal.
Proof. destruct s; simpl; split; congruence. Qed.

Lemma get_duals_raises G m e :
  MasterSolvePulp.get_duals G m = Raise e -> e = KeyError.
Proof.
  unfold MasterSolvePulp.get_duals. intros H.
  apply bind_Raise in H as [H | (nd & _ & H)].
  - apply for_each_Raise in H as (n & acc & _ & H).
    destruct (_ && _) in H; [|discriminate].
    destruct (MasterSolvePulp.set_covering_constrs m !! n.1);
      simpl in H; congruence.
  - destruct (_ && _) in H; [|discriminate].
    apply bind_Raise in H as [H | (ub & _ & H)]; [|discriminate].
    apply for_each_Raise in H as (k & acc & _ & H).
    destruct (MasterSolvePulp.vehicle_bound_constrs m !! k);
      simpl in H; congruence.
Qed.

(** C5, as amended.  [solve] raises its status exception exactly when the
    status the solver left is not Optimal, for the relaxed and for the
    integer solve alike; the message names the status. *)
Theorem solve_raises_iff_not_optimal
    (lp_solve : string -> option Q -> MasterSolvePulp.t -> Pulp.Solution)
    (G : Network.t) (routes : list Route.t) (m : MasterSolvePulp.t)
    (relax : bool) (time_limit : option Q) :
  let status :=
    Pulp.status (MasterSolvePulp.prob
                   (MasterSolvePulp._solve lp_solve m relax time_limit)) in
  ((exists msg, MasterSolvePulp.solve lp_solve G routes m relax time_limit
                = Raise (Exception msg))
   <-> status <> Pulp.LpStatusOptimal)
  /\ (status <> Pulp.LpStatusOptimal ->
      MasterSolvePulp.solve lp_solve G routes m relax time_limit
      = Raise (Exception (String.append "problem " (Pulp.LpStatus status)))).
Proof.
  intros status.
  assert (Hne : status <> Pulp.LpStatusOptimal ->
                MasterSolvePulp.solve lp_solve G routes m relax time_limit
                = Raise (Exception (String.append "problem "
                                                  (Pulp.LpStatus status)))).
  { intros Hs. unfold MasterSolvePulp.solve. fold status.
    destruct (String.eqb (Pulp.LpStatus status) "Optimal") eqn:E; [|reflexivity].
    apply LpStatus_Optimal in E. contradiction. }
  split; [|exact Hne].
  split.
  - intros [msg H] Hs. unfold MasterSolvePulp.solve in H. fold status in H.
    rewrite Hs in H. simpl in H.
    apply bind_Raise in H as [H | (u & _ & H)].
    + destruct relax; [|discriminate].
      apply for_each_Raise in H as (r & u & _ & H).
      unfold MasterSolvePulp.y_value in H.
      destruct (MasterSolvePulp.y _ !! Route.name r); simpl in H;
        [|discriminate].
      destruct (Pulp.varValue _ _); simpl in H; discriminate.
    + apply bind_Raise in H as [H | (d & _ & H)]; [|discriminate].
      apply get_duals_raises in H. discriminate.
  - intros Hs. eexists. apply Hne, Hs.
Qed.

Lemma solve_raises_iff_not_optimal_witness :
  MasterSolvePulp.solve (fun _ _ _ => Instance.infeasible) Instance.line_network
    [] Instance.empty_master true None
  = Raise (Exception "problem Infeasible").
Proof.
  apply (solve_raises_iff_not_optimal (fun _ _ _ => Instance.infeasible)
           Instance.line_network [] Instance.empty_master true None).
  discriminate.
Defined.

(** C5 as stated fails on the integer solve: with [relax=False] and the
    status Infeasible, [solve] raises all the same, and the MIP step of
    the problem's [solve], which calls it, lets the exception through. *)
Lemma integer_solve_raises :
  MasterSolvePulp.solve (fun _ _ _ => Instance.infeasible) Instance.line_network
    [] Instance.empty_master false None
  = Raise (Exception "problem Infeasible") /\
  solve_as_mip (fun _ => 0%Q) (fun _ _ _ => Instance.infeasible)
    (fun _ => Instance.infeasible) (Instance.start "BestEdges1")
  = Raise (Exception "problem Infeasible").
Proof. split; reflexivity. Qed.

Lemma best_routes_loop (m : MasterSolvePulp.t)
    (body : Route.t -> list Route.t -> result (list Route.t)) :
  (forall r best best',
     body r best = Ok best' ->
     best' = if value_above 0 m r then best ++ [r] else best) ->
  forall routes best best',
    Py.for_each routes body best = Ok best' ->
    best' = best ++ List.filter (value_above 0 m) routes.
Proof.
  intros Hbody routes. induction routes as [|r routes IH]; simpl.
  - intros best best' H. rewrite app_nil_r. congruence.
  - intros best best' H. apply bind_Ok in H as (b1 & H1 & H2).
    apply Hbody in H1. apply IH in H2. subst.
    destruct (value_above 0 m r); [|reflexivity].
    now rewrite <- app_assoc.
Qed.

(** C6, as amended.  [get_total_cost_and_routes] returns exactly the
    routes whose selection variable has a value strictly above 0, in the
    order of the route list; the threshold is 0, not 0.5. *)
Theorem get_total_cost_and_routes_selected
    (lp_resolve : MasterSolvePulp.t -> Pulp.Solution)
    (G : Network.t) (routes : list Route.t) (m : MasterSolvePulp.t)
    (relax : bool) m' total_cost best_routes :
  MasterSolvePulp.get_total_cost_and_routes lp_resolve G routes m relax
    = Ok (m', total_cost, best_routes) ->
  best_routes = List.filter (value_above 0 m) routes.
Proof.
  unfold MasterSolvePulp.get_total_cost_and_routes. intros H.
  apply bind_Ok in H as (best & Hbest & H).
  apply bind_Ok in H as (m1 & _ & H). injection H as _ _ <-.
  apply (best_routes_loop m) in Hbest; [exact Hbest|].
  clear. intros r best best' H.
  unfold value_above. unfold MasterSolvePulp.y_value in H.
  destruct (MasterSolvePulp.y m !! Route.name r) as [v|]; simpl in H;
    [|discriminate].
  destruct (Pulp.varValue (MasterSolvePulp.prob m) (Pulp.var v)) as [x|];
    [|congruence].
  destruct (Py.Qgtb x 0); [|congruence].
  apply bind_Ok in H as (p & _ & H).
  apply bind_Ok in H as (u & _ & H). congruence.
Qed.

Lemma get_total_cost_and_routes_selected_witness :
  [Instance.route1]
  = List.filter (value_above 0 Instance.quarter_master) [Instance.route1].
Proof.
  eapply (get_total_cost_and_routes_selected
            (fun _ => Instance.optimal (1 # 2) (1 # 4))
            Instance.line_network [Instance.route1] Instance.quarter_master
            false).
  reflexivity.
Defined.

(** C6 as stated fails: a route whose variable has the value 1/4, below
    the 0.5 threshold, is returned as selected. *)
Lemma route_below_half_is_returned :
  value_above (1 # 2) Instance.quarter_master Instance.route1 = false /\
  exists m' total_cost,
    MasterSolvePulp.get_total_cost_and_routes
      (fun _ => Instance.optimal (1 # 2) (1 # 4))
      Instance.line_network [Instance.route1] Instance.quarter_master false
    = Ok (m', total_cost, [Instance.route1]).
Proof. split; [reflexivity|]. eexists _, _. reflexivity. Qed.

(** ** Pricing attempts *)

Section PricingFacts.

Context {HH : Type}.
Variable time : @VRP HH -> Q.
Variable subproblem_solve :
  SubProblem -> option Q -> @VRP HH -> list Route.t * bool.

Local Abbreviation run_subproblem := (run_subproblem time subproblem_solve).
Local Abbreviation sweep := (sweep time subproblem_solve).

Lemma run_subproblem_log sp (st : @VRP HH) :
  pricing_log (run_subproblem sp st)
  = pricing_log st ++ [(sp, _more_routes (run_subproblem sp st))].
Proof. reflexivity. Qed.

Lemma run_subproblem_cspy sp (st : @VRP HH) :
  _cspy (run_subproblem sp st) = _cspy st.
Proof. reflexivity. Qed.

Lemma def_subproblem_cspy (st st' : @VRP HH) duals vehicle strategy p g :
  _cspy st' = _cspy st ->
  _def_subproblem st' duals vehicle strategy p g
  = _def_subproblem st duals vehicle strategy p g.
Proof. unfold _def_subproblem. now intros ->. Qed.

Lemma sweep_cons strategy p rest vehicle duals (st : @VRP HH) :
  sweep strategy (p :: rest) vehicle duals st
  = let st1 := run_subproblem
                 (_def_subproblem st duals vehicle strategy (Some p) false)
                 st in
    if _more_routes st1 then (st1, true)
    else sweep strategy rest vehicle duals st1.
Proof. reflexivity. Qed.

Lemma sweep_spec strategy parameters vehicle duals (st : @VRP HH) :
  sweep_outcome strategy parameters vehicle duals st
                (sweep strategy parameters vehicle duals st).
Proof.
  revert st. induction parameters as [|p rest IH]; intros st.
  - exists []. simpl. rewrite app_nil_r. repeat split; constructor.
  - rewrite sweep_cons.
    set (sp := _def_subproblem st duals vehicle strategy (Some p) false).
    cbv zeta.
    destruct (_more_routes (run_subproblem sp st)) eqn:E.
    + exists [(sp, true)]. cbn [fst snd length firstn map].
      rewrite run_subproblem_log, E.
      split; [reflexivity|]. split; [reflexivity|]. split; [reflexivity|].
      exists [], sp. split; [reflexivity | constructor].
    + destruct (IH (run_subproblem sp st))
        as (tried & Hlog & Hcalls & Hflag & Hout).
      exists ((sp, false) :: tried). cbn [fst snd length firstn map].
      rewrite Hlog, run_subproblem_log, E, <- app_assoc.
      split; [reflexivity|]. split.
      { f_equal. rewrite Hcalls. apply map_ext. intros q.
        apply def_subproblem_cspy, run_subproblem_cspy. }
      split; [exact Hflag|].
      destruct (snd (sweep strategy rest vehicle duals (run_subproblem sp st))).
      * destruct Hout as (failed & sp' & -> & Hfailed).
        exists ((sp, false) :: failed), sp'. split; [reflexivity|].
        constructor; [reflexivity | exact Hfailed].
      * destruct Hout as [Hlen Hfailed]. split; [now rewrite Hlen|].
        constructor; [reflexivity | exact Hfailed].
Qed.

Lemma sweep_calls_fields strategy parameters vehicle duals (st : @VRP HH)
    (tried : list (SubProblem * bool)) :
  map fst tried
  = map (fun p => _def_subproblem st duals vehicle strategy (Some p) false)
        parameters ->
  Forall2 (fun call p =>
             sp_pricing_strategy (fst call) = strategy /\
             sp_pricing_parameter (fst call) = Some p /\
             sp_vehicle_type (fst call) = vehicle /\
             sp_duals (fst call) = duals /\
             sp_class (fst call) <> SubProblemGreedy)
          tried parameters.
Proof.
  revert parameters. induction tried as [|c tried IH];
    intros [|p ps] H; try discriminate; constructor; simpl in H.
  - inversion H as [[Hc Ht]]. rewrite Hc. unfold _def_subproblem.
    destruct (_cspy st); repeat split; discriminate.
  - inversion H as [[Hc Ht]]. eapply IH, Ht.
Qed.

Lemma sweep_trace_pinned strategy parameters vehicle duals (st : @VRP HH) :
  exists (tried : list (SubProblem * bool)) (last : @VRP HH),
    engine_calls time subproblem_solve st tried last /\
    pricing_log (fst (sweep strategy parameters vehicle duals st))
    = pricing_log st ++ tried /\
    map fst tried
    = map (fun p => _def_subproblem st duals vehicle strategy (Some p) false)
          (firstn (length tried) parameters) /\
    _more_routes (fst (sweep strategy parameters vehicle duals st)) = true /\
    if snd (sweep strategy parameters vehicle duals st) then
      fst (sweep strategy parameters vehicle duals st) = last /\
      exists failed sp,
        tried = failed ++ [(sp, true)] /\
        Forall (fun call => snd call = false) failed
    else
      fst (sweep strategy parameters vehicle duals st)
      = set_more_routes true last /\
      length tried = length parameters /\
      Forall (fun call => snd call = false) tried.
Proof.
  revert st. induction parameters as [|p rest IH]; intros st.
  - exists [], st. cbn. rewrite app_nil_r.
    repeat split; constructor.
  - rewrite sweep_cons.
    set (sp := _def_subproblem st duals vehicle strategy (Some p) false).
    cbv zeta.
    assert (Hcall : forall calls last,
               engine_calls time subproblem_solve (run_subproblem sp st)
                            calls last ->
               engine_calls time subproblem_solve st
                 ((sp, _more_routes (run_subproblem sp st)) :: calls) last).
    { intros calls last Hrest.
      exact (engine_called time subproblem_solve st last sp
               (subproblem_solve sp (time_remaining time st false) st) calls
               eq_refl Hrest). }
    destruct (_more_routes (run_subproblem sp st)) eqn:E.
    + exists [(sp, true)], (run_subproblem sp st).
      cbn [fst snd length firstn map].
      split; [apply Hcall, engine_idle|].
      rewrite run_subproblem_log, E.
      split; [reflexivity|]. split; [reflexivity|]. split; [reflexivity|].
      split; [reflexivity|].
      exists [], sp. split; [reflexivity | constructor].
    + destruct (IH (run_subproblem sp st))
        as (tried & last & Hcalls & Hlog & Hmap & Hflag & Hout).
      exists ((sp, false) :: tried), last. cbn [fst snd length firstn map].
      split; [apply Hcall, Hcalls|].
      rewrite Hlog, run_subproblem_log, E, <- app_assoc.
      split; [reflexivity|]. split.
      { f_equal. rewrite Hmap. apply map_ext. intros q.
        apply def_subproblem_cspy, run_subproblem_cspy. }
      split; [exact Hflag|].
      destruct (snd (sweep strategy rest vehicle duals (run_subproblem sp st))).
      * destruct Hout as (Hlast & failed & sp' & -> & Hfailed).
        split; [exact Hlast|].
        exists ((sp, false) :: failed), sp'. split; [reflexivity|].
        constructor; [reflexivity | exact Hfailed].
      * destruct Hout as (Hlast & Hlen & Hfailed).
        split; [exact Hlast|]. split; [now rewrite Hlen|].
        constructor; [reflexivity | exact Hfailed].
Qed.

Lemma sweep_trace_spec strategy parameters vehicle duals (st : @VRP HH) :
  sweep_trace time subproblem_solve strategy parameters vehicle duals st
              (sweep strategy parameters vehicle duals st).
Proof.
  destruct (sweep_trace_pinned strategy parameters vehicle duals st)
    as (tried & last & Hcalls & Hlog & Hmap & Hflag & Hout).
  exists tried, last. split; [exact Hcalls|]. split; [exact Hlog|].
  split; [exact Hmap|]. split; [now apply sweep_calls_fields in Hmap|].
  split; [exact Hflag | exact Hout].
Qed.

(** C7.  Each heuristic attempt solves one subproblem per value of its
    parameter list, in the order of the list (BestPaths 3, 5, 7, 9;
    BestEdges1 0.3, 0.5, 0.7, 0.9; BestEdges2 0.1, 0.2, 0.3), each with
    the pricing engine on the state the call before left; it stops at the
    first value for which the engine reports a route, and returns
    [produced_column] false only when the engine was asked for every value
    and reported no route each time. *)
Theorem attempts_sweep_their_parameters vehicle duals (st : @VRP HH) :
  sweep_trace time subproblem_solve "BestPaths" [3; 5; 7; 9]%Q vehicle duals
    st (_attempt_solve_best_paths time subproblem_solve vehicle duals st) /\
  sweep_trace time subproblem_solve "BestEdges1" [0.3; 0.5; 0.7; 0.9]%Q
    vehicle duals st
    (_attempt_solve_BestEdges1 time subproblem_solve vehicle duals st) /\
  sweep_trace time subproblem_solve "BestEdges2" [0.1; 0.2; 0.3]%Q vehicle
    duals st
    (_attempt_solve_BestEdges2 time subproblem_solve vehicle duals st).
Proof. repeat split; apply sweep_trace_spec. Qed.


Lemma untouched_refl (st : @VRP HH) : untouched_by_pricing st st.
Proof. repeat split. Qed.

Lemma untouched_trans (a b c : @VRP HH) :
  untouched_by_pricing a b -> untouched_by_pricing b c ->
  untouched_by_pricing a c.
Proof.
  unfold untouched_by_pricing. intros H1 H2.
  repeat match goal with H : _ /\ _ |- _ => destruct H end.
  repeat split; congruence.
Qed.

Lemma run_subproblem_untouched sp (st : @VRP HH) :
  untouched_by_pricing st (run_subproblem sp st).
Proof. repeat split. Qed.

Lemma sweep_untouched strategy parameters vehicle duals (st : @VRP HH) :
  untouched_by_pricing st (fst (sweep strategy parameters vehicle duals st)).
Proof.
  revert st. induction parameters as [|p rest IH]; intros st.
  - repeat split.
  - rewrite sweep_cons. cbv zeta.
    destruct (_more_routes _).
    + apply run_subproblem_untouched.
    + eapply untouched_trans; [apply run_subproblem_untouched | apply IH].
Qed.


Lemma sweep_calls_not_exact strategy parameters vehicle duals (st : @VRP HH)
    (tried : list (SubProblem * bool)) :
  map fst tried
  = map (fun p => _def_subproblem st duals vehicle strategy (Some p) false)
        parameters ->
  Forall (fun call => ~ is_exact_call call) tried.
Proof.
  revert parameters. induction tried as [|c tried IH];
    intros [|p ps] H; try discriminate; constructor; simpl in H.
  - inversion H as [[Hc Ht]]. unfold is_exact_call. intros [_ [Hp _]].
    rewrite Hc in Hp.
    destruct (_cspy st); discriminate.
  - inversion H as [[Hc Ht]]. eapply IH, Ht.
Qed.

Lemma exact_attempt_outcome vehicle duals (st0 st : @VRP HH) before :
  _pricing_strategy st = _pricing_strategy st0 ->
  pricing_log st = pricing_log st0 ++ before ->
  Forall failed before ->
  let out := _attempt_solve_Exact time subproblem_solve vehicle duals st in
  forall pricing_strategy,
  pricing_log (fst out)
  = pricing_log st0
    ++ (before ++ [(_def_subproblem st duals vehicle "Exact" None false,
                    snd out)])
  /\ attempt_outcome pricing_strategy vehicle st0 out
       (before ++ [(_def_subproblem st duals vehicle "Exact" None false,
                    snd out)]).
Proof.
  intros Hmode Hlog Hbefore out pricing_strategy. split.
  - unfold out, _attempt_solve_Exact. cbn [fst snd].
    now rewrite run_subproblem_log, Hlog, <- app_assoc.
  - eapply exact_attempted; [reflexivity | exact Hbefore | | | reflexivity
                            | reflexivity].
    + unfold is_exact_call, _def_subproblem. cbn [fst].
      destruct (_cspy st); repeat split; discriminate.
    + unfold _def_subproblem. cbn [fst]. now destruct (_cspy st).
Qed.


Lemma hyper_sweep_outcome strategy parameters vehicle duals (st : @VRP HH) :
  parameters <> [] ->
  _pricing_strategy st = "Hyper" ->
  let out := sweep strategy parameters vehicle duals st in
  forall pricing_strategy,
  exists tried,
    pricing_log (fst out) = pricing_log st ++ tried /\
    attempt_outcome pricing_strategy vehicle st out tried.
Proof.
  intros Hne Hmode out pricing_strategy.
  destruct (sweep_spec strategy parameters vehicle duals st)
    as (tried & Hlog & Hcalls & Hflag & Hout).
  fold out in Hlog, Hflag, Hout.
  exists tried. split; [exact Hlog|].
  apply sweep_calls_not_exact in Hcalls.
  destruct (snd out) eqn:E.
  - destruct Hout as (before & sp & -> & Hbefore).
    eapply heuristic_succeeded; eauto.
  - destruct Hout as [Hlen Hfailed].
    apply hyper_sweep_failed; auto.
    intros ->. destruct parameters; [congruence | discriminate].
Qed.

Lemma old_sweep_outcome strategy parameters vehicle duals (st : @VRP HH) :
  let swept := sweep strategy parameters vehicle duals st in
  let out := if negb (snd swept)
             then _attempt_solve_Exact time subproblem_solve vehicle duals
                                       (fst swept)
             else (fst swept, snd swept) in
  forall pricing_strategy,
  exists tried,
    pricing_log (fst out) = pricing_log st ++ tried /\
    attempt_outcome pricing_strategy vehicle st out tried.
Proof.
  intros swept out pricing_strategy.
  destruct (sweep_spec strategy parameters vehicle duals st)
    as (tried & Hlog & Hcalls & Hflag & Hout).
  pose proof (sweep_untouched strategy parameters vehicle duals st) as Hsame.
  fold swept in Hlog, Hflag, Hout, Hsame.
  apply sweep_calls_not_exact in Hcalls.
  unfold out. destruct (snd swept) eqn:E; cbn [negb].
  - exists tried. split; [exact Hlog|].
    destruct Hout as (before & sp & -> & Hbefore).
    eapply heuristic_succeeded; eauto.
  - destruct Hout as [Hlen Hfailed].
    destruct (exact_attempt_outcome vehicle duals st (fst swept) tried)
      with (pricing_strategy := pricing_strategy)
      as [Hlog' Hout']; auto.
    + apply Hsame.
    + eexists. split; [exact Hlog' | exact Hout'].
Qed.

Lemma attempt_spec pricing_strategy vehicle duals (st : @VRP HH) :
  let out := _solve_subproblem_with_heuristic time subproblem_solve
               pricing_strategy vehicle duals st in
  exists tried,
    pricing_log (fst out) = pricing_log st ++ tried /\
    attempt_outcome pricing_strategy vehicle st out tried.
Proof.
  unfold _solve_subproblem_with_heuristic.
  destruct (String.eqb (_pricing_strategy st) "Hyper") eqn:Hmode.
  - apply String.eqb_eq in Hmode.
    destruct (String.eqb pricing_strategy "BestPaths") eqn:E1;
      [apply hyper_sweep_outcome; [discriminate | exact Hmode]|].
    destruct (String.eqb pricing_strategy "BestEdges1") eqn:E2;
      [apply hyper_sweep_outcome; [discriminate | exact Hmode]|].
    destruct (String.eqb pricing_strategy "BestEdges2") eqn:E3;
      [apply hyper_sweep_outcome; [discriminate | exact Hmode]|].
    destruct (String.eqb pricing_strategy "Exact") eqn:E4.
    + cbv zeta.
      set (st1 := set_hyper_heuristic _ st).
      destruct (exact_attempt_outcome vehicle duals st st1 [])
        with (pricing_strategy := pricing_strategy)
        as [Hlog Hout]; [reflexivity | | constructor |].
      { unfold st1. simpl. now rewrite app_nil_r. }
      eexists. split; [exact Hlog | exact Hout].
    + exists []. split; [now rewrite app_nil_r|].
      apply hyper_nothing_attempted; auto.
      apply String.eqb_neq in E1, E2, E3, E4.
      intros [H|[H|[H|[H|[]]]]]; congruence.
  - destruct (String.eqb pricing_strategy "BestPaths") eqn:E1.
    { apply String.eqb_eq in E1.
      assert (Hx : String.eqb pricing_strategy "Exact" = false)
        by now rewrite E1.
      rewrite Hx. cbn [orb].
      pose proof (old_sweep_outcome "BestPaths" k_shortest_paths vehicle
                    duals st pricing_strategy) as H. cbv zeta in H.
      unfold _attempt_solve_best_paths.
      destruct (sweep _ _ _ _ _) as [st1 produced]. exact H. }
    destruct (String.eqb pricing_strategy "BestEdges1") eqn:E2.
    { apply String.eqb_eq in E2.
      assert (Hx : String.eqb pricing_strategy "Exact" = false)
        by now rewrite E2.
      rewrite Hx. cbn [orb].
      pose proof (old_sweep_outcome "BestEdges1" alpha vehicle duals st
                    pricing_strategy) as H. cbv zeta in H.
      unfold _attempt_solve_BestEdges1.
      destruct (sweep _ _ _ _ _) as [st1 produced]. exact H. }
    destruct (String.eqb pricing_strategy "BestEdges2") eqn:E3.
    { apply String.eqb_eq in E3.
      assert (Hx : String.eqb pricing_strategy "Exact" = false)
        by now rewrite E3.
      rewrite Hx. cbn [orb].
      pose proof (old_sweep_outcome "BestEdges2" ratio vehicle duals st
                    pricing_strategy) as H. cbv zeta in H.
      unfold _attempt_solve_BestEdges2.
      destruct (sweep _ _ _ _ _) as [st1 produced]. exact H. }
    rewrite orb_true_r.
    destruct (exact_attempt_outcome vehicle duals st st [])
      with (pricing_strategy := pricing_strategy)
      as [Hlog Hout]; [reflexivity | now rewrite app_nil_r | constructor |].
    eexists. split; [exact Hlog | exact Hout].
Qed.

Lemma attempt_untouched pricing_strategy vehicle duals (st : @VRP HH) :
  untouched_by_pricing st
    (fst (_solve_subproblem_with_heuristic time subproblem_solve
            pricing_strategy vehicle duals st)).
Proof.
  assert (Hx : forall s : @VRP HH,
             untouched_by_pricing s
               (fst (_attempt_solve_Exact time subproblem_solve vehicle duals
                       s))) by (intros s; repeat split).
  unfold _solve_subproblem_with_heuristic, _attempt_solve_best_paths,
    _attempt_solve_BestEdges1, _attempt_solve_BestEdges2.
  destruct (String.eqb (_pricing_strategy st) "Hyper").
  - repeat match goal with
           | |- context [if String.eqb ?a ?b then _ else _] =>
               destruct (String.eqb a b)
           end; try apply sweep_untouched; try apply untouched_refl.
    cbv zeta. eapply untouched_trans; [|apply Hx]. repeat split.
  - assert (Hfin : forall (p : @VRP HH * bool) c,
               untouched_by_pricing st (fst p) ->
               untouched_by_pricing st
                 (fst (let '(st1, produced_column) := p in
                       if c || negb produced_column
                       then _attempt_solve_Exact time subproblem_solve
                              vehicle duals st1
                       else (st1, produced_column)))).
    { intros [st1 produced] c H. cbn [fst] in *.
      destruct (c || negb produced); cbn [fst];
        [eapply untouched_trans; [exact H | apply Hx] | exact H]. }
    apply Hfin.
    repeat match goal with
           | |- context [if String.eqb ?a ?b then _ else _] =>
               destruct (String.eqb a b)
           end; try apply sweep_untouched; apply untouched_refl.
Qed.

End PricingFacts.

(** ** One iteration *)

(** Split the frame facts in the context and close a goal about a field
    of a rebuilt state. *)
Ltac frame :=
  unfold untouched_by_pricing, same_settings, same_counters in *;
  repeat match goal with H : _ /\ _ |- _ => destruct H end;
  cbn in *; repeat split; congruence.

Section IterationFacts.

Context {HH : Type}.
Variable time : @VRP HH -> Q.
Variable subproblem_solve :
  SubProblem -> option Q -> @VRP HH -> list Route.t * bool.
Variable greedy_solve : SubProblem -> Z -> @VRP HH -> list Route.t * bool.
Variable lp_solve : string -> option Q -> MasterSolvePulp.t -> Pulp.Solution.
Variable lp_resolve : MasterSolvePulp.t -> Pulp.Solution.
Variable run_dive : MasterSolvePulp.t -> MasterSolvePulp.t.
Variable set_current_objective :
  @HyperHeuristic HH -> option Q -> @HyperHeuristic HH.
Variable set_initial_time : @HyperHeuristic HH -> Q -> @HyperHeuristic HH.
Variable current_performance :
  @HyperHeuristic HH -> option Q -> option bool -> gmap string Z
  -> @HyperHeuristic HH.
Variable move_acceptance : @HyperHeuristic HH -> bool * @HyperHeuristic HH.
Variable update_parameters : @HyperHeuristic HH -> @HyperHeuristic HH.
Variable pick_heurestic : @HyperHeuristic HH -> string * @HyperHeuristic HH.

Local Abbreviation attempt :=
  (_solve_subproblem_with_heuristic time subproblem_solve).
Local Abbreviation search_columns := (search_columns time subproblem_solve).
Local Abbreviation greedy_columns := (greedy_columns greedy_solve).
Local Abbreviation pick_strategy :=
  (pick_strategy time set_current_objective set_initial_time
                 current_performance move_acceptance update_parameters
                 pick_heurestic).
Local Abbreviation _find_columns :=
  (_find_columns time subproblem_solve greedy_solve lp_solve lp_resolve
                 run_dive set_current_objective set_initial_time
                 current_performance move_acceptance update_parameters
                 pick_heurestic).
Local Abbreviation _column_generation :=
  (_column_generation time subproblem_solve greedy_solve lp_solve lp_resolve
                      run_dive set_current_objective set_initial_time
                      current_performance move_acceptance update_parameters
                      pick_heurestic).

Lemma same_settings_refl (st : @VRP HH) : same_settings st st.
Proof. repeat split. Qed.

Lemma same_settings_trans (a b c : @VRP HH) :
  same_settings a b -> same_settings b c -> same_settings a c.
Proof.
  unfold same_settings. intros H1 H2.
  repeat match goal with H : _ /\ _ |- _ => destruct H end.
  repeat split; congruence.
Qed.

Lemma same_counters_refl (st : @VRP HH) : same_counters st st.
Proof. repeat split. Qed.

Lemma same_counters_trans (a b c : @VRP HH) :
  same_counters a b -> same_counters b c -> same_counters a c.
Proof.
  unfold same_counters. intros H1 H2.
  repeat match goal with H : _ /\ _ |- _ => destruct H end.
  repeat split; congruence.
Qed.

Lemma untouched_settings (st st' : @VRP HH) :
  untouched_by_pricing st st' ->
  same_settings st st' /\ same_counters st st'
  /\ masterproblem st' = masterproblem st.
Proof.
  unfold untouched_by_pricing, same_settings, same_counters. intros H.
  repeat match goal with H : _ /\ _ |- _ => destruct H end.
  repeat split; congruence.
Qed.

(** The second half of the loop body: everything but the master problem,
    the routes, the selector and the log is as the pricing attempt left
    it. *)
Lemma search_columns_spec dyn duals vehicle (st st' : @VRP HH) :
  search_columns dyn duals vehicle st = Ok st' ->
  let out := attempt dyn vehicle duals (set_more_routes false st) in
  same_settings st st' /\ same_counters st st' /\
  _more_routes st' = _more_routes (fst out) /\
  produced_column st' = Some (snd out) /\
  pricing_log st' = pricing_log (fst out).
Proof.
  intros H out.
  destruct (untouched_settings _ _
              (attempt_untouched time subproblem_solve dyn vehicle duals
                 (set_more_routes false st))) as (Hs & Hc & _).
  fold out in Hs, Hc.
  unfold search_columns in H. cbv zeta in H. fold out in H.
  change (_more_routes (set_produced_column (Some (snd out)) (fst out)))
    with (_more_routes (fst out)) in H.
  destruct (_more_routes (fst out)) eqn:Hflag.
  - destruct (snd out) eqn:Hprod.
    + apply bind_Ok in H as (last & _ & H).
      apply bind_Ok in H as (rs & _ & H).
      apply bind_Ok in H as (m & _ & H).
      injection H as <-. clearbody out. frame.
    + injection H as <-. clearbody out. frame.
  - injection H as <-. clearbody out. frame.
Qed.


Lemma update_prob r m m' :
  MasterSolvePulp.update r m = Ok m' ->
  MasterSolvePulp.prob m' = MasterSolvePulp.prob m.
Proof.
  unfold MasterSolvePulp.update, MasterSolvePulp._add_route_selection_variable.
  intros H. apply bind_Ok in H as (u1 & _ & H).
  apply bind_Ok in H as (u2 & _ & H). now injection H as <-.
Qed.

Lemma greedy_columns_prob duals vehicle (st st' : @VRP HH) :
  greedy_columns duals vehicle st = Ok st' ->
  MasterSolvePulp.prob (masterproblem st')
  = MasterSolvePulp.prob (masterproblem st).
Proof.
  unfold greedy_columns. intros H.
  destruct (_ && _) in H; [|now injection H as <-].
  cbv zeta in H.
  match type of H with
  | context [greedy_solve ?sp ?n ?s] =>
      generalize dependent (greedy_solve sp n s)
  end.
  intros out H.
  change (_more_routes (set_more_routes (snd out) (set_routes (fst out) st)))
    with (snd out) in H.
  destruct (snd out); [|now injection H as <-].
  apply bind_Ok in H as (m & Hm & H). injection H as <-. cbn in *.
  eapply (for_each_invariant
            (fun a => MasterSolvePulp.prob a
                      = MasterSolvePulp.prob (masterproblem st)));
    [ | | exact Hm]; [|reflexivity].
  intros r a b _ Ha Hb. cbv beta in Hb.
  destruct (bool_decide (is_Some (MasterSolvePulp.y a !! Route.name r)));
    [injection Hb as <-; exact Ha | apply update_prob in Hb; congruence].
Qed.

Lemma search_columns_prob dyn duals vehicle (st st' : @VRP HH) :
  search_columns dyn duals vehicle st = Ok st' ->
  MasterSolvePulp.prob (masterproblem st')
  = MasterSolvePulp.prob (masterproblem st).
Proof.
  intros H.
  destruct (untouched_settings _ _
              (attempt_untouched time subproblem_solve dyn vehicle duals
                 (set_more_routes false st))) as (_ & _ & Hm).
  unfold search_columns in H. cbv zeta in H.
  set (out := attempt dyn vehicle duals (set_more_routes false st)) in *.
  change (_more_routes (set_produced_column (Some (snd out)) (fst out)))
    with (_more_routes (fst out)) in H.
  cbn in Hm.
  destruct (_more_routes (fst out)).
  - destruct (snd out).
    + apply bind_Ok in H as (last & _ & H).
      apply bind_Ok in H as (rs & _ & H).
      apply bind_Ok in H as (m & Hu & H).
      injection H as <-. apply update_prob in Hu. cbn in *. congruence.
    + injection H as <-. cbn. congruence.
  - injection H as <-. cbn. congruence.
Qed.

Lemma greedy_columns_spec duals vehicle (st st' : @VRP HH) :
  greedy_columns duals vehicle st = Ok st' ->
  same_settings st st' /\ same_counters st st' /\
  pricing_log st' = pricing_log st /\
  hyper_heuristic st' = hyper_heuristic st.
Proof.
  unfold greedy_columns. intros H.
  destruct (_ && _) in H; [|injection H as <-; frame].
  cbv zeta in H.
  match type of H with
  | context [greedy_solve ?sp ?n ?s] => generalize dependent (greedy_solve sp n s)
  end.
  intros out H.
  change (_more_routes (set_more_routes (snd out) (set_routes (fst out) st)))
    with (snd out) in H.
  destruct (snd out).
  - apply bind_Ok in H as (m & _ & H). injection H as <-. frame.
  - injection H as <-. frame.
Qed.

Lemma pick_strategy_spec cost freq (st : @VRP HH) :
  let picked := pick_strategy cost freq st in
  same_settings st (fst picked) /\
  pricing_log (fst picked) = pricing_log st /\
  _more_routes (fst picked) = _more_routes st /\
  masterproblem (fst picked) = masterproblem st /\
  routes (fst picked) = routes st /\
  _iteration (fst picked) = _iteration st /\
  _lower_bound (fst picked) = _lower_bound st /\
  _no_improvement (fst picked)
  = (if _no_improvement st =? do_exact st then 0 else _no_improvement st) /\
  (_pricing_strategy st <> "Hyper" ->
   do_exact (fst picked) = do_exact st /\
   snd picked = if _no_improvement st =? do_exact st then "Exact"
                else _pricing_strategy st) /\
  (_pricing_strategy st = "Hyper" ->
   (do_exact (fst picked) = do_exact st \/ do_exact (fst picked) = 30) /\
   (snd picked = "BestPaths" \/ snd picked = "Exact"
    \/ exists hh, snd picked = fst (pick_heurestic hh))).
Proof.
  unfold pick_strategy.
  destruct (String.eqb (_pricing_strategy st) "Hyper") eqn:Hmode;
    [apply String.eqb_eq in Hmode | apply String.eqb_neq in Hmode];
    destruct (_no_improvement st =? do_exact st) eqn:Hcap; cbn [andb negb].
  - repeat split; try tauto; try contradiction; auto.
  - destruct (initialisation (hyper_heuristic st)).
    + destruct (String.eqb _ "Relative improvement");
        cbn; repeat split; try tauto; try contradiction; auto.
    + cbn; repeat split; try tauto; try contradiction; eauto.
  - repeat split; try tauto; try contradiction; auto.
  - repeat split; try tauto; try contradiction; auto.
Qed.

Lemma update_stopping_criteria_spec cost (st st' : @VRP HH) :
  update_stopping_criteria cost st = Ok st' ->
  same_settings st st' /\
  pricing_log st' = pricing_log st /\
  _more_routes st' = _more_routes st /\
  masterproblem st' = masterproblem st /\
  do_exact st' = do_exact st /\
  _iteration st' = _iteration st + 1 /\
  _lower_bound st' = (if _dive st then _lower_bound st
                      else _lower_bound st ++ [cost]) /\
  (_iteration st' <= 1 -> _no_improvement st' = 0) /\
  (1 < _iteration st' ->
   exists last, Py.index (_lower_bound st) (-1) = Ok last /\
     _no_improvement st'
     = if objective_eqb cost last then _no_improvement st + 1 else 0).
Proof.
  unfold update_stopping_criteria. intros H.
  apply bind_Ok in H as (st2 & H2 & H).
  cbn [_iteration set_iteration] in H2.
  destruct (_iteration st + 1 >? 1) eqn:Hit.
  - apply bind_Ok in H2 as (last & Hlast & H2).
    cbn in Hlast.
    assert (Hgt : 1 < _iteration st + 1) by lia.
    destruct (objective_eqb cost last) eqn:Heq; injection H2 as <-;
      cbn in H; destruct (_dive st) eqn:Hd; injection H as <-; cbn;
      rewrite ?Hd; repeat split; try lia; try reflexivity;
      intros _; exists last; rewrite Heq; auto.
  - assert (Hle : _iteration st + 1 <= 1) by lia.
    injection H2 as <-.
    cbn in H; destruct (_dive st) eqn:Hd; injection H as <-; cbn;
      rewrite ?Hd; repeat split; try lia; try reflexivity.
Qed.


(** The loop body for one vehicle type. *)
Local Abbreviation body dyn duals :=
  (fun vehicle s => s1 <- greedy_columns duals vehicle s ;;
                    search_columns dyn duals vehicle s1).

Lemma body_spec dyn duals vehicle (st st' : @VRP HH) :
  body dyn duals vehicle st = Ok st' ->
  same_settings st st' /\ same_counters st st' /\
  exists tried (st1 : @VRP HH) (out : @VRP HH * bool),
    pricing_log st' = pricing_log st ++ tried /\
    attempt_outcome dyn vehicle st1 out tried /\
    _pricing_strategy st1 = _pricing_strategy st /\
    _more_routes st1 = false /\
    _more_routes st' = _more_routes (fst out) /\
    produced_column st' = Some (snd out).
Proof.
  intros H. apply bind_Ok in H as (s1 & Hg & Hs).
  apply greedy_columns_spec in Hg as (Hg1 & Hg2 & Hg3 & _).
  apply search_columns_spec in Hs as (Hs1 & Hs2 & Hflag & Hprod & Hlog).
  split; [eapply same_settings_trans; eauto|].
  split; [eapply same_counters_trans; eauto|].
  destruct (attempt_spec time subproblem_solve dyn vehicle duals
              (set_more_routes false s1)) as (tried & Hl & Hout).
  exists tried, (set_more_routes false s1),
    (attempt dyn vehicle duals (set_more_routes false s1)).
  split; [rewrite Hlog, Hl, <- Hg3; reflexivity|].
  split; [exact Hout|].
  split; [cbn; apply Hg1|].
  split; [reflexivity|]. split; assumption.
Qed.

Lemma outcome_flag_false dyn vehicle (st1 : @VRP HH) out tried :
  attempt_outcome dyn vehicle st1 out tried ->
  _more_routes (fst out) = false ->
  ends_with_failed_exact tried
  \/ (_pricing_strategy st1 = "Hyper" /\ ~ In dyn strategy_names).
Proof.
  intros [before sp -> _ _ _ Hflag | before call -> _ Hx _ _ Hflag
         | _ _ _ _ _ Hflag | Hmode Hname _ _ _] Hfalse;
    try congruence.
  - left. exists before, call. repeat split; try apply Hx. congruence.
  - right. auto.
Qed.

Lemma outcome_escalates dyn vehicle (st1 : @VRP HH) out tried :
  attempt_outcome dyn vehicle st1 out tried ->
  _pricing_strategy st1 <> "Hyper" ->
  heuristics_failed tried ->
  exact_attempted_for vehicle tried.
Proof.
  intros [before sp -> _ Hnx _ _ | before call -> _ Hx Hv _ _
         | Hmode _ _ _ _ _ | Hmode _ _ _ _] Hold Hfail;
    try contradiction.
  - exfalso. unfold heuristics_failed in Hfail.
    rewrite List.Forall_forall in Hfail, Hnx.
    assert (Hin : In (sp, true) (before ++ [(sp, true)]))
      by (apply in_or_app; right; left; reflexivity).
    specialize (Hfail _ Hin (Hnx _ Hin)). discriminate.
  - exists call. split; [apply in_or_app; right; left; reflexivity|].
    split; assumption.
Qed.

(** The loop over the vehicle types. *)
Lemma vehicles_loop dyn duals vehicles (st st' : @VRP HH) :
  Py.for_each vehicles (body dyn duals) st = Ok st' ->
  same_settings st st' /\ same_counters st st' /\
  exists tried,
    pricing_log st' = pricing_log st ++ tried /\
    (vehicles = [] -> st' = st) /\
    (vehicles <> [] -> _more_routes st' = false ->
     ends_with_failed_exact tried
     \/ (_pricing_strategy st = "Hyper" /\ ~ In dyn strategy_names)) /\
    (_pricing_strategy st <> "Hyper" -> heuristics_failed tried ->
     forall vehicle, In vehicle vehicles ->
                     exact_attempted_for vehicle tried).
Proof.
  revert st. induction vehicles as [|v vs IH]; intros st H.
  - injection H as <-.
    split; [apply same_settings_refl|]. split; [apply same_counters_refl|].
    exists []. rewrite app_nil_r. repeat split; try tauto.
    intros _ _ k [].
  - cbn [Py.for_each] in H. apply bind_Ok in H as (s1 & Hb & Hrest).
    apply body_spec in Hb
      as (Hs1 & Hc1 & tried1 & st1 & out & Hl1 & Hout & Hm1 & Hf1 & Hflag
          & Hprod).
    apply IH in Hrest as (Hs2 & Hc2 & tried2 & Hl2 & Hnil & Hlast & Hesc).
    split; [eapply same_settings_trans; eauto|].
    split; [eapply same_counters_trans; eauto|].
    assert (Hmode1 : _pricing_strategy s1 = _pricing_strategy st)
      by apply Hs1.
    exists (tried1 ++ tried2).
    split; [rewrite Hl2, Hl1, <- app_assoc; reflexivity|].
    split; [discriminate|]. split.
    + intros _ Hfalse. destruct vs as [|v' vs'].
      * rewrite (Hnil eq_refl) in *.
        assert (tried2 = []) as ->.
        { apply (app_inv_head (pricing_log s1)). now rewrite app_nil_r. }
        rewrite app_nil_r. rewrite Hflag in Hfalse.
        destruct (outcome_flag_false _ _ _ _ _ Hout Hfalse) as [?|[? ?]];
          [left; assumption | right; split; congruence].
      * destruct Hlast as [(before & call & -> & Hx & Hc)|[? ?]];
          [discriminate | assumption | |].
        -- left. exists (tried1 ++ before), call.
           rewrite <- app_assoc. auto.
        -- right. split; congruence.
    + intros Hold Hfail k [<-|Hin].
      * apply Forall_app in Hfail as [Hfail1 _].
        assert (Hesc1 : exact_attempted_for v tried1).
        { eapply outcome_escalates; eauto. congruence. }
        destruct Hesc1 as (call & Hin & Hx & Hv).
        exists call. split; [apply in_or_app; left; exact Hin | auto].
      * apply Forall_app in Hfail as [_ Hfail2].
        destruct (Hesc ltac:(congruence) Hfail2 k Hin)
          as (call & Hin' & Hx & Hv).
        exists call. split; [apply in_or_app; right; exact Hin' | auto].
Qed.


Lemma vehicles_loop_prob dyn duals vehicles (st st' : @VRP HH) :
  Py.for_each vehicles (body dyn duals) st = Ok st' ->
  MasterSolvePulp.prob (masterproblem st')
  = MasterSolvePulp.prob (masterproblem st).
Proof.
  intros H.
  eapply (for_each_invariant
            (fun a => MasterSolvePulp.prob (masterproblem a)
                      = MasterSolvePulp.prob (masterproblem st)));
    [ | | exact H]; [|reflexivity].
  intros v a b _ Ha Hb. apply bind_Ok in Hb as (s1 & Hg & Hs).
  apply greedy_columns_prob in Hg. apply search_columns_prob in Hs.
  congruence.
Qed.

Lemma range_In (k n : Z) : In k (Py.range n) <-> 0 <= k < n.
Proof.
  unfold Py.range. rewrite in_map_iff. split.
  - intros (i & <- & Hi). apply in_seq in Hi. lia.
  - intros Hk. exists (Z.to_nat k). split; [lia|]. apply in_seq. lia.
Qed.

Lemma range_nil (n : Z) : Py.range n = [] <-> n <= 0.
Proof.
  unfold Py.range. split.
  - intros H. apply map_eq_nil in H.
    destruct (Z.to_nat n) eqn:E; [lia | discriminate].
  - intros H. replace (Z.to_nat n) with O by lia. reflexivity.
Qed.

(** What the master problem hands to an iteration: the relaxed cost is the
    objective value of the problem just solved. *)
Lemma master_solve_cost (st : @VRP HH) solved :
  (if _dive st
   then MasterSolvePulp.solve_and_dive lp_solve lp_resolve run_dive
          (G st) (masterproblem st) (time_remaining time st false)
   else MasterSolvePulp.solve lp_solve (G st) (routes st)
          (masterproblem st) true (time_remaining time st false))
  = Ok solved ->
  snd solved
  = Pulp.objective_value (MasterSolvePulp.prob (fst (fst solved))).
Proof.
  destruct (_dive st).
  - unfold MasterSolvePulp.solve_and_dive. intros H.
    apply bind_Ok in H as (d & _ & H). now injection H as <-.
  - unfold MasterSolvePulp.solve. intros H.
    destruct (negb _) in H; [discriminate|].
    apply bind_Ok in H as (u & _ & H).
    apply bind_Ok in H as (d & _ & H). now injection H as <-.
Qed.

(** One iteration, as a whole. *)
Lemma find_columns_spec (st st' : @VRP HH) :
  _find_columns st = Ok st' ->
  let cost := Pulp.objective_value
                (MasterSolvePulp.prob (masterproblem st')) in
  same_settings st st' /\
  (exists dyn tried,
     pricing_log st' = pricing_log st ++ tried /\
     (_vehicle_types st <= 0 -> _more_routes st' = _more_routes st) /\
     (0 < _vehicle_types st -> _more_routes st' = false ->
      ends_with_failed_exact tried
      \/ (_pricing_strategy st = "Hyper" /\ ~ In dyn strategy_names)) /\
     (_pricing_strategy st = "Hyper" ->
      dyn = "BestPaths" \/ dyn = "Exact"
      \/ exists hh, dyn = fst (pick_heurestic hh)) /\
     (_pricing_strategy st <> "Hyper" -> heuristics_failed tried ->
      forall vehicle, 0 <= vehicle < _vehicle_types st ->
                      exact_attempted_for vehicle tried)) /\
  _iteration st' = _iteration st + 1 /\
  (_pricing_strategy st <> "Hyper" -> do_exact st' = do_exact st) /\
  (do_exact st' = do_exact st \/ do_exact st' = 30) /\
  _lower_bound st' = (if _dive st then _lower_bound st
                      else _lower_bound st ++ [cost]) /\
  (_iteration st' <= 1 -> _no_improvement st' = 0) /\
  (1 < _iteration st' ->
   exists last, Py.index (_lower_bound st) (-1) = Ok last /\
     _no_improvement st'
     = if objective_eqb cost last then counter_after_pick st + 1 else 0).
Proof.
  unfold _find_columns. intros H.
  apply bind_Ok in H as (solved & Hsolved & H).
  apply master_solve_cost in Hsolved.
  apply bind_Ok in H as (dist & _ & H).
  cbv zeta in H.
  set (st2 := set_routes (fst (fst dist))
                (set_masterproblem (fst (fst solved)) st)) in *.
  pose proof (pick_strategy_spec (snd solved) (snd dist) st2)
    as (Hp1 & Hp2 & Hp3 & Hp4 & Hp5 & Hp6 & Hp7 & Hp8 & Hp9 & Hp10).
  set (picked := pick_strategy (snd solved) (snd dist) st2) in *.
  apply bind_Ok in H as (st3 & Hloop & H).
  pose proof (vehicles_loop_prob _ _ _ _ _ Hloop) as Hprob.
  apply vehicles_loop in Hloop
    as (Hl1 & Hl2 & tried & Hlog & Hnil & Hlast & Hesc).
  apply update_stopping_criteria_spec in H
    as (Hu1 & Hu2 & Hu3 & Hu4 & Hu5 & Hu6 & Hu7 & Hu8 & Hu9).
  assert (Hcost : Pulp.objective_value
                    (MasterSolvePulp.prob (masterproblem st'))
                  = snd solved).
  { rewrite Hu4, Hprob, Hp4, Hsolved. reflexivity. }
  assert (Hmode : _pricing_strategy (fst picked) = _pricing_strategy st)
    by apply Hp1.
  assert (Hvt : _vehicle_types (fst picked) = _vehicle_types st)
    by apply Hp1.
  assert (Hdive : _dive st3 = _dive st).
  { transitivity (_dive (fst picked)); [apply Hl1 | apply Hp1]. }
  cbv zeta. rewrite Hcost.
  split.
  { eapply same_settings_trans; [|exact Hu1].
    eapply same_settings_trans; [|exact Hl1].
    eapply same_settings_trans; [|exact Hp1]. repeat split. }
  split.
  { exists (snd picked), tried. rewrite Hvt in *.
    split; [rewrite Hu2, Hlog, Hp2; reflexivity|].
    split.
    { intros Hv. rewrite Hu3, (Hnil (proj2 (range_nil _) Hv)), Hp3.
      reflexivity. }
    split.
    { intros Hv Hf. rewrite Hu3 in Hf. rewrite <- Hmode.
      apply Hlast; [|exact Hf]. intros Hr. apply range_nil in Hr. lia. }
    split.
    { intros Hm. apply Hp10. exact Hm. }
    intros Hm Hfail k Hk. apply Hesc; [congruence | exact Hfail|].
    now apply range_In. }
  split; [rewrite Hu6; f_equal; transitivity (_iteration (fst picked));
          [apply Hl2 | exact Hp6]|].
  assert (Hde : do_exact st3 = do_exact (fst picked)) by apply Hl2.
  split; [intros Hm; rewrite Hu5, Hde; now apply Hp9|].
  split.
  { rewrite Hu5, Hde.
    destruct (String.eqb (_pricing_strategy st) "Hyper") eqn:E.
    - apply String.eqb_eq in E. now apply Hp10.
    - apply String.eqb_neq in E. left. now apply Hp9. }
  assert (Hlb : _lower_bound st3 = _lower_bound st).
  { transitivity (_lower_bound (fst picked)); [apply Hl2 | exact Hp7]. }
  assert (Hni : _no_improvement st3 = counter_after_pick st).
  { transitivity (_no_improvement (fst picked)); [apply Hl2 | exact Hp8]. }
  split; [now rewrite Hu7, Hdive, Hlb|].
  split; [exact Hu8|].
  intros Hit. destruct (Hu9 Hit) as (last & Hlast' & Hn).
  exists last. now rewrite <- Hlb, <- Hni.
Qed.


(** *** Convergence *)

Lemma sweep_leaves_flag_true strategy parameters vehicle duals
    (st : @VRP HH) :
  _more_routes
    (fst (sweep time subproblem_solve strategy parameters vehicle duals st))
  = true.
Proof.
  destruct (sweep_spec time subproblem_solve strategy parameters vehicle
              duals st) as (tried & _ & _ & Hflag & _).
  exact Hflag.
Qed.

(** C2, as amended.  A parameter sweep always leaves the more-routes flag
    true (so a failed one does), and when the loop is left with the flag
    false at its top, either the flag was false on entry and no iteration
    ran, or the last pricing call was an Exact attempt that returned no
    route.  The selector is taken to return one of the four strategy
    names. *)
Theorem convergence_follows_failed_exact (fuel : nat) (st st' : @VRP HH) :
  (forall hh, In (fst (pick_heurestic hh)) strategy_names) ->
  _column_generation fuel st = Ok (Converged, st') ->
  (forall strategy parameters vehicle duals (s : @VRP HH),
     _more_routes
       (fst (sweep time subproblem_solve strategy parameters vehicle duals s))
     = true) /\
  ((_more_routes st = false /\ st' = st)
   \/ ends_with_failed_exact (pricing_log st')).
Proof.
  intros Hpick H. split; [intros; apply sweep_leaves_flag_true|].
  revert st H. induction fuel as [|fuel IH]; intros st H.
  - cbn in H. destruct (_more_routes st); cbn in H; [discriminate|].
    injection H as <-. auto.
  - cbn [_column_generation] in H.
    destruct (_more_routes st) eqn:Hflag; cbn [negb] in H;
      [|injection H as <-; auto].
    apply bind_Ok in H as (st1 & Hiter & H).
    destruct (match time_remaining time st1 false with
              | Some t => Qeq_bool t 0
              | None => false
              end); [discriminate|].
    destruct (_ || _); [discriminate|].
    right. destruct (IH _ H) as [[Hfalse ->]|Hdone]; [|exact Hdone].
    apply find_columns_spec in Hiter
      as (_ & (dyn & tried & Hlog & Hnone & Hlast & Hdyn & _) & _).
    destruct (Z_lt_le_dec 0 (_vehicle_types st)) as [Hv|Hv];
      [|rewrite (Hnone Hv) in Hfalse; congruence].
    destruct (Hlast Hv Hfalse) as [(before & call & -> & Hx & Hc)|[Hm Hn]].
    + exists (pricing_log st ++ before), call.
      rewrite Hlog, app_assoc. auto.
    + exfalso. apply Hn.
      destruct (Hdyn Hm) as [->|[->|[hh ->]]];
        [left; reflexivity | do 3 right; left; reflexivity | apply Hpick].
Qed.

(** *** The no-improvement counter *)

(** The update of the counter: at the end of every iteration after the
    first, the counter is 0 if the relaxed objective differs from the last
    recorded lower bound, and one more than the counter the iteration
    started from otherwise; that counter is the one left by the previous
    iteration unless it had reached [do_exact], which resets it. *)
Lemma no_improvement_update (st st' : @VRP HH) :
  _find_columns st = Ok st' ->
  1 < _iteration st' ->
  exists last,
    Py.index (_lower_bound st) (-1) = Ok last /\
    _no_improvement st'
    = if objective_eqb
           (Pulp.objective_value (MasterSolvePulp.prob (masterproblem st')))
           last
      then counter_after_pick st + 1 else 0.
Proof.
  intros H. apply find_columns_spec in H. apply H.
Qed.

(** Outside "Hyper" the counter never passes [do_exact]. *)
Lemma no_improvement_capped (st st' : @VRP HH) :
  _find_columns st = Ok st' ->
  _pricing_strategy st <> "Hyper" ->
  1 <= do_exact st ->
  0 <= _no_improvement st <= do_exact st ->
  do_exact st' = do_exact st /\
  0 <= _no_improvement st' <= do_exact st'.
Proof.
  intros H Hmode Hd Hn.
  apply find_columns_spec in H
    as (_ & _ & _ & Hde & _ & _ & Hfirst & Hlater).
  specialize (Hde Hmode). split; [exact Hde|]. rewrite Hde.
  destruct (Z_lt_le_dec 1 (_iteration st')) as [Hit|Hit].
  - destruct (Hlater Hit) as (last & _ & ->).
    unfold counter_after_pick.
    destruct (objective_eqb _ last); [|lia].
    destruct (_no_improvement st =? do_exact st) eqn:E; lia.
  - rewrite (Hfirst Hit). lia.
Qed.

(** Hence, with [do_exact] at its initial value 1000 (or less), the loop
    is never left for the no-improvement limit: only the iteration limit
    can give that exit. *)
Lemma no_improvement_limit_unreachable (fuel : nat) (st st' : @VRP HH) :
  _pricing_strategy st <> "Hyper" ->
  1 <= do_exact st <= 1000 ->
  0 <= _no_improvement st <= do_exact st ->
  _column_generation fuel st = Ok (LimitReached, st') ->
  max_iter_reached st' = true.
Proof.
  revert st. induction fuel as [|fuel IH]; intros st Hmode Hd Hn H.
  - cbn in H. destruct (_more_routes st); discriminate.
  - cbn [_column_generation] in H.
    destruct (_more_routes st); cbn [negb] in H; [|discriminate].
    apply bind_Ok in H as (st1 & Hiter & H).
    pose proof (no_improvement_capped _ _ Hiter Hmode ltac:(lia) Hn)
      as [Hde Hn1].
    assert (Hmode1 : _pricing_strategy st1 <> "Hyper").
    { apply find_columns_spec in Hiter as (Hs & _).
      replace (_pricing_strategy st1) with (_pricing_strategy st)
        by (symmetry; apply Hs).
      exact Hmode. }
    destruct (match time_remaining time st1 false with
              | Some t => Qeq_bool t 0
              | None => false
              end); [discriminate|].
    assert (Hcap : (_no_improvement st1 >? 1000) = false) by lia.
    rewrite Hcap in H. cbn [orb] in H.
    destruct (max_iter_reached st1) eqn:Hmax.
    + now injection H as <-.
    + apply (IH st1); auto; lia.
Qed.

End IterationFacts.

(** ** Escalation to Exact *)

Section EscalationFacts.

Context {HH : Type}.
Variable time : @VRP HH -> Q.
Variable subproblem_solve :
  SubProblem -> option Q -> @VRP HH -> list Route.t * bool.
Variable greedy_solve : SubProblem -> Z -> @VRP HH -> list Route.t * bool.
Variable lp_solve : string -> option Q -> MasterSolvePulp.t -> Pulp.Solution.
Variable lp_resolve : MasterSolvePulp.t -> Pulp.Solution.
Variable run_dive : MasterSolvePulp.t -> MasterSolvePulp.t.
Variable set_current_objective :
  @HyperHeuristic HH -> option Q -> @HyperHeuristic HH.
Variable set_initial_time : @HyperHeuristic HH -> Q -> @HyperHeuristic HH.
Variable current_performance :
  @HyperHeuristic HH -> option Q -> option bool -> gmap string Z
  -> @HyperHeuristic HH.
Variable move_acceptance : @HyperHeuristic HH -> bool * @HyperHeuristic HH.
Variable update_parameters : @HyperHeuristic HH -> @HyperHeuristic HH.
Variable pick_heurestic : @HyperHeuristic HH -> string * @HyperHeuristic HH.

Local Abbreviation attempt :=
  (_solve_subproblem_with_heuristic time subproblem_solve).
Local Abbreviation search_columns := (search_columns time subproblem_solve).
Local Abbreviation greedy_columns := (greedy_columns greedy_solve).
Local Abbreviation pick_strategy :=
  (pick_strategy time set_current_objective set_initial_time
                 current_performance move_acceptance update_parameters
                 pick_heurestic).
Local Abbreviation _find_columns :=
  (_find_columns time subproblem_solve greedy_solve lp_solve lp_resolve
                 run_dive set_current_objective set_initial_time
                 current_performance move_acceptance update_parameters
                 pick_heurestic).
Local Abbreviation body dyn duals :=
  (fun vehicle s => s1 <- greedy_columns duals vehicle s ;;
                    search_columns dyn duals vehicle s1).

(** *** The engine's answers in the log *)

(** A stretch of the run from [st] to [st'] that made the calls [tried]:
    they are what the log gained, the settings are kept, and the engine
    answered them. *)
Local Abbreviation priced st st' tried :=
  (pricing_log st' = pricing_log st ++ tried /\ same_settings st st' /\
   answered_by_engine time subproblem_solve st tried).

Lemma priced_silent (a b : @VRP HH) :
  same_settings a b -> pricing_log b = pricing_log a -> priced a b [].
Proof.
  intros Hs Hl. split; [now rewrite app_nil_r|]. split; [exact Hs|].
  intros before call after H. destruct before; discriminate.
Qed.

Lemma priced_trans (a b c : @VRP HH) t1 t2 :
  priced a b t1 -> priced b c t2 -> priced a c (t1 ++ t2).
Proof.
  intros (Hl1 & Hs1 & Ha1) (Hl2 & Hs2 & Ha2).
  split; [rewrite Hl2, Hl1, <- app_assoc; reflexivity|].
  split; [eapply same_settings_trans; eauto|].
  intros before call after H.
  apply app_eq_app in H as [l [[H1 H2]|[H1 H2]]].
  - destruct l as [|x l].
    + rewrite app_nil_r in H1. cbn in H2. subst t1 t2.
      destruct (Ha2 [] call after eq_refl) as (s & Hs & Hlog & Hans).
      exists s. split; [eapply same_settings_trans; eauto|].
      split; [now rewrite Hlog, Hl1, app_nil_r | exact Hans].
    + cbn in H2. injection H2 as <- ->.
      destruct (Ha1 before call l H1) as (s & Hs & Hlog & Hans).
      exists s. auto.
  - destruct (Ha2 l call after H2) as (s & Hs & Hlog & Hans).
    exists s. split; [eapply same_settings_trans; eauto|].
    split; [now rewrite Hlog, Hl1, H1, <- app_assoc | exact Hans].
Qed.

Lemma priced_call sp (st : @VRP HH) :
  priced st (run_subproblem time subproblem_solve sp st)
         [(sp, _more_routes (run_subproblem time subproblem_solve sp st))].
Proof.
  split; [reflexivity|]. split; [repeat split|].
  intros before call after H.
  destruct before as [|x before];
    [|destruct before; discriminate].
  cbn in H. injection H as <- <-.
  exists st. split; [apply same_settings_refl|].
  split; [now rewrite app_nil_r | reflexivity].
Qed.

Lemma sweep_priced strategy parameters vehicle duals (st : @VRP HH) :
  exists tried,
    priced st
      (fst (sweep time subproblem_solve strategy parameters vehicle duals st))
      tried.
Proof.
  revert st. induction parameters as [|p rest IH]; intros st.
  - exists []. apply priced_silent; [repeat split | reflexivity].
  - rewrite sweep_cons. cbv zeta.
    set (sp := _def_subproblem st duals vehicle strategy (Some p) false).
    pose proof (priced_call sp st) as Hcall.
    destruct (_more_routes (run_subproblem time subproblem_solve sp st)).
    + eexists. exact Hcall.
    + destruct (IH (run_subproblem time subproblem_solve sp st))
        as (tried & Hrest).
      eexists. eapply priced_trans; [exact Hcall | exact Hrest].
Qed.

Lemma exact_priced vehicle duals (st : @VRP HH) :
  exists tried,
    priced st
      (fst (_attempt_solve_Exact time subproblem_solve vehicle duals st))
      tried.
Proof. eexists. unfold _attempt_solve_Exact. cbn [fst]. apply priced_call. Qed.

Lemma attempt_priced dyn vehicle duals (st : @VRP HH) :
  exists tried, priced st (fst (attempt dyn vehicle duals st)) tried.
Proof.
  unfold _solve_subproblem_with_heuristic, _attempt_solve_best_paths,
    _attempt_solve_BestEdges1, _attempt_solve_BestEdges2.
  assert (Hthen : forall (p : @VRP HH * bool) c,
             (exists t, priced st (fst p) t) ->
             exists t,
               priced st
                 (fst (let '(st1, produced_column) := p in
                       if c || negb produced_column
                       then _attempt_solve_Exact time subproblem_solve
                              vehicle duals st1
                       else (st1, produced_column))) t).
  { intros [st1 produced] c [t Ht]. cbn [fst] in *.
    destruct (c || negb produced); cbn [fst]; [|eauto].
    destruct (exact_priced vehicle duals st1) as (t2 & Ht2).
    eexists. eapply priced_trans; eauto. }
  destruct (String.eqb (_pricing_strategy st) "Hyper").
  - repeat match goal with
           | |- context [if String.eqb ?a ?b then _ else _] =>
               destruct (String.eqb a b)
           end; try apply sweep_priced.
    + cbv zeta.
      set (st1 := set_hyper_heuristic _ st).
      destruct (exact_priced vehicle duals st1) as (t & Ht).
      exists ([] ++ t). eapply priced_trans; [|exact Ht].
      apply priced_silent; [repeat split | reflexivity].
    + exists []. apply priced_silent; [apply same_settings_refl | reflexivity].
  - apply Hthen.
    repeat match goal with
           | |- context [if String.eqb ?a ?b then _ else _] =>
               destruct (String.eqb a b)
           end; try apply sweep_priced.
    exists []. apply priced_silent; [apply same_settings_refl | reflexivity].
Qed.

Lemma search_columns_priced dyn duals vehicle (st st' : @VRP HH) :
  search_columns dyn duals vehicle st = Ok st' ->
  exists tried, priced st st' tried.
Proof.
  intros H.
  apply (search_columns_spec time subproblem_solve) in H
    as (Hs & _ & _ & _ & Hlog).
  destruct (attempt_priced dyn vehicle duals (set_more_routes false st))
    as (tried & Hl & Hs' & Ha).
  exists ([] ++ tried).
  eapply (priced_trans st (set_more_routes false st) st').
  - apply priced_silent; [repeat split | reflexivity].
  - split; [now rewrite Hlog, Hl|]. split; [|exact Ha].
    eapply same_settings_trans; [|exact Hs]. repeat split.
Qed.

Lemma vehicles_loop_priced dyn duals vehicles (st st' : @VRP HH) :
  Py.for_each vehicles (body dyn duals) st = Ok st' ->
  exists tried, priced st st' tried.
Proof.
  revert st. induction vehicles as [|v vs IH]; intros st H.
  - injection H as <-. exists [].
    apply priced_silent; [apply same_settings_refl | reflexivity].
  - cbn [Py.for_each] in H. apply bind_Ok in H as (s2 & Hb & Hrest).
    apply bind_Ok in Hb as (s1 & Hg & Hs).
    apply (greedy_columns_spec greedy_solve) in Hg as (Hg1 & _ & Hg3 & _).
    apply search_columns_priced in Hs as (t1 & Ht1).
    apply IH in Hrest as (t2 & Ht2).
    exists (([] ++ t1) ++ t2).
    eapply priced_trans; [|exact Ht2].
    eapply priced_trans; [|exact Ht1].
    now apply priced_silent.
Qed.

Lemma find_columns_priced (st st' : @VRP HH) :
  _find_columns st = Ok st' -> exists tried, priced st st' tried.
Proof.
  unfold _find_columns. intros H.
  apply bind_Ok in H as (solved & _ & H).
  apply bind_Ok in H as (dist & _ & H).
  cbv zeta in H.
  set (st2 := set_routes (fst (fst dist))
                (set_masterproblem (fst (fst solved)) st)) in *.
  pose proof (pick_strategy_spec time set_current_objective set_initial_time
                current_performance move_acceptance update_parameters
                pick_heurestic (snd solved) (snd dist) st2)
    as (Hp1 & Hp2 & _).
  set (picked := pick_strategy (snd solved) (snd dist) st2) in *.
  apply bind_Ok in H as (st3 & Hloop & H).
  apply vehicles_loop_priced in Hloop as (tried & Hl & Hs & Ha).
  apply update_stopping_criteria_spec in H as (Hu1 & Hu2 & _).
  exists (([] ++ tried) ++ []).
  eapply (priced_trans st st3 st'); [|now apply priced_silent].
  eapply (priced_trans st (fst picked) st3); [|split; [exact Hl | auto]].
  apply priced_silent.
  - eapply same_settings_trans; [|exact Hp1]. repeat split.
  - rewrite Hp2. reflexivity.
Qed.

(** *** The strategy of the iteration under "Hyper" *)

Lemma sweep_calls_strategy strategy parameters vehicle duals (st : @VRP HH)
    (tried : list (SubProblem * bool)) :
  map fst tried
  = map (fun p => _def_subproblem st duals vehicle strategy (Some p) false)
        parameters ->
  Forall (fun call => sp_pricing_strategy (fst call) = strategy) tried.
Proof.
  revert parameters. induction tried as [|c tried IH];
    intros [|p ps] H; try discriminate; constructor; simpl in H.
  - inversion H as [[Hc Ht]]. rewrite Hc. unfold _def_subproblem.
    now destruct (_cspy st).
  - inversion H as [[Hc Ht]]. eapply IH, Ht.
Qed.

Lemma hyper_sweep_calls strategy parameters vehicle duals (st : @VRP HH) :
  let out := sweep time subproblem_solve strategy parameters vehicle duals st
  in
  exists tried,
    pricing_log (fst out) = pricing_log st ++ tried /\
    Forall (fun call => sp_pricing_strategy (fst call) = strategy) tried.
Proof.
  intros out.
  destruct (sweep_spec time subproblem_solve strategy parameters vehicle
              duals st) as (tried & Hlog & Hcalls & _).
  exists tried. split; [exact Hlog|].
  now apply sweep_calls_strategy in Hcalls.
Qed.

Lemma attempt_hyper dyn vehicle duals (st : @VRP HH) :
  _pricing_strategy st = "Hyper" ->
  let out := attempt dyn vehicle duals st in
  exists tried,
    pricing_log (fst out) = pricing_log st ++ tried /\
    Forall (fun call => sp_pricing_strategy (fst call) = dyn) tried /\
    (dyn = "Exact" -> exact_attempted_for vehicle tried).
Proof.
  intros Hmode. unfold _solve_subproblem_with_heuristic.
  rewrite Hmode. replace (String.eqb "Hyper" "Hyper") with true by reflexivity.
  unfold _attempt_solve_best_paths, _attempt_solve_BestEdges1,
    _attempt_solve_BestEdges2.
  destruct (String.eqb_spec dyn "BestPaths") as [->|E1].
  { destruct (hyper_sweep_calls "BestPaths" k_shortest_paths vehicle duals st)
      as (tried & Hl & Hf).
    exists tried. split; [exact Hl|]. split; [exact Hf | discriminate]. }
  destruct (String.eqb_spec dyn "BestEdges1") as [->|E2].
  { destruct (hyper_sweep_calls "BestEdges1" alpha vehicle duals st)
      as (tried & Hl & Hf).
    exists tried. split; [exact Hl|]. split; [exact Hf | discriminate]. }
  destruct (String.eqb_spec dyn "BestEdges2") as [->|E3].
  { destruct (hyper_sweep_calls "BestEdges2" ratio vehicle duals st)
      as (tried & Hl & Hf).
    exists tried. split; [exact Hl|]. split; [exact Hf | discriminate]. }
  destruct (String.eqb_spec dyn "Exact") as [->|E4].
  - cbv zeta. set (st1 := set_hyper_heuristic _ st).
    exists [(_def_subproblem st1 duals vehicle "Exact" None false,
             _more_routes
               (run_subproblem time subproblem_solve
                  (_def_subproblem st1 duals vehicle "Exact" None false)
                  st1))].
    split; [reflexivity|].
    assert (Hx : is_exact_call
                   (_def_subproblem st1 duals vehicle "Exact" None false,
                    _more_routes
                      (run_subproblem time subproblem_solve
                         (_def_subproblem st1 duals vehicle "Exact" None
                                          false) st1))
                 /\ sp_vehicle_type
                      (_def_subproblem st1 duals vehicle "Exact" None false)
                    = vehicle).
    { unfold is_exact_call, _def_subproblem. cbn [fst].
      destruct (_cspy st1); repeat split; discriminate. }
    split.
    + constructor; [apply Hx | constructor].
    + intros _. eexists. split; [left; reflexivity|]. exact Hx.
  - exists []. cbn. rewrite app_nil_r. split; [reflexivity|].
    split; [constructor | contradiction].
Qed.

Lemma vehicles_loop_hyper dyn duals vehicles (st st' : @VRP HH) :
  Py.for_each vehicles (body dyn duals) st = Ok st' ->
  _pricing_strategy st = "Hyper" ->
  exists tried,
    pricing_log st' = pricing_log st ++ tried /\
    Forall (fun call => sp_pricing_strategy (fst call) = dyn) tried /\
    (dyn = "Exact" ->
     forall vehicle, In vehicle vehicles -> exact_attempted_for vehicle tried).
Proof.
  revert st. induction vehicles as [|v vs IH]; intros st H Hmode.
  - injection H as <-. exists []. rewrite app_nil_r.
    split; [reflexivity|]. split; [constructor|]. intros _ k [].
  - cbn [Py.for_each] in H. apply bind_Ok in H as (s2 & Hb & Hrest).
    apply bind_Ok in Hb as (s1 & Hg & Hs).
    apply (greedy_columns_spec greedy_solve) in Hg as (Hg1 & _ & Hg3 & _).
    apply (search_columns_spec time subproblem_solve) in Hs
      as (Hs1 & _ & _ & _ & Hlog).
    assert (Hm1 : _pricing_strategy s1 = "Hyper")
      by (rewrite <- Hmode; apply Hg1).
    assert (Hm2 : _pricing_strategy s2 = "Hyper")
      by (rewrite <- Hm1; apply Hs1).
    destruct (attempt_hyper dyn v duals (set_more_routes false s1) Hm1)
      as (t1 & Hl1 & Hf1 & Hx1).
    destruct (IH _ Hrest Hm2) as (t2 & Hl2 & Hf2 & Hx2).
    exists (t1 ++ t2).
    split.
    { rewrite Hl2, Hlog, Hl1. cbn [pricing_log set_more_routes].
      now rewrite Hg3, <- app_assoc. }
    split; [apply Forall_app; split; assumption|].
    intros Hd k [<-|Hin].
    + destruct (Hx1 Hd) as (call & Hin & Hc).
      exists call. split; [apply in_or_app; now left | exact Hc].
    + destruct (Hx2 Hd k Hin) as (call & Hin' & Hc).
      exists call. split; [apply in_or_app; now right | exact Hc].
Qed.

Lemma pick_strategy_hyper cost freq (st : @VRP HH) :
  _pricing_strategy st = "Hyper" ->
  let dyn := snd (pick_strategy cost freq st) in
  (_no_improvement st = do_exact st -> dyn = "Exact") /\
  (_no_improvement st <> do_exact st ->
   if initialisation (hyper_heuristic st) then dyn = "BestPaths"
   else exists hh, dyn = fst (pick_heurestic hh)).
Proof.
  intros Hmode. unfold pick_strategy. rewrite Hmode.
  replace (String.eqb "Hyper" "Hyper") with true by reflexivity.
  destruct (Z.eqb_spec (_no_improvement st) (do_exact st)) as [E|E];
    cbn [andb negb].
  - split; [reflexivity | contradiction].
  - split; [contradiction|]. intros _.
    destruct (initialisation (hyper_heuristic st)); cbn; eauto.
Qed.

Lemma find_columns_hyper (st st' : @VRP HH) :
  _find_columns st = Ok st' ->
  _pricing_strategy st = "Hyper" ->
  exists dyn tried,
    pricing_log st' = pricing_log st ++ tried /\
    (_no_improvement st = do_exact st -> dyn = "Exact") /\
    (_no_improvement st <> do_exact st ->
     if initialisation (hyper_heuristic st) then dyn = "BestPaths"
     else exists hh, dyn = fst (pick_heurestic hh)) /\
    Forall (fun call => sp_pricing_strategy (fst call) = dyn) tried /\
    (dyn = "Exact" ->
     forall vehicle, 0 <= vehicle < _vehicle_types st ->
                     exact_attempted_for vehicle tried).
Proof.
  unfold _find_columns. intros H Hmode.
  apply bind_Ok in H as (solved & _ & H).
  apply bind_Ok in H as (dist & _ & H).
  cbv zeta in H.
  set (st2 := set_routes (fst (fst dist))
                (set_masterproblem (fst (fst solved)) st)) in *.
  pose proof (pick_strategy_spec time set_current_objective set_initial_time
                current_performance move_acceptance update_parameters
                pick_heurestic (snd solved) (snd dist) st2)
    as (Hp1 & Hp2 & _).
  pose proof (pick_strategy_hyper (snd solved) (snd dist) st2 Hmode)
    as [Hd1 Hd2].
  set (picked := pick_strategy (snd solved) (snd dist) st2) in *.
  apply bind_Ok in H as (st3 & Hloop & H).
  assert (Hm : _pricing_strategy (fst picked) = "Hyper")
    by (rewrite <- Hmode; apply Hp1).
  assert (Hvt : _vehicle_types (fst picked) = _vehicle_types st)
    by apply Hp1.
  apply vehicles_loop_hyper in Hloop as (tried & Hl & Hf & Hx);
    [|exact Hm].
  apply update_stopping_criteria_spec in H as (_ & Hu2 & _).
  exists (snd picked), tried.
  split; [rewrite Hu2, Hl, Hp2; reflexivity|].
  split; [exact Hd1|]. split; [exact Hd2|]. split; [exact Hf|].
  intros Hd k Hk. apply (Hx Hd). apply range_In. now rewrite Hvt.
Qed.

(** C1, as amended.  In every iteration the flags of the pricing calls
    are the answers of the pricing engine.  Under every configured
    strategy other than "Hyper": if every call of a non-exact strategy
    fails, Exact is attempted for every vehicle type before the iteration
    ends.  Under "Hyper" every call of the iteration uses the strategy
    chosen for it, so a failed sweep is not followed by Exact; Exact is
    attempted, for every vehicle type, exactly when it is the strategy
    chosen, which it is when the no-improvement counter equals
    [do_exact]; otherwise the choice is BestPaths in the selector's first
    iteration and the selector's pick afterwards.  ([tried] are the
    pricing calls of this iteration, [dyn] its strategy.) *)
Theorem exact_follows_failed_heuristics (st st' : @VRP HH) :
  _find_columns st = Ok st' ->
  exists dyn tried,
    pricing_log st' = pricing_log st ++ tried /\
    answered_by_engine time subproblem_solve st tried /\
    (_pricing_strategy st <> "Hyper" ->
     heuristics_failed tried ->
     forall vehicle, 0 <= vehicle < _vehicle_types st ->
                     exact_attempted_for vehicle tried) /\
    (_pricing_strategy st = "Hyper" ->
     (_no_improvement st = do_exact st -> dyn = "Exact") /\
     (_no_improvement st <> do_exact st ->
      if initialisation (hyper_heuristic st) then dyn = "BestPaths"
      else exists hh, dyn = fst (pick_heurestic hh)) /\
     Forall (fun call => sp_pricing_strategy (fst call) = dyn) tried /\
     (dyn <> "Exact" -> Forall (fun call => ~ is_exact_call call) tried) /\
     (dyn = "Exact" ->
      forall vehicle, 0 <= vehicle < _vehicle_types st ->
                      exact_attempted_for vehicle tried)).
Proof.
  intros H.
  destruct (find_columns_priced _ _ H) as (tried & Hlog & _ & Hans).
  pose proof (find_columns_spec time subproblem_solve greedy_solve lp_solve
                lp_resolve run_dive set_current_objective set_initial_time
                current_performance move_acceptance update_parameters
                pick_heurestic _ _ H)
    as (_ & (dyn0 & tried0 & Hlog0 & _ & _ & _ & Hesc) & _).
  assert (tried0 = tried) as ->
    by (apply (app_inv_head (pricing_log st)); congruence).
  destruct (String.eqb_spec (_pricing_strategy st) "Hyper") as [Hmode|Hmode].
  - destruct (find_columns_hyper _ _ H Hmode)
      as (dyn & tried1 & Hlog1 & Hd1 & Hd2 & Hf & Hx).
    assert (tried1 = tried) as ->
      by (apply (app_inv_head (pricing_log st)); congruence).
    exists dyn, tried. split; [exact Hlog|]. split; [exact Hans|].
    split; [contradiction|]. intros _.
    split; [exact Hd1|]. split; [exact Hd2|]. split; [exact Hf|].
    split; [|exact Hx].
    intros Hne. eapply List.Forall_impl; [|exact Hf].
    intros call Hc [Hs _]. congruence.
  - exists dyn0, tried. split; [exact Hlog|]. split; [exact Hans|].
    split; [now apply Hesc | contradiction].
Qed.

End EscalationFacts.

(** ** The worked instances *)

Lemma is_exact_callb_spec (call : SubProblem * bool) :
  is_exact_callb call = true <-> is_exact_call call.
Proof.
  unfold is_exact_callb, is_exact_call.
  rewrite !andb_true_iff, String.eqb_eq.
  destruct (sp_pricing_parameter (fst call)), (sp_class (fst call));
    intuition congruence.
Qed.

Lemma all_failed_heuristics (tried : list (SubProblem * bool)) :
  forallb (fun call => negb (snd call)) tried = true ->
  heuristics_failed tried.
Proof.
  intros H. apply List.Forall_forall. intros call Hin _.
  rewrite forallb_forall in H. apply H in Hin.
  unfold failed. now destruct (snd call).
Qed.

Lemma no_exact_call (vehicle : Z) (tried : list (SubProblem * bool)) :
  existsb is_exact_callb tried = false ->
  ~ exact_attempted_for vehicle tried.
Proof.
  intros H (call & Hin & Hx & _).
  apply is_exact_callb_spec in Hx.
  assert (existsb is_exact_callb tried = true)
    by (apply existsb_exists; eauto).
  congruence.
Qed.

Import Instance.

Lemma exact_follows_failed_heuristics_witness :
  match find_columns_with never_finds (start "BestEdges1") with
  | Ok st' =>
      exists tried,
        pricing_log st' = pricing_log (start "BestEdges1") ++ tried /\
        answered_by_engine (fun _ => 0%Q) never_finds (start "BestEdges1")
                           tried /\
        (heuristics_failed tried ->
         forall vehicle, 0 <= vehicle < 1 -> exact_attempted_for vehicle tried)
  | Raise _ => False
  end.
Proof.
  destruct (find_columns_with never_finds (start "BestEdges1"))
    as [st'|e] eqn:E; [|vm_compute in E; discriminate].
  unfold find_columns_with in E.
  destruct (exact_follows_failed_heuristics _ _ _ _ _ _ _ _ _ _ _ _ _ _ E)
    as (dyn & tried & Hlog & Hans & Hesc & _).
  exists tried. split; [exact Hlog|]. split; [exact Hans|].
  apply Hesc. discriminate.
Defined.

(** C1 as stated fails under "Hyper": in the first iteration the selector
    starts with BestPaths, all four parameter values fail, the iteration
    ends without an Exact attempt and the loop goes on (the flag is
    true). *)
Lemma hyper_does_not_escalate :
  match find_columns_with never_finds (start "Hyper") with
  | Ok st' =>
      length (pricing_log st') = 4%nat /\
      heuristics_failed (pricing_log st') /\
      ~ exact_attempted_for 0 (pricing_log st') /\
      _more_routes st' = true
  | Raise _ => False
  end.
Proof.
  destruct (find_columns_with never_finds (start "Hyper"))
    as [st'|e] eqn:E; [|vm_compute in E; discriminate].
  assert (H : match find_columns_with never_finds (start "Hyper") with
              | Ok s => (length (pricing_log s),
                         forallb (fun call => negb (snd call)) (pricing_log s),
                         existsb is_exact_callb (pricing_log s),
                         _more_routes s)
              | Raise _ => (O, false, true, false)
              end = (4%nat, true, false, true))
    by (vm_compute; reflexivity).
  rewrite E in H. injection H as H1 H2 H3 H4.
  split; [exact H1|]. split; [now apply all_failed_heuristics|].
  split; [now apply no_exact_call | exact H4].
Qed.

Lemma convergence_follows_failed_exact_witness :
  match column_generation_with never_finds 5 (start "BestEdges1") with
  | Ok (_, st') =>
      (_more_routes (start "BestEdges1") = false
       /\ st' = start "BestEdges1")
      \/ ends_with_failed_exact (pricing_log st')
  | Raise _ => False
  end.
Proof.
  destruct (column_generation_with never_finds 5 (start "BestEdges1"))
    as [[exit st']|e] eqn:E; [|vm_compute in E; discriminate].
  assert (H : match column_generation_with never_finds 5
                      (start "BestEdges1") with
              | Ok (exit, _) => exit
              | Raise _ => StillIterating
              end = Converged) by (vm_compute; reflexivity).
  rewrite E in H. subst exit. unfold column_generation_with in E.
  refine (proj2 (convergence_follows_failed_exact _ _ _ _ _ _ _ _ _ _ _ _ _
                   _ _ _ E)).
  intros hh. left. reflexivity.
Defined.

(** C2 as stated fails when every customer is preassigned to a complete
    route: [_lock] clears the flag, and the loop is left at once with the
    flag false, no iteration and no pricing attempt behind it. *)
Lemma all_locked_converges_without_pricing :
  _more_routes all_preassigned = true /\
  match _lock all_preassigned with
  | Ok st =>
      _more_routes st = false /\
      column_generation_with never_finds 5 st = Ok (Converged, st) /\
      pricing_log st = [] /\
      ~ ends_with_failed_exact (pricing_log st)
  | Raise _ => False
  end.
Proof.
  split; [reflexivity|].
  destruct (_lock all_preassigned) as [st|e] eqn:E;
    [|vm_compute in E; discriminate].
  assert (H : match _lock all_preassigned with
              | Ok s => (_more_routes s, pricing_log s)
              | Raise _ => (true, [])
              end = (false, [])) by (vm_compute; reflexivity).
  rewrite E in H. injection H as H1 H2.
  split; [exact H1|]. split.
  - unfold column_generation_with. cbn [_column_generation].
    now rewrite H1.
  - split; [exact H2|]. rewrite H2. intros (before & call & Hnil & _).
    now destruct before.
Qed.

(** C3 fails on a run whose relaxed objective stays at 10 while pricing
    keeps finding a column: after 1100 iterations, 1099 of them without
    improvement in a row, the loop is still going; the counter stands at
    99, having been reset on reaching 1000. *)
Theorem stagnation_does_not_stop_the_loop :
  match column_generation_with always_finds 1100 (start "BestEdges1") with
  | Ok (StillIterating, st') =>
      _iteration st' = 1100 /\
      _lower_bound st' = repeat (Some 10%Q) 1100 /\
      _no_improvement st' = 99 /\
      _more_routes st' = true
  | _ => False
  end.
Proof. vm_compute. repeat split. Qed.

(** ** Adding a column *)

Lemma gains_terms_refl v c : gains_terms_of v c c.
Proof.
  repeat split. exists O. cbn. now rewrite app_nil_r.
Qed.

Lemma gains_terms_add v c c' :
  gains_terms_of v c c' -> gains_terms_of v c (Pulp.addVariable v 1%Q c').
Proof.
  intros (Hs & Hr & k & Ht). repeat split; cbn; try assumption.
  exists (S k). rewrite Ht, <- app_assoc. f_equal.
  change [(v, 1%Q)] with (repeat (v, 1%Q) 1).
  rewrite <- repeat_app. f_equal. lia.
Qed.

Lemma alter_all_gains {K} `{Countable K} v (keys : list K)
    (cs : gmap K Pulp.LpConstraintVar) key :
  option_Forall2 (gains_terms_of v) (cs !! key)
    (fold_right (fun r acc => alter (Pulp.addVariable v 1%Q) r acc) cs keys
     !! key).
Proof.
  induction keys as [|r keys IH]; cbn [fold_right].
  - destruct (cs !! key); constructor. apply gains_terms_refl.
  - rewrite lookup_alter. destruct (decide (r = key)) as [->|Hne].
    + destruct IH as [c c' Hg|]; cbn; constructor.
      now apply gains_terms_add.
    + exact IH.
Qed.

Lemma alter_all_other {K} `{Countable K} v (keys : list K)
    (cs : gmap K Pulp.LpConstraintVar) key :
  ~ In key keys ->
  fold_right (fun r acc => alter (Pulp.addVariable v 1%Q) r acc) cs keys
  !! key = cs !! key.
Proof.
  induction keys as [|r keys IH]; cbn [fold_right]; intros Hin;
    [reflexivity|].
  rewrite lookup_alter_ne; [apply IH|]; intros Heq; apply Hin; cbn; auto.
Qed.

Lemma update_adds_column route m m' :
  MasterSolvePulp.update route m = Ok m' -> column_added route m m'.
Proof.
  unfold MasterSolvePulp.update, MasterSolvePulp._add_route_selection_variable.
  intros H. apply bind_Ok in H as (u1 & _ & H).
  apply bind_Ok in H as (u2 & _ & H). injection H as <-.
  unfold column_added. cbn.
  split; [reflexivity|].
  split; [intros name Hne; now apply lookup_insert_ne|].
  split; [intros node; apply alter_all_gains|].
  split; [intros node Hin; now apply alter_all_other|].
  split; [intros k; apply alter_all_gains|].
  split; [|repeat split].
  intros k Hk. apply alter_all_other.
  unfold MasterSolvePulp.bounded. rewrite filter_In.
  intros [_ Heq]. apply Z.eqb_eq in Heq. congruence.
Qed.

Lemma index_minus_one {A} (l : list A) (x : A) :
  Py.index l (-1) = Ok x -> exists others, l = others ++ [x].
Proof.
  destruct l as [|y l _] using rev_ind; unfold Py.index.
  - discriminate.
  - intros H. exists l. rewrite length_app in *. cbn [length] in *.
    replace (-1 <? 0) with true in H by reflexivity.
    destruct (_ || _) in H; [discriminate|].
    replace (Z.to_nat (-1 + Z.of_nat (length l + 1))) with (length l + 0)%nat
      in H by lia.
    rewrite nth_error_app2 in H by lia.
    replace (length l + 0 - length l)%nat with O in H by lia.
    cbn in H. congruence.
Qed.

Lemma setitem_minus_one {A} (others : list A) (x y : A) :
  Py.setitem (others ++ [x]) (-1) y = Ok (others ++ [y]).
Proof.
  unfold Py.setitem. rewrite length_app. cbn [length].
  replace (-1 <? 0) with true by reflexivity.
  destruct ((_ <? 0) || (_ <=? _)) eqn:E.
  { apply orb_true_iff in E as [E|E];
      [apply Z.ltb_lt in E | apply Z.leb_le in E]; lia. }
  replace (Z.to_nat (-1 + Z.of_nat (length others + 1)))
    with (length others) by lia.
  rewrite insert_app_r_alt by lia.
  now replace (length others - length others)%nat with O by lia.
Qed.

Lemma with_no_terms (c : Pulp.LpConstraintVar) : with_terms [] c = c.
Proof. destruct c. unfold with_terms. cbn. now rewrite app_nil_r. Qed.

Lemma alter_all_count {K} `{Countable K} (dec : forall a b : K, {a = b} + {a <> b})
    v (keys : list K) (cs : gmap K Pulp.LpConstraintVar) key :
  fold_right (fun r acc => alter (Pulp.addVariable v 1%Q) r acc) cs keys
  !! key
  = with_terms (repeat (v, 1%Q) (count_occ dec keys key)) <$> cs !! key.
Proof.
  induction keys as [|r keys IH]; cbn [fold_right count_occ].
  - destruct (cs !! key) as [c|]; [|reflexivity]. cbn.
    now rewrite with_no_terms.
  - destruct (dec r key) as [->|Hne].
    + rewrite lookup_alter_eq, IH.
      destruct (cs !! key) as [c|]; [|reflexivity]. cbn. f_equal.
      unfold Pulp.addVariable, with_terms. cbn. f_equal.
      rewrite <- app_assoc. f_equal.
      change [(v, 1%Q)] with (repeat (v, 1%Q) 1).
      rewrite <- repeat_app, Nat.add_1_r. reflexivity.
    + rewrite lookup_alter_ne by exact Hne. exact IH.
Qed.

Lemma count_occ_filter {A} (dec : forall a b : A, {a = b} + {a <> b})
    (f : A -> bool) (l : list A) (x : A) :
  count_occ dec (List.filter f l) x
  = if f x then count_occ dec l x else O.
Proof.
  induction l as [|y l IH]; cbn [List.filter count_occ].
  - now destruct (f x).
  - destruct (f y) eqn:Ey; cbn [count_occ];
      destruct (dec y x) as [->|Hne]; rewrite IH.
    + now rewrite Ey.
    + reflexivity.
    + now rewrite Ey.
    + reflexivity.
Qed.

Lemma lookups_all_there {K V} `{Countable K} (keys : list K) (d : gmap K V)
    (u : unit) :
  Py.for_each keys
    (fun r _ => _ <- Py.of_option KeyError (d !! r) ;; Ok tt) tt = Ok u ->
  forall k, In k keys -> is_Some (d !! k).
Proof.
  induction keys as [|r keys IH]; intros E k Hin; [destruct Hin|].
  cbn [Py.for_each] in E. apply bind_Ok in E as ([] & E1 & E).
  apply bind_Ok in E1 as (c & Hc & _).
  destruct Hin as [<-|Hin]; [|now apply IH].
  destruct (d !! r); [eauto | discriminate].
Qed.

Lemma bounded_In (route : Route.t) (m : MasterSolvePulp.t) (k : Z) :
  In k (MasterSolvePulp.bounded route m)
  <-> Route.vehicle_type route = k
      /\ 0 <= k < Z.of_nat (length (MasterSolvePulp.num_vehicles m)).
Proof.
  unfold MasterSolvePulp.bounded. rewrite filter_In, range_In, Z.eqb_eq.
  tauto.
Qed.

Lemma update_enters_column route m m' :
  MasterSolvePulp.update route m = Ok m' -> column_entered route m m'.
Proof.
  unfold MasterSolvePulp.update, MasterSolvePulp._add_route_selection_variable.
  intros H. apply bind_Ok in H as (u1 & Hv & H).
  apply bind_Ok in H as (u2 & Hk & H). injection H as <-.
  pose proof (lookups_all_there _ _ _ Hv) as Hvs.
  pose proof (lookups_all_there _ _ _ Hk) as Hks.
  unfold column_entered. cbn.
  split.
  { intros node Hin Hs Ht. apply Hvs. unfold MasterSolvePulp.visited.
    apply filter_In. split; [exact Hin|].
    unfold MasterSolvePulp.is_depot.
    apply String.eqb_neq in Hs, Ht. now rewrite Hs, Ht. }
  split.
  { intros node. rewrite (alter_all_count String.string_dec).
    unfold MasterSolvePulp.visited. rewrite count_occ_filter.
    unfold MasterSolvePulp.is_depot.
    destruct (String.eqb node "Source" || String.eqb node "Sink");
      cbn [negb]; [|reflexivity].
    destruct (MasterSolvePulp.set_covering_constrs m !! node) as [c|];
      [|reflexivity].
    cbn. now rewrite with_no_terms. }
  split.
  { intros k Hk1 Hk2.
    assert (Hin : In k (MasterSolvePulp.bounded route m))
      by (apply bounded_In; auto).
    destruct (Hks k Hin) as [c Hc]. exists c. split; [exact Hc|].
    rewrite (alter_all_count Z.eq_dec), Hc.
    assert (Hone : count_occ Z.eq_dec (MasterSolvePulp.bounded route m) k
                   = 1%nat).
    { apply NoDup_count_occ'; [|exact Hin].
      unfold MasterSolvePulp.bounded. apply List.NoDup_filter.
      unfold Py.range. apply Finite.Injective_map_NoDup; [|apply seq_NoDup].
      intros a b Hab. lia. }
    rewrite Hone. reflexivity. }
  split; [|reflexivity].
  intros k Hk1. apply alter_all_other. now rewrite bounded_In.
Qed.

Section ColumnFacts.

Context {HH : Type}.
Variable time : @VRP HH -> Q.
Variable subproblem_solve :
  SubProblem -> option Q -> @VRP HH -> list Route.t * bool.

Lemma produced_flag dyn vehicle duals (st : @VRP HH) :
  snd (_solve_subproblem_with_heuristic time subproblem_solve dyn vehicle
         duals st) = true ->
  _more_routes (fst (_solve_subproblem_with_heuristic time subproblem_solve
                       dyn vehicle duals st)) = true.
Proof.
  destruct (attempt_spec time subproblem_solve dyn vehicle duals st)
    as (tried & _ & Hout).
  intros Hp.
  destruct Hout as [? ? _ _ _ _ Hf | ? ? _ _ _ _ Hs Hf | _ _ _ _ Hs _
                   | _ _ _ _ Hs]; congruence.
Qed.

(** C10.  When the pricing attempt for a vehicle type produced a column,
    the last route of the list it returned is tagged with the strategy of
    the iteration (its heuristic attribute is that strategy's name, the
    rest of the route is as it was) and added to the master problem as
    one column: its variable enters the covering constraints of the nodes
    it visits, the bound constraint of its vehicle type and the
    objective.  Nothing else is added: the other routes of the list stay
    as they are and get no column, the columns already there and the
    constraints keep what they had. *)
Theorem produced_column_adds_last_route dyn duals vehicle
    (st st' : @VRP HH) :
  search_columns time subproblem_solve dyn duals vehicle st = Ok st' ->
  produced_column st' = Some true ->
  exists others last tagged,
    routes (fst (_solve_subproblem_with_heuristic time subproblem_solve dyn
                   vehicle duals (set_more_routes false st)))
    = others ++ [last] /\
    routes st' = others ++ [tagged] /\
    tagged_with dyn last tagged /\
    column_added tagged (masterproblem st) (masterproblem st') /\
    column_entered tagged (masterproblem st) (masterproblem st') /\
    (forall r, In r others -> Route.name r <> Route.name last ->
       MasterSolvePulp.y (masterproblem st') !! Route.name r
       = MasterSolvePulp.y (masterproblem st) !! Route.name r).
Proof.
  intros H Hprod.
  destruct (untouched_settings _ _
              (attempt_untouched time subproblem_solve dyn vehicle duals
                 (set_more_routes false st))) as (_ & _ & Hm).
  unfold search_columns in H. cbv zeta in H.
  set (out := _solve_subproblem_with_heuristic time subproblem_solve dyn
                vehicle duals (set_more_routes false st)) in *.
  change (_more_routes (set_produced_column (Some (snd out)) (fst out)))
    with (_more_routes (fst out)) in H.
  cbn in Hm.
  assert (Hp : snd out = true).
  { destruct (_more_routes (fst out)); [destruct (snd out) eqn:E|];
      [reflexivity | | ]; injection H as <-; cbn in Hprod; congruence. }
  rewrite Hp in H.
  destruct (_more_routes (fst out)) eqn:Hflag0.
  2: { exfalso.
       pose proof (produced_flag dyn vehicle duals
                     (set_more_routes false st) Hp) as Hflag.
       fold out in Hflag. congruence. }
  apply bind_Ok in H as (last & Hlast & H).
  apply bind_Ok in H as (rs & Hrs & H).
  apply bind_Ok in H as (m & Hu & H).
  injection H as <-. cbn in Hlast, Hrs, Hu |- *.
  apply index_minus_one in Hlast as [others Hroutes].
  rewrite Hroutes, setitem_minus_one in Hrs. injection Hrs as <-.
  rewrite Hm in Hu.
  pose proof (update_enters_column _ _ _ Hu) as He.
  apply update_adds_column in Hu.
  exists others, last, (Route.set_heuristic dyn last).
  split; [exact Hroutes|]. split; [reflexivity|].
  split; [repeat split|]. split; [exact Hu|]. split; [exact He|].
  intros r _ Hne. apply Hu. exact Hne.
Qed.

End ColumnFacts.

Lemma produced_column_adds_last_route_witness :
  match search_columns (fun _ => 0%Q) Instance.always_finds "BestEdges1"
          (mkDuals [] None) 0 (Instance.start "BestEdges1") with
  | Ok st' =>
      exists others last tagged,
        [Instance.route1; Instance.route2] = others ++ [last] /\
        routes st' = others ++ [tagged] /\
        tagged_with "BestEdges1" last tagged /\
        column_added tagged Instance.line_master (masterproblem st') /\
        column_entered tagged Instance.line_master (masterproblem st') /\
        (forall r, In r others -> Route.name r <> Route.name last ->
           MasterSolvePulp.y (masterproblem st') !! Route.name r
           = MasterSolvePulp.y Instance.line_master !! Route.name r)
  | Raise _ => False
  end.
Proof.
  destruct (search_columns (fun _ => 0%Q) Instance.always_finds "BestEdges1"
              (mkDuals [] None) 0 (Instance.start "BestEdges1"))
    as [st'|e] eqn:E; [|vm_compute in E; discriminate].
  apply (produced_column_adds_last_route _ _ _ _ _ _ _ E).
  assert (H : match search_columns (fun _ => 0%Q) Instance.always_finds
                      "BestEdges1" (mkDuals [] None) 0
                      (Instance.start "BestEdges1") with
              | Ok s => produced_column s
              | Raise _ => None
              end = Some true) by (vm_compute; reflexivity).
  now rewrite E in H.
Defined.

(** ** Initial routes: to a digraph and back *)

Lemma not_seen (v : string) (seen : list string) :
  existsb (String.eqb v) seen = false <-> ~ In v seen.
Proof.
  split.
  - intros H Hin.
    assert (existsb (String.eqb v) seen = true).
    { apply existsb_exists. exists v. split; [exact Hin|].
      apply String.eqb_refl. }
    congruence.
  - intros H. destruct (existsb (String.eqb v) seen) eqn:E; [|reflexivity].
    apply existsb_exists in E as (x & Hin & Heq).
    apply String.eqb_eq in Heq. subst. contradiction.
Qed.

Lemma route_edges_cons (x y : string) (rest : list string) :
  route_edges (x :: y :: rest) = (x, y) :: route_edges (y :: rest).
Proof. reflexivity. Qed.

Lemma route_edges_sources (r : list string) (e : string * string) :
  In e (route_edges r) -> In (fst e) (removelast r) /\ In (snd e) (tl r).
Proof.
  unfold route_edges. destruct e as [a b]. intros H.
  split; [eapply in_combine_l | eapply in_combine_r]; exact H.
Qed.

Lemma removelast_In {A} (l : list A) (x : A) :
  In x (removelast l) -> In x l.
Proof.
  induction l as [|a [|b l] IH]; cbn; [tauto | tauto |].
  intros [->|H]; [now left | right; now apply IH].
Qed.

Lemma no_edge_from {C} (cost : string * string -> C) (x : string)
    (es : list (string * string)) :
  (forall e, In e es -> fst e <> x) ->
  List.filter (fun e : string * string * C => String.eqb (fst (fst e)) x)
    (map (fun e => (e, cost e)) es) = [].
Proof.
  induction es as [|e es IH]; intros H; [reflexivity|].
  cbn [map List.filter fst].
  assert (Hne : fst e <> x) by (apply H; now left).
  apply String.eqb_neq in Hne. rewrite Hne.
  apply IH. intros e' Hin. apply H. now right.
Qed.

(** In a route without repetition, the only edge out of a node is the one
    to its successor. *)
Lemma edges_from {C} (cost : string * string -> C) (pre : list string)
    (x y : string) (suf : list string) :
  List.NoDup (pre ++ x :: y :: suf) ->
  List.filter (fun e : string * string * C => String.eqb (fst (fst e)) x)
    (map (fun e => (e, cost e)) (route_edges (pre ++ x :: y :: suf)))
  = [((x, y), cost (x, y))].
Proof.
  induction pre as [|p pre IH]; intros Hnd.
  - cbn [app]. rewrite route_edges_cons. cbn [map List.filter fst].
    rewrite String.eqb_refl. f_equal.
    apply List.NoDup_cons_iff in Hnd as [Hx _].
    apply no_edge_from. intros e Hin Heq.
    apply route_edges_sources in Hin as [Hin _].
    apply removelast_In in Hin. congruence.
  - cbn [app] in *. apply List.NoDup_cons_iff in Hnd as [Hp Hnd].
    destruct (pre ++ x :: y :: suf) as [|z zs] eqn:E.
    { now destruct pre. }
    rewrite route_edges_cons. cbn [map List.filter fst].
    assert (Hne : p <> x).
    { intros ->. apply Hp. rewrite <- E. apply in_or_app. right. now left. }
    apply String.eqb_neq in Hne. rewrite Hne.
    apply IH. exact Hnd.
Qed.

Lemma successors_on_route (d : Route.t) (pre : list string)
    (x y : string) (suf : list string) (cost : string * string -> Q) :
  List.NoDup (pre ++ x :: y :: suf) ->
  Route.edges d
  = map (fun e => (e, cost e)) (route_edges (pre ++ x :: y :: suf)) ->
  Route.successors d x = [y].
Proof.
  intros Hnd He. unfold Route.successors. rewrite He.
  now rewrite (edges_from cost pre x y suf Hnd).
Qed.

(** Breadth-first search along a route without repetition walks the route
    and nothing else. *)
Lemma bfs_walks_route (d : Route.t) (cost : string * string -> Q)
    (r : list string) (target : string) :
  List.NoDup r ->
  Route.edges d = map (fun e => (e, cost e)) (route_edges r) ->
  forall suf pre x seen fuel,
    r = pre ++ x :: suf ->
    last r = Some target ->
    (forall v, In v seen -> In v (pre ++ [x])) ->
    (length suf < fuel)%nat ->
    Route.bfs fuel d target [x :: rev pre] seen = Some r.
Proof.
  intros Hnd He. induction suf as [|y suf IH];
    intros pre x seen fuel Hr Hlast Hseen Hfuel;
    (destruct fuel as [|fuel]; [cbn in Hfuel; lia|]); cbn [Route.bfs].
  - assert (Hx : x = target).
    { rewrite Hr, last_snoc in Hlast. congruence. }
    subst x. rewrite String.eqb_refl. f_equal.
    cbn [rev]. now rewrite rev_involutive.
  - assert (Hx : String.eqb x target = false).
    { apply String.eqb_neq. intros ->. rewrite Hr in Hnd, Hlast.
      apply List.NoDup_remove_2 in Hnd. apply Hnd.
      apply in_or_app. right.
      replace (pre ++ target :: y :: suf)
        with ((pre ++ [target]) ++ y :: suf) in Hlast
        by now rewrite <- app_assoc.
      rewrite last_app_cons in Hlast.
      apply last_Some_elem_of in Hlast. now apply list_elem_of_In. }
    rewrite Hx.
    assert (Hsucc : Route.successors d x = [y]).
    { apply (successors_on_route d pre x y suf cost); rewrite <- Hr;
        assumption. }
    rewrite Hsucc. cbn [List.filter].
    assert (Hy : existsb (String.eqb y) seen = false).
    { apply not_seen. intros Hin. apply Hseen in Hin.
      rewrite Hr in Hnd.
      replace (pre ++ x :: y :: suf) with ((pre ++ [x]) ++ y :: suf) in Hnd
        by now rewrite <- app_assoc.
      apply List.NoDup_remove_2 in Hnd. apply Hnd.
      apply in_or_app. now left. }
    rewrite Hy. cbn [negb map app].
    replace (y :: x :: rev pre) with (y :: rev (pre ++ [x]))
      by now rewrite rev_app_distr.
    apply IH.
    + now rewrite <- app_assoc.
    + exact Hlast.
    + intros v Hin. apply in_app_or in Hin as [Hin|[<-|[]]].
      * apply in_or_app. left. now apply Hseen.
      * apply in_or_app. right. now left.
    + cbn in Hfuel. lia.
Qed.

Lemma put_edge_new (i j : string) (c : Q)
    (es : list (string * string * Q)) :
  ~ In (i, j) (map fst es) ->
  Route.put_edge i j c es = es ++ [((i, j), c)].
Proof.
  induction es as [|[[i' j'] c'] es IH]; intros Hin; [reflexivity|].
  cbn [Route.put_edge].
  destruct (String.eqb i i' && String.eqb j j') eqn:E.
  - apply andb_true_iff in E as [E1 E2].
    apply String.eqb_eq in E1, E2. subst. exfalso. apply Hin. now left.
  - cbn [app]. f_equal. apply IH. intros H. apply Hin. now right.
Qed.

Lemma add_node_In (v w : string) (ns : list string) :
  In w (Route.add_node v ns) <-> w = v \/ In w ns.
Proof.
  unfold Route.add_node.
  destruct (existsb (String.eqb v) ns) eqn:E.
  - split; [tauto|]. intros [->|H]; [|exact H].
    apply existsb_exists in E as (x & Hin & Heq).
    apply String.eqb_eq in Heq. now subst.
  - rewrite in_app_iff. cbn. intuition.
Qed.

Lemma route_edges_NoDup (r : list string) :
  List.NoDup r -> List.NoDup (route_edges r).
Proof.
  induction r as [|x [|y rest] IH]; intros Hnd;
    [constructor | constructor |].
  rewrite route_edges_cons. apply List.NoDup_cons_iff in Hnd as [Hx Hnd].
  constructor.
  - intros Hin. apply route_edges_sources in Hin as [Hin _].
    apply removelast_In in Hin. contradiction.
  - apply IH. exact Hnd.
Qed.

Lemma route_edges_targets (r : list string) (v : string) :
  In v (tl r) -> exists e, In e (route_edges r) /\ snd e = v.
Proof.
  induction r as [|x [|y rest] IH]; cbn [tl]; intros Hin; try contradiction.
  rewrite route_edges_cons. destruct Hin as [<-|Hin].
  - exists (x, y). split; [now left | reflexivity].
  - destruct (IH Hin) as (e & He & Hv). exists e. split; [now right | exact Hv].
Qed.

(** The loop over the edges of an initial route: new edges go last, every
    end point becomes a node. *)
Lemma add_edges_spec (g : Network.t) (es : list (string * string))
    (d d' : Route.t) (c c' : Q) :
  List.NoDup es ->
  (forall e, In e es -> ~ In e (map fst (Route.edges d))) ->
  Py.for_each es
    (fun e (acc : Route.t * Q) =>
       edge_cost <- Network.edge_cost g (fst e) (snd e) 0 ;;
       Ok (Route.add_edge (fst e) (snd e) edge_cost (fst acc),
           (snd acc + edge_cost)%Q))
    (d, c) = Ok (d', c') ->
  Route.edges d' = Route.edges d ++ map (fun e => (e, cost0 g e)) es /\
  (forall v, In v (Route.nodes d) -> In v (Route.nodes d')) /\
  (forall e, In e es ->
     In (fst e) (Route.nodes d') /\ In (snd e) (Route.nodes d')).
Proof.
  revert d c. induction es as [|[i j] es IH]; intros d c Hnd Hnew H.
  - injection H as <- <-. cbn [map]. rewrite app_nil_r.
    split; [reflexivity|]. split; [auto|]. intros e [].
  - cbn [Py.for_each] in H. apply bind_Ok in H as ([d1 c1] & H1 & H).
    apply bind_Ok in H1 as (ec & Hec & H1). injection H1 as <- <-.
    cbn [fst snd] in *.
    apply List.NoDup_cons_iff in Hnd as [Hij Hnd].
    apply IH in H as (He & Hn & Hes); [|exact Hnd|].
    + cbn [Route.add_edge Route.edges Route.nodes] in He, Hn.
      rewrite put_edge_new in He by (apply Hnew; now left).
      split.
      { rewrite He, <- app_assoc. cbn [map app]. do 3 f_equal.
        unfold cost0. cbn [fst snd]. now rewrite Hec. }
      split.
      { intros v Hv. apply Hn. apply add_node_In. right.
        apply add_node_In. now right. }
      intros e [<-|Hin]; [|now apply Hes].
      cbn [fst snd]. split; apply Hn.
      * apply add_node_In. right. apply add_node_In. now left.
      * apply add_node_In. now left.
    + intros e Hin. cbn [Route.add_edge Route.edges].
      rewrite put_edge_new by (apply Hnew; now left).
      rewrite map_app, in_app_iff. cbn. intros [Hold|[<-|[]]].
      * apply (Hnew e); [now right | exact Hold].
      * contradiction.
Qed.

Lemma length_removelast_cons {A} (x : A) (l : list A) :
  length (removelast (x :: l)) = length l.
Proof.
  revert x. induction l as [|y l IH]; intros x; [reflexivity|].
  change (removelast (x :: y :: l)) with (x :: removelast (y :: l)).
  cbn [length]. now rewrite IH.
Qed.

Lemma has_node_In (d : Route.t) (v : string) :
  In v (Route.nodes d) -> Route.has_node d v = true.
Proof.
  intros H. apply existsb_exists. exists v. split; [exact H|].
  apply String.eqb_refl.
Qed.

(** One route: an initial route that is a simple path from Source to Sink,
    converted to a digraph, is the Source-Sink path that [shortest_path]
    finds in it. *)
Lemma simple_route_round_trip (g : Network.t) (route_id : Z)
    (r : list string) (d : Route.t) :
  simple_route r ->
  initial_route_to_digraph g route_id r = Ok d ->
  Route.shortest_path d "Source" "Sink" = Ok r.
Proof.
  intros (Hhead & Hlast & Hnd) H.
  unfold initial_route_to_digraph in H.
  apply bind_Ok in H as ([d1 c1] & H1 & H). injection H as <-.
  apply add_edges_spec in H1 as (He & _ & Hn);
    [|now apply route_edges_NoDup | intros e _ []].
  cbn [Route.empty Route.edges app] in He.
  destruct r as [|x [|y suf]]; try discriminate.
  { cbn in Hhead, Hlast. congruence. }
  cbn in Hhead. injection Hhead as ->.
  assert (Hsink : In "Sink" (tl ("Source" :: y :: suf))).
  { cbn [tl]. rewrite last_cons_cons in Hlast.
    apply last_Some_elem_of in Hlast. now apply list_elem_of_In. }
  apply route_edges_targets in Hsink as (e & Hin & Hsnd).
  unfold Route.shortest_path.
  rewrite !has_node_In.
  - cbn [negb orb Py.of_option].
    erewrite (bfs_walks_route _ (cost0 g) ("Source" :: y :: suf) "Sink"
                Hnd _ (y :: suf) [] "Source" ["Source"]);
      [reflexivity | reflexivity | exact Hlast | | ].
    + intros v [<-|[]]. now left.
    + cbn [Route.set_vehicle_type Route.set_cost Route.edges Route.nodes
           fst]. rewrite He, length_map. unfold route_edges.
      rewrite length_combine, length_removelast_cons. cbn [tl length].
      lia.
  - cbn. rewrite <- Hsnd. now apply Hn.
  - cbn. apply (Hn ("Source", y)). rewrite route_edges_cons. now left.
  Unshelve. exact He.
Qed.

Lemma convert_loop (g : Network.t) (rs : list (list string))
    (acc : Z * list Route.t * gmap string (list Z))
    (out : Z * list Route.t * gmap string (list Z)) :
  Forall simple_route rs ->
  Py.for_each rs
    (fun r (acc : Z * list Route.t * gmap string (list Z)) =>
       let route_id := fst (fst acc) + 1 in
       d <- initial_route_to_digraph g route_id r ;;
       Ok (route_id, snd (fst acc) ++ [d],
           fold_left
             (fun with_node v =>
                match with_node !! v with
                | Some ds => <[v := ds ++ [Route.name d]]> with_node
                | None => <[v := [Route.name d]]> with_node
                end)
             (inner_nodes r) (snd acc)))
    acc = Ok out ->
  exists ds,
    snd (fst out) = snd (fst acc) ++ ds /\
    List.Forall2
      (fun d r => Route.shortest_path d "Source" "Sink" = Ok r) ds rs.
Proof.
  revert acc. induction rs as [|r rs IH]; intros acc Hs H.
  - injection H as <-. exists []. rewrite app_nil_r. split; constructor.
  - cbn [Py.for_each] in H. apply bind_Ok in H as (acc1 & H1 & H).
    apply bind_Ok in H1 as (d & Hd & H1). injection H1 as <-.
    apply Forall_cons in Hs as [Hr Hs].
    apply IH in H as (ds & Hout & Hall); [|exact Hs].
    cbn [fst snd] in Hout. exists (d :: ds).
    split; [rewrite Hout, <- app_assoc; reflexivity|].
    constructor; [|exact Hall].
    eapply simple_route_round_trip; eauto.
Qed.

Lemma best_routes_loop_back (ds : list Route.t) (rs : list (list string))
    (acc : Z * list (Z * list string)) :
  List.Forall2 (fun d r => Route.shortest_path d "Source" "Sink" = Ok r)
               ds rs ->
  exists out,
    Py.for_each ds
      (fun route (acc : Z * list (Z * list string)) =>
         node_list <- Route.shortest_path route "Source" "Sink" ;;
         Ok (fst acc + 1, snd acc ++ [(fst acc, node_list)]))
      acc = Ok out /\
    map snd (snd out) = map snd (snd acc) ++ rs /\
    map fst (snd out)
    = map fst (snd acc)
      ++ map (fun i => fst acc + Z.of_nat i) (seq 0 (length rs)).
Proof.
  intros H. revert acc. induction H as [|d r ds rs Hd _ IH]; intros acc.
  - exists acc. cbn. rewrite !app_nil_r. auto.
  - cbn [Py.for_each]. rewrite Hd. cbn [Py.bind].
    destruct (IH (fst acc + 1, snd acc ++ [(fst acc, r)]))
      as (out & Hout & Hsnd & Hfst).
    exists out. split; [exact Hout|]. cbn [fst snd] in *.
    rewrite Hsnd, Hfst, !map_app, <- !app_assoc. cbn [map app length seq].
    split; [reflexivity|]. f_equal. cbn [fst]. f_equal; [lia|].
    rewrite <- seq_shift, map_map. apply map_ext. intros i. lia.
Qed.

(** C8, as amended.  When every initial route is a simple path from Source
    to Sink (Source first, Sink last, no node twice), converting the
    initial routes to digraphs and these back to node lists gives the
    initial routes again, in order, under the ids 1, 2, ... *)
Theorem initial_routes_round_trip {HH : Type} (st st' : @VRP HH) :
  Forall simple_route (_initial_routes st) ->
  _convert_initial_routes_to_digraphs st = Ok st' ->
  exists best_routes,
    _best_routes_as_node_lists (routes st') = Ok best_routes /\
    map snd best_routes = _initial_routes st /\
    map fst best_routes
    = map (fun i => 1 + Z.of_nat i) (seq 0 (length (_initial_routes st))).
Proof.
  intros Hs H. unfold _convert_initial_routes_to_digraphs in H.
  apply bind_Ok in H as (out & Hloop & H). injection H as <-.
  apply convert_loop in Hloop as (ds & Hout & Hall); [|exact Hs].
  cbn [fst snd app] in Hout.
  destruct (best_routes_loop_back ds (_initial_routes st) (1, []) Hall)
    as (best & Hbest & Hsnd & Hfst).
  exists (snd best). unfold _best_routes_as_node_lists. cbn [routes set_routes
    set_routes_with_node]. rewrite Hout, Hbest. cbn [Py.bind].
  split; [reflexivity|]. split; [exact Hsnd | exact Hfst].
Qed.

Lemma initial_routes_round_trip_witness :
  match _convert_initial_routes_to_digraphs
          (Instance.initial Instance.line_network [["Source"; "a"; "Sink"]])
  with
  | Ok st' =>
      exists best_routes,
        _best_routes_as_node_lists (routes st') = Ok best_routes /\
        map snd best_routes = [["Source"; "a"; "Sink"]] /\
        map fst best_routes = [1]
  | Raise _ => False
  end.
Proof.
  destruct (_convert_initial_routes_to_digraphs
              (Instance.initial Instance.line_network
                                [["Source"; "a"; "Sink"]]))
    as [st'|e] eqn:E; [|vm_compute in E; discriminate].
  apply (initial_routes_round_trip _ _) in E; [exact E|].
  constructor; [|constructor].
  split; [reflexivity|]. split; [reflexivity|].
  apply NoDup_ListNoDup. apply (bool_decide_unpack _). vm_compute. exact I.
Defined.

(** C8 as stated fails for an initial route that passes a node twice:
    Source, a, b, a, Sink comes back as Source, a, Sink. *)
Lemma detour_is_shortened :
  head Instance.detour = Some "Source" /\
  last Instance.detour = Some "Sink" /\
  match _convert_initial_routes_to_digraphs
          (Instance.initial Instance.loop_network [Instance.detour])
  with
  | Ok st' =>
      _best_routes_as_node_lists (routes st')
      = Ok [(1, ["Source"; "a"; "Sink"])]
  | Raise _ => False
  end.
Proof. repeat split. Qed.

(** ** The knapsack bound *)

(** The example of the specification: of the weights 3, 4, 5, two fit in
    the capacity 7. *)
Example knapsack_345 : knapsack [3; 4; 5] 7 = Ok 2.
Proof. reflexivity. Qed.

(** C9 fails for a single weight: row 0 of the table is then also the row
    "before" it ([sol[-1]]), so the one item is counted again at every
    capacity; of the one item of weight 1, capacity 3 is said to hold 3,
    although no choice among the items has more than one item.  (With no
    weight at all, [sol[n - 1]] is an [IndexError].) *)
Theorem knapsack_single_item_overcounts :
  knapsack [1] 3 = Ok 3 /\
  (forall chosen : list Z, sublist chosen [1] -> (length chosen <= 1)%nat) /\
  knapsack [] 3 = Raise IndexError.
Proof.
  split; [reflexivity|]. split; [|reflexivity].
  intros chosen H. apply sublist_length in H. exact H.
Qed.

(** *** With two items or more *)

Lemma total_nonneg (l : list Z) : Forall (fun w => 0 <= w) l -> 0 <= total l.
Proof.
  induction 1 as [|w l Hw _ IH]; unfold total in *; cbn; lia.
Qed.

Lemma total_cons (w : Z) (l : list Z) : total (w :: l) = w + total l.
Proof. reflexivity. Qed.

Lemma sublist_Forall {A} (P : A -> Prop) (l k : list A) :
  sublist l k -> Forall P k -> Forall P l.
Proof.
  intros Hs Hk. apply List.Forall_forall. intros x Hin.
  rewrite List.Forall_forall in Hk. apply Hk.
  apply list_elem_of_In. eapply sublist_subseteq; [exact Hs|].
  now apply list_elem_of_In.
Qed.

(** The recurrence computes the maximum. *)
Lemma max_items_is_max (items : list Z) :
  Forall (fun w => 0 <= w) items ->
  forall capacity, 0 <= capacity ->
    is_max_number_of_items items capacity (max_items items capacity).
Proof.
  induction 1 as [|w rest Hw Hrest IH]; intros capacity Hc.
  - split.
    + exists []. cbn. repeat split; [constructor | lia].
    + intros chosen Hs _. apply sublist_nil_r in Hs. subst. cbn. lia.
  - cbn [max_items].
    destruct (IH capacity Hc) as [(c0 & Hs0 & Ht0 & Hl0) Hup0].
    destruct (w >? capacity) eqn:Hfit.
    + split.
      * exists c0. split; [now apply sublist_cons | auto].
      * intros chosen Hs Ht. apply sublist_cons_r in Hs as [Hs|(c & -> & Hs)].
        -- now apply Hup0.
        -- exfalso. pose proof (total_nonneg c (sublist_Forall _ _ _ Hs Hrest)).
           rewrite total_cons in Ht. lia.
    + assert (Hcw : 0 <= capacity - w) by lia.
      destruct (IH (capacity - w) Hcw) as [(c1 & Hs1 & Ht1 & Hl1) Hup1].
      cbv zeta.
      destruct (1 + max_items rest (capacity - w) >? max_items rest capacity)
        eqn:Hbetter.
      * split.
        -- exists (w :: c1). split; [now apply sublist_skip|].
           rewrite total_cons. cbn [length]. split; lia.
        -- intros chosen Hs Ht.
           apply sublist_cons_r in Hs as [Hs|(c & -> & Hs)].
           ++ specialize (Hup0 _ Hs Ht). lia.
           ++ rewrite total_cons in Ht. cbn [length].
              specialize (Hup1 c Hs ltac:(lia)). lia.
      * split.
        -- exists c0. split; [now apply sublist_cons | auto].
        -- intros chosen Hs Ht.
           apply sublist_cons_r in Hs as [Hs|(c & -> & Hs)].
           ++ now apply Hup0.
           ++ rewrite total_cons in Ht. cbn [length].
              specialize (Hup1 c Hs ltac:(lia)). lia.
Qed.

Lemma sublist_rev {A} (l k : list A) : sublist l k -> sublist (rev l) (rev k).
Proof.
  induction 1 as [|x l k _ IH|x l k _ IH]; cbn [rev].
  - constructor.
  - apply sublist_app; [exact IH | reflexivity].
  - now apply sublist_inserts_r.
Qed.

Lemma total_app (l k : list Z) : total (l ++ k) = total l + total k.
Proof.
  induction l as [|x l IH]; [reflexivity|].
  cbn [app]. rewrite !total_cons, IH. lia.
Qed.

Lemma total_rev (l : list Z) : total (rev l) = total l.
Proof.
  induction l as [|x l IH]; cbn [rev]; [reflexivity|].
  rewrite total_app, IH. unfold total. cbn. lia.
Qed.

Lemma is_max_rev (weights : list Z) (capacity n : Z) :
  is_max_number_of_items (rev weights) capacity n ->
  is_max_number_of_items weights capacity n.
Proof.
  intros [(c & Hs & Ht & Hl) Hup]. split.
  - exists (rev c). apply sublist_rev in Hs. rewrite rev_involutive in Hs.
    rewrite total_rev, length_rev. auto.
  - intros chosen Hs' Ht'. apply sublist_rev in Hs'.
    specialize (Hup _ Hs'). rewrite total_rev, length_rev in Hup. auto.
Qed.

(** Python indexing, on indices in range. *)
Lemma nth_error_lookup {A} (l : list A) (i : nat) : nth_error l i = l !! i.
Proof.
  revert i. induction l as [|a l IH]; intros [|i]; cbn; auto.
Qed.

Lemma index_lookup {A} (l : list A) (i : nat) (x : A) :
  l !! i = Some x -> Py.index l (Z.of_nat i) = Ok x.
Proof.
  intros H. pose proof (lookup_lt_Some _ _ _ H) as Hlt.
  unfold Py.index.
  destruct (Z.of_nat i <? 0) eqn:E0; [apply Z.ltb_lt in E0; lia|].
  rewrite E0. cbn [orb].
  destruct (Z.of_nat (length l) <=? Z.of_nat i) eqn:E1;
    [apply Z.leb_le in E1; lia|].
  now rewrite Nat2Z.id, nth_error_lookup, H.
Qed.

Lemma index_wraps {A} (l : list A) (x : A) :
  l !! (length l - 1)%nat = Some x -> Py.index l (-1) = Ok x.
Proof.
  intros H. pose proof (lookup_lt_Some _ _ _ H) as Hlt.
  unfold Py.index. replace (-1 <? 0) with true by reflexivity.
  destruct (-1 + Z.of_nat (length l) <? 0) eqn:E0;
    [apply Z.ltb_lt in E0; lia|].
  cbn [orb].
  destruct (Z.of_nat (length l) <=? -1 + Z.of_nat (length l)) eqn:E1;
    [apply Z.leb_le in E1; lia|].
  replace (Z.to_nat (-1 + Z.of_nat (length l))) with (length l - 1)%nat
    by lia.
  now rewrite nth_error_lookup, H.
Qed.

Lemma setitem_lookup {A} (l : list A) (i : nat) (x : A) :
  (i < length l)%nat -> Py.setitem l (Z.of_nat i) x = Ok (<[i := x]> l).
Proof.
  intros Hlt. unfold Py.setitem.
  destruct (Z.of_nat i <? 0) eqn:E0; [apply Z.ltb_lt in E0; lia|].
  rewrite E0. cbn [orb].
  destruct (Z.of_nat (length l) <=? Z.of_nat i) eqn:E1;
    [apply Z.leb_le in E1; lia|].
  now rewrite Nat2Z.id.
Qed.

(** A loop over [range(n)] that keeps an invariant runs to its end. *)
Lemma for_each_seq {T} (P : nat -> T -> Prop) (body : Z -> T -> result T)
    (len a : nat) (s : T) :
  P a s ->
  (forall k s, (a <= k < a + len)%nat -> P k s ->
               exists s', body (Z.of_nat k) s = Ok s' /\ P (S k) s') ->
  exists s', Py.for_each (map Z.of_nat (seq a len)) body s = Ok s'
             /\ P (a + len)%nat s'.
Proof.
  revert a s. induction len as [|len IH]; intros a s Hs Hstep.
  - exists s. rewrite Nat.add_0_r. auto.
  - cbn [seq map Py.for_each].
    destruct (Hstep a s ltac:(lia) Hs) as (s1 & H1 & Hs1).
    rewrite H1. cbn [Py.bind].
    destruct (IH (S a) s1 Hs1) as (s' & H' & Hs').
    { intros k t Hk. apply Hstep. lia. }
    exists s'. split; [exact H'|].
    now replace (a + S len)%nat with (S a + len)%nat by lia.
Qed.

Lemma for_each_range {T} (P : nat -> T -> Prop) (body : Z -> T -> result T)
    (n : nat) (s : T) :
  P O s ->
  (forall k s, (k < n)%nat -> P k s ->
               exists s', body (Z.of_nat k) s = Ok s' /\ P (S k) s') ->
  exists s', Py.for_each (Py.range (Z.of_nat n)) body s = Ok s' /\ P n s'.
Proof.
  intros H0 Hstep. unfold Py.range. rewrite Nat2Z.id.
  apply (for_each_seq P body n O s H0).
  intros k t Hk. apply Hstep. lia.
Qed.

Lemma lookup_repeat {A} (x : A) (n i : nat) :
  (i < n)%nat -> repeat x n !! i = Some x.
Proof.
  revert i. induction n as [|n IH]; intros [|i] H; cbn; try lia; auto.
  apply IH. lia.
Qed.

Section Table.

Variable weights : list Z.
Variable capacity : nat.
Hypothesis two_items : (2 <= length weights)%nat.
Hypothesis nonnegative : Forall (fun w => 0 <= w) weights.

Local Abbreviation n := (length weights).
Local Abbreviation row := (table_row weights capacity).
Local Abbreviation zeros := (repeat 0 (S capacity)).

Lemma row_length i : length (row i) = S capacity.
Proof. unfold table_row. now rewrite length_map, length_seq. Qed.

Lemma row_lookup i (j : nat) :
  (j <= capacity)%nat ->
  row i !! j = Some (max_items (rev (take i weights)) (Z.of_nat j)).
Proof.
  intros Hj. unfold table_row. rewrite list_lookup_fmap.
  rewrite lookup_seq_lt by lia. reflexivity.
Qed.

Lemma row_0 : row 0 = zeros.
Proof.
  assert (H : forall len a,
             map (fun _ : nat => 0) (seq a len) = repeat 0 len).
  { induction len as [|len IH]; intros a; cbn; [reflexivity|].
    now rewrite IH. }
  unfold table_row. cbn [take rev max_items]. apply H.
Qed.

Lemma row_index i (z : Z) :
  0 <= z <= Z.of_nat capacity ->
  Py.index (row i) z = Ok (max_items (rev (take i weights)) z).
Proof.
  intros Hz. rewrite <- (Z2Nat.id z) at 1 by lia.
  erewrite index_lookup; [|apply row_lookup; lia].
  now rewrite Z2Nat.id by lia.
Qed.

Local Abbreviation before := (row_before n).

Lemma index_before (sol : list (list Z)) (i : nat) (x : list Z) :
  length sol = n -> sol !! before i = Some x ->
  Py.index sol (Z.of_nat i - 1) = Ok x.
Proof.
  intros Hlen H. destruct i as [|k]; cbn [row_before] in H.
  - apply index_wraps. now rewrite Hlen.
  - replace (Z.of_nat (S k) - 1) with (Z.of_nat k) by lia.
    now apply index_lookup.
Qed.

(** Filling one entry. *)
Lemma cell_step (sol : list (list Z)) (i j : nat) (w : Z) (cells : list Z) :
  length sol = n -> (i < n)%nat -> (j <= capacity)%nat ->
  weights !! i = Some w ->
  sol !! before i = Some (row i) ->
  sol !! i = Some cells -> length cells = S capacity ->
  knapsack_cell weights (Z.of_nat i) (Z.of_nat j) sol
  = Ok (<[i := <[j := max_items (rev (take (S i) weights)) (Z.of_nat j)]>
                cells]> sol).
Proof.
  intros Hlen Hi Hj Hw Hprev Hrow Hcells.
  assert (Hw0 : 0 <= w).
  { rewrite List.Forall_forall in nonnegative. apply nonnegative.
    apply list_elem_of_In. eapply list_elem_of_lookup_2. exact Hw. }
  unfold knapsack_cell.
  rewrite (index_lookup _ _ _ Hw). cbn [Py.bind].
  rewrite (index_before _ _ _ Hlen Hprev).
  rewrite (take_S_r _ _ _ Hw), rev_app_distr. cbn [rev app max_items].
  destruct (w >? Z.of_nat j) eqn:Hfit; cbn [Py.bind].
  - rewrite row_index by lia. cbn [Py.bind].
    rewrite (index_lookup _ _ _ Hrow). cbn [Py.bind].
    rewrite setitem_lookup by lia. cbn [Py.bind].
    now rewrite setitem_lookup by lia.
  - rewrite row_index by lia. cbn [Py.bind].
    rewrite row_index by lia. cbn [Py.bind].
    destruct (1 + max_items (rev (take i weights)) (Z.of_nat j - w)
              >? max_items (rev (take i weights)) (Z.of_nat j));
      cbn [Py.bind];
      rewrite (index_lookup _ _ _ Hrow); cbn [Py.bind];
      rewrite setitem_lookup by lia; cbn [Py.bind];
      now rewrite setitem_lookup by lia.
Qed.


Lemma fill_entry (full : list Z) (j : nat) (v : Z) :
  length full = S capacity -> (j <= capacity)%nat ->
  full !! j = Some v ->
  <[j := v]> (take j full ++ repeat 0 (S capacity - j))
  = take (S j) full ++ repeat 0 (S capacity - S j).
Proof.
  intros Hlen Hj Hv.
  rewrite insert_app_r_alt by (rewrite length_take; lia).
  rewrite length_take, Nat.min_l, Nat.sub_diag by lia.
  replace (S capacity - j)%nat with (S (S capacity - S j)) by lia.
  cbn [repeat]. rewrite (take_S_r _ _ _ Hv), <- app_assoc. reflexivity.
Qed.

(** The loop over the capacities fills row [i] and leaves the others. *)
Lemma row_loop (sol : list (list Z)) (i : nat) :
  length sol = n -> (i < n)%nat ->
  sol !! before i = Some (row i) -> before i <> i ->
  sol !! i = Some zeros ->
  Py.for_each (Py.range (Z.of_nat capacity + 1))
              (fun j sol => knapsack_cell weights (Z.of_nat i) j sol) sol
  = Ok (<[i := row (S i)]> sol).
Proof.
  intros Hlen Hi Hprev Hne Hrow.
  destruct (lookup_lt_is_Some_2 weights i Hi) as [w Hw].
  replace (Z.of_nat capacity + 1) with (Z.of_nat (S capacity)) by lia.
  destruct (for_each_range
              (fun j t => t = <[i := take j (row (S i))
                                     ++ repeat 0 (S capacity - j)]> sol)
              (fun j sol => knapsack_cell weights (Z.of_nat i) j sol)
              (S capacity) sol) as (t & Ht & ->).
  - cbn [take app]. rewrite Nat.sub_0_r. symmetry.
    now apply list_insert_id.
  - intros j t Hj ->. eexists. split.
    + apply (cell_step _ i j w); try assumption; try lia.
      * now rewrite length_insert.
      * now rewrite list_lookup_insert_ne by auto.
      * apply list_lookup_insert_eq. lia.
      * rewrite length_app, length_take, row_length, repeat_length. lia.
    + rewrite list_insert_insert_eq. f_equal.
      apply fill_entry; [apply row_length | lia | apply row_lookup; lia].
  - rewrite Ht. f_equal. f_equal.
    rewrite Nat.sub_diag. cbn [repeat]. rewrite app_nil_r.
    apply take_ge. rewrite row_length. lia.
Qed.

Local Abbreviation rows_done := (table_rows_done weights capacity).

Lemma table_loop :
  exists sol,
    Py.for_each (Py.range (Z.of_nat n))
      (fun i sol =>
         Py.for_each (Py.range (Z.of_nat capacity + 1))
                     (fun j sol => knapsack_cell weights i j sol) sol)
      (repeat zeros n) = Ok sol /\
    rows_done n sol.
Proof.
  apply (for_each_range rows_done).
  - split; [apply repeat_length|]. split; [intros k Hk; lia|].
    intros k Hk. apply lookup_repeat. lia.
  - intros i sol Hi (Hlen & Hdone & Hzero).
    exists (<[i := row (S i)]> sol). split.
    + apply row_loop; [exact Hlen | exact Hi | | | apply Hzero; lia].
      * destruct i as [|k]; cbn [row_before].
        -- rewrite row_0. apply Hzero. lia.
        -- apply Hdone. lia.
      * destruct i as [|k]; cbn [row_before]; lia.
    + split; [now rewrite length_insert|]. split.
      * intros k Hk. destruct (decide (k = i)) as [->|Hne].
        -- apply list_lookup_insert_eq. lia.
        -- rewrite list_lookup_insert_ne by auto. apply Hdone. lia.
      * intros k Hk. rewrite list_lookup_insert_ne by lia.
        apply Hzero. lia.
Qed.

End Table.

(** With two weights or more, none negative, and a capacity that is not
    negative, [knapsack] does return the maximum number of items. *)
Lemma knapsack_correct_from_two_items (weights : list Z) (capacity : Z) :
  (2 <= length weights)%nat ->
  Forall (fun w => 0 <= w) weights ->
  0 <= capacity ->
  exists n, knapsack weights capacity = Ok n /\
            is_max_number_of_items weights capacity n.
Proof.
  intros Htwo Hpos Hcap.
  exists (max_items (rev weights) capacity). split.
  - unfold knapsack. cbv zeta.
    assert (E : capacity = Z.of_nat (Z.to_nat capacity)) by lia.
    generalize dependent (Z.to_nat capacity). intros cap ->.
    replace (Z.to_nat (Z.of_nat cap + 1)) with (S cap) by lia.
    destruct (table_loop weights cap Htwo Hpos)
      as (sol & Hsol & Hlen & Hdone & _).
    rewrite Hsol. cbn [Py.bind].
    replace (Z.of_nat (length weights) - 1)
      with (Z.of_nat (length weights - 1)) by lia.
    rewrite (index_lookup _ _ _ (Hdone (length weights - 1)%nat ltac:(lia))).
    cbn [Py.bind].
    replace (S (length weights - 1)) with (length weights) by lia.
    rewrite row_index by lia. now rewrite firstn_all.
  - apply is_max_rev. apply max_items_is_max; [|exact Hcap].
    apply List.Forall_forall. intros w Hin. apply in_rev in Hin.
    rewrite List.Forall_forall in Hpos. now apply Hpos.
Qed.

Lemma knapsack_correct_from_two_items_example :
  exists n, knapsack [3; 4; 5] 7 = Ok n /\
            is_max_number_of_items [3; 4; 5] 7 n.
Proof.
  apply knapsack_correct_from_two_items; [cbn; lia | | lia].
  repeat constructor; lia.
Qed.

(** ** The master problem: formulation, solving, duals *)

Section MasterFacts.

Import Pulp MasterSolvePulp.

Lemma settings_kept_refl m : settings_kept m m.
Proof. repeat split. Qed.

Lemma settings_kept_trans a b c :
  settings_kept a b -> settings_kept b c -> settings_kept a c.
Proof.
  unfold settings_kept. intros H1 H2.
  repeat match goal with H : _ /\ _ |- _ => destruct H end.
  repeat split; congruence.
Qed.

(** A loop whose passes keep the settings keeps them. *)
Lemma for_each_settings {A} (xs : list A) (body : A -> t -> result t) m m' :
  (forall x a b, body x a = Ok b -> settings_kept a b) ->
  Py.for_each xs body m = Ok m' -> settings_kept m m'.
Proof.
  intros Hb H.
  eapply (for_each_invariant (fun a => settings_kept m a)); [ | | exact H].
  - intros x a b _ Ha Hx. eapply settings_kept_trans; eauto.
  - apply settings_kept_refl.
Qed.

Lemma add_route_settings r m m' :
  _add_route_selection_variable r m = Ok m' -> settings_kept m m'.
Proof.
  unfold _add_route_selection_variable. intros H.
  apply bind_Ok in H as (u1 & _ & H). apply bind_Ok in H as (u2 & _ & H).
  injection H as <-. repeat split.
Qed.

Lemma with_terms_nil c : with_terms [] c = c.
Proof. destruct c. unfold with_terms. cbn. now rewrite app_nil_r. Qed.

Lemma with_terms_app ts us c :
  with_terms us (with_terms ts c) = with_terms (ts ++ us) c.
Proof. unfold with_terms. cbn. now rewrite app_assoc. Qed.

Lemma addVariable_with_terms v q c : addVariable v q c = with_terms [(v, q)] c.
Proof. reflexivity. Qed.

(** Looking up every key of a list: fine exactly when all are there. *)
Lemma lookups_ok {K V} `{Countable K} (keys : list K) (d : gmap K V) :
  (forall k, In k keys -> is_Some (d !! k)) ->
  Py.for_each keys
    (fun r _ => _ <- Py.of_option KeyError (d !! r) ;; Ok tt) tt = Ok tt.
Proof.
  induction keys as [|k keys IH]; intros Hall; [reflexivity|].
  cbn [Py.for_each]. destruct (Hall k (or_introl eq_refl)) as [c ->].
  cbn. apply IH. intros k' Hk'. apply Hall. now right.
Qed.

Lemma lookups_raise {K V} `{Countable K} (keys : list K) (d : gmap K V) :
  (exists k, In k keys /\ d !! k = None) ->
  Py.for_each keys
    (fun r _ => _ <- Py.of_option KeyError (d !! r) ;; Ok tt) tt
  = Raise KeyError.
Proof.
  induction keys as [|k keys IH]; intros (k0 & Hin & Hnone); [destruct Hin|].
  cbn [Py.for_each]. destruct (d !! k) as [c|] eqn:E; cbn; [|reflexivity].
  apply IH. destruct Hin as [->|Hin]; [congruence|]. eauto.
Qed.

Lemma lookups_cases {K V} `{Countable K} (keys : list K) (d : gmap K V) :
  (forall k, In k keys -> is_Some (d !! k)) \/
  (exists k, In k keys /\ d !! k = None).
Proof.
  induction keys as [|k keys [IH|(k0 & Hin & Hn)]].
  - left. intros k [].
  - destruct (d !! k) as [c|] eqn:E.
    + left. intros k' [<-|Hk']; [rewrite E; eauto | auto].
    + right. exists k. split; [now left | exact E].
  - right. exists k0. split; [now right | exact Hn].
Qed.

(** Altering once at every key of a duplicate-free list. *)
Lemma alter_all_lookup {K} `{Countable K} (f : LpConstraintVar -> LpConstraintVar)
    (keys : list K) (cs : gmap K LpConstraintVar) key :
  List.NoDup keys ->
  fold_right (fun r acc => alter f r acc) cs keys !! key
  = if bool_decide (key ∈ keys) then f <$> cs !! key else cs !! key.
Proof.
  induction keys as [|r keys IH]; cbn [fold_right]; intros Hnd.
  - rewrite bool_decide_eq_false_2; [reflexivity|]. apply not_elem_of_nil.
  - inversion Hnd as [|? ? Hnotin Hnd']; subst.
    rewrite lookup_alter. destruct (decide (r = key)) as [->|Hne].
    + rewrite IH by assumption.
      rewrite (bool_decide_eq_false_2 (key ∈ keys))
        by (now rewrite list_elem_of_In).
      rewrite bool_decide_eq_true_2 by apply list_elem_of_here. reflexivity.
    + rewrite IH by assumption.
      destruct (bool_decide (key ∈ keys)) eqn:E.
      * rewrite bool_decide_eq_true_2; [reflexivity|].
        apply list_elem_of_further. now apply bool_decide_eq_true in E.
      * rewrite bool_decide_eq_false_2; [reflexivity|].
        apply bool_decide_eq_false in E. rewrite elem_of_cons.
        intros [?|?]; [congruence | contradiction].
Qed.

Lemma range_NoDup (n : Z) : List.NoDup (Py.range n).
Proof.
  unfold Py.range. apply Finite.Injective_map_NoDup; [|apply seq_NoDup].
  intros a b Hab. lia.
Qed.

Lemma filter_NoDup {A} (f : A -> bool) (l : list A) :
  List.NoDup l -> List.NoDup (List.filter f l).
Proof. apply List.NoDup_filter. Qed.

(** One column: what [_add_route_selection_variable] does. *)
Lemma add_route_cases (r : Route.t) (m : t) :
  List.NoDup (Route.nodes r) ->
  (_add_route_selection_variable r m = Raise KeyError /\
   ((exists v, In v (visited r) /\ set_covering_constrs m !! v = None) \/
    (exists k, In k (bounded r m) /\ vehicle_bound_constrs m !! k = None)))
  \/
  (exists m', _add_route_selection_variable r m = Ok m' /\
     (forall v, In v (visited r) -> is_Some (set_covering_constrs m !! v)) /\
     (forall k, In k (bounded r m) -> is_Some (vehicle_bound_constrs m !! k)) /\
     settings_kept m m' /\
     y m' = <[Route.name r := route_variable r]> (y m) /\
     drop m' = drop m /\ dummy m' = dummy m /\ dummy_bound m' = dummy_bound m /\
     objective m'
     = with_terms [(y_ (Route.name r), Route.cost r)] (objective m) /\
     (forall v, set_covering_constrs m' !! v
                = if bool_decide (v ∈ visited r)
                  then with_terms [(y_ (Route.name r), 1%Q)]
                       <$> set_covering_constrs m !! v
                  else set_covering_constrs m !! v) /\
     (forall k, vehicle_bound_constrs m' !! k
                = if bool_decide (k ∈ bounded r m)
                  then with_terms [(y_ (Route.name r), 1%Q)]
                       <$> vehicle_bound_constrs m !! k
                  else vehicle_bound_constrs m !! k)).
Proof.
  intros Hnd. unfold _add_route_selection_variable.
  destruct (lookups_cases (visited r) (set_covering_constrs m)) as [Hv|Hv].
  2:{ left. rewrite (lookups_raise _ _ Hv). cbn. auto. }
  rewrite (lookups_ok _ _ Hv). cbn [Py.bind].
  destruct (lookups_cases (bounded r m) (vehicle_bound_constrs m)) as [Hk|Hk].
  2:{ left. rewrite (lookups_raise _ _ Hk). cbn. auto. }
  rewrite (lookups_ok _ _ Hk). cbn [Py.bind].
  right. eexists. split; [reflexivity|]. cbn.
  split; [exact Hv|]. split; [exact Hk|].
  split; [repeat split|]. repeat split.
  - intros v. apply alter_all_lookup. unfold visited. now apply filter_NoDup.
  - intros k. apply alter_all_lookup. unfold bounded. apply filter_NoDup.
    apply range_NoDup.
Qed.

Lemma bounded_settings r m m' :
  settings_kept m m' -> bounded r m' = bounded r m.
Proof. intros (_ & Hn & _). unfold bounded. now rewrite Hn. Qed.

Lemma fmap_with_terms ts us (o : option LpConstraintVar) :
  with_terms us <$> (with_terms ts <$> o) = with_terms (ts ++ us) <$> o.
Proof. destruct o; cbn; [now rewrite with_terms_app | reflexivity]. Qed.

Lemma fmap_with_terms_nil (o : option LpConstraintVar) :
  with_terms [] <$> o = o.
Proof. destruct o; cbn; [now rewrite with_terms_nil | reflexivity]. Qed.

Lemma is_Some_fmap_iff {A B} (f : A -> B) (o : option A) :
  is_Some (f <$> o) <-> is_Some o.
Proof. apply fmap_is_Some. Qed.

(** The columns of the routes: [for route in self.routes:
    self._add_route_selection_variable(route)]. *)
Lemma routes_loop (routes : list Route.t) (m : t) :
  Forall (fun r => List.NoDup (Route.nodes r)) routes ->
  (Py.for_each routes _add_route_selection_variable m = Raise KeyError /\
   exists r, In r routes /\
     ((exists v, In v (visited r) /\ set_covering_constrs m !! v = None) \/
      (exists k, In k (bounded r m) /\ vehicle_bound_constrs m !! k = None)))
  \/
  (exists m', Py.for_each routes _add_route_selection_variable m = Ok m' /\
     (forall r v, In r routes -> In v (visited r) ->
                  is_Some (set_covering_constrs m !! v)) /\
     (forall r k, In r routes -> In k (bounded r m) ->
                  is_Some (vehicle_bound_constrs m !! k)) /\
     settings_kept m m' /\
     y m' = fold_left (fun ys r => <[Route.name r := route_variable r]> ys)
                      routes (y m) /\
     drop m' = drop m /\ dummy m' = dummy m /\ dummy_bound m' = dummy_bound m /\
     objective m'
     = with_terms (map (fun r => (y_ (Route.name r), Route.cost r)) routes)
                  (objective m) /\
     (forall v, set_covering_constrs m' !! v
                = with_terms
                    (map (fun r => (y_ (Route.name r), 1%Q))
                         (List.filter (fun r => bool_decide (v ∈ visited r))
                                      routes))
                  <$> set_covering_constrs m !! v) /\
     (forall k, vehicle_bound_constrs m' !! k
                = with_terms
                    (map (fun r => (y_ (Route.name r), 1%Q))
                         (List.filter (fun r => bool_decide (k ∈ bounded r m))
                                      routes))
                  <$> vehicle_bound_constrs m !! k)).
Proof.
  intros Hnd. revert m. induction routes as [|r routes IH]; intros m.
  - right. exists m. cbn. split; [reflexivity|].
    split; [intros ? ? []|]. split; [intros ? ? []|].
    split; [apply settings_kept_refl|].
    repeat split; try (now rewrite with_terms_nil);
      intros; now rewrite fmap_with_terms_nil.
  - inversion Hnd as [|? ? Hr Hrest]; subst.
    cbn [Py.for_each].
    destruct (add_route_cases r m Hr)
      as [[E Hwhy] | (m1 & E & Hv & Hk & Hs & Hy & Hd & Hdu & Hdb & Ho & Hc
                      & Hb)].
    + left. rewrite E. cbn. split; [reflexivity|].
      exists r. split; [now left | exact Hwhy].
    + rewrite E. cbn [Py.bind].
      destruct (IH Hrest m1)
        as [[E' (r' & Hin & Hwhy)]
           | (m' & E' & Hv' & Hk' & Hs' & Hy' & Hd' & Hdu' & Hdb' & Ho' & Hc'
              & Hb')].
      * left. split; [exact E'|]. exists r'. split; [now right|].
        destruct Hwhy as [(v & Hin' & Hn) | (k & Hin' & Hn)].
        -- left. exists v. split; [exact Hin'|].
           rewrite Hc in Hn. destruct (bool_decide _) in Hn; [|exact Hn].
           destruct (set_covering_constrs m !! v); [discriminate|reflexivity].
        -- right. exists k. rewrite (bounded_settings _ _ _ Hs) in Hin'.
           split; [exact Hin'|].
           rewrite Hb in Hn. destruct (bool_decide _) in Hn; [|exact Hn].
           destruct (vehicle_bound_constrs m !! k); [discriminate|reflexivity].
      * right. exists m'. split; [exact E'|].
        split.
        { intros r' v [<-|Hin] Hin'; [now apply Hv|].
          specialize (Hv' _ _ Hin Hin'). rewrite Hc in Hv'.
          destruct (bool_decide _) in Hv'; [|exact Hv'].
          now apply is_Some_fmap_iff in Hv'. }
        split.
        { intros r' k [<-|Hin] Hin'; [now apply Hk|].
          rewrite <- (bounded_settings _ _ _ Hs) in Hin'.
          specialize (Hk' _ _ Hin Hin'). rewrite Hb in Hk'.
          destruct (bool_decide _) in Hk'; [|exact Hk'].
          now apply is_Some_fmap_iff in Hk'. }
        split; [eapply settings_kept_trans; eauto|].
        split; [cbn [fold_left]; now rewrite Hy', Hy|].
        split; [congruence|]. split; [congruence|]. split; [congruence|].
        split.
        { rewrite Ho', Ho, with_terms_app. reflexivity. }
        split.
        { intros v. rewrite Hc', Hc. cbn [List.filter].
          destruct (bool_decide (v ∈ visited r)); cbn [map].
          - now rewrite fmap_with_terms.
          - reflexivity. }
        { intros k. rewrite Hb', Hb. cbn [List.filter].
          assert (Hf : forall l,
                     List.filter (fun r0 => bool_decide (k ∈ bounded r0 m1)) l
                     = List.filter (fun r0 => bool_decide (k ∈ bounded r0 m)) l).
          { intros l. apply filter_ext. intros a.
            now rewrite (bounded_settings _ _ _ Hs). }
          rewrite Hf.
          destruct (bool_decide (k ∈ bounded r m)); cbn [map].
          - now rewrite fmap_with_terms.
          - reflexivity. }
Qed.

(** *** The stages of [_formulate] *)

Lemma is_customer_In (ns : list (string * gmap string Q)) (v : string) :
  existsb (String.eqb v) (map fst (List.filter is_customer ns)) = true
  <-> exists n, In n ns /\ is_customer n = true /\ fst n = v.
Proof.
  rewrite existsb_exists. split.
  - intros (x & Hin & Hx). apply String.eqb_eq in Hx. subst x.
    apply in_map_iff in Hin as (n & Hn & Hin).
    apply filter_In in Hin as [Hin Hc]. eauto.
  - intros (n & Hin & Hc & <-). exists (fst n).
    split; [|apply String.eqb_refl].
    apply in_map. apply filter_In. auto.
Qed.

(** The covering constraints, without a period. *)
Lemma covering_stage (ns : list (string * gmap string Q)) (m : t) :
  truthyZ (periodic m) = false ->
  exists cs,
    Py.for_each ns
      (fun n m =>
         if negb (is_depot (fst n))
            && negb (bool_decide (is_Some (snd n !! "depot_from")))
            && negb (bool_decide (is_Some (snd n !! "depot_to")))
         then
           right_hand_term <-
             (if truthyZ (periodic m)
              then Py.of_option KeyError (snd n !! "frequency")
              else Ok 1%Q) ;;
           Ok (set_set_covering_constrs
                 (<[fst n := mkConstr (Some LpConstraintGE)
                                      (Some right_hand_term) []]>
                    (set_covering_constrs m)) m)
         else Ok m) m
    = Ok (set_set_covering_constrs cs m) /\
    forall v, cs !! v
              = if existsb (String.eqb v) (map fst (List.filter is_customer ns))
                then Some (mkConstr (Some LpConstraintGE) (Some 1%Q) [])
                else set_covering_constrs m !! v.
Proof.
  revert m. induction ns as [|n ns IH]; intros m Hp.
  - exists (set_covering_constrs m). split; [destruct m; reflexivity|].
    reflexivity.
  - cbn [Py.for_each List.filter].
    change (negb (is_depot (fst n))
            && negb (bool_decide (is_Some (snd n !! "depot_from")))
            && negb (bool_decide (is_Some (snd n !! "depot_to"))))
      with (is_customer n).
    destruct (is_customer n) eqn:Hc.
    + rewrite Hp. cbn [Py.bind].
      set (m1 := set_set_covering_constrs _ m).
      destruct (IH m1 Hp) as (cs & E & Hcs).
      exists cs. split; [exact E|].
      intros v. rewrite Hcs. cbn [map existsb].
      destruct (existsb (String.eqb v) _) eqn:Hex.
      * now rewrite orb_true_r.
      * rewrite orb_false_r. unfold m1. cbn.
        destruct (String.eqb v (fst n)) eqn:Hv.
        -- apply String.eqb_eq in Hv. subst v. now rewrite lookup_insert_eq.
        -- apply String.eqb_neq in Hv. rewrite lookup_insert_ne; congruence.
    + cbn [Py.bind]. apply IH. exact Hp.
Qed.

(** The vehicle bound constraints. *)
Lemma bound_stage (ks : list Z) (m : t) :
  (forall k, In k ks -> 0 <= k < Z.of_nat (length (num_vehicles m))) ->
  exists cs,
    Py.for_each ks
      (fun k m =>
         bound <- Py.index (num_vehicles m) k ;;
         Ok (set_vehicle_bound_constrs
               (<[k := mkConstr (Some LpConstraintLE) (Some (inject_Z bound))
                                []]>
                  (vehicle_bound_constrs m)) m)) m
    = Ok (set_vehicle_bound_constrs cs m) /\
    forall k, cs !! k
              = if bool_decide (k ∈ ks)
                then (fun bound => mkConstr (Some LpConstraintLE)
                                            (Some (inject_Z bound)) [])
                     <$> num_vehicles m !! Z.to_nat k
                else vehicle_bound_constrs m !! k.
Proof.
  revert m. induction ks as [|k ks IH]; intros m Hks.
  - exists (vehicle_bound_constrs m). split; [destruct m; reflexivity|].
    intros k. rewrite bool_decide_eq_false_2; [reflexivity|].
    apply not_elem_of_nil.
  - cbn [Py.for_each].
    destruct (lookup_lt_is_Some_2 (num_vehicles m) (Z.to_nat k)) as [b Hb];
      [specialize (Hks k (or_introl eq_refl)); lia|].
    assert (Hi : Py.index (num_vehicles m) k = Ok b).
    { replace k with (Z.of_nat (Z.to_nat k))
        by (specialize (Hks k (or_introl eq_refl)); lia).
      now apply index_lookup. }
    rewrite Hi. cbn [Py.bind].
    set (m1 := set_vehicle_bound_constrs _ m).
    destruct (IH m1) as (cs & E & Hcs).
    { intros k' Hk'. apply Hks. now right. }
    exists cs. split; [exact E|].
    intros k'. rewrite Hcs. unfold m1. cbn.
    destruct (bool_decide (k' ∈ ks)) eqn:Hin.
    + rewrite bool_decide_eq_true_2; [reflexivity|].
      apply list_elem_of_further. now apply bool_decide_eq_true in Hin.
    + apply bool_decide_eq_false in Hin.
      destruct (decide (k' = k)) as [->|Hne].
      * rewrite lookup_insert_eq, bool_decide_eq_true_2
          by apply list_elem_of_here.
        now rewrite Hb.
      * rewrite lookup_insert_ne by congruence.
        rewrite bool_decide_eq_false_2; [reflexivity|].
        rewrite elem_of_cons. intros [?|?]; [congruence | contradiction].
Qed.

Lemma assign_fresh {K V} (eqb : K -> K -> bool) (k : K) (v : V)
    (d : list (K * V)) :
  (forall entry, In entry d -> eqb k (fst entry) = false) ->
  assign eqb k v d = d ++ [(k, v)].
Proof.
  induction d as [|[k' v'] d IH]; intros Hf; [reflexivity|].
  cbn [assign]. pose proof (Hf (k', v') (or_introl eq_refl)) as E.
  cbn [fst] in E. rewrite E.
  cbn. rewrite IH; [reflexivity|]. intros e He. apply Hf. now right.
Qed.

(** The artificial variables of the vehicle bounds. *)
Lemma dummy_stage (ks : list Z) (m : t) :
  List.NoDup ks ->
  (Py.for_each ks
     (fun key m =>
        _ <- Py.of_option KeyError (vehicle_bound_constrs m !! key) ;;
        let v := artificial_bound_ key in
        Ok (set_dummy_bound
              (assign Z.eqb key (mkVar v (Some 0%Q) None LpContinuous)
                      (dummy_bound m))
              (set_objective (addVariable v big_cost (objective m))
                 (set_vehicle_bound_constrs
                    (alter (addVariable v (-1)%Q) key
                           (vehicle_bound_constrs m)) m)))) m
   = Raise KeyError /\
   exists k, In k ks /\ vehicle_bound_constrs m !! k = None)
  \/
  (exists m',
     Py.for_each ks
       (fun key m =>
          _ <- Py.of_option KeyError (vehicle_bound_constrs m !! key) ;;
          let v := artificial_bound_ key in
          Ok (set_dummy_bound
                (assign Z.eqb key (mkVar v (Some 0%Q) None LpContinuous)
                        (dummy_bound m))
                (set_objective (addVariable v big_cost (objective m))
                   (set_vehicle_bound_constrs
                      (alter (addVariable v (-1)%Q) key
                             (vehicle_bound_constrs m)) m)))) m
     = Ok m' /\
     (forall k, In k ks -> is_Some (vehicle_bound_constrs m !! k)) /\
     settings_kept m m' /\
     y m' = y m /\ drop m' = drop m /\ dummy m' = dummy m /\
     set_covering_constrs m' = set_covering_constrs m /\
     objective m'
     = with_terms (map (fun k => (artificial_bound_ k, big_cost)) ks)
                  (objective m) /\
     (forall k, vehicle_bound_constrs m' !! k
                = if bool_decide (k ∈ ks)
                  then with_terms [(artificial_bound_ k, (-1)%Q)]
                       <$> vehicle_bound_constrs m !! k
                  else vehicle_bound_constrs m !! k) /\
     dummy_bound m'
     = fold_left (fun d k => assign Z.eqb k (bound_variable k) d) ks
                 (dummy_bound m)).
Proof.
  intros Hnd. revert m. induction ks as [|k ks IH]; intros m.
  - right. exists m. split; [reflexivity|]. split; [intros ? []|].
    split; [apply settings_kept_refl|]. cbn.
    repeat split; try (now rewrite with_terms_nil).
  - inversion Hnd as [|? ? Hnotin Hnd']; subst.
    cbn [Py.for_each].
    destruct (vehicle_bound_constrs m !! k) as [c|] eqn:Hc;
      cbn [Py.of_option Py.bind].
    2:{ left. split; [reflexivity|]. exists k. split; [now left | exact Hc]. }
    set (m1 := set_dummy_bound _ _).
    destruct (IH Hnd' m1)
      as [[E (k' & Hin & Hn)]
         | (m' & E & Hk & Hs & Hy & Hd & Hdu & Hcov & Ho & Hb & Hdb)].
    + left. split; [exact E|]. exists k'. split; [now right|].
      unfold m1 in Hn. cbn in Hn.
      rewrite lookup_alter_ne in Hn; [exact Hn|].
      intros ->. contradiction.
    + right. exists m'. split; [exact E|].
      split.
      { intros k' [<-|Hin]; [rewrite Hc; eauto|].
        specialize (Hk _ Hin). unfold m1 in Hk. cbn in Hk.
        rewrite lookup_alter_ne in Hk; [exact Hk|].
        intros ->. contradiction. }
      split; [eapply settings_kept_trans; [|exact Hs]; repeat split|].
      split; [exact Hy|]. split; [exact Hd|]. split; [exact Hdu|].
      split; [exact Hcov|].
      split.
      { rewrite Ho. unfold m1. cbn [objective set_dummy_bound set_objective].
        rewrite addVariable_with_terms, with_terms_app. reflexivity. }
      split; [|exact Hdb].
      intros k'. rewrite Hb. unfold m1. cbn.
      destruct (bool_decide (k' ∈ ks)) eqn:Hin.
      * apply bool_decide_eq_true in Hin.
        rewrite bool_decide_eq_true_2 by now apply list_elem_of_further.
        rewrite lookup_alter_ne; [reflexivity|].
        intros ->. apply Hnotin. now apply list_elem_of_In.
      * apply bool_decide_eq_false in Hin.
        destruct (decide (k' = k)) as [->|Hne].
        -- rewrite bool_decide_eq_true_2 by apply list_elem_of_here.
           rewrite lookup_alter_eq. reflexivity.
        -- rewrite lookup_alter_ne by congruence.
           rewrite bool_decide_eq_false_2; [reflexivity|].
           rewrite elem_of_cons. intros [?|?]; [congruence | contradiction].
Qed.

Lemma range_elem_of (k n : Z) : k ∈ Py.range n <-> 0 <= k < n.
Proof. rewrite list_elem_of_In. apply range_In. Qed.

(** The stage between the covering constraints and the columns: the
    vehicle bound constraints, when the fleet is bounded. *)
Lemma bound_stage_cases (m : t) :
  truthyZ (periodic m) = false ->
  exists cs,
    (if negb (Nat.eqb (length (num_vehicles m)) 0)
        && negb (truthyZ (periodic m))
     then _add_bound_vehicles m else Ok m)
    = Ok (set_vehicle_bound_constrs cs m) /\
    forall k, cs !! k
              = if bool_decide (k ∈ Py.range (Z.of_nat (length (num_vehicles m))))
                then (fun bound => mkConstr (Some LpConstraintLE)
                                            (Some (inject_Z bound)) [])
                     <$> num_vehicles m !! Z.to_nat k
                else vehicle_bound_constrs m !! k.
Proof.
  intros Hp. rewrite Hp. cbn [negb]. rewrite andb_true_r.
  destruct (Nat.eqb (length (num_vehicles m)) 0) eqn:Hlen; cbn [negb].
  - apply Nat.eqb_eq in Hlen. exists (vehicle_bound_constrs m).
    split; [destruct m; reflexivity|].
    intros k. rewrite Hlen. cbn. reflexivity.
  - unfold _add_bound_vehicles. apply bound_stage.
    intros k Hk. now apply range_In.
Qed.

Lemma truthy_false_kept m m' :
  settings_kept m m' ->
  Py.truthy (drop_penalty m') = Py.truthy (drop_penalty m)
  /\ truthyZ (periodic m') = truthyZ (periodic m)
  /\ num_vehicles m' = num_vehicles m.
Proof. intros (-> & -> & -> & _). auto. Qed.

(** [_formulate] without a drop penalty and without a period, from the
    empty dictionaries. *)
Lemma formulate_cases (G : Network.t) (routes : list Route.t) (m : t) :
  unformulated m ->
  Py.truthy (drop_penalty m) = false ->
  truthyZ (periodic m) = false ->
  Forall (fun r => List.NoDup (Route.nodes r)) routes ->
  let fleet := Py.range (Z.of_nat (length (num_vehicles m))) in
  (_formulate G routes m = Raise KeyError /\
   exists r v, In r routes /\ In v (visited r) /\
               existsb (String.eqb v) (customers G) = false)
  \/
  (exists m', _formulate G routes m = Ok m' /\
     (forall r v, In r routes -> In v (visited r) ->
                  existsb (String.eqb v) (customers G) = true) /\
     settings_kept m m' /\
     y m' = fold_left (fun ys r => <[Route.name r := route_variable r]> ys)
                      routes ∅ /\
     drop m' = [] /\ dummy m' = [] /\
     dummy_bound m' = map (fun k => (k, bound_variable k)) fleet /\
     objective m'
     = mkConstr None None
         (map (fun r => (y_ (Route.name r), Route.cost r)) routes
          ++ map (fun k => (artificial_bound_ k, big_cost)) fleet) /\
     (forall v, set_covering_constrs m' !! v
                = if existsb (String.eqb v) (customers G)
                  then Some (mkConstr (Some LpConstraintGE) (Some 1%Q)
                               (map (fun r => (y_ (Route.name r), 1%Q))
                                    (List.filter
                                       (fun r => bool_decide (v ∈ visited r))
                                       routes)))
                  else None) /\
     (forall k, vehicle_bound_constrs m' !! k
                = if bool_decide (k ∈ fleet)
                  then (fun bound =>
                          mkConstr (Some LpConstraintLE)
                            (Some (inject_Z bound))
                            (map (fun r => (y_ (Route.name r), 1%Q))
                                 (List.filter
                                    (fun r => bool_decide (k ∈ bounded r m))
                                    routes)
                             ++ [(artificial_bound_ k, (-1)%Q)]))
                       <$> num_vehicles m !! Z.to_nat k
                  else None)).
Proof.
  intros (Hy0 & Hd0 & Hdu0 & Hdb0 & Hc0 & Hb0 & Ho0) Hdrop Hper Hnd fleet.
  unfold _formulate, _add_set_covering_constraints.
  destruct (covering_stage (Network.nodes G) m Hper) as (cs1 & E1 & Hcs1).
  rewrite E1. cbn [Py.bind].
  set (m1 := set_set_covering_constrs cs1 m).
  destruct (bound_stage_cases m1 Hper) as (cs2 & E2 & Hcs2).
  rewrite E2. cbn [Py.bind].
  set (m2 := set_vehicle_bound_constrs cs2 m1).
  assert (Hcov2 : forall v, set_covering_constrs m2 !! v
                            = if existsb (String.eqb v) (customers G)
                              then Some (mkConstr (Some LpConstraintGE)
                                                  (Some 1%Q) [])
                              else None).
  { intros v. unfold m2, m1. cbn. rewrite Hcs1, Hc0.
    unfold customers. destruct (existsb _ _); [reflexivity|].
    apply lookup_empty. }
  assert (Hvb2 : forall k, vehicle_bound_constrs m2 !! k
                           = if bool_decide (k ∈ fleet)
                             then (fun bound =>
                                     mkConstr (Some LpConstraintLE)
                                              (Some (inject_Z bound)) [])
                                  <$> num_vehicles m !! Z.to_nat k
                             else None).
  { intros k. unfold m2. cbn. rewrite Hcs2. unfold m1. cbn. fold fleet.
    destruct (bool_decide _); [reflexivity|]. rewrite Hb0.
    apply lookup_empty. }
  destruct (routes_loop routes m2 Hnd)
    as [[E3 (r & Hin & Hwhy)]
       | (m3 & E3 & Hv3 & Hk3 & Hs3 & Hy3 & Hd3 & Hdu3 & Hdb3 & Ho3 & Hc3
          & Hb3)].
  - left. rewrite E3. cbn. split; [reflexivity|].
    destruct Hwhy as [(v & Hv & Hn) | (k & Hk & Hn)].
    + exists r, v. split; [exact Hin|]. split; [exact Hv|].
      rewrite Hcov2 in Hn. destruct (existsb _ _); [discriminate|reflexivity].
    + exfalso. rewrite Hvb2 in Hn.
      assert (Hr : k ∈ fleet).
      { unfold bounded in Hk. apply filter_In in Hk as [Hk _].
        apply list_elem_of_In. exact Hk. }
      rewrite bool_decide_eq_true_2 in Hn by exact Hr.
      apply range_elem_of in Hr.
      destruct (lookup_lt_is_Some_2 (num_vehicles m) (Z.to_nat k)) as [b Hb];
        [lia|].
      rewrite Hb in Hn. discriminate.
  - rewrite E3. cbn [Py.bind].
    destruct (truthy_false_kept _ _ Hs3) as (Ht3 & Hp3 & Hn3).
    rewrite Ht3.
    change (Py.truthy (drop_penalty m2)) with (Py.truthy (drop_penalty m)).
    rewrite Hdrop. cbn [Py.bind]. rewrite Hp3.
    change (truthyZ (periodic m2)) with (truthyZ (periodic m)).
    rewrite Hper. cbn [Py.bind].
    unfold _add_vehicle_dummy_variables.
    rewrite Hn3. change (num_vehicles m2) with (num_vehicles m). fold fleet.
    destruct (dummy_stage fleet m3 (range_NoDup _))
      as [[E4 (k & Hin & Hn)]
         | (m' & E4 & Hk4 & Hs4 & Hy4 & Hd4 & Hdu4 & Hcov4 & Ho4 & Hb4 & Hdb4)].
    + exfalso. rewrite Hb3, Hvb2 in Hn.
      apply list_elem_of_In in Hin.
      rewrite bool_decide_eq_true_2 in Hn by exact Hin.
      apply range_elem_of in Hin.
      destruct (lookup_lt_is_Some_2 (num_vehicles m) (Z.to_nat k)) as [b Hb];
        [lia|].
      rewrite Hb in Hn. discriminate.
    + right. exists m'. split; [exact E4|].
      split.
      { intros r v Hin Hv. specialize (Hv3 r v Hin Hv).
        rewrite Hcov2 in Hv3. destruct (existsb _ _); [reflexivity|].
        now destruct Hv3. }
      split.
      { eapply settings_kept_trans; [|exact Hs4].
        eapply settings_kept_trans; [|exact Hs3]. repeat split. }
      split; [rewrite Hy4, Hy3; unfold m2, m1; cbn; now rewrite Hy0|].
      split; [rewrite Hd4, Hd3; exact Hd0|].
      split; [rewrite Hdu4, Hdu3; exact Hdu0|].
      split.
      { rewrite Hdb4, Hdb3. unfold m2, m1. cbn. rewrite Hdb0.
        pose proof (range_NoDup (Z.of_nat (length (num_vehicles m)))) as Hf.
        fold fleet in Hf. clearbody fleet.
        change (@nil (Z * LpVariable))
          with (map (fun k => (k, bound_variable k)) []) at 1.
        assert (Hgen : forall done todo,
                   List.NoDup (done ++ todo) ->
                   fold_left (fun d k => assign Z.eqb k (bound_variable k) d)
                             todo (map (fun k => (k, bound_variable k)) done)
                   = map (fun k => (k, bound_variable k)) (done ++ todo)).
        { intros done todo. revert done.
          induction todo as [|k todo IH]; intros done Hnd'.
          - now rewrite app_nil_r.
          - cbn [fold_left]. rewrite assign_fresh.
            + replace (map (fun k0 => (k0, bound_variable k0)) done
                       ++ [(k, bound_variable k)])
                with (map (fun k0 => (k0, bound_variable k0)) (done ++ [k]))
                by now rewrite map_app.
              rewrite IH; rewrite <- app_assoc; [reflexivity | exact Hnd'].
            + intros e He. apply in_map_iff in He as (k' & <- & Hk').
              cbn. apply Z.eqb_neq. intros ->.
              apply NoDup_remove_2 in Hnd'. apply Hnd'.
              apply in_or_app. now left. }
        apply (Hgen [] fleet). exact Hf. }
      split.
      { rewrite Ho4, Ho3. unfold m2, m1. cbn. rewrite Ho0.
        unfold with_terms. cbn. reflexivity. }
      split.
      { intros v. rewrite Hcov4, Hc3, Hcov2.
        destruct (existsb _ _); reflexivity. }
      { intros k. rewrite Hb4, Hb3, Hvb2.
        destruct (bool_decide (k ∈ fleet)); [|reflexivity].
        destruct (num_vehicles m !! Z.to_nat k); [|reflexivity].
        cbn. unfold with_terms. cbn. reflexivity. }
Qed.

(** ** The formulation of the master problem *)

Lemma customer_not_depot (g : Network.t) (v : string) :
  existsb (String.eqb v) (customers g) = true -> is_depot v = false.
Proof.
  unfold customers. intros H. apply is_customer_In in H as (n & _ & Hc & <-).
  unfold is_customer in Hc. apply andb_prop in Hc as [Hc _].
  apply andb_prop in Hc as [Hc _]. now apply negb_true_iff in Hc.
Qed.

Lemma visited_visits (v : string) (r : Route.t) :
  is_depot v = false -> bool_decide (v ∈ visited r) = visits v r.
Proof.
  intros Hd. unfold visits, visited.
  destruct (existsb (String.eqb v) (Route.nodes r)) eqn:E.
  - apply bool_decide_eq_true_2. apply list_elem_of_In, filter_In.
    apply existsb_exists in E as (x & Hin & Hx).
    apply String.eqb_eq in Hx. subst x. split; [exact Hin|].
    now rewrite Hd.
  - apply bool_decide_eq_false_2. rewrite list_elem_of_In, filter_In.
    intros [Hin _].
    assert (existsb (String.eqb v) (Route.nodes r) = true); [|congruence].
    apply existsb_exists. exists v. split; [exact Hin|apply String.eqb_refl].
Qed.

(** The formulated master problem is the set covering formulation: without
    a drop penalty and without a period, [_formulate] leaves one covering
    constraint [>= 1] for every customer of the network and none for any
    other node, and the terms of a customer's constraint are the variables
    of the routes that visit it, in the order of the routes, each once
    with coefficient 1. *)
Theorem formulate_covering_constraints
    (G : Network.t) (routes : list Route.t) (m m' : t) :
  unformulated m ->
  Py.truthy (drop_penalty m) = false ->
  truthyZ (periodic m) = false ->
  Forall (fun r => List.NoDup (Route.nodes r)) routes ->
  _formulate G routes m = Ok m' ->
  forall v,
    set_covering_constrs m' !! v
    = if existsb (String.eqb v) (customers G)
      then Some (mkConstr (Some LpConstraintGE) (Some 1%Q)
                   (map (fun r => (y_ (Route.name r), 1%Q))
                        (List.filter (visits v) routes)))
      else None.
Proof.
  intros Hm Hdrop Hper Hnd H v.
  destruct (formulate_cases G routes m Hm Hdrop Hper Hnd)
    as [[E _] | (m1 & E & _ & _ & _ & _ & _ & _ & _ & Hcov & _)];
    [congruence|].
  assert (m1 = m') as -> by congruence.
  rewrite Hcov. destruct (existsb _ (customers G)) eqn:Hc; [|reflexivity].
  do 3 f_equal. apply filter_ext. intros r.
  apply visited_visits. eapply customer_not_depot; eauto.
Qed.

Lemma formulate_covering_constraints_witness :
  match _formulate Instance.line_network [Instance.route1; Instance.route2]
          (Instance.before_formulation [2] None "cbc") with
  | Ok m' =>
      set_covering_constrs m' !! "a"
      = Some (mkConstr (Some LpConstraintGE) (Some 1%Q)
                       [(y_ 1, 1%Q); (y_ 2, 1%Q)])
      /\ set_covering_constrs m' !! "Sink" = None
  | Raise _ => False
  end.
Proof.
  destruct (_formulate Instance.line_network
              [Instance.route1; Instance.route2]
              (Instance.before_formulation [2] None "cbc"))
    as [m'|e] eqn:E; [|vm_compute in E; discriminate].
  assert (Hm : unformulated (Instance.before_formulation [2] None "cbc"))
    by (repeat split).
  assert (Hnd : Forall (fun r => List.NoDup (Route.nodes r))
                       [Instance.route1; Instance.route2]).
  { repeat constructor; cbn; intros H;
      repeat (destruct H as [H|H]; [discriminate|]); exact H. }
  split.
  - exact (formulate_covering_constraints _ _ _ _ Hm eq_refl eq_refl Hnd E "a").
  - exact (formulate_covering_constraints _ _ _ _ Hm eq_refl eq_refl Hnd E
             "Sink").
Defined.

Lemma bounded_of_type (k : Z) (r : Route.t) (m : t) :
  k ∈ Py.range (Z.of_nat (length (num_vehicles m))) ->
  bool_decide (k ∈ bounded r m) = of_type k r.
Proof.
  intros Hk. unfold bounded, of_type.
  destruct (Route.vehicle_type r =? k) eqn:E.
  - apply bool_decide_eq_true_2. apply list_elem_of_In, filter_In.
    split; [now apply list_elem_of_In | exact E].
  - apply bool_decide_eq_false_2. rewrite list_elem_of_In, filter_In.
    intros [_ E']. congruence.
Qed.

Lemma fold_insert_lookup (routes : list Route.t) (ys : gmap Z LpVariable)
    (n : Z) :
  fold_left (fun ys r => <[Route.name r := route_variable r]> ys) routes ys
  !! n
  = if existsb (fun r => Route.name r =? n) routes
    then Some (mkVar (y_ n) (Some 0%Q) (Some 1%Q) LpInteger)
    else ys !! n.
Proof.
  revert ys. induction routes as [|r routes IH]; intros ys; [reflexivity|].
  cbn [fold_left existsb]. rewrite IH.
  destruct (existsb _ routes); [now rewrite orb_true_r|].
  rewrite orb_false_r. destruct (Route.name r =? n) eqn:E.
  - apply Z.eqb_eq in E. subst n. now rewrite lookup_insert_eq.
  - apply Z.eqb_neq in E. now rewrite lookup_insert_ne.
Qed.

(** The fleet bounds and the objective of the formulated master problem
    (same setting): the bound constraint of vehicle type [k] is
    [<= num_vehicles[k]] over the variables of the routes of that type,
    with the type's artificial variable at coefficient -1; no other key
    has one; the objective charges every route its cost and every
    artificial variable [1e10]; [y] holds one integer variable in [0, 1]
    per route name. *)
Theorem formulate_fleet_and_objective
    (G : Network.t) (routes : list Route.t) (m m' : t) :
  unformulated m ->
  Py.truthy (drop_penalty m) = false ->
  truthyZ (periodic m) = false ->
  Forall (fun r => List.NoDup (Route.nodes r)) routes ->
  _formulate G routes m = Ok m' ->
  let fleet := Py.range (Z.of_nat (length (num_vehicles m))) in
  (forall k bound,
     0 <= k -> num_vehicles m !! Z.to_nat k = Some bound ->
     vehicle_bound_constrs m' !! k
     = Some (mkConstr (Some LpConstraintLE) (Some (inject_Z bound))
               (map (fun r => (y_ (Route.name r), 1%Q))
                    (List.filter (of_type k) routes)
                ++ [(artificial_bound_ k, (-1)%Q)]))) /\
  (forall k, ~ In k fleet -> vehicle_bound_constrs m' !! k = None) /\
  objective m'
  = mkConstr None None
      (map (fun r => (y_ (Route.name r), Route.cost r)) routes
       ++ map (fun k => (artificial_bound_ k, big_cost)) fleet) /\
  dummy_bound m' = map (fun k => (k, bound_variable k)) fleet /\
  (forall n, y m' !! n
             = if existsb (fun r => Route.name r =? n) routes
               then Some (mkVar (y_ n) (Some 0%Q) (Some 1%Q) LpInteger)
               else None).
Proof.
  intros Hm Hdrop Hper Hnd H fleet.
  destruct (formulate_cases G routes m Hm Hdrop Hper Hnd)
    as [[E _] | (m1 & E & _ & _ & Hy & _ & _ & Hdb & Ho & _ & Hvb)];
    [congruence|].
  assert (m1 = m') as -> by congruence.
  split.
  { intros k bound Hk Hb.
    assert (Hin : k ∈ fleet).
    { apply range_elem_of. apply lookup_lt_Some in Hb. lia. }
    rewrite Hvb. fold fleet. rewrite bool_decide_eq_true_2 by exact Hin.
    rewrite Hb. cbn. do 4 f_equal. apply filter_ext. intros r.
    now apply bounded_of_type. }
  split.
  { intros k Hk. rewrite Hvb. fold fleet.
    rewrite bool_decide_eq_false_2; [reflexivity|].
    now rewrite list_elem_of_In. }
  split; [exact Ho|]. split; [exact Hdb|].
  intros n. rewrite Hy, fold_insert_lookup.
  destruct (existsb _ routes); [reflexivity | apply lookup_empty].
Qed.

Lemma formulate_fleet_and_objective_witness :
  match _formulate Instance.line_network [Instance.route1; Instance.route2]
          (Instance.before_formulation [2] None "cbc") with
  | Ok m' =>
      vehicle_bound_constrs m' !! 0
      = Some (mkConstr (Some LpConstraintLE) (Some 2%Q)
                       [(y_ 1, 1%Q); (y_ 2, 1%Q);
                        (artificial_bound_ 0, (-1)%Q)])
      /\ objective m'
         = mkConstr None None
             [(y_ 1, 2%Q); (y_ 2, 2%Q); (artificial_bound_ 0, big_cost)]
  | Raise _ => False
  end.
Proof.
  destruct (_formulate Instance.line_network
              [Instance.route1; Instance.route2]
              (Instance.before_formulation [2] None "cbc"))
    as [m'|e] eqn:E; [|vm_compute in E; discriminate].
  assert (Hm : unformulated (Instance.before_formulation [2] None "cbc"))
    by (repeat split).
  assert (Hnd : Forall (fun r => List.NoDup (Route.nodes r))
                       [Instance.route1; Instance.route2]).
  { repeat constructor; cbn; intros H;
      repeat (destruct H as [H|H]; [discriminate|]); exact H. }
  pose proof (formulate_fleet_and_objective _ _ _ _ Hm eq_refl eq_refl Hnd E)
    as (Hvb & _ & Ho & _).
  split; [exact (Hvb 0 2 ltac:(lia) eq_refl) | exact Ho].
Defined.

(** When the formulation fails (same setting): it raises a [KeyError],
    and it does so exactly when some route visits a node, other than
    Source and Sink, that is not a customer of the network. *)
Theorem formulate_raises_iff
    (G : Network.t) (routes : list Route.t) (m : t) :
  unformulated m ->
  Py.truthy (drop_penalty m) = false ->
  truthyZ (periodic m) = false ->
  Forall (fun r => List.NoDup (Route.nodes r)) routes ->
  (forall e, _formulate G routes m = Raise e -> e = KeyError) /\
  ((exists e, _formulate G routes m = Raise e)
   <-> ~ routes_visit_customers G routes).
Proof.
  intros Hm Hdrop Hper Hnd. unfold routes_visit_customers.
  destruct (formulate_cases G routes m Hm Hdrop Hper Hnd)
    as [[E (r & v & Hin & Hv & Hc)] | (m1 & E & Hall & _)].
  - split; [intros e He; congruence|].
    split; [|eauto]. intros _ Hall.
    specialize (Hall r v Hin Hv).
    assert (existsb (String.eqb v) (customers G) = true); [|congruence].
    apply existsb_exists. exists v. split; [exact Hall|apply String.eqb_refl].
  - split; [intros e He; congruence|].
    split; [intros (e & He); congruence|].
    intros Hnot. exfalso. apply Hnot. intros r v Hin Hv.
    specialize (Hall r v Hin Hv).
    apply existsb_exists in Hall as (x & Hx & Heq).
    apply String.eqb_eq in Heq. now subst x.
Qed.

Lemma formulate_raises_iff_witness :
  _formulate Instance.line_network [Instance.route1; Instance.stray_route]
    (Instance.before_formulation [] None "cbc")
  = Raise KeyError.
Proof.
  assert (Hm : unformulated (Instance.before_formulation [] None "cbc"))
    by (repeat split).
  assert (Hnd : Forall (fun r => List.NoDup (Route.nodes r))
                       [Instance.route1; Instance.stray_route]).
  { repeat constructor; cbn; intros H;
      repeat (destruct H as [H|H]; [discriminate|]); exact H. }
  destruct (formulate_raises_iff Instance.line_network
              [Instance.route1; Instance.stray_route]
              (Instance.before_formulation [] None "cbc")
              Hm eq_refl eq_refl Hnd) as [Honly [_ Hraise]].
  destruct Hraise as (e & He).
  - intros Hall.
    specialize (Hall Instance.stray_route "z" (or_intror (or_introl eq_refl))
                     (or_introl eq_refl)).
    cbn in Hall. repeat (destruct Hall as [Hall|Hall]; [discriminate|]).
    exact Hall.
  - rewrite He. f_equal. exact (Honly e He).
Defined.

(** A loop whose passes raise nothing but [KeyError]. *)
Lemma for_each_key_error {A S} (P : S -> Prop) (xs : list A)
    (body : A -> S -> result S) (s : S) :
  (forall x a, In x xs -> P a ->
     (exists b, body x a = Ok b /\ P b) \/ body x a = Raise KeyError) ->
  P s ->
  (exists s', Py.for_each xs body s = Ok s' /\ P s')
  \/ Py.for_each xs body s = Raise KeyError.
Proof.
  revert s. induction xs as [|x xs IH]; intros s Hb Hs.
  - left. exists s. auto.
  - cbn [Py.for_each].
    destruct (Hb x s (or_introl eq_refl) Hs) as [(b & E & Hp) | E];
      rewrite E; cbn [Py.bind]; [|now right].
    apply IH; [|exact Hp]. intros x' a Hin. apply Hb. now right.
Qed.

Lemma alter_all_empty {K} `{Countable K} (f : LpConstraintVar -> LpConstraintVar)
    (keys : list K) :
  fold_right (fun r acc => alter f r acc) (∅ : gmap K LpConstraintVar) keys
  = ∅.
Proof.
  induction keys as [|r keys IH]; cbn [fold_right]; [reflexivity|].
  rewrite IH. apply map_eq. intros i. rewrite lookup_alter.
  destruct (decide (r = i)); now rewrite !lookup_empty.
Qed.

(** With a period and a bounded fleet the formulation cannot be built:
    the vehicle bound constraints are only created without a period, and
    [_add_vehicle_dummy_variables] looks one up for every vehicle type.
    Whatever the network and the routes, [_formulate] raises a
    [KeyError]. *)
Theorem formulate_periodic_fleet_raises
    (G : Network.t) (routes : list Route.t) (m : t) :
  truthyZ (periodic m) = true ->
  num_vehicles m <> [] ->
  vehicle_bound_constrs m = ∅ ->
  _formulate G routes m = Raise KeyError.
Proof.
  intros Hper Hfleet Hvb.
  set (Inv := fun a : t => settings_kept m a /\ vehicle_bound_constrs a = ∅).
  assert (Hinv : Inv m) by (split; [apply settings_kept_refl | exact Hvb]).
  unfold _formulate.
  (* the covering constraints *)
  destruct (for_each_key_error Inv (Network.nodes G)
              (fun n m =>
                 if negb (is_depot (fst n))
                    && negb (bool_decide (is_Some (snd n !! "depot_from")))
                    && negb (bool_decide (is_Some (snd n !! "depot_to")))
                 then
                   right_hand_term <-
                     (if truthyZ (periodic m)
                      then Py.of_option KeyError (snd n !! "frequency")
                      else Ok 1%Q) ;;
                   Ok (set_set_covering_constrs
                         (<[fst n := mkConstr (Some LpConstraintGE)
                                              (Some right_hand_term) []]>
                            (set_covering_constrs m)) m)
                 else Ok m) m) as [(m1 & E1 & Hs1 & Hvb1) | E1];
    [ | exact Hinv | | ].
  { intros n a _ [Hs Hv].
    destruct (_ && _);
      [|left; exists a; split; [reflexivity | split; assumption]].
    destruct (if truthyZ (periodic a) then _ else _) as [q|e] eqn:Eq.
    - left. eexists. split; [reflexivity|]. split; [|exact Hv].
      eapply settings_kept_trans; [exact Hs|]. repeat split.
    - right. destruct (truthyZ (periodic a)); [|discriminate].
      destruct (snd n !! "frequency"); cbn in Eq; [discriminate|].
      injection Eq as <-. reflexivity. }
  2:{ unfold _add_set_covering_constraints. now rewrite E1. }
  unfold _add_set_covering_constraints. rewrite E1. cbn [Py.bind].
  destruct (truthy_false_kept _ _ Hs1) as (Ht1 & Hp1 & Hn1).
  rewrite Hp1, Hper. cbn [negb]. rewrite andb_false_r. cbn [Py.bind].
  (* the columns *)
  destruct (for_each_key_error Inv routes _add_route_selection_variable m1)
    as [(m3 & E3 & Hs3 & Hvb3) | E3]; [ | split; assumption | | ].
  { intros r a _ [Hs Hv]. unfold _add_route_selection_variable.
    destruct (lookups_cases (visited r) (set_covering_constrs a)) as [Hc|Hc].
    2:{ right. now rewrite (lookups_raise _ _ Hc). }
    rewrite (lookups_ok _ _ Hc). cbn [Py.bind].
    destruct (lookups_cases (bounded r a) (vehicle_bound_constrs a))
      as [Hk|Hk].
    2:{ right. now rewrite (lookups_raise _ _ Hk). }
    rewrite (lookups_ok _ _ Hk). cbn [Py.bind].
    left. eexists. split; [reflexivity|]. split.
    - eapply settings_kept_trans; [exact Hs|]. repeat split.
    - cbn. rewrite Hv. apply alter_all_empty. }
  2:{ now rewrite E3. }
  rewrite E3. cbn [Py.bind].
  destruct (truthy_false_kept _ _ Hs3) as (Ht3 & Hp3 & Hn3).
  (* the drop variables *)
  assert (E4 : (exists m4,
                  (if Py.truthy (drop_penalty m3) then _add_drop_variables G m3
                   else Ok m3) = Ok m4 /\ Inv m4)
               \/ (if Py.truthy (drop_penalty m3) then _add_drop_variables G m3
                   else Ok m3) = Raise KeyError).
  { destruct (Py.truthy (drop_penalty m3)) eqn:Hd;
      [|left; exists m3; split; [reflexivity | split; assumption]].
    unfold _add_drop_variables.
    destruct (for_each_key_error
                (fun a => Inv a /\ drop_penalty a = drop_penalty m3)
                (Network.nodes G)
                (fun n m =>
                   demand <- Py.of_option KeyError (snd n !! "demand") ;;
                   if Py.Qgtb demand 0 && negb (String.eqb (fst n) "Source")
                   then
                     penalty <- Py.of_option TypeError (drop_penalty m) ;;
                     _ <- Py.of_option KeyError
                            (set_covering_constrs m !! fst n) ;;
                     let v := drop_ (fst n) in
                     Ok (set_drop
                           (assign String.eqb (fst n)
                                   (mkVar v (Some 0%Q) (Some 1%Q) LpInteger)
                                   (drop m))
                           (set_objective
                              (addVariable v penalty (objective m))
                              (set_set_covering_constrs
                                 (alter (addVariable v 1%Q) (fst n)
                                        (set_covering_constrs m)) m)))
                   else Ok m) m3) as [(m4 & E & Hi & _) | E];
      [ | split; [split; assumption | reflexivity] | left; eauto | now right].
    intros n a _ [[Hs Hv] Hdp].
    destruct (snd n !! "demand") as [demand|]; cbn [Py.of_option Py.bind];
      [|now right].
    destruct (_ && _);
      [|left; exists a; split; [reflexivity|];
        split; [split; assumption | assumption]].
    rewrite Hdp. destruct (drop_penalty m3) as [p|]; [|discriminate].
    cbn [Py.of_option Py.bind].
    destruct (set_covering_constrs a !! fst n); cbn [Py.of_option Py.bind];
      [|now right].
    left. eexists. split; [reflexivity|]. split; [split|].
    - eapply settings_kept_trans; [exact Hs|]. repeat split.
    - exact Hv.
    - exact Hdp. }
  destruct E4 as [(m4 & E4 & Hs4 & Hvb4) | E4]; rewrite E4; cbn [Py.bind];
    [|reflexivity].
  destruct (truthy_false_kept _ _ Hs4) as (Ht4 & Hp4 & Hn4).
  rewrite Hp4, Hper.
  (* the artificial variables of the period *)
  unfold _add_artificial_variables.
  destruct (for_each_key_error Inv (Network.nodes G)
              (fun n m =>
                 frequency <- Py.of_option KeyError (snd n !! "frequency") ;;
                 if Py.Qgtb frequency 1 && negb (String.eqb (fst n) "Source")
                 then
                   _ <- Py.of_option KeyError
                          (set_covering_constrs m !! fst n) ;;
                   let v := periodic_ (fst n) in
                   Ok (set_dummy
                         (assign String.eqb (fst n)
                                 (mkVar v (Some 0%Q) None LpInteger) (dummy m))
                         (set_objective
                            (addVariable v big_cost (objective m))
                            (set_set_covering_constrs
                               (alter (addVariable v 1%Q) (fst n)
                                      (set_covering_constrs m)) m)))
                 else Ok m) m4) as [(m5 & E5 & Hs5 & Hvb5) | E5];
    [ | split; assumption | | cbv zeta in E5; now rewrite E5].
  { intros n a _ [Hs Hv].
    destruct (snd n !! "frequency") as [frequency|];
      cbn [Py.of_option Py.bind]; [|now right].
    destruct (_ && _);
      [|left; exists a; split; [reflexivity | split; assumption]].
    destruct (set_covering_constrs a !! fst n); cbn [Py.of_option Py.bind];
      [|now right].
    left. eexists. split; [reflexivity|]. split; [|exact Hv].
    eapply settings_kept_trans; [exact Hs|]. repeat split. }
  cbv zeta in E5. rewrite E5. cbn [Py.bind].
  (* the artificial variables of the fleet *)
  unfold _add_vehicle_dummy_variables.
  destruct (truthy_false_kept _ _ Hs5) as (_ & _ & Hn5). rewrite Hn5.
  destruct (num_vehicles m) as [|b bs]; [contradiction|].
  cbn [length]. unfold Py.range. rewrite Nat2Z.id. cbn [seq map Py.for_each].
  rewrite Hvb5, lookup_empty. reflexivity.
Qed.

Lemma formulate_periodic_fleet_raises_witness :
  _formulate Instance.line_network [Instance.route1]
    (Instance.before_formulation [2] (Some 2) "cbc")
  = Raise KeyError.
Proof.
  apply formulate_periodic_fleet_raises; [reflexivity | discriminate
                                          | reflexivity].
Defined.

(** ** Solving the master problem *)

(** [_formulate] keeps the settings and the problem's status. *)
Lemma formulate_settings (G : Network.t) (routes : list Route.t) (m m' : t) :
  _formulate G routes m = Ok m' -> settings_kept m m'.
Proof.
  unfold _formulate. intros H.
  apply bind_Ok in H as (m1 & H1 & H).
  apply bind_Ok in H as (m2 & H2 & H).
  apply bind_Ok in H as (m3 & H3 & H).
  apply bind_Ok in H as (m4 & H4 & H).
  apply bind_Ok in H as (m5 & H5 & H).
  assert (S1 : settings_kept m m1).
  { unfold _add_set_covering_constraints in H1.
    eapply for_each_settings; [|exact H1].
    intros n a b Hb. cbv beta in Hb. destruct (_ && _) in Hb;
      [|injection Hb as <-; apply settings_kept_refl].
    apply bind_Ok in Hb as (q & _ & Hb). injection Hb as <-. repeat split. }
  assert (S2 : settings_kept m1 m2).
  { destruct (_ && _) in H2; [|injection H2 as <-; apply settings_kept_refl].
    unfold _add_bound_vehicles in H2.
    eapply for_each_settings; [|exact H2].
    intros k a b Hb. cbv beta in Hb. apply bind_Ok in Hb as (q & _ & Hb).
    injection Hb as <-. repeat split. }
  assert (S3 : settings_kept m2 m3).
  { eapply for_each_settings; [|exact H3].
    intros r a b Hb. cbv beta in Hb. eapply add_route_settings; eauto. }
  assert (S4 : settings_kept m3 m4).
  { destruct (Py.truthy _) in H4;
      [|injection H4 as <-; apply settings_kept_refl].
    unfold _add_drop_variables in H4.
    eapply for_each_settings; [|exact H4].
    intros n a b Hb. cbv beta in Hb. apply bind_Ok in Hb as (d & _ & Hb).
    destruct (_ && _) in Hb; [|injection Hb as <-; apply settings_kept_refl].
    apply bind_Ok in Hb as (p & _ & Hb). apply bind_Ok in Hb as (c & _ & Hb).
    injection Hb as <-. repeat split. }
  assert (S5 : settings_kept m4 m5).
  { destruct (truthyZ _) in H5;
      [|injection H5 as <-; apply settings_kept_refl].
    unfold _add_artificial_variables in H5.
    eapply for_each_settings; [|exact H5].
    intros n a b Hb. cbv beta in Hb. apply bind_Ok in Hb as (d & _ & Hb).
    destruct (_ && _) in Hb; [|injection Hb as <-; apply settings_kept_refl].
    apply bind_Ok in Hb as (c & _ & Hb).
    injection Hb as <-. repeat split. }
  assert (S6 : settings_kept m5 m').
  { unfold _add_vehicle_dummy_variables in H.
    eapply for_each_settings; [|exact H].
    intros k a b Hb. cbv beta in Hb. apply bind_Ok in Hb as (c & _ & Hb).
    injection Hb as <-. repeat split. }
  eapply settings_kept_trans; [exact S1|].
  eapply settings_kept_trans; [exact S2|].
  eapply settings_kept_trans; [exact S3|].
  eapply settings_kept_trans; [exact S4|].
  eapply settings_kept_trans; [exact S5|]. exact S6.
Qed.

(** A master problem built for a solver name other than "cbc", "cplex"
    and "gurobi" is never solved: [_solve] calls no solver, so on the
    problem as [_formulate] leaves it [solve] raises "problem Not Solved",
    relaxed or not, whatever the solver would have answered. *)
Theorem unknown_solver_is_not_solved
    (lp_solve : string -> option Q -> t -> Solution)
    (G : Network.t) (routes : list Route.t) (m m' : t)
    (relax : bool) (time_limit : option Q) :
  _formulate G routes m = Ok m' ->
  status (prob m) = LpStatusNotSolved ->
  ~ In (solver m) ["cbc"; "cplex"; "gurobi"] ->
  solve lp_solve G routes m' relax time_limit
  = Raise (Exception "problem Not Solved").
Proof.
  intros Hf Hst Hname.
  apply formulate_settings in Hf as (_ & _ & _ & Hsolver & Hprob).
  assert (Hno : String.eqb (solver m') "cbc" || String.eqb (solver m') "cplex"
                || String.eqb (solver m') "gurobi" = false).
  { rewrite Hsolver. apply not_true_is_false. intros Ht. apply Hname.
    apply orb_prop in Ht as [Ht|Ht];
      [apply orb_prop in Ht as [Ht|Ht]|];
      apply String.eqb_eq in Ht; rewrite Ht; cbn; auto. }
  unfold solve, _solve. rewrite Hno. cbn [prob]. rewrite Hprob, Hst.
  reflexivity.
Qed.

Lemma unknown_solver_is_not_solved_witness :
  match _formulate Instance.line_network [Instance.route1]
          (Instance.before_formulation [] None "glpk") with
  | Ok m' =>
      solve (fun _ _ _ => Instance.optimal 2 1) Instance.line_network
            [Instance.route1] m' true None
      = Raise (Exception "problem Not Solved")
  | Raise _ => False
  end.
Proof.
  destruct (_formulate Instance.line_network [Instance.route1]
              (Instance.before_formulation [] None "glpk"))
    as [m'|e] eqn:E; [|vm_compute in E; discriminate].
  apply (unknown_solver_is_not_solved _ _ _ _ _ _ _ E); [reflexivity|].
  cbn. intros H. repeat (destruct H as [H|H]; [discriminate|]). exact H.
Defined.

(** ** Duals and the distribution of the heuristics *)

Lemma node_duals_loop (m : t) (ns : list (string * gmap string Q))
    (acc acc' : list (string * option Q)) :
  Py.for_each ns
    (fun n (acc : list (string * option Q)) =>
       if negb (is_depot (fst n))
          && negb (bool_decide (is_Some (snd n !! "depot_from")))
          && negb (bool_decide (is_Some (snd n !! "depot_to")))
       then
         _ <- Py.of_option KeyError (set_covering_constrs m !! fst n) ;;
         Ok (acc ++ [(fst n, pi (prob m) (visit_node_ (fst n)))])
       else Ok acc) acc
  = Ok acc' ->
  acc' = acc ++ map (fun v => (v, pi (prob m) (visit_node_ v)))
                    (map fst (List.filter is_customer ns)).
Proof.
  revert acc. induction ns as [|n ns IH]; intros acc H.
  - injection H as <-. now rewrite app_nil_r.
  - cbn [Py.for_each] in H. apply bind_Ok in H as (a1 & H1 & H).
    apply IH in H. subst acc'. cbn [List.filter].
    change (negb (is_depot (fst n))
            && negb (bool_decide (is_Some (snd n !! "depot_from")))
            && negb (bool_decide (is_Some (snd n !! "depot_to"))))
      with (is_customer n) in H1.
    destruct (is_customer n).
    + apply bind_Ok in H1 as (c & _ & H1). injection H1 as <-.
      cbn [map]. now rewrite <- app_assoc.
    + now injection H1 as <-.
Qed.

Lemma fleet_duals_loop (m : t) (ks : list Z) (acc acc' : list (Z * option Q)) :
  Py.for_each ks
    (fun k (acc : list (Z * option Q)) =>
       _ <- Py.of_option KeyError (vehicle_bound_constrs m !! k) ;;
       Ok (acc ++ [(k, pi (prob m) (upper_bound_vehicles_ k))])) acc
  = Ok acc' ->
  acc' = acc ++ map (fun k => (k, pi (prob m) (upper_bound_vehicles_ k))) ks.
Proof.
  revert acc. induction ks as [|k ks IH]; intros acc H.
  - injection H as <-. now rewrite app_nil_r.
  - cbn [Py.for_each] in H. apply bind_Ok in H as (a1 & H1 & H).
    apply IH in H. subst acc'.
    apply bind_Ok in H1 as (c & _ & H1). injection H1 as <-.
    cbn [map]. now rewrite <- app_assoc.
Qed.

(** The dictionary [get_duals] returns: one dual per customer of the
    network, in the order of the nodes, and none for Source, Sink and the
    depot copies; under ["upper_bound_vehicles"] one dual per vehicle
    type when the fleet is bounded and there is no period, and no such
    entry otherwise. *)
Theorem get_duals_keys (G : Network.t) (m : t) (duals : Duals) :
  get_duals G m = Ok duals ->
  node_duals duals
  = map (fun v => (v, pi (prob m) (visit_node_ v))) (customers G) /\
  upper_bound_vehicles duals
  = if negb (Nat.eqb (length (num_vehicles m)) 0)
       && negb (truthyZ (periodic m))
    then Some (map (fun k => (k, pi (prob m) (upper_bound_vehicles_ k)))
                   (Py.range (Z.of_nat (length (num_vehicles m)))))
    else None.
Proof.
  unfold get_duals. intros H. apply bind_Ok in H as (nd & Hnd & H).
  apply node_duals_loop in Hnd. cbn [app] in Hnd. subst nd.
  destruct (_ && _).
  - apply bind_Ok in H as (ub & Hub & H). apply fleet_duals_loop in Hub.
    cbn [app] in Hub. subst ub. injection H as <-. split; reflexivity.
  - injection H as <-. split; reflexivity.
Qed.

Lemma get_duals_keys_witness :
  match get_duals Instance.line_network
          (set_prob (Instance.optimal 2 1) Instance.line_master) with
  | Ok duals =>
      node_duals duals = [("a", Some 0%Q)] /\ upper_bound_vehicles duals = None
  | Raise _ => False
  end.
Proof.
  destruct (get_duals Instance.line_network
              (set_prob (Instance.optimal 2 1) Instance.line_master))
    as [duals|e] eqn:E; [|vm_compute in E; discriminate].
  exact (get_duals_keys _ _ _ E).
Defined.

Lemma y_value_selected (m : t) (r : Route.t) (val : option Q) :
  y_value m r = Ok val ->
  match val with
  | Some v => Py.Qgtb v 0
  | None => false
  end = value_above 0 m r.
Proof.
  unfold y_value, value_above. intros H.
  apply bind_Ok in H as (v & Hv & H). injection H as <-.
  destruct (y m !! Route.name r); [|discriminate].
  injection Hv as ->. reflexivity.
Qed.

Lemma tagged_other_names (h tag : string) (r : Route.t) :
  Route.heuristic r = Some h -> tag <> h -> tagged tag r = false.
Proof.
  intros Hh Hne. unfold tagged. rewrite Hh. apply String.eqb_neq. congruence.
Qed.

(** The loop of [get_heuristic_distribution]. *)
Lemma heuristic_distribution_loop (m : t) (routes : list Route.t)
    (done best : list Route.t) (counts : gmap string Z)
    (routes' best' : list Route.t) (counts' : gmap string Z) :
  Py.for_each routes
    (fun r (acc : list Route.t * list Route.t * gmap string Z) =>
       let '(routes', best_routes, counts) := acc in
       val <- y_value m r ;;
       let selected :=
         match val with
         | Some v => Py.Qgtb v 0
         | None => false
         end in
       if selected then
         let tag :=
           match Route.heuristic r with
           | Some h => if bool_decide (is_Some (counts !! h)) then h
                       else "Other"
           | None => "Other"
           end in
         let r' := match Route.heuristic r with
                   | Some h => if bool_decide (is_Some (counts !! h)) then r
                               else Route.set_heuristic "Other" r
                   | None => Route.set_heuristic "Other" r
                   end in
         Ok (routes' ++ [r'], best_routes ++ [r'],
             alter (Z.add 1) tag counts)
       else Ok (routes' ++ [r], best_routes, counts))
    (done, best, counts)
  = Ok (routes', best', counts') ->
  best = List.filter (value_above 0 m) done ->
  Forall (fun r => exists tag, In tag heuristic_names
                               /\ Route.heuristic r = Some tag) best ->
  (forall tag, counts !! tag
               = if existsb (String.eqb tag) heuristic_names
                 then Some (Z.of_nat (length (List.filter (tagged tag) best)))
                 else None) ->
  map Route.name routes' = map Route.name (done ++ routes) /\
  best' = List.filter (value_above 0 m) routes' /\
  Forall (fun r => exists tag, In tag heuristic_names
                               /\ Route.heuristic r = Some tag) best' /\
  (forall tag, counts' !! tag
               = if existsb (String.eqb tag) heuristic_names
                 then Some (Z.of_nat (length (List.filter (tagged tag) best')))
                 else None).
Proof.
  revert done best counts.
  induction routes as [|r routes IH]; intros done best counts H Hb Ht Hc.
  - injection H as <- <- <-. rewrite app_nil_r. auto.
  - cbn [Py.for_each] in H. apply bind_Ok in H as ([[d1 b1] c1] & H1 & H).
    apply bind_Ok in H1 as (val & Hval & H1).
    apply y_value_selected in Hval. cbv zeta in H1. rewrite Hval in H1.
    replace (done ++ r :: routes) with ((done ++ [r]) ++ routes)
      by now rewrite <- app_assoc.
    destruct (value_above 0 m r) eqn:Hsel.
    + set (tag := match Route.heuristic r with
                  | Some h => if bool_decide (is_Some (counts !! h)) then h
                              else "Other"
                  | None => "Other"
                  end) in *.
      set (r' := match Route.heuristic r with
                 | Some h => if bool_decide (is_Some (counts !! h)) then r
                             else Route.set_heuristic "Other" r
                 | None => Route.set_heuristic "Other" r
                 end) in *.
      injection H1 as <- <- <-.
      assert (Hname : Route.name r' = Route.name r).
      { unfold r'. destruct (Route.heuristic r); [|reflexivity].
        destruct (bool_decide _); reflexivity. }
      assert (Htag : Route.heuristic r' = Some tag /\ In tag heuristic_names).
      { unfold r', tag. destruct (Route.heuristic r) as [h|] eqn:Hh.
        - destruct (bool_decide (is_Some (counts !! h))) eqn:Hd.
          + split; [exact Hh|]. apply bool_decide_eq_true in Hd.
            rewrite Hc in Hd.
            destruct (existsb (String.eqb h) heuristic_names) eqn:Hex;
              [|now destruct Hd].
            apply existsb_exists in Hex as (x & Hin & Hx).
            apply String.eqb_eq in Hx. now subst x.
          + split; [reflexivity|]. cbn. tauto.
        - split; [reflexivity|]. cbn. tauto. }
      destruct Htag as [Htag Hin].
      assert (Hsel' : value_above 0 m r' = true).
      { unfold value_above in *. now rewrite Hname. }
      destruct (IH (done ++ [r']) (best ++ [r']) (alter (Z.add 1) tag counts) H)
        as (Hn & Hb' & Ht' & Hc').
      * rewrite List.filter_app. cbn [List.filter]. rewrite Hsel'. now rewrite Hb.
      * apply Forall_app. split; [exact Ht|]. constructor; [|constructor].
        exists tag. auto.
      * intros t. rewrite lookup_alter, List.filter_app, List.length_app.
        cbn [List.filter].
        destruct (decide (tag = t)) as [<-|Hne].
        -- rewrite Hc.
           assert (Hex : existsb (String.eqb tag) heuristic_names = true).
           { apply existsb_exists. exists tag.
             split; [exact Hin | apply String.eqb_refl]. }
           assert (Hyes : tagged tag r' = true).
           { unfold tagged. rewrite Htag. apply String.eqb_refl. }
           rewrite Hex, Hyes. cbn [fmap option_fmap option_map length].
           f_equal. lia.
        -- rewrite Hc, (tagged_other_names tag t r' Htag) by congruence.
           cbn [length]. now rewrite Nat.add_0_r.
      * split; [|auto].
        rewrite Hn, !map_app. cbn [map]. now rewrite Hname.
    + injection H1 as <- <- <-.
      destruct (IH (done ++ [r]) best counts H) as (Hn & Hb' & Ht' & Hc').
      * rewrite List.filter_app. cbn [List.filter]. rewrite Hsel.
        now rewrite app_nil_r.
      * exact Ht.
      * exact Hc.
      * auto.
Qed.

(** [get_heuristic_distribution] returns the routes whose variable has a
    value above 0, each tagged with one of the five counter names (a
    selected route without a tag, or with an unknown one, is retagged
    "Other" in the route list too), and every counter holds the number of
    returned routes that carry its name: the counters add up to the
    number of selected routes.  The names of the routes are unchanged. *)
Theorem heuristic_distribution_counts
    (routes : list Route.t) (m : t)
    (routes' best : list Route.t) (counts : gmap string Z) :
  get_heuristic_distribution routes m = Ok (routes', best, counts) ->
  map Route.name routes' = map Route.name routes /\
  best = List.filter (value_above 0 m) routes' /\
  Forall (fun r => exists tag, In tag heuristic_names
                               /\ Route.heuristic r = Some tag) best /\
  (forall tag, counts !! tag
               = if existsb (String.eqb tag) heuristic_names
                 then Some (Z.of_nat (length (List.filter (tagged tag) best)))
                 else None).
Proof.
  intros H.
  refine (heuristic_distribution_loop m routes [] [] best_routes_heuristic0
            routes' best counts H _ _ _); [reflexivity | constructor |].
  intros tag. cbn [List.filter length Z.of_nat].
  unfold best_routes_heuristic0, heuristic_names. cbn [existsb].
  repeat match goal with
         | |- context [String.eqb tag ?s] =>
             destruct (String.eqb_spec tag s) as [->|?]; [reflexivity|]
         end.
  cbn [orb]. rewrite !lookup_insert_ne by congruence. apply lookup_empty.
Qed.

Lemma heuristic_distribution_counts_witness :
  match get_heuristic_distribution
          [Instance.route1]
          (set_prob (Instance.optimal 2 1) Instance.line_master) with
  | Ok (routes', best, counts) =>
      map Route.name best = [1] /\
      Forall (fun r => exists tag, In tag heuristic_names
                                   /\ Route.heuristic r = Some tag) best /\
      counts !! "Other"
      = Some (Z.of_nat (length (List.filter (tagged "Other") best)))
  | Raise _ => False
  end.
Proof.
  destruct (get_heuristic_distribution [Instance.route1]
              (set_prob (Instance.optimal 2 1) Instance.line_master))
    as [[[routes' best] counts]|e] eqn:E; [|vm_compute in E; discriminate].
  destruct (heuristic_distribution_counts _ _ _ _ _ E)
    as (_ & _ & Htags & Hcounts).
  split; [|split; [exact Htags | exact (Hcounts "Other")]].
  assert (H : match get_heuristic_distribution [Instance.route1]
                      (set_prob (Instance.optimal 2 1) Instance.line_master)
              with
              | Ok out => map Route.name (snd (fst out))
              | Raise _ => []
              end = [1]) by (vm_compute; reflexivity).
  now rewrite E in H.
Defined.

End MasterFacts.

(** ** The iteration limit *)

Section LoopFacts.

Context {HH : Type}.
Variable time : @VRP HH -> Q.
Variable subproblem_solve :
  SubProblem -> option Q -> @VRP HH -> list Route.t * bool.
Variable greedy_solve : SubProblem -> Z -> @VRP HH -> list Route.t * bool.
Variable lp_solve : string -> option Q -> MasterSolvePulp.t -> Pulp.Solution.
Variable lp_resolve : MasterSolvePulp.t -> Pulp.Solution.
Variable run_dive : MasterSolvePulp.t -> MasterSolvePulp.t.
Variable set_current_objective :
  @HyperHeuristic HH -> option Q -> @HyperHeuristic HH.
Variable set_initial_time : @HyperHeuristic HH -> Q -> @HyperHeuristic HH.
Variable current_performance :
  @HyperHeuristic HH -> option Q -> option bool -> gmap string Z
  -> @HyperHeuristic HH.
Variable move_acceptance : @HyperHeuristic HH -> bool * @HyperHeuristic HH.
Variable update_parameters : @HyperHeuristic HH -> @HyperHeuristic HH.
Variable pick_heurestic : @HyperHeuristic HH -> string * @HyperHeuristic HH.

Local Abbreviation _find_columns :=
  (_find_columns time subproblem_solve greedy_solve lp_solve lp_resolve
                 run_dive set_current_objective set_initial_time
                 current_performance move_acceptance update_parameters
                 pick_heurestic).
Local Abbreviation _column_generation :=
  (_column_generation time subproblem_solve greedy_solve lp_solve lp_resolve
                      run_dive set_current_objective set_initial_time
                      current_performance move_acceptance update_parameters
                      pick_heurestic).

Lemma find_columns_counts (st st' : @VRP HH) :
  _find_columns st = Ok st' ->
  _max_iter st' = _max_iter st /\ _iteration st' = _iteration st + 1.
Proof.
  intros H.
  apply (find_columns_spec time subproblem_solve greedy_solve lp_solve
           lp_resolve run_dive set_current_objective set_initial_time
           current_performance move_acceptance update_parameters
           pick_heurestic) in H as (Hs & _ & Hit & _).
  split; [apply Hs | exact Hit].
Qed.

Lemma below_iteration_limit (n : Z) (fuel : nat) (st st' : @VRP HH)
    (exit : Exit) :
  _max_iter st = Some n ->
  0 < n ->
  _iteration st < n ->
  n - _iteration st <= Z.of_nat fuel ->
  _column_generation fuel st = Ok (exit, st') ->
  exit <> StillIterating /\ _iteration st' <= n.
Proof.
  intros Hmax Hpos. revert st Hmax.
  induction fuel as [|fuel IH]; intros st Hmax Hlt Hfuel H; [lia|].
  cbn [_column_generation] in H.
  destruct (_more_routes st); cbn [negb] in H.
  2:{ injection H as <- <-. split; [discriminate | lia]. }
  apply bind_Ok in H as (st1 & Hiter & H).
  apply find_columns_counts in Hiter as [Hmax1 Hit1].
  destruct (match time_remaining time st1 false with
            | Some t => Qeq_bool t 0
            | None => false
            end).
  { injection H as <- <-. split; [discriminate | lia]. }
  destruct (_ || _) eqn:Hlim.
  { injection H as <- <-. split; [discriminate | lia]. }
  apply orb_false_elim in Hlim as [_ Hlim].
  unfold max_iter_reached in Hlim. rewrite Hmax1, Hmax in Hlim.
  assert (Hn : (n =? 0) = false) by (apply Z.eqb_neq; lia).
  rewrite Hn in Hlim. cbn [negb andb] in Hlim. apply Z.leb_gt in Hlim.
  apply (IH st1); [congruence | lia | lia | exact H].
Qed.

(** With an iteration limit [max_iter] > 0 the loop cannot go on for
    ever: given [max_iter] iterations (one, if the counter has already
    reached the limit) it has ended, and the iteration counter is then at
    most the limit (or one more than at the start). *)
Theorem iteration_limit_ends_the_loop (n : Z) (fuel : nat)
    (st st' : @VRP HH) (exit : Exit) :
  _max_iter st = Some n ->
  0 < n ->
  (1 <= fuel)%nat ->
  n - _iteration st <= Z.of_nat fuel ->
  _column_generation fuel st = Ok (exit, st') ->
  exit <> StillIterating /\
  _iteration st' <= Z.max n (_iteration st + 1).
Proof.
  intros Hmax Hn Hone Hfuel H.
  destruct (Z_lt_le_dec (_iteration st) n) as [Hlt|Hge].
  - destruct (below_iteration_limit n fuel st st' exit Hmax Hn Hlt Hfuel H).
    split; [assumption | lia].
  - destruct fuel as [|fuel]; [lia|].
    cbn [_column_generation] in H.
    destruct (_more_routes st); cbn [negb] in H.
    2:{ injection H as <- <-. split; [discriminate | lia]. }
    apply bind_Ok in H as (st1 & Hiter & H).
    apply find_columns_counts in Hiter as [Hmax1 Hit1].
    destruct (match time_remaining time st1 false with
              | Some t => Qeq_bool t 0
              | None => false
              end).
    { injection H as <- <-. split; [discriminate | lia]. }
    assert (Hlim : max_iter_reached st1 = true).
    { unfold max_iter_reached. rewrite Hmax1, Hmax.
      apply andb_true_intro.
      split; [apply negb_true_iff, Z.eqb_neq | apply Z.leb_le]; lia. }
    rewrite Hlim, orb_true_r in H.
    injection H as <- <-. split; [discriminate | lia].
Qed.

End LoopFacts.

Lemma iteration_limit_ends_the_loop_witness :
  match Instance.column_generation_with Instance.always_finds 3
          (Instance.limited 3) with
  | Ok (exit, st') => exit <> StillIterating /\ _iteration st' <= 3
  | Raise _ => False
  end.
Proof.
  destruct (Instance.column_generation_with Instance.always_finds 3
              (Instance.limited 3))
    as [[exit st']|e] eqn:E; [|vm_compute in E; discriminate].
  unfold Instance.column_generation_with in E.
  apply (iteration_limit_ends_the_loop _ _ _ _ _ _ _ _ _ _ _ _ 3 3
           (Instance.limited 3)) in E;
    [exact E | reflexivity | lia | lia | cbn; lia].
Defined.


(** ** Locking the preassigned routes *)

Lemma index_zero_head {A} (l : list A) :
  Py.index l 0 = Py.of_option IndexError (head l).
Proof.
  destruct l as [|x l]; [reflexivity|].
  unfold Py.index. cbn [length]. 
  replace (0 <? 0) with false by reflexivity.
  replace (0 <? 0) with false by reflexivity. cbn [orb].
  destruct (Z.of_nat (S (length l)) <=? 0) eqn:E;
    [apply Z.leb_le in E; lia|]. reflexivity.
Qed.

Lemma index_last {A} (l : list A) :
  Py.index l (-1) = Py.of_option IndexError (last l).
Proof.
  destruct l as [|y l _] using rev_ind; [reflexivity|].
  rewrite last_snoc. unfold Py.index. rewrite length_app. cbn [length].
  replace (-1 <? 0) with true by reflexivity.
  destruct ((-1 + Z.of_nat (length l + 1) <? 0)
            || (Z.of_nat (length l + 1) <=? -1 + Z.of_nat (length l + 1)))
    eqn:E.
  - apply orb_prop in E as [E|E];
      [apply Z.ltb_lt in E | apply Z.leb_le in E]; lia.
  - replace (Z.to_nat (-1 + Z.of_nat (length l + 1))) with (length l + 0)%nat
      by lia.
    rewrite nth_error_app2 by lia.
    replace (length l + 0 - length l)%nat with O by lia. reflexivity.
Qed.

(** The test [route[0] == "Source" and route[-1] == "Sink"]. *)
Lemma complete_test (route : list string) :
  (first <- Py.index route 0 ;;
   if String.eqb first "Source" then
     last <- Py.index route (-1) ;;
     Ok (String.eqb last "Sink")
   else Ok false)
  = match route with
    | [] => Raise IndexError
    | _ => Ok (complete route)
    end.
Proof.
  rewrite index_zero_head, index_last. unfold complete.
  destruct route as [|x route]; [reflexivity|].
  cbn [head Py.of_option Py.bind].
  destruct (last (x :: route)) as [y|] eqn:E.
  - cbn. destruct (String.eqb x "Source"); reflexivity.
  - apply last_None in E. discriminate.
Qed.

Lemma index_nonneg {A} (l : list A) (k : Z) :
  0 <= k -> Py.index l k = Py.of_option IndexError (l !! Z.to_nat k).
Proof.
  intros Hk. unfold Py.index.
  destruct (k <? 0) eqn:E; [apply Z.ltb_lt in E; lia|]. rewrite E. cbn [orb].
  rewrite nth_error_lookup.
  destruct (Z.of_nat (length l) <=? k) eqn:E1; [|reflexivity].
  apply Z.leb_le in E1. rewrite lookup_ge_None_2 by lia. reflexivity.
Qed.

Lemma setitem_nonneg {A} (l : list A) (k : Z) (x : A) :
  0 <= k ->
  Py.setitem l k x
  = if Z.of_nat (length l) <=? k then Raise IndexError
    else Ok (<[Z.to_nat k := x]> l).
Proof.
  intros Hk. unfold Py.setitem.
  destruct (k <? 0) eqn:E; [apply Z.ltb_lt in E; lia|]. rewrite E.
  reflexivity.
Qed.

(** [G.edges[i, j]["cost"][k] = c] for [k] from [range]: the edge must be
    there and have a cost for [k]; only that cost changes. *)
Lemma set_edge_cost_spec (g g' : Network.t) (i j : string) (k : Z) (c : Q) :
  0 <= k ->
  Network.set_edge_cost g i j k c = Ok g' ->
  Network.nodes g' = Network.nodes g /\
  exists costs,
    Network.edges g !! (i, j) = Some costs /\
    (Z.to_nat k < length costs)%nat /\
    Network.edges g'
    = <[(i, j) := <[Z.to_nat k := c]> costs]> (Network.edges g).
Proof.
  intros Hk H. unfold Network.set_edge_cost in H.
  apply bind_Ok in H as (costs & Hc & H).
  apply bind_Ok in H as (costs' & Hs & H). injection H as <-.
  destruct (Network.edges g !! (i, j)) as [c0|] eqn:E; [|discriminate].
  injection Hc as ->. rewrite setitem_nonneg in Hs by exact Hk.
  destruct (Z.of_nat (length costs) <=? k) eqn:E1; [discriminate|].
  apply Z.leb_gt in E1. injection Hs as <-.
  split; [reflexivity|]. exists costs. split; [reflexivity|].
  split; [lia | reflexivity].
Qed.

Lemma set_edge_cost_raises (g : Network.t) (i j : string) (k : Z) (c : Q)
    (e : exn) :
  Network.set_edge_cost g i j k c = Raise e -> e = KeyError \/ e = IndexError.
Proof.
  unfold Network.set_edge_cost. intros H.
  apply bind_Raise in H as [H | (costs & _ & H)].
  - destruct (Network.edges g !! (i, j)); cbn in H; [discriminate|].
    left. congruence.
  - apply bind_Raise in H as [H | (costs' & _ & H)]; [|discriminate].
    unfold Py.setitem in H. destruct (_ || _) in H; [|discriminate].
    right. congruence.
Qed.

Lemma zeroed_insert (vt : Z) (costs : list Q) (n : nat) :
  zeroed vt costs -> zeroed vt (<[n := 0%Q]> costs).
Proof.
  intros Hz k Hk. specialize (Hz k Hk).
  rewrite index_nonneg in * by lia.
  destruct (costs !! Z.to_nat k) as [x|] eqn:E; [|discriminate].
  injection Hz as ->.
  destruct (decide (n = Z.to_nat k)) as [->|Hne].
  - rewrite list_lookup_insert_eq; [reflexivity|]. now apply lookup_lt_Some in E.
  - rewrite list_lookup_insert_ne by exact Hne. now rewrite E.
Qed.

Lemma set_zero_keeps (vt : Z) (e : string * string) (g g' : Network.t)
    (i j : string) (k : Z) :
  0 <= k ->
  Network.set_edge_cost g i j k 0%Q = Ok g' ->
  zero_if_there vt e g -> zero_if_there vt e g'.
Proof.
  intros Hk H Hz costs Hc.
  apply set_edge_cost_spec in H as (_ & c0 & Hc0 & _ & He); [|exact Hk].
  rewrite He in Hc. destruct (decide ((i, j) = e)) as [<-|Hne].
  - rewrite lookup_insert_eq in Hc. injection Hc as <-.
    apply zeroed_insert. now apply Hz.
  - rewrite lookup_insert_ne in Hc by exact Hne. now apply Hz.
Qed.

Lemma set_zero_keeps_edge (e : string * string) (g g' : Network.t)
    (i j : string) (k : Z) (c : Q) :
  0 <= k ->
  Network.set_edge_cost g i j k c = Ok g' ->
  (is_Some (Network.edges g' !! e) <-> is_Some (Network.edges g !! e)).
Proof.
  intros Hk H.
  apply set_edge_cost_spec in H as (_ & c0 & Hc0 & _ & He); [|exact Hk].
  rewrite He. destruct (decide ((i, j) = e)) as [<-|Hne].
  - rewrite lookup_insert_eq, Hc0. split; eauto.
  - now rewrite lookup_insert_ne.
Qed.

Lemma zero_at_insert (costs : list Q) (n : nat) (k : Z) :
  0 <= k -> Py.index costs k = Ok 0%Q ->
  Py.index (<[n := 0%Q]> costs) k = Ok 0%Q.
Proof.
  intros Hk Hz. rewrite index_nonneg in * by lia.
  destruct (costs !! Z.to_nat k) as [x|] eqn:E; [|discriminate].
  injection Hz as ->.
  destruct (decide (n = Z.to_nat k)) as [->|Hne].
  - rewrite list_lookup_insert_eq; [reflexivity|]. now apply lookup_lt_Some in E.
  - rewrite list_lookup_insert_ne by exact Hne. now rewrite E.
Qed.

(** The loop over the vehicle types for one edge. *)
Lemma zero_edge_loop (i j : string) (ks : list Z) (g g' : Network.t) :
  (forall k, In k ks -> 0 <= k) ->
  Py.for_each ks (fun k g2 => Network.set_edge_cost g2 i j k 0%Q) g = Ok g' ->
  Network.nodes g' = Network.nodes g /\
  (forall vt e, zero_if_there vt e g -> zero_if_there vt e g') /\
  (forall k costs, 0 <= k ->
     (In k ks \/ forall c, Network.edges g !! (i, j) = Some c ->
                           Py.index c k = Ok 0%Q) ->
     Network.edges g' !! (i, j) = Some costs -> Py.index costs k = Ok 0%Q).
Proof.
  revert g. induction ks as [|k0 ks IH]; intros g Hks H.
  - injection H as <-. split; [reflexivity|]. split; [auto|].
    intros k costs Hk [[]|Hz] Hc. now apply Hz.
  - cbn [Py.for_each] in H. apply bind_Ok in H as (g1 & H1 & H).
    assert (Hk0 : 0 <= k0) by (apply Hks; now left).
    destruct (IH g1 (fun k Hin => Hks k (or_intror Hin)) H)
      as (Hn & Hkeep & Hzero).
    pose proof (set_edge_cost_spec _ _ _ _ _ _ Hk0 H1)
      as (Hn1 & c0 & Hc0 & Hlen & He).
    split; [congruence|].
    split.
    { intros vt e Hz. apply Hkeep. eapply set_zero_keeps; eauto. }
    intros k costs Hk Hwhy Hc.
    apply (Hzero k costs Hk); [|exact Hc].
    destruct Hwhy as [[<-|Hin]|Hz]; [right | now left | right].
    + intros c Hc1. rewrite He, lookup_insert_eq in Hc1. injection Hc1 as <-.
      rewrite index_nonneg by exact Hk0.
      rewrite list_lookup_insert_eq by exact Hlen. reflexivity.
    + intros c Hc1. rewrite He, lookup_insert_eq in Hc1. injection Hc1 as <-.
      apply zero_at_insert; [exact Hk|]. now apply Hz.
Qed.

(** The loop over the edges of a route that is not complete. *)
Lemma zero_route_loop (vt : Z) (es : list (string * string))
    (g g' : Network.t) :
  Py.for_each es
    (fun e g1 =>
       Py.for_each (Py.range vt)
         (fun k g2 => Network.set_edge_cost g2 (fst e) (snd e) k 0%Q) g1) g
  = Ok g' ->
  Network.nodes g' = Network.nodes g /\
  (forall e, zero_if_there vt e g -> zero_if_there vt e g') /\
  (forall e, In e es -> zero_if_there vt e g').
Proof.
  revert g. induction es as [|[i j] es IH]; intros g H.
  - injection H as <-. split; [reflexivity|]. split; [auto|]. intros e [].
  - cbn [Py.for_each] in H. apply bind_Ok in H as (g1 & H1 & H).
    cbn [fst snd] in H1.
    apply zero_edge_loop in H1 as (Hn1 & Hkeep1 & Hzero1);
      [|intros k Hk; apply range_In in Hk; lia].
    destruct (IH g1 H) as (Hn & Hkeep & Hzero).
    split; [congruence|]. split; [auto|].
    intros e [<-|Hin]; [|now apply Hzero].
    apply Hkeep. intros costs Hc k Hk.
    apply (Hzero1 k costs); [lia | left; now apply range_In | exact Hc].
Qed.

Lemma remove_keeps_zero (vt : Z) (e : string * string) (vs : list string)
    (g : Network.t) :
  zero_if_there vt e g ->
  zero_if_there vt e (Network.remove_nodes_from vs g).
Proof.
  intros Hz costs Hc. unfold Network.remove_nodes_from in Hc. cbn in Hc.
  apply map_lookup_filter_Some in Hc as [Hc _]. now apply Hz.
Qed.

Lemma bind_assoc {A B C} (m : result A) (f : A -> result B)
    (k : B -> result C) :
  Py.bind (Py.bind m f) k = Py.bind m (fun x => Py.bind (f x) k).
Proof. destruct m; reflexivity. Qed.

(** One preassigned route. *)
Lemma lock_route (vt : Z) (route : list string) (g : Network.t) :
  (first <- Py.index route 0 ;;
   complete <- (if String.eqb first "Source" then
                  last <- Py.index route (-1) ;;
                  Ok (String.eqb last "Sink")
                else Ok false) ;;
   if complete : bool then
     Ok (Network.remove_nodes_from (inner_nodes route) g)
   else
     Py.for_each (route_edges route)
       (fun e g1 =>
          Py.for_each (Py.range vt)
            (fun k g2 => Network.set_edge_cost g2 (fst e) (snd e) k 0%Q) g1)
       g)
  = match route with
    | [] => Raise IndexError
    | _ =>
        if complete route then
          Ok (Network.remove_nodes_from (inner_nodes route) g)
        else
          Py.for_each (route_edges route)
            (fun e g1 =>
               Py.for_each (Py.range vt)
                 (fun k g2 =>
                    Network.set_edge_cost g2 (fst e) (snd e) k 0%Q) g1)
            g
    end.
Proof.
  rewrite <- (bind_assoc (Py.index route 0)
                (fun first => if String.eqb first "Source" then
                                last <- Py.index route (-1) ;;
                                Ok (String.eqb last "Sink")
                              else Ok false)).
  rewrite complete_test. destruct route; reflexivity.
Qed.

Lemma filter_filter_nodes (vs ws : list string)
    (ns : list (string * gmap string Q)) :
  List.filter (fun n => negb (existsb (String.eqb (fst n)) ws))
    (List.filter (fun n => negb (existsb (String.eqb (fst n)) vs)) ns)
  = List.filter (fun n => negb (existsb (String.eqb (fst n)) (vs ++ ws))) ns.
Proof.
  induction ns as [|n ns IH]; [reflexivity|]. cbn [List.filter].
  rewrite existsb_app, negb_orb.
  destruct (existsb (String.eqb (fst n)) vs); cbn [negb andb List.filter].
  - exact IH.
  - destruct (existsb (String.eqb (fst n)) ws); cbn [negb]; now rewrite IH.
Qed.

(** The loop of [_lock] over the preassigned routes. *)
Lemma lock_loop (vt : Z) (routes : list (list string)) (g g' : Network.t) :
  Py.for_each routes
    (fun route g =>
       first <- Py.index route 0 ;;
       complete <- (if String.eqb first "Source" then
                      last <- Py.index route (-1) ;;
                      Ok (String.eqb last "Sink")
                    else Ok false) ;;
       if complete : bool then
         Ok (Network.remove_nodes_from (inner_nodes route) g)
       else
         Py.for_each (route_edges route)
           (fun e g1 =>
              Py.for_each (Py.range vt)
                (fun k g2 =>
                   Network.set_edge_cost g2 (fst e) (snd e) k 0%Q) g1)
           g) g
  = Ok g' ->
  Network.nodes g'
  = List.filter
      (fun n => negb (existsb (String.eqb (fst n)) (locked_nodes routes)))
      (Network.nodes g) /\
  (forall e, zero_if_there vt e g -> zero_if_there vt e g') /\
  (forall route e, In route routes -> complete route = false ->
                   In e (route_edges route) -> zero_if_there vt e g').
Proof.
  revert g. induction routes as [|route routes IH]; intros g H.
  - injection H as <-. split.
    + cbn. induction (Network.nodes g) as [|n ns IHn]; [reflexivity|].
      cbn. now rewrite <- IHn.
    + split; [auto|]. intros ? ? [].
  - cbn [Py.for_each] in H. rewrite lock_route in H.
    apply bind_Ok in H as (g1 & H1 & H).
    destruct (IH g1 H) as (Hn & Hkeep & Hzero).
    destruct route as [|x route]; [discriminate|].
    unfold locked_nodes. cbn [List.filter].
    destruct (complete (x :: route)) eqn:Hc.
    + injection H1 as <-. cbn [flat_map].
      split.
      { rewrite Hn. cbn [Network.remove_nodes_from Network.nodes].
        apply filter_filter_nodes. }
      split.
      { intros e Hz. apply Hkeep. now apply remove_keeps_zero. }
      intros r e [<-|Hin] Hr He; [congruence|]. eapply Hzero; eauto.
    + apply zero_route_loop in H1 as (Hn1 & Hkeep1 & Hzero1).
      split; [now rewrite Hn, Hn1|].
      split; [auto|].
      intros r e [<-|Hin] Hr He; [|eapply Hzero; eauto].
      apply Hkeep. now apply Hzero1.
Qed.

(** After [_lock], the network has lost exactly the inner nodes of the
    complete preassigned routes (those from Source to Sink); every other
    node is there with its attributes, in the same order; and columns
    are still to be generated unless exactly two nodes are left. *)
Theorem lock_removes_inner_nodes {HH : Type} (st st' : @VRP HH) :
  _lock st = Ok st' ->
  Network.nodes (G st')
  = List.filter
      (fun n => negb (existsb (String.eqb (fst n))
                              (locked_nodes (_preassignments st))))
      (Network.nodes (G st)) /\
  _more_routes st'
  = (if Nat.eqb (length (Network.nodes (G st'))) 2 then false
     else _more_routes st).
Proof.
  unfold _lock. intros H. apply bind_Ok in H as (g & Hg & H).
  apply lock_loop in Hg as (Hn & _).
  cbn [G set_G] in H.
  destruct (Nat.eqb (length (Network.nodes g)) 2) eqn:E;
    injection H as <-; cbn; rewrite E; auto.
Qed.

(** After [_lock], every edge of a preassigned route that is not complete
    costs 0 for every vehicle type, if it is still in the network (a
    later complete route may have taken one of its end points out). *)
Theorem lock_zeroes_open_routes {HH : Type} (st st' : @VRP HH)
    (route : list string) (e : string * string) (costs : list Q) :
  _lock st = Ok st' ->
  In route (_preassignments st) ->
  complete route = false ->
  In e (route_edges route) ->
  Network.edges (G st') !! e = Some costs ->
  zeroed (_vehicle_types st) costs.
Proof.
  unfold _lock. intros H Hin Hc He Hcosts.
  apply bind_Ok in H as (g & Hg & H).
  apply lock_loop in Hg as (_ & _ & Hzero).
  assert (Hg' : G st' = g).
  { cbn [G set_G] in H. destruct (Nat.eqb _ 2); injection H as <-;
      reflexivity. }
  rewrite Hg' in Hcosts.
  exact (Hzero route e Hin Hc He costs Hcosts).
Qed.

Lemma lock_removes_inner_nodes_witness :
  match _lock Instance.all_preassigned with
  | Ok st' =>
      map fst (Network.nodes (G st')) = ["Source"; "Sink"]
      /\ _more_routes st' = false
  | Raise _ => False
  end.
Proof.
  destruct (_lock Instance.all_preassigned) as [st'|e] eqn:E;
    [|vm_compute in E; discriminate].
  destruct (lock_removes_inner_nodes _ _ E) as [Hn Hm].
  rewrite Hm, Hn. split; reflexivity.
Defined.

Lemma lock_zeroes_open_routes_witness :
  match _lock Instance.open_preassigned with
  | Ok st' =>
      forall costs, Network.edges (G st') !! ("Source", "a") = Some costs ->
                    zeroed 1 costs
  | Raise _ => False
  end.
Proof.
  destruct (_lock Instance.open_preassigned) as [st'|e] eqn:E;
    [|vm_compute in E; discriminate].
  intros costs Hc.
  apply (lock_zeroes_open_routes _ _ ["Source"; "a"] ("Source", "a") costs E);
    [now left | reflexivity | now left | exact Hc].
Defined.

Lemma lock_loop_nonempty (vt : Z) (routes : list (list string))
    (g g' : Network.t) :
  Py.for_each routes
    (fun route g =>
       first <- Py.index route 0 ;;
       complete <- (if String.eqb first "Source" then
                      last <- Py.index route (-1) ;;
                      Ok (String.eqb last "Sink")
                    else Ok false) ;;
       if complete : bool then
         Ok (Network.remove_nodes_from (inner_nodes route) g)
       else
         Py.for_each (route_edges route)
           (fun e g1 =>
              Py.for_each (Py.range vt)
                (fun k g2 =>
                   Network.set_edge_cost g2 (fst e) (snd e) k 0%Q) g1)
           g) g
  = Ok g' ->
  ~ In [] routes.
Proof.
  revert g. induction routes as [|route routes IH]; intros g H; [intros []|].
  cbn [Py.for_each] in H. rewrite lock_route in H.
  apply bind_Ok in H as (g1 & H1 & H).
  intros [->|Hin]; [discriminate|]. exact (IH g1 H Hin).
Qed.

(** The exceptions of [_lock]: an empty preassigned route makes it fail
    ([route[0]] is an [IndexError]), and whatever makes it fail, the
    exception is an [IndexError] or the [KeyError] of an edge that is not
    in the network. *)
Theorem lock_exceptions {HH : Type} (st : @VRP HH) :
  (In [] (_preassignments st) -> exists e, _lock st = Raise e) /\
  (forall e, _lock st = Raise e -> e = IndexError \/ e = KeyError).
Proof.
  split.
  - intros Hin. destruct (_lock st) as [st'|e] eqn:E; [|eauto].
    exfalso. unfold _lock in E. apply bind_Ok in E as (g & Hg & _).
    exact (lock_loop_nonempty _ _ _ _ Hg Hin).
  - intros e H. unfold _lock in H.
    apply bind_Raise in H as [H | (g & _ & H)].
    2:{ cbn in H. destruct (Nat.eqb _ 2) in H; discriminate. }
    apply for_each_Raise in H as (route & g & _ & H).
    cbv beta in H. rewrite lock_route in H.
    destruct route as [|x route]; [left; congruence|].
    destruct (complete (x :: route)); [discriminate|].
    apply for_each_Raise in H as (edge & g1 & _ & H).
    apply for_each_Raise in H as (k & g2 & _ & H).
    apply set_edge_cost_raises in H. tauto.
Qed.


(** ** The bound on the number of stops *)

Lemma int_nonneg (x : Q) : (0 <= x)%Q -> 0 <= Py.int x.
Proof.
  intros H. unfold Py.int. apply Z.quot_pos; [|lia].
  unfold Qle in H. cbn in H. lia.
Qed.

Lemma node_ints_ok (attribute : string) (g : Network.t) :
  attribute_nonneg attribute g ->
  node_ints attribute g = Ok (ints_of attribute g)
  /\ Forall (fun w => 0 <= w) (ints_of attribute g).
Proof.
  unfold node_ints, ints_of, attribute_nonneg.
  assert (Hgen : forall (ns : list (string * gmap string Q)) acc,
             (forall n, In n ns ->
                        exists x, snd n !! attribute = Some x /\ (0 <= x)%Q) ->
             Py.for_each ns
               (fun n (acc : list Z) =>
                  x <- Py.of_option KeyError (snd n !! attribute) ;;
                  Ok (acc ++ [Py.int x])) acc
             = Ok (acc ++ map (fun n => match snd n !! attribute with
                                        | Some x => Py.int x
                                        | None => 0
                                        end) ns)
             /\ Forall (fun w => 0 <= w)
                       (map (fun n => match snd n !! attribute with
                                      | Some x => Py.int x
                                      | None => 0
                                      end) ns)).
  { induction ns as [|n ns IH]; intros acc Hall.
    - cbn. rewrite app_nil_r. split; [reflexivity | constructor].
    - destruct (Hall n (or_introl eq_refl)) as (x & Hx & Hpos).
      destruct (IH (acc ++ [Py.int x]) (fun n' Hn => Hall n' (or_intror Hn)))
        as [E Hf].
      cbn [Py.for_each map]. rewrite Hx. cbn [Py.of_option Py.bind].
      rewrite E, <- app_assoc. split; [reflexivity|].
      constructor; [now apply int_nonneg | exact Hf]. }
  intros Hall. exact (Hgen (Network.nodes g) [] Hall).
Qed.

(** [_get_num_stops_upper_bound] on a network with two nodes or more (it
    has Source and Sink), demands that are not negative and a capacity
    that is not negative: the new [num_stops] is the largest number of
    nodes whose demands, rounded toward zero, fit the capacity together
    (with [distribution_collection], the smaller of that number and the
    same number for the collected amounts), capped by the old [num_stops]
    when that is set and not 0. *)
Theorem num_stops_upper_bound (g : Network.t) (distribution_collection : bool)
    (num_stops : option Z) (max_capacity : Z) :
  (2 <= length (Network.nodes g))%nat ->
  attribute_nonneg "demand" g ->
  (distribution_collection = true -> attribute_nonneg "collect" g) ->
  0 <= max_capacity ->
  exists by_demand by_collect,
    is_max_number_of_items (ints_of "demand" g) max_capacity by_demand /\
    (distribution_collection = true ->
     is_max_number_of_items (ints_of "collect" g) max_capacity by_collect) /\
    _get_num_stops_upper_bound g distribution_collection num_stops
                               max_capacity
    = Ok (capped num_stops
            (if distribution_collection then Z.min by_demand by_collect
             else by_demand)).
Proof.
  intros Htwo Hd Hc Hcap.
  destruct (node_ints_ok "demand" g Hd) as [Ed Hdpos].
  assert (Hlen : forall a, length (ints_of a g) = length (Network.nodes g))
    by (intros a; unfold ints_of; apply length_map).
  destruct (knapsack_correct_from_two_items (ints_of "demand" g) max_capacity)
    as (n1 & Ek1 & Hmax1); [rewrite Hlen; exact Htwo | exact Hdpos | exact Hcap|].
  unfold _get_num_stops_upper_bound. rewrite Ed. cbn [Py.bind]. rewrite Ek1.
  cbn [Py.bind].
  destruct distribution_collection.
  - destruct (node_ints_ok "collect" g (Hc eq_refl)) as [Ec Hcpos].
    destruct (knapsack_correct_from_two_items (ints_of "collect" g)
                max_capacity)
      as (n2 & Ek2 & Hmax2);
      [rewrite Hlen; exact Htwo | exact Hcpos | exact Hcap|].
    exists n1, n2. split; [exact Hmax1|]. split; [intros _; exact Hmax2|].
    rewrite Ec. cbn [Py.bind]. rewrite Ek2. cbn [Py.bind].
    unfold capped. destruct num_stops as [s|]; [|reflexivity].
    destruct (s =? 0); reflexivity.
  - exists n1, 0. split; [exact Hmax1|]. split; [discriminate|].
    cbn [Py.bind]. unfold capped. destruct num_stops as [s|]; [|reflexivity].
    destruct (s =? 0); reflexivity.
Qed.

Lemma num_stops_upper_bound_witness :
  exists by_demand,
    is_max_number_of_items [0; 1; 0] 1 by_demand /\
    _get_num_stops_upper_bound Instance.line_network false (Some 2) 1
    = Ok (Z.min by_demand 2).
Proof.
  destruct (num_stops_upper_bound Instance.line_network false (Some 2) 1)
    as (n1 & n2 & H1 & _ & H).
  - cbn. lia.
  - intros n Hn. cbn in Hn.
    destruct Hn as [<-|[<-|[<-|[]]]]; eexists; (split; [reflexivity|]);
      unfold Qle; cbn; lia.
  - discriminate.
  - lia.
  - exists n1. split; [exact H1 | exact H].
Defined.


(** ** Reading the solution *)

Section Assign.

Context {K V : Type} (eqb : K -> K -> bool).
Hypothesis eqb_spec : forall a b, eqb a b = true <-> a = b.

Lemma assign_In_same (k : K) (v : V) (d : list (K * V)) :
  In (k, v) (MasterSolvePulp.assign eqb k v d).
Proof.
  induction d as [|[k' v'] d IH]; cbn; [now left|].
  destruct (eqb k k'); [now left | now right].
Qed.

Lemma assign_In_inv (k k' : K) (v v' : V) (d : list (K * V)) :
  In (k', v') (MasterSolvePulp.assign eqb k v d) ->
  (k' = k /\ v' = v) \/ In (k', v') d.
Proof.
  induction d as [|[k0 v0] d IH]; cbn.
  - intros [H|[]]. left. split; congruence.
  - destruct (eqb k k0).
    + intros [H|H]; [left; split; congruence | right; now right].
    + intros [H|H]; [right; now left|].
      destruct (IH H) as [?|?]; [now left | right; now right].
Qed.

Lemma assign_In_other (k k' : K) (v v' : V) (d : list (K * V)) :
  k' <> k -> In (k', v') d -> In (k', v') (MasterSolvePulp.assign eqb k v d).
Proof.
  intros Hne. induction d as [|[k0 v0] d IH]; cbn; [intros []|].
  destruct (eqb k k0) eqn:E.
  - apply eqb_spec in E. subst k0.
    intros [H|H]; [congruence | now right].
  - intros [H|H]; [now left | right; auto].
Qed.

Lemma assign_keys (k : K) (v : V) (d : list (K * V)) :
  forall k0, In k0 (map fst (MasterSolvePulp.assign eqb k v d))
             <-> k0 = k \/ In k0 (map fst d).
Proof.
  induction d as [|[k1 v1] d IH]; intros k0; cbn.
  - split; [intros [?|[]]; auto | intros [?|[]]; auto].
  - destruct (eqb k k1) eqn:E; cbn [map fst In].
    + apply eqb_spec in E. subst k1. intuition congruence.
    + rewrite IH. intuition congruence.
Qed.

End Assign.

Lemma Zeqb_spec (a b : Z) : Z.eqb a b = true <-> a = b.
Proof. apply Z.eqb_eq. Qed.

Lemma Seqb_spec (a b : string) : String.eqb a b = true <-> a = b.
Proof. apply String.eqb_eq. Qed.

(** *** Costs *)

Lemma digraph_cost_loop (g : Network.t) (es : list (string * string))
    (d d' : Route.t) (c c' : Q) :
  Py.for_each es
    (fun e (acc : Route.t * Q) =>
       edge_cost <- Network.edge_cost g (fst e) (snd e) 0 ;;
       Ok (Route.add_edge (fst e) (snd e) edge_cost (fst acc),
           (snd acc + edge_cost)%Q))
    (d, c) = Ok (d', c') ->
  Py.for_each es
    (fun e (acc : Q) =>
       x <- Network.edge_cost g (fst e) (snd e) 0 ;;
       Ok (acc + x)%Q) c = Ok c'.
Proof.
  revert d c. induction es as [|e es IH]; intros d c H.
  - now injection H as <- <-.
  - cbn [Py.for_each] in *. apply bind_Ok in H as ([d1 c1] & H1 & H).
    apply bind_Ok in H1 as (x & Hx & H1). injection H1 as <- <-.
    rewrite Hx. cbn [Py.bind fst snd]. eapply IH. exact H.
Qed.

(** The cost [best_routes_cost] computes for a route from its node list
    is the cost [_convert_initial_routes_to_digraphs] stored on the
    route's digraph, on the same network: for an initial route that was
    converted, the dictionary has the stored cost under the route's
    id. *)
Theorem best_routes_cost_is_stored_cost (g : Network.t) (route_id : Z)
    (r : list string) (d : Route.t) :
  initial_route_to_digraph g route_id r = Ok d ->
  best_routes_cost g [(route_id, r)] {[route_id := Route.vehicle_type d]}
  = Ok [(route_id, Route.cost d)].
Proof.
  unfold initial_route_to_digraph. intros H.
  apply bind_Ok in H as ([d1 c1] & H1 & H). injection H as <-.
  apply digraph_cost_loop in H1.
  unfold best_routes_cost. cbn [Py.for_each fst snd Route.vehicle_type
                                Route.set_vehicle_type Route.cost
                                Route.set_cost].
  rewrite lookup_singleton_eq. cbn [Py.of_option Py.bind].
  unfold route_cost. rewrite H1. reflexivity.
Qed.

Lemma best_routes_cost_is_stored_cost_witness :
  best_routes_cost Instance.line_network [(1, ["Source"; "a"; "Sink"])]
                   {[1 := 0]}
  = Ok [(1, (0 + 1 + 1)%Q)].
Proof.
  destruct (initial_route_to_digraph Instance.line_network 1
              ["Source"; "a"; "Sink"]) as [d|e] eqn:E;
    [|vm_compute in E; discriminate].
  pose proof (best_routes_cost_is_stored_cost _ _ _ _ E) as H.
  assert (Hd : match initial_route_to_digraph Instance.line_network 1
                       ["Source"; "a"; "Sink"] with
               | Ok d => (Route.vehicle_type d, Route.cost d)
               | Raise _ => (1, 0%Q)
               end = (0, (0 + 1 + 1)%Q)) by reflexivity.
  rewrite E in Hd. injection Hd as Hv Hc. now rewrite Hv, Hc in H.
Defined.

(** *** Loads *)

(** The loop of [node_load] over the nodes of one route, without
    collection: the amount is the sum of the demands so far, and the node
    just passed carries it. *)
Lemma node_load_loop (H : Network.t) (route : list string)
    (amount amount' : Q) (load load' : list (string * Q)) :
  Py.for_each route
    (fun v (acc : Q * list (string * Q)) =>
       demand <- node_attribute H v "demand" ;;
       let amount := (fst acc + demand)%Q in
       amount <- (if false then
                    collect <- node_attribute H v "collect" ;;
                    Ok (amount - collect)%Q
                  else Ok amount) ;;
       Ok (amount, MasterSolvePulp.assign String.eqb v amount (snd acc)))
    (amount, load) = Ok (amount', load') ->
  Py.for_each route
    (fun v (acc : Q) =>
       x <- node_attribute H v "demand" ;;
       Ok (acc + x)%Q) amount = Ok amount' /\
  (forall final, last route = Some final -> In (final, amount') load').
Proof.
  revert amount load. induction route as [|v route IH]; intros amount load E.
  - injection E as <- <-. split; [reflexivity | discriminate].
  - cbn [Py.for_each] in *. apply bind_Ok in E as ([a1 l1] & E1 & E).
    apply bind_Ok in E1 as (demand & Hd & E1). cbn in E1.
    injection E1 as <- <-. rewrite Hd. cbn [Py.bind].
    destruct (IH _ _ E) as [Hsum Hlast]. split; [exact Hsum|].
    intros final Hf. destruct route as [|w route].
    + cbn in Hf. injection Hf as <-. injection E as <- <-.
      apply assign_In_same.
    + apply Hlast. now rewrite last_cons_cons in Hf.
Qed.

Lemma delitem_In {V} (k k' : string) (v : V) (d d' : list (string * V)) :
  delitem k d = Ok d' -> k' <> k -> In (k', v) d -> In (k', v) d'.
Proof.
  unfold delitem. intros H Hne Hin.
  destruct (existsb _ d); [|discriminate]. injection H as <-.
  apply filter_In. split; [exact Hin|]. cbn.
  apply negb_true_iff, String.eqb_neq. exact Hne.
Qed.

(** The loop of [node_load] and [best_routes_load] over the routes. *)
Lemma load_dictionaries (H : Network.t) (best_routes : list (Z * list string))
    (N0 N : list (Z * list (string * Q))) (L0 : list (Z * Q)) :
  Py.for_each best_routes
    (fun entry (load : list (Z * list (string * Q))) =>
       l <- node_load_of_route H false (snd entry) ;;
       Ok (MasterSolvePulp.assign Z.eqb (fst entry) l load)) N0 = Ok N ->
  exists L,
    Py.for_each best_routes
      (fun entry (load : list (Z * Q)) =>
         x <- route_sum H "demand" (snd entry) ;;
         Ok (MasterSolvePulp.assign Z.eqb (fst entry) x load)) L0 = Ok L /\
    (forall i, In i (map fst L) <-> In i (map fst L0) \/ In i (map fst best_routes)) /\
    (forall i x, In (i, x) L0 -> ~ In i (map fst best_routes) -> In (i, x) L) /\
    (forall i l, In (i, l) N0 -> ~ In i (map fst best_routes) -> In (i, l) N) /\
    (List.NoDup (map fst best_routes) ->
     forall i route final,
       In (i, route) best_routes -> last route = Some final ->
       final <> "Source" ->
       exists x l, In (i, x) L /\ In (i, l) N /\ In (final, x) l).
Proof.
  revert N0 L0. induction best_routes as [|[i0 r0] rest IH]; intros N0 L0 E.
  - injection E as <-. exists L0. split; [reflexivity|].
    split; [intros i; cbn; tauto|]. split; [auto|]. split; [auto|].
    intros _ i route final [].
  - cbn [Py.for_each fst snd] in *.
    apply bind_Ok in E as (N1 & E1 & E).
    apply bind_Ok in E1 as (l0 & Hl0 & E1). injection E1 as <-.
    unfold node_load_of_route in Hl0.
    apply bind_Ok in Hl0 as ([a0 d0] & Hloop & Hdel).
    apply node_load_loop in Hloop as [Hsum Hlast].
    unfold route_sum at 1. rewrite Hsum. cbn [Py.bind].
    destruct (IH _ (MasterSolvePulp.assign Z.eqb i0 a0 L0) E)
      as (L & EL & Hkeys & HkeepL & HkeepN & Hmain).
    exists L. split; [exact EL|].
    split.
    { intros i. rewrite Hkeys, (assign_keys Z.eqb Zeqb_spec). cbn.
      intuition congruence. }
    split.
    { intros i x Hin Hnot. apply HkeepL.
      - apply (assign_In_other Z.eqb Zeqb_spec); [|exact Hin].
        intros ->. apply Hnot. now left.
      - intros Hin'. apply Hnot. now right. }
    split.
    { intros i l Hin Hnot. apply HkeepN.
      - apply (assign_In_other Z.eqb Zeqb_spec); [|exact Hin].
        intros ->. apply Hnot. now left.
      - intros Hin'. apply Hnot. now right. }
    intros Hnd i route final Hin Hf Hne.
    inversion Hnd as [|? ? Hnotin Hnd']; subst.
    destruct Hin as [Heq|Hin].
    + injection Heq as <- <-. exists a0, l0.
      split; [apply HkeepL; [apply assign_In_same | exact Hnotin]|].
      split; [apply HkeepN; [apply assign_In_same | exact Hnotin]|].
      eapply delitem_In; [exact Hdel | exact Hne | now apply Hlast].
    + exact (Hmain Hnd' i route final Hin Hf Hne).
Qed.

(** [node_load] and [best_routes_load] agree: with load capacities and
    neither pickup and delivery nor distribution and collection, the load
    [node_load] reports at the last node of a route is the load
    [best_routes_load] reports for the route. *)
Theorem node_load_ends_at_route_load (H : Network.t)
    (best_routes : list (Z * list string)) (load_capacity : list Z)
    (N : list (Z * list (string * Q))) :
  load_capacity <> [] ->
  List.NoDup (map fst best_routes) ->
  node_load H best_routes load_capacity false false = Ok N ->
  exists L,
    best_routes_load H best_routes load_capacity false false = Ok L /\
    forall i route final,
      In (i, route) best_routes -> last route = Some final ->
      final <> "Source" ->
      exists x l, In (i, x) L /\ In (i, l) N /\ In (final, x) l.
Proof.
  intros Hlc Hnd E. unfold node_load, best_routes_load in *.
  destruct load_capacity as [|c cs]; [contradiction|].
  cbn [length Nat.eqb andb orb negb] in *.
  destruct (load_dictionaries H best_routes [] N [] E)
    as (L & EL & _ & _ & _ & Hmain).
  exists L. split; [exact EL|]. exact (Hmain Hnd).
Qed.

Lemma node_load_ends_at_route_load_witness :
  match node_load Instance.line_network [(1, ["Source"; "a"; "Sink"])] [10]
                  false false with
  | Ok N =>
      exists L,
        best_routes_load Instance.line_network
          [(1, ["Source"; "a"; "Sink"])] [10] false false = Ok L /\
        exists x l, In (1, x) L /\ In (1, l) N /\ In ("Sink", x) l
  | Raise _ => False
  end.
Proof.
  destruct (node_load Instance.line_network [(1, ["Source"; "a"; "Sink"])]
              [10] false false) as [N|e] eqn:E;
    [|vm_compute in E; discriminate].
  assert (Hlc : [10] <> @nil Z) by discriminate.
  assert (Hnd : List.NoDup (map fst [(1, ["Source"; "a"; "Sink"])]))
    by (repeat constructor; intros []).
  destruct (node_load_ends_at_route_load _ _ _ _ Hlc Hnd E)
    as (L & EL & Hmain).
  exists L. split; [exact EL|].
  apply (Hmain 1 ["Source"; "a"; "Sink"] "Sink");
    [now left | reflexivity | discriminate].
Defined.

(** *** Times *)

Lemma max_second (a b : Q) : (b <= Py.max a b)%Q.
Proof.
  unfold Py.max. destruct (Py.Qgtb b a) eqn:E.
  - apply Qle_refl.
  - now apply Qgtb_false in E.
Qed.

Lemma arrivals_after_lower (H : Timed.t) (es : list (string * string))
    (a a' : list (string * Q)) :
  Py.for_each es
    (fun e (arrival : list (string * Q)) =>
       at_tail <- getitem (fst e) arrival ;;
       at_head <- reach H (fst e) (snd e) at_tail ;;
       Ok (MasterSolvePulp.assign String.eqb (snd e) at_head arrival)) a
  = Ok a' ->
  Forall (after_lower H) a -> Forall (after_lower H) a'.
Proof.
  intros E Ha.
  eapply (for_each_invariant (fun d => Forall (after_lower H) d));
    [ | exact Ha | exact E].
  intros e d d' _ Hd Hb. cbv beta in Hb.
  apply bind_Ok in Hb as (at_tail & _ & Hb).
  apply bind_Ok in Hb as (at_head & Hr & Hb). injection Hb as <-.
  unfold reach in Hr. apply bind_Ok in Hr as (service & _ & Hr).
  apply bind_Ok in Hr as (travel & _ & Hr).
  apply bind_Ok in Hr as (lower & Hl & Hr). injection Hr as <-.
  apply List.Forall_forall. intros [v t] Hin.
  apply (assign_In_inv String.eqb) in Hin as [[-> ->]|Hin].
  - exists lower. split; [exact Hl | apply max_second].
  - rewrite List.Forall_forall in Hd. now apply Hd.
Qed.

(** Every arrival time [arrival_time] reports is within the node's time
    window from below: it is at least the node's ["lower"]. *)
Theorem arrival_respects_lower_windows (H : Timed.t)
    (best_routes : list (Z * list string)) (duration : option Q)
    (time_windows : bool) (A : list (Z * list (string * Q)))
    (i : Z) (a : list (string * Q)) (v : string) (t : Q) :
  arrival_time H best_routes duration time_windows = Ok A ->
  In (i, a) A -> In (v, t) a ->
  exists lower,
    node_attribute (Timed.network H) v "lower" = Ok lower /\ (lower <= t)%Q.
Proof.
  unfold arrival_time. intros E Hia Hvt.
  destruct (_ && _); [injection E as <-; destruct Hia|].
  assert (Hall : Forall (fun entry => Forall (after_lower H) (snd entry)) A).
  { eapply (for_each_invariant
              (fun d => Forall (fun entry => Forall (after_lower H)
                                                    (snd entry)) d));
      [ | | exact E]; [|constructor].
    intros [i0 r0] d d' _ Hd Hb. cbv beta in Hb. cbn [fst snd] in Hb.
    apply bind_Ok in Hb as (a0 & Ha0 & Hb).
    apply bind_Ok in Hb as (a1 & Hdel & Hb). injection Hb as <-.
    unfold arrivals_of_route in Ha0.
    apply bind_Ok in Ha0 as (start & Hs & Ha0).
    apply arrivals_after_lower in Ha0.
    2:{ constructor; [|constructor]. exists start. split; [exact Hs|].
        apply Qle_refl. }
    apply List.Forall_forall. intros [j aj] Hin.
    apply (assign_In_inv Z.eqb) in Hin as [[-> ->]|Hin].
    - cbn [snd]. unfold delitem in Hdel.
      destruct (existsb _ a0); [|discriminate]. injection Hdel as <-.
      apply List.Forall_forall. intros x Hx. apply filter_In in Hx as [Hx _].
      rewrite List.Forall_forall in Ha0. now apply Ha0.
    - rewrite List.Forall_forall in Hd. now apply (Hd (j, aj)). }
  rewrite List.Forall_forall in Hall. specialize (Hall (i, a) Hia).
  cbn [snd] in Hall. rewrite List.Forall_forall in Hall.
  exact (Hall (v, t) Hvt).
Qed.

Lemma arrival_respects_lower_windows_witness :
  match arrival_time Instance.timed_line [(1, ["Source"; "a"; "Sink"])]
                     None true with
  | Ok A =>
      A = [(1, [("a", Py.max (0 + 0 + 3) 5); ("Sink", Py.max (Py.max (0 + 0 + 3) 5 + 2 + 3) 0)])]
      /\ forall i a v t,
           In (i, a) A -> In (v, t) a ->
           exists lower,
             node_attribute (Timed.network Instance.timed_line) v "lower"
             = Ok lower /\ (lower <= t)%Q
  | Raise _ => False
  end.
Proof.
  destruct (arrival_time Instance.timed_line
              [(1, ["Source"; "a"; "Sink"])] None true) as [A|e] eqn:E;
    [|vm_compute in E; discriminate].
  split.
  - assert (H : arrival_time Instance.timed_line
                  [(1, ["Source"; "a"; "Sink"])] None true
                = Ok [(1, [("a", Py.max (0 + 0 + 3) 5);
                           ("Sink", Py.max (Py.max (0 + 0 + 3) 5 + 2 + 3) 0)])])
      by reflexivity.
    congruence.
  - intros i a v t. exact (arrival_respects_lower_windows _ _ _ _ _ i a v t E).
Defined.


(** *** Preassigned routes in the solution *)

Lemma Qltb_true (a b : Q) : Py.Qltb a b = true <-> (a < b)%Q.
Proof. unfold Py.Qltb. apply (Qgtb_true b a). Qed.

Lemma Qltb_false (a b : Q) : Py.Qltb a b = false <-> (b <= a)%Q.
Proof. unfold Py.Qltb. apply (Qgtb_false b a). Qed.

(** The loop of [choose_vehicle_type]: the best cost so far is below
    [1e10] exactly when a type is chosen, the chosen type fits and has
    that cost, and no type seen so far that fits is cheaper. *)
Lemma choose_loop (H : Network.t) (lc : list Z) (route : list string)
    (load : Q) (ks : list Z) (acc acc' : Q * option Z) (seen : list Z) :
  (forall k, In k ks -> 0 <= k) ->
  Py.for_each ks
    (fun k (acc : Q * option Z) =>
       cost <- route_cost H k route ;;
       load <- route_sum H "demand" route ;;
       if Py.Qltb cost (fst acc) then
         if negb (Nat.eqb (length lc) 0) then
           capacity <- Py.index lc k ;;
           if Qle_bool load (inject_Z capacity) then Ok (cost, Some k)
           else Ok acc
         else Ok (cost, Some k)
       else Ok acc) acc = Ok acc' ->
  route_sum H "demand" route = Ok load ->
  let good (seen : list Z) (acc : Q * option Z) :=
    (fst acc <= MasterSolvePulp.big_cost)%Q /\
    match snd acc with
    | Some k => In k seen /\ fits lc load k
                /\ route_cost H k route = Ok (fst acc)
                /\ (fst acc < MasterSolvePulp.big_cost)%Q
    | None => fst acc = MasterSolvePulp.big_cost
    end /\
    (forall k' c', In k' seen -> fits lc load k' ->
                   route_cost H k' route = Ok c' -> (fst acc <= c')%Q) in
  good seen acc -> good (seen ++ ks) acc'.
Proof.
  intros Hks E Hload good. revert acc seen E Hks.
  induction ks as [|k ks IH]; intros acc seen E Hks Hg.
  - injection E as <-. now rewrite app_nil_r.
  - cbn [Py.for_each] in E. apply bind_Ok in E as (acc1 & E1 & E).
    replace (seen ++ k :: ks) with ((seen ++ [k]) ++ ks)
      by now rewrite <- app_assoc.
    assert (Hk : 0 <= k) by (apply Hks; now left).
    apply (IH acc1 (seen ++ [k]) E (fun k' Hin => Hks k' (or_intror Hin))).
    clear IH E. destruct Hg as (Hle & Hch & Hmin).
    apply bind_Ok in E1 as (cost & Hcost & E1).
    apply bind_Ok in E1 as (load' & Hload' & E1).
    rewrite Hload in Hload'. injection Hload' as <-.
    assert (Hkeep : (fits lc load k -> (fst acc <= cost)%Q) ->
                    good (seen ++ [k]) acc).
    { intros Hfit. split; [exact Hle|]. split.
      - destruct (snd acc) as [k0|]; [|exact Hch].
        destruct Hch as (Hin & Hrest). split; [|exact Hrest].
        apply in_or_app. now left.
      - intros k' c' Hin Hf Hc. apply in_app_or in Hin as [Hin|[<-|[]]].
        + exact (Hmin k' c' Hin Hf Hc).
        + rewrite Hcost in Hc. injection Hc as <-. now apply Hfit. }
    assert (Htake : (cost < fst acc)%Q -> fits lc load k ->
                    good (seen ++ [k]) (cost, Some k)).
    { intros Hlt Hfit. unfold good. cbn [fst snd]. split; [lra|]. split.
      - split; [apply in_or_app; right; now left|].
        split; [exact Hfit|]. split; [exact Hcost | lra].
      - intros k' c' Hin Hf Hc. apply in_app_or in Hin as [Hin|[<-|[]]].
        + specialize (Hmin k' c' Hin Hf Hc). lra.
        + rewrite Hcost in Hc. injection Hc as <-. apply Qle_refl. }
    destruct (Py.Qltb cost (fst acc)) eqn:Hlt.
    2:{ injection E1 as <-. apply Hkeep. intros _.
        now apply Qltb_false in Hlt. }
    apply Qltb_true in Hlt.
    destruct (Nat.eqb (length lc) 0) eqn:Hlen; cbn [negb] in E1.
    { injection E1 as <-. apply Htake; [exact Hlt|]. left.
      apply Nat.eqb_eq in Hlen. now destruct lc. }
    apply bind_Ok in E1 as (capacity & Hcap & E1).
    rewrite index_nonneg in Hcap by exact Hk.
    destruct (lc !! Z.to_nat k) as [cap|] eqn:Hlk; [|discriminate].
    injection Hcap as ->.
    destruct (Qle_bool load (inject_Z capacity)) eqn:Hfit.
    + injection E1 as <-. apply Htake; [exact Hlt|]. right.
      exists capacity. split; [exact Hlk|]. now apply Qle_bool_iff.
    + injection E1 as <-. apply Hkeep. intros [Hnil | (cap & Hc & Hle')].
      * rewrite Hnil in Hlen. discriminate.
      * rewrite Hlk in Hc. injection Hc as <-.
        apply Qle_bool_iff in Hle'. congruence.
Qed.

(** [choose_vehicle_type] accounts for the cheapest feasible vehicle: the
    type recorded for a complete preassigned route can carry the route's
    load, costs less than [1e10] on the route, and no type that can carry
    the load is cheaper; no type is recorded only if every type that can
    carry the load costs [1e10] or more. *)
Theorem cheapest_feasible_vehicle (H : Network.t) (vehicle_types : Z)
    (load_capacity : list Z) (route : list string) (chosen : option Z)
    (load : Q) :
  choose_vehicle_type H vehicle_types load_capacity route = Ok chosen ->
  route_sum H "demand" route = Ok load ->
  match chosen with
  | Some k =>
      0 <= k < vehicle_types /\ fits load_capacity load k /\
      exists c, route_cost H k route = Ok c /\
                (c < MasterSolvePulp.big_cost)%Q /\
                forall k' c', 0 <= k' < vehicle_types ->
                              fits load_capacity load k' ->
                              route_cost H k' route = Ok c' -> (c <= c')%Q
  | None =>
      forall k' c', 0 <= k' < vehicle_types ->
                    fits load_capacity load k' ->
                    route_cost H k' route = Ok c' ->
                    (MasterSolvePulp.big_cost <= c')%Q
  end.
Proof.
  unfold choose_vehicle_type. intros E Hload.
  apply bind_Ok in E as (out & E & Hout). injection Hout as <-.
  pose proof (choose_loop H load_capacity route load (Py.range vehicle_types)
                (MasterSolvePulp.big_cost, None) out []
                (fun k Hk => proj1 (proj1 (range_In k vehicle_types) Hk))
                E Hload) as Hgood.
  cbn [app fst snd] in Hgood.
  destruct Hgood as (Hle & Hch & Hmin).
  { split; [apply Qle_refl|]. split; [reflexivity|]. intros ? ? []. }
  destruct (snd out) as [k|].
  - destruct Hch as (Hin & Hfit & Hcost & Hlt).
    split; [now apply range_In|]. split; [exact Hfit|].
    exists (fst out). split; [exact Hcost|]. split; [exact Hlt|].
    intros k' c' Hk'. apply Hmin. now apply range_In.
  - intros k' c' Hk' Hf Hc. rewrite <- Hch. apply (Hmin k' c'); auto.
    now apply range_In.
Qed.

Lemma cheapest_feasible_vehicle_witness :
  choose_vehicle_type Instance.line_network 1 [1] ["Source"; "a"; "Sink"]
  = Ok (Some 0)
  /\ fits [1] (0 + 0 + 1 + 0)%Q 0.
Proof.
  destruct (choose_vehicle_type Instance.line_network 1 [1]
              ["Source"; "a"; "Sink"]) as [chosen|e] eqn:E;
    [|vm_compute in E; discriminate].
  assert (Hload : route_sum Instance.line_network "demand"
                    ["Source"; "a"; "Sink"] = Ok (0 + 0 + 1 + 0)%Q)
    by reflexivity.
  pose proof (cheapest_feasible_vehicle _ _ _ _ _ _ E Hload) as Hc.
  assert (Hch : chosen = Some 0).
  { assert (Hv : choose_vehicle_type Instance.line_network 1 [1]
                   ["Source"; "a"; "Sink"] = Ok (Some 0))
      by (vm_compute; reflexivity).
    congruence. }
  rewrite Hch in Hc. split; [now rewrite Hch | apply Hc].
Defined.

Lemma numbered_length {A} (first : Z) (l : list A) :
  length (numbered first l) = length l.
Proof.
  revert first. induction l as [|x l IH]; intros first; cbn; [reflexivity|].
  now rewrite IH.
Qed.

(** The second loop of [_best_routes_as_node_lists]: the complete
    preassigned routes enter the best routes as they were given, under
    the ids that follow those in use; the routes that are not complete
    are left out; the vehicle types recorded under the ids in use are
    not touched. *)
Theorem preassigned_routes_are_merged (H : Network.t)
    (preassignments : list (list string)) (vehicle_types : Z)
    (load_capacity : list Z) (route_id route_id' : Z)
    (best best' : list (Z * list string)) (types types' : gmap Z Z) :
  merge_preassigned H preassignments vehicle_types load_capacity
                    (route_id, best, types)
  = Ok (route_id', best', types') ->
  (forall entry, In entry best -> fst entry < route_id) ->
  route_id'
  = route_id + Z.of_nat (length (List.filter complete preassignments)) /\
  best' = best ++ numbered route_id (List.filter complete preassignments) /\
  (forall i, i < route_id -> types' !! i = types !! i).
Proof.
  unfold merge_preassigned.
  revert route_id best types.
  induction preassignments as [|route rest IH];
    intros route_id best types E Hfresh.
  - injection E as <- <- <-. cbn. rewrite app_nil_r. split; [lia|]. auto.
  - cbn [Py.for_each] in E. apply bind_Ok in E as ([[id1 b1] t1] & E1 & E).
    rewrite <- (bind_assoc (Py.index route 0)
                  (fun first => if String.eqb first "Source" then
                                  last <- Py.index route (-1) ;;
                                  Ok (String.eqb last "Sink")
                                else Ok false)) in E1.
    rewrite complete_test in E1.
    destruct route as [|x route]; [discriminate|].
    cbn [Py.bind List.filter] in *.
    destruct (complete (x :: route)).
    + cbn [fst snd] in E1. apply bind_Ok in E1 as (chosen & _ & E1).
      injection E1 as <- <- <-.
      destruct (IH _ _ _ E) as (Hid & Hb & Ht).
      { intros entry Hin.
        destruct entry as [i0 r0].
        apply (assign_In_inv Z.eqb) in Hin as [[-> ->]|Hin].
        - cbn. lia.
        - specialize (Hfresh _ Hin). lia. }
      cbn [length numbered]. split; [lia|]. split.
      * rewrite Hb. rewrite assign_fresh.
        -- now rewrite <- app_assoc.
        -- intros entry Hin. apply Z.eqb_neq. specialize (Hfresh _ Hin). lia.
      * intros i Hi. rewrite Ht by lia.
        destruct chosen; [|reflexivity].
        rewrite lookup_insert_ne; [reflexivity | lia].
    + injection E1 as <- <- <-. exact (IH _ _ _ E Hfresh).
Qed.

Lemma preassigned_routes_are_merged_witness :
  match merge_preassigned Instance.line_network
          [["Source"; "a"; "Sink"]; ["Source"; "a"]] 1 [] (1, [], ∅) with
  | Ok (route_id', best', types') =>
      route_id' = 2 /\ best' = [(1, ["Source"; "a"; "Sink"])]
  | Raise _ => False
  end.
Proof.
  destruct (merge_preassigned Instance.line_network
              [["Source"; "a"; "Sink"]; ["Source"; "a"]] 1 [] (1, [], ∅))
    as [[[route_id' best'] types']|e] eqn:E;
    [|vm_compute in E; discriminate].
  destruct (preassigned_routes_are_merged _ _ _ _ _ _ _ _ _ _ E)
    as (Hid & Hb & _); [intros entry []|].
  split; [exact Hid | exact Hb].
Defined.

(** ** Default attributes *)

Lemma lookup_set_missing (a b : string) (x : Q) (attrs : gmap string Q) :
  set_missing a x attrs !! b
  = if String.eqb b a then Some (default x (attrs !! a)) else attrs !! b.
Proof.
  unfold set_missing.
  destruct (String.eqb_spec b a) as [->|Hne].
  - destruct (attrs !! a) as [y|] eqn:E.
    + rewrite bool_decide_eq_true_2 by eauto. now rewrite E.
    + rewrite bool_decide_eq_false_2 by (intros [? ?]; discriminate).
      now rewrite lookup_insert_eq.
  - destruct (bool_decide _); [reflexivity|].
    rewrite lookup_insert_ne; congruence.
Qed.

Lemma lookup_defaulted (v : string) (attrs : gmap string Q) (a : string) :
  defaulted v attrs !! a = attribute_after v attrs a.
Proof.
  unfold defaulted, attribute_after. cbn [fold_left existsb].
  set (attrs1 := set_missing "upper" 0 _).
  assert (H1 : forall b, attrs1 !! b
                         = if existsb (String.eqb b)
                                ["demand"; "collect"; "service_time"; "lower";
                                 "upper"]
                           then Some (default 0%Q (attrs !! b))
                           else attrs !! b).
  { intros b. unfold attrs1. rewrite !lookup_set_missing. cbn [existsb].
    repeat match goal with
           | |- context [String.eqb b ?s] =>
               destruct (String.eqb_spec b s) as [->|?];
               [rewrite ?lookup_set_missing; cbn; reflexivity|]
           end.
    reflexivity. }
  rewrite lookup_set_missing.
  assert (H2 : forall b,
             match attrs1 !! "demand" with
             | Some demand =>
                 if MasterSolvePulp.is_depot v && Py.Qgtb demand 0
                 then <["demand" := 0%Q]> attrs1 else attrs1
             | None => attrs1
             end !! b
             = if String.eqb b "demand" then
                 match attrs !! "demand" with
                 | Some demand =>
                     if MasterSolvePulp.is_depot v && Py.Qgtb demand 0
                     then Some 0%Q else Some demand
                 | None => Some 0%Q
                 end
               else attrs1 !! b).
  { intros b. rewrite (H1 "demand"). cbn [existsb String.eqb Ascii.eqb
                                           Bool.eqb orb default].
    destruct (String.eqb_spec b "demand") as [->|Hne].
    - destruct (attrs !! "demand") as [d|] eqn:E; cbn [default].
      + destruct (_ && _).
        * now rewrite lookup_insert_eq.
        * rewrite H1. cbn. now rewrite E.
      + destruct (_ && Py.Qgtb 0 0) eqn:E0.
        * now rewrite lookup_insert_eq.
        * rewrite H1. cbn. now rewrite E.
    - destruct (attrs !! "demand") as [d|]; cbn [default];
        destruct (_ && _); rewrite ?lookup_insert_ne by congruence;
        reflexivity. }
  rewrite !H2, !H1. cbn [existsb].
  repeat match goal with
         | |- context [String.eqb a ?s] =>
             destruct (String.eqb_spec a s) as [->|?]; [cbn; reflexivity|]
         end.
  reflexivity.
Qed.

Lemma set_zero_attributes_eq (g : Network.t) :
  _set_zero_attributes g
  = Ok {| Network.nodes :=
            map (fun n => (fst n, defaulted (fst n) (snd n))) (Network.nodes g);
          Network.edges := Network.edges g |}.
Proof.
  unfold _set_zero_attributes.
  assert (Hloop : forall ns acc,
             Py.for_each ns
               (fun n (acc : list (string * gmap string Q)) =>
                  let attrs1 :=
                    fold_left
                      (fun attrs attribute => set_missing attribute 0 attrs)
                      ["demand"; "collect"; "service_time"; "lower"; "upper"]
                      (snd n) in
                  attrs2 <-
                    (if MasterSolvePulp.is_depot (fst n) then
                       demand <- Py.of_option KeyError (attrs1 !! "demand") ;;
                       if Py.Qgtb demand 0
                       then Ok (<["demand" := 0%Q]> attrs1)
                       else Ok attrs1
                     else Ok attrs1) ;;
                  Ok (acc ++ [(fst n, set_missing "frequency" 1 attrs2)])) acc
             = Ok (acc ++ map (fun n => (fst n, defaulted (fst n) (snd n))) ns)).
  { induction ns as [|n ns IH]; intros acc.
    - cbn. now rewrite app_nil_r.
    - cbn [Py.for_each map]. cbv zeta.
      set (attrs1 := fold_left _ _ (snd n)).
      assert (Hbody :
                (attrs2 <-
                   (if MasterSolvePulp.is_depot (fst n) then
                      demand <- Py.of_option KeyError (attrs1 !! "demand") ;;
                      if Py.Qgtb demand 0
                      then Ok (<["demand" := 0%Q]> attrs1)
                      else Ok attrs1
                    else Ok attrs1) ;;
                 Ok (acc ++ [(fst n, set_missing "frequency" 1 attrs2)]))
                = Ok (acc ++ [(fst n, defaulted (fst n) (snd n))])).
      { unfold defaulted. cbv zeta. fold attrs1.
        assert (Hd : is_Some (attrs1 !! "demand")).
        { unfold attrs1. cbn [fold_left]. rewrite !lookup_set_missing.
          cbn. eauto. }
        destruct Hd as [d Hd]. rewrite Hd. cbn [Py.of_option Py.bind].
        destruct (MasterSolvePulp.is_depot (fst n)); cbn [andb Py.bind];
          [|reflexivity].
        destruct (Py.Qgtb d 0); reflexivity. }
      rewrite Hbody. cbn [Py.bind]. rewrite IH, <- app_assoc. reflexivity. }
  rewrite Hloop. reflexivity.
Qed.

(** [_set_zero_attributes] never raises and completes the attributes:
    the nodes keep their names and their order and the edges are as
    before; afterwards every node has a demand, a collected amount, a
    service time, a lower and an upper time window bound and a
    frequency; an attribute that was there keeps its value, except a
    positive demand at Source or Sink, which becomes 0; a missing one
    becomes 0, or 1 for the frequency. *)
Theorem set_zero_attributes_completes (g : Network.t) :
  exists g',
    _set_zero_attributes g = Ok g' /\
    Network.node_names g' = Network.node_names g /\
    Network.edges g' = Network.edges g /\
    Forall2 (fun n n' => forall a, snd n' !! a
                                   = attribute_after (fst n) (snd n) a)
            (Network.nodes g) (Network.nodes g') /\
    (forall n' a, In n' (Network.nodes g') -> In a node_defaults ->
                  is_Some (snd n' !! a)).
Proof.
  eexists. split; [apply set_zero_attributes_eq|]. cbn.
  split.
  { unfold Network.node_names. cbn. rewrite map_map. reflexivity. }
  split; [reflexivity|].
  split.
  { induction (Network.nodes g) as [|n ns IH]; cbn; constructor; [|exact IH].
    intros a. apply lookup_defaulted. }
  intros n' a Hin Ha. apply in_map_iff in Hin as (n & <- & _). cbn [snd].
  rewrite lookup_defaulted. unfold attribute_after.
  cbn in Ha.
  repeat (destruct Ha as [<-|Ha];
          [cbn; try (destruct (snd n !! "demand");
                     try destruct (_ && _)); eauto|]).
  destruct Ha.
Qed.

Lemma defaulted_idempotent (v : string) (attrs : gmap string Q) :
  defaulted v (defaulted v attrs) = defaulted v attrs.
Proof.
  apply map_eq. intros a. rewrite !lookup_defaulted.
  unfold attribute_after at 1. rewrite !lookup_defaulted.
  unfold attribute_after.
  replace (String.eqb "demand" "demand") with true by reflexivity.
  destruct (String.eqb a "demand") eqn:Hd.
  - destruct (attrs !! "demand") as [d|].
    + destruct (MasterSolvePulp.is_depot v) eqn:Hv; cbn [andb];
        [|reflexivity].
      destruct (Py.Qgtb d 0) eqn:Hpos; [reflexivity|]. now rewrite Hpos.
    + destruct (MasterSolvePulp.is_depot v); reflexivity.
  - destruct (existsb (String.eqb a) _) eqn:Hex; [reflexivity|].
    destruct (String.eqb a "frequency"); reflexivity.
Qed.

(** [_set_zero_attributes] is idempotent: on a network whose attributes
    it has completed it changes nothing, so running the preprocessing
    again leaves the network as it is. *)
Theorem set_zero_attributes_idempotent (g g' : Network.t) :
  _set_zero_attributes g = Ok g' -> _set_zero_attributes g' = Ok g'.
Proof.
  rewrite !set_zero_attributes_eq. intros H. injection H as <-.
  cbn [Network.nodes Network.edges]. do 2 f_equal.
  rewrite map_map. apply map_ext. intros n. cbn [fst snd].
  now rewrite defaulted_idempotent.
Qed.

Lemma set_zero_attributes_idempotent_witness :
  match _set_zero_attributes Instance.line_network with
  | Ok g' => _set_zero_attributes g' = Ok g'
  | Raise _ => False
  end.
Proof.
  destruct (_set_zero_attributes Instance.line_network) as [g'|e] eqn:E;
    [|rewrite set_zero_attributes_eq in E; discriminate].
  exact (set_zero_attributes_idempotent _ _ E).
Defined.


(** ** The Sink time window and the dummy attributes *)

Lemma fold_max_ge (xs : list Q) (x : Q) :
  (x <= fold_left Py.max xs x)%Q /\
  forall y, In y xs -> (y <= fold_left Py.max xs x)%Q.
Proof.
  revert x. induction xs as [|z xs IH]; intros x; cbn [fold_left].
  - split; [apply Qle_refl | intros y []].
  - destruct (IH (Py.max x z)) as [H1 H2]. split.
    + eapply Qle_trans; [apply max_lower_bound | exact H1].
    + intros y [<-|Hin]; [|now apply H2].
      eapply Qle_trans; [apply max_second | exact H1].
Qed.

Lemma max_of_ge (xs : list Q) (m : Q) :
  Py.max_of xs = Ok m -> forall y, In y xs -> (y <= m)%Q.
Proof.
  destruct xs as [|x xs]; [discriminate|]. cbn. intros H. injection H as <-.
  destruct (fold_max_ge xs x) as [H1 H2].
  intros y [<-|Hin]; [exact H1 | now apply H2].
Qed.

Lemma edge_list_In (g : Network.t) (e : string * string) :
  In e (edge_list g) <-> is_Some (Network.edges g !! e).
Proof.
  unfold edge_list. rewrite in_map_iff. split.
  - intros ([e' c] & <- & Hin). apply list_elem_of_In in Hin.
    apply elem_of_map_to_list in Hin. cbn. eauto.
  - intros [c Hc]. exists (e, c). split; [reflexivity|].
    apply list_elem_of_In. now apply elem_of_map_to_list.
Qed.

Lemma predecessors_In (g : Network.t) (v u : string) (us : list string) :
  predecessors g v = Ok us ->
  (In u us <-> is_Some (Network.edges g !! (u, v))).
Proof.
  unfold predecessors. destruct (existsb _ _); [|discriminate].
  intros H. injection H as <-. rewrite in_map_iff. split.
  - intros ([i j] & <- & Hin). apply filter_In in Hin as [Hin Hv].
    cbn in Hv. apply String.eqb_eq in Hv. subst j.
    now apply edge_list_In.
  - intros Hs. exists (u, v). split; [reflexivity|]. apply filter_In.
    split; [now apply edge_list_In | apply String.eqb_refl].
Qed.

Lemma node_attribute_other (g g' : Network.t) (v w a b : string) (x : Q) :
  set_node_attribute g v a x = Ok g' -> w <> v ->
  node_attribute g' w b = node_attribute g w b.
Proof.
  unfold set_node_attribute. destruct (existsb _ _); [|discriminate].
  intros H Hne. injection H as <-. unfold node_attribute. cbn.
  induction (Network.nodes g) as [|n ns IH]; [reflexivity|].
  cbn [map List.find].
  destruct (String.eqb_spec (fst n) v) as [Hv|Hv]; cbn [fst].
  - assert (Hw : String.eqb (fst n) w = false)
      by (apply String.eqb_neq; congruence).
    rewrite Hw. exact IH.
  - destruct (String.eqb (fst n) w); [reflexivity | exact IH].
Qed.

Lemma node_attribute_set (g g' : Network.t) (v a : string) (x : Q) :
  set_node_attribute g v a x = Ok g' -> node_attribute g' v a = Ok x.
Proof.
  unfold set_node_attribute. destruct (existsb _ _) eqn:Hex; [|discriminate].
  intros H. injection H as <-. unfold node_attribute. cbn.
  unfold Network.node_names in Hex.
  induction (Network.nodes g) as [|n ns IH]; [discriminate|].
  cbn [map List.find existsb] in *.
  destruct (String.eqb_spec (fst n) v) as [Hv|Hv]; cbn [fst].
  - rewrite Hv, String.eqb_refl. cbn. now rewrite lookup_insert_eq.
  - assert (Hw : String.eqb (fst n) v = false) by now apply String.eqb_neq.
    rewrite Hw. apply IH.
    destruct (String.eqb_spec v (fst n)); [congruence | exact Hex].
Qed.

(** The loop of [_readjust_sink_time_windows] over the predecessors. *)
Lemma sink_arrivals_loop (g : Timed.t) (us : list string)
    (acc acc' : list Q) :
  Py.for_each us
    (fun u (acc : list Q) =>
       up <- node_attribute (Timed.network g) u "upper" ;;
       service <- node_attribute (Timed.network g) u "service_time" ;;
       travel <- Timed.edge_time g u "Sink" ;;
       Ok (acc ++ [(up + service + travel)%Q])) acc = Ok acc' ->
  (forall y, In y acc -> In y acc') /\
  forall u, In u us ->
    exists up service travel,
      node_attribute (Timed.network g) u "upper" = Ok up /\
      node_attribute (Timed.network g) u "service_time" = Ok service /\
      Timed.edge_time g u "Sink" = Ok travel /\
      In (up + service + travel)%Q acc'.
Proof.
  revert acc. induction us as [|u us IH]; intros acc E.
  - injection E as <-. split; [auto | intros u []].
  - cbn [Py.for_each] in E. apply bind_Ok in E as (a1 & E1 & E).
    apply bind_Ok in E1 as (up & Hup & E1).
    apply bind_Ok in E1 as (service & Hs & E1).
    apply bind_Ok in E1 as (travel & Ht & E1). injection E1 as <-.
    destruct (IH _ E) as [Hkeep Hall]. split.
    + intros y Hy. apply Hkeep. apply in_or_app. now left.
    + intros u' [<-|Hin]; [|now apply Hall].
      exists up, service, travel. repeat split; try assumption.
      apply Hkeep. apply in_or_app. right. now left.
Qed.

(** [_readjust_sink_time_windows]: when the upper time window bound of
    Sink is 0, it becomes late enough for every edge into Sink: for
    every other node [u] with an edge to Sink it is at least the upper
    bound of [u] plus its service time plus the travel time from [u];
    when it is not 0, nothing changes.  The edges and the times are
    never touched. *)
Theorem sink_window_is_readjusted (g g' : Timed.t) (upper : Q) :
  _readjust_sink_time_windows g = Ok g' ->
  node_attribute (Timed.network g) "Sink" "upper" = Ok upper ->
  Timed.time g' = Timed.time g /\
  Network.edges (Timed.network g') = Network.edges (Timed.network g) /\
  (Qeq_bool upper 0 = false -> g' = g) /\
  (Qeq_bool upper 0 = true ->
   forall u, u <> "Sink" ->
     is_Some (Network.edges (Timed.network g) !! (u, "Sink")) ->
     exists latest up service travel,
       node_attribute (Timed.network g') "Sink" "upper" = Ok latest /\
       node_attribute (Timed.network g') u "upper" = Ok up /\
       node_attribute (Timed.network g') u "service_time" = Ok service /\
       Timed.edge_time g' u "Sink" = Ok travel /\
       (up + service + travel <= latest)%Q).
Proof.
  unfold _readjust_sink_time_windows. intros E Hup. rewrite Hup in E.
  cbn [Py.bind] in E.
  destruct (Qeq_bool upper 0).
  2:{ injection E as <-. repeat split; try reflexivity. discriminate. }
  apply bind_Ok in E as (us & Hus & E).
  apply bind_Ok in E as (arrivals & Harr & E).
  apply bind_Ok in E as (latest & Hmax & E).
  apply bind_Ok in E as (net & Hset & E). injection E as <-.
  cbn [Timed.time Timed.network].
  assert (Hedges : Network.edges net = Network.edges (Timed.network g)).
  { unfold set_node_attribute in Hset. destruct (existsb _ _); [|discriminate].
    now injection Hset as <-. }
  split; [reflexivity|]. split; [exact Hedges|]. split; [discriminate|].
  intros _ u Hne Hedge.
  apply sink_arrivals_loop in Harr as [_ Hall].
  destruct (Hall u (proj2 (predecessors_In _ _ u _ Hus) Hedge))
    as (up & service & travel & Hu & Hs & Ht & Hin).
  exists latest, up, service, travel.
  split; [eapply node_attribute_set; eauto|].
  split; [now rewrite (node_attribute_other _ _ _ u _ _ _ Hset Hne)|].
  split; [now rewrite (node_attribute_other _ _ _ u _ _ _ Hset Hne)|].
  split.
  - unfold Timed.edge_time in *. cbn [Timed.network Timed.time].
    now rewrite Hedges.
  - eapply max_of_ge; eauto.
Qed.


Lemma sink_window_is_readjusted_witness :
  match _readjust_sink_time_windows
          (_set_time_to_zero_if_missing Instance.timed_line) with
  | Ok g' =>
      exists latest up service travel,
        node_attribute (Timed.network g') "Sink" "upper" = Ok latest /\
        node_attribute (Timed.network g') "a" "upper" = Ok up /\
        node_attribute (Timed.network g') "a" "service_time" = Ok service /\
        Timed.edge_time g' "a" "Sink" = Ok travel /\
        (up + service + travel <= latest)%Q
  | Raise _ => False
  end.
Proof.
  destruct (_readjust_sink_time_windows
              (_set_time_to_zero_if_missing Instance.timed_line)) as [g'|e]
    eqn:E.
  - assert (Hup : node_attribute
                    (Timed.network
                       (_set_time_to_zero_if_missing Instance.timed_line))
                    "Sink" "upper" = Ok 0%Q) by reflexivity.
    destruct (sink_window_is_readjusted _ _ _ E Hup) as (_ & _ & _ & H).
    apply (H eq_refl "a"); [discriminate|].
    vm_compute. eauto.
  - vm_compute in E. discriminate.
Defined.

Lemma find_defaulted (ns : list (string * gmap string Q)) (v : string) :
  List.find (fun n => String.eqb (fst n) v)
            (map (fun n => (fst n, defaulted (fst n) (snd n))) ns)
  = (fun n => (fst n, defaulted (fst n) (snd n)))
      <$> List.find (fun n => String.eqb (fst n) v) ns.
Proof.
  induction ns as [|n ns IH]; [reflexivity|]. cbn [map List.find fst].
  destruct (String.eqb (fst n) v); [reflexivity | exact IH].
Qed.

Lemma find_name_In (ns : list (string * gmap string Q)) (v : string) :
  In v (map fst ns) ->
  exists attrs, List.find (fun n => String.eqb (fst n) v) ns = Some (v, attrs).
Proof.
  induction ns as [|[w attrs] ns IH]; [intros []|]. cbn [map List.find fst].
  destruct (String.eqb_spec w v) as [->|Hne]; [eauto|].
  intros [Heq|Hin]; [congruence | now apply IH].
Qed.

Lemma find_name_not_In (ns : list (string * gmap string Q)) (v : string) :
  ~ In v (map fst ns) ->
  List.find (fun n => String.eqb (fst n) v) ns = None.
Proof.
  induction ns as [|[w attrs] ns IH]; [reflexivity|]. cbn [map List.find fst].
  intros Hn. destruct (String.eqb_spec w v) as [->|Hne].
  - exfalso. apply Hn. now left.
  - apply IH. intros Hin. apply Hn. now right.
Qed.

Lemma existsb_name (ns : list (string * gmap string Q)) (v : string) :
  existsb (fun n => String.eqb (fst n) v) ns = true <-> In v (map fst ns).
Proof.
  rewrite existsb_exists, in_map_iff. split.
  - intros (n & Hin & Heq). apply String.eqb_eq in Heq. eauto.
  - intros (n & Heq & Hin). exists n. split; [exact Hin|].
    now apply String.eqb_eq.
Qed.

Lemma existsb_eqb_In (vs : list string) (v : string) :
  existsb (String.eqb v) vs = true <-> In v vs.
Proof.
  rewrite existsb_exists. split.
  - intros (w & Hin & Heq). apply String.eqb_eq in Heq. now subst.
  - intros Hin. exists v. split; [exact Hin | apply String.eqb_refl].
Qed.

(** After [_set_zero_attributes] every node has the default attributes. *)
Lemma node_attribute_defaulted (g : Network.t) (es : gmap (string * string) (list Q))
    (v a : string) :
  In v (Network.node_names g) -> In a node_defaults ->
  exists x,
    node_attribute
      {| Network.nodes :=
           map (fun n => (fst n, defaulted (fst n) (snd n))) (Network.nodes g);
         Network.edges := es |} v a = Ok x.
Proof.
  intros Hv Ha. unfold node_attribute. cbn [Network.nodes].
  rewrite find_defaulted.
  destruct (find_name_In _ _ Hv) as [attrs ->]. cbn.
  rewrite lookup_defaulted. unfold attribute_after.
  cbn in Ha.
  destruct Ha as [<-|[<-|[<-|[<-|[<-|[<-|[]]]]]]]; cbn;
    try (eexists; reflexivity).
  destruct (attrs !! "demand"); [destruct (_ && _)|]; eexists; reflexivity.
Qed.

Lemma add_source_sink_nodes (vehicle_types : Z) (g : Network.t) :
  In "Source" (Network.node_names g) -> In "Sink" (Network.node_names g) ->
  Network.nodes (add_source_sink vehicle_types g) = Network.nodes g.
Proof.
  intros HS HK. unfold add_source_sink.
  destruct (bool_decide _); [reflexivity|]. cbn [Network.nodes].
  unfold add_node_if_missing.
  rewrite (proj2 (existsb_name _ "Source") HS).
  now rewrite (proj2 (existsb_name _ "Sink") HK).
Qed.

Lemma add_source_sink_edges (vehicle_types : Z) (g : Network.t)
    (e : string * string) :
  Network.edges (add_source_sink vehicle_types g) !! e
  = if bool_decide (e = ("Source", "Sink"))
    then Some (default (repeat 0%Q (Z.to_nat vehicle_types))
                       (Network.edges g !! ("Source", "Sink")))
    else Network.edges g !! e.
Proof.
  unfold add_source_sink.
  destruct (bool_decide (is_Some _)) eqn:E.
  - apply bool_decide_eq_true in E as [c Hc].
    destruct (bool_decide_reflect (e = ("Source", "Sink"))) as [->|Hne];
      [now rewrite Hc | reflexivity].
  - apply bool_decide_eq_false in E. cbn [Network.edges].
    destruct (bool_decide_reflect (e = ("Source", "Sink"))) as [->|Hne].
    + rewrite lookup_insert_eq.
      destruct (Network.edges g !! ("Source", "Sink")) eqn:E1;
        [exfalso; eauto | reflexivity].
    + rewrite lookup_insert_ne by congruence. reflexivity.
Qed.

(** The loop of [_set_time_to_zero_if_missing]. *)
Lemma time_to_zero_loop (es : list (string * string))
    (times : gmap (string * string) Q) (e : string * string) :
  fold_left (fun times e =>
               if bool_decide (is_Some (times !! e)) then times
               else <[e := 0%Q]> times) es times !! e
  = match times !! e with
    | Some t => Some t
    | None => if bool_decide (e ∈ es) then Some 0%Q else None
    end.
Proof.
  revert times. induction es as [|e0 es IH]; intros times; cbn [fold_left].
  - destruct (times !! e); [reflexivity|].
    now rewrite bool_decide_eq_false_2 by apply not_elem_of_nil.
  - rewrite IH. destruct (bool_decide_reflect (is_Some (times !! e0))) as [Hs|Hn].
    + destruct (times !! e) eqn:E; [reflexivity|].
      destruct (bool_decide_reflect (e ∈ es)) as [Hin|Hnin].
      * rewrite bool_decide_eq_true_2; [reflexivity|].
        now apply list_elem_of_further.
      * rewrite bool_decide_eq_false_2; [reflexivity|].
        intros Hin. apply elem_of_cons in Hin as [->|Hin]; [|contradiction].
        rewrite E in Hs. destruct Hs; discriminate.
    + destruct (decide (e0 = e)) as [->|Hne].
      * rewrite lookup_insert_eq.
        destruct (times !! e) eqn:E; [exfalso; eauto|].
        rewrite bool_decide_eq_true_2; [reflexivity|].
        apply list_elem_of_here.
      * rewrite lookup_insert_ne by exact Hne.
        destruct (times !! e); [reflexivity|].
        destruct (bool_decide_reflect (e ∈ es)) as [Hin|Hnin].
        -- rewrite bool_decide_eq_true_2; [reflexivity|].
           now apply list_elem_of_further.
        -- rewrite bool_decide_eq_false_2; [reflexivity|].
           intros Hin. apply elem_of_cons in Hin as [->|Hin];
             [congruence | contradiction].
Qed.

Lemma time_to_zero_lookup (g : Timed.t) (e : string * string) :
  is_Some (Network.edges (Timed.network g) !! e) ->
  Timed.time (_set_time_to_zero_if_missing g) !! e
  = Some (default 0%Q (Timed.time g !! e)).
Proof.
  intros He. unfold _set_time_to_zero_if_missing. cbn [Timed.time].
  rewrite time_to_zero_loop.
  destruct (Timed.time g !! e); [reflexivity|].
  rewrite bool_decide_eq_true_2; [reflexivity|].
  apply list_elem_of_In. now apply edge_list_In.
Qed.

Lemma sink_arrivals_succeed (g : Timed.t) (us : list string) (acc : list Q) :
  (forall u, In u us ->
     (exists x, node_attribute (Timed.network g) u "upper" = Ok x) /\
     (exists x, node_attribute (Timed.network g) u "service_time" = Ok x) /\
     (exists x, Timed.edge_time g u "Sink" = Ok x)) ->
  exists acc',
    Py.for_each us
      (fun u (acc : list Q) =>
         up <- node_attribute (Timed.network g) u "upper" ;;
         service <- node_attribute (Timed.network g) u "service_time" ;;
         travel <- Timed.edge_time g u "Sink" ;;
         Ok (acc ++ [(up + service + travel)%Q])) acc = Ok acc' /\
    length acc' = (length acc + length us)%nat.
Proof.
  revert acc. induction us as [|u us IH]; intros acc Hall.
  - exists acc. split; [reflexivity | cbn; lia].
  - destruct (Hall u (or_introl eq_refl)) as ([x Hx] & [s Hs] & [t Ht]).
    cbn [Py.for_each]. rewrite Hx, Hs, Ht. cbn [Py.bind].
    destruct (IH (acc ++ [(x + s + t)%Q])) as (acc' & E & Hlen).
    { intros u' Hu'. apply Hall. now right. }
    exists acc'. split; [exact E|]. rewrite Hlen, List.length_app. cbn. lia.
Qed.

Lemma node_attribute_set_other (g g' : Network.t) (v a b : string) (x : Q) :
  set_node_attribute g v a x = Ok g' -> b <> a ->
  node_attribute g' v b = node_attribute g v b.
Proof.
  unfold set_node_attribute. destruct (existsb _ _); [|discriminate].
  intros H Hne. injection H as <-. unfold node_attribute. cbn.
  induction (Network.nodes g) as [|n ns IH]; [reflexivity|].
  cbn [map List.find].
  destruct (String.eqb_spec (fst n) v) as [Hv|Hv]; cbn [fst].
  - rewrite Hv, String.eqb_refl. cbn.
    rewrite lookup_insert_ne by congruence. reflexivity.
  - assert (Hw : String.eqb (fst n) v = false) by now apply String.eqb_neq.
    rewrite Hw. exact IH.
Qed.

Lemma set_node_attribute_names (g g' : Network.t) (v a : string) (x : Q) :
  set_node_attribute g v a x = Ok g' ->
  Network.node_names g' = Network.node_names g /\
  Network.edges g' = Network.edges g.
Proof.
  unfold set_node_attribute. destruct (existsb _ _); [|discriminate].
  intros H. injection H as <-. split; [|reflexivity].
  unfold Network.node_names. cbn. rewrite map_map. apply map_ext.
  intros n. now destruct (String.eqb (fst n) v).
Qed.

(** [_update_dummy_attributes] on a network that has the nodes Source and
    Sink, and whose edges join nodes, never raises.  It keeps the nodes,
    leaves the edge from Source to Sink in the network, with costs 0 when
    it was not there, and no other edge is touched; every edge has a
    travel time, 0 when it had none; every node has the attributes
    demand, collect, service_time, lower, upper and frequency. *)
Theorem update_dummy_attributes_succeeds (vehicle_types : Z) (g : Timed.t) :
  In "Source" (Network.node_names (Timed.network g)) ->
  In "Sink" (Network.node_names (Timed.network g)) ->
  (forall i j, is_Some (Network.edges (Timed.network g) !! (i, j)) ->
     In i (Network.node_names (Timed.network g)) /\
     In j (Network.node_names (Timed.network g))) ->
  exists g',
    _update_dummy_attributes vehicle_types g = Ok g' /\
    Network.node_names (Timed.network g')
    = Network.node_names (Timed.network g) /\
    Network.edges (Timed.network g') !! ("Source", "Sink")
    = Some (default (repeat 0%Q (Z.to_nat vehicle_types))
                    (Network.edges (Timed.network g) !! ("Source", "Sink"))) /\
    (forall e, e <> ("Source", "Sink") ->
       Network.edges (Timed.network g') !! e
       = Network.edges (Timed.network g) !! e) /\
    (forall e, is_Some (Network.edges (Timed.network g') !! e) ->
       Timed.time g' !! e = Some (default 0%Q (Timed.time g !! e))) /\
    (forall v a, In v (Network.node_names (Timed.network g)) ->
       In a node_defaults ->
       exists x, node_attribute (Timed.network g') v a = Ok x).
Proof.
  intros HS HK HE. unfold _update_dummy_attributes.
  rewrite set_zero_attributes_eq. cbn [Py.bind]. cbv zeta.
  set (net := {| Network.nodes := map _ _; Network.edges := _ |}).
  assert (Hnames : Network.node_names net
                   = Network.node_names (Timed.network g)).
  { unfold Network.node_names, net. cbn. rewrite map_map. now apply map_ext. }
  assert (Hnodes : Network.nodes (add_source_sink vehicle_types net)
                   = Network.nodes net).
  { apply add_source_sink_nodes; now rewrite Hnames. }
  set (g2 := _set_time_to_zero_if_missing _).
  assert (Hnet2 : Timed.network g2 = add_source_sink vehicle_types net)
    by reflexivity.
  assert (Hattr : forall v a,
             node_attribute (Timed.network g2) v a = node_attribute net v a).
  { intros v a. rewrite Hnet2. unfold node_attribute. now rewrite Hnodes. }
  assert (Hdef : forall v a, In v (Network.node_names (Timed.network g)) ->
                   In a node_defaults ->
                   exists x, node_attribute (Timed.network g2) v a = Ok x).
  { intros v a Hv Ha. rewrite Hattr. now apply node_attribute_defaulted. }
  assert (Hedge : forall e,
             Network.edges (Timed.network g2) !! e
             = if bool_decide (e = ("Source", "Sink"))
               then Some (default (repeat 0%Q (Z.to_nat vehicle_types))
                            (Network.edges (Timed.network g)
                               !! ("Source", "Sink")))
               else Network.edges (Timed.network g) !! e).
  { intros e. rewrite Hnet2, add_source_sink_edges. reflexivity. }
  assert (Htime : forall e, is_Some (Network.edges (Timed.network g2) !! e) ->
                    Timed.time g2 !! e = Some (default 0%Q (Timed.time g !! e))).
  { intros e He. unfold g2. rewrite time_to_zero_lookup; [reflexivity|].
    exact He. }
  assert (Hfinal : forall g',
             Timed.time g' = Timed.time g2 ->
             Network.node_names (Timed.network g')
             = Network.node_names (Timed.network g2) ->
             Network.edges (Timed.network g') = Network.edges (Timed.network g2) ->
             (forall v a, In v (Network.node_names (Timed.network g)) ->
                In a node_defaults ->
                exists x, node_attribute (Timed.network g') v a = Ok x) ->
             Network.node_names (Timed.network g')
             = Network.node_names (Timed.network g) /\
             Network.edges (Timed.network g') !! ("Source", "Sink")
             = Some (default (repeat 0%Q (Z.to_nat vehicle_types))
                       (Network.edges (Timed.network g)
                          !! ("Source", "Sink"))) /\
             (forall e, e <> ("Source", "Sink") ->
                Network.edges (Timed.network g') !! e
                = Network.edges (Timed.network g) !! e) /\
             (forall e, is_Some (Network.edges (Timed.network g') !! e) ->
                Timed.time g' !! e = Some (default 0%Q (Timed.time g !! e))) /\
             (forall v a, In v (Network.node_names (Timed.network g)) ->
                In a node_defaults ->
                exists x, node_attribute (Timed.network g') v a = Ok x)).
  { intros g' Ht Hn Hes Ha. rewrite Hn, Hes, Ht.
    split.
    { rewrite Hnet2. unfold Network.node_names. rewrite Hnodes.
      exact Hnames. }
    split.
    { rewrite Hedge. now rewrite bool_decide_eq_true_2. }
    split.
    { intros e Hne. rewrite Hedge. now rewrite bool_decide_eq_false_2. }
    split; [exact Htime | exact Ha]. }
  unfold _readjust_sink_time_windows.
  destruct (Hdef "Sink" "upper" HK) as [upper Hup]; [cbn; tauto|].
  rewrite Hup. cbn [Py.bind].
  destruct (Qeq_bool upper 0).
  2:{ exists g2. split; [reflexivity|]. now apply Hfinal. }
  assert (HK2 : In "Sink" (Network.node_names (Timed.network g2))).
  { rewrite Hnet2. unfold Network.node_names. rewrite Hnodes.
    fold (Network.node_names net). now rewrite Hnames. }
  unfold predecessors.
  rewrite (proj2 (existsb_eqb_In _ "Sink") HK2). cbn [Py.bind].
  set (us := map fst _).
  assert (Hus : forall u, In u us <->
                  is_Some (Network.edges (Timed.network g2) !! (u, "Sink"))).
  { intros u. apply (predecessors_In (Timed.network g2) "Sink" u us).
    unfold predecessors.
    now rewrite (proj2 (existsb_eqb_In _ "Sink") HK2). }
  destruct (sink_arrivals_succeed g2 us []) as (arrivals & -> & Hlen).
  { intros u Hu. apply Hus in Hu.
    assert (Hnode : In u (Network.node_names (Timed.network g))).
    { rewrite Hedge in Hu.
      destruct (bool_decide_reflect ((u, "Sink") = ("Source", "Sink")))
        as [Heq|Hne].
      - injection Heq as ->. exact HS.
      - now apply HE in Hu. }
    split; [apply Hdef; [exact Hnode | cbn; tauto]|].
    split; [apply Hdef; [exact Hnode | cbn; tauto]|].
    unfold Timed.edge_time. destruct Hu as [c Hc]. rewrite Hc.
    cbn [Py.of_option Py.bind]. rewrite Htime by eauto. cbn. eauto. }
  cbn [Py.bind].
  assert (Hne : In "Source" us).
  { apply Hus. rewrite Hedge. rewrite bool_decide_eq_true_2 by reflexivity.
    eauto. }
  destruct arrivals as [|x rest].
  { exfalso. destruct us; [destruct Hne | cbn in Hlen; lia]. }
  cbn [Py.max_of Py.bind].
  destruct (set_node_attribute (Timed.network g2) "Sink" "upper"
              (fold_left Py.max rest x)) as [net3|e] eqn:Hset.
  2:{ exfalso. unfold set_node_attribute in Hset.
      rewrite (proj2 (existsb_eqb_In _ "Sink") HK2) in Hset. discriminate. }
  cbn [Py.bind]. eexists. split; [reflexivity|].
  destruct (set_node_attribute_names _ _ _ _ _ Hset) as [Hn3 He3].
  apply Hfinal; cbn [Timed.time Timed.network];
    [reflexivity | exact Hn3 | exact He3 |].
  intros v a Hv Ha.
  destruct (String.eqb_spec v "Sink") as [->|Hv'].
  - destruct (String.eqb_spec a "upper") as [->|Ha'].
    + eexists. eapply node_attribute_set. exact Hset.
    + rewrite (node_attribute_set_other _ _ _ _ _ _ Hset Ha').
      now apply Hdef.
  - rewrite (node_attribute_other _ _ _ v _ _ _ Hset Hv'). now apply Hdef.
Qed.

Lemma update_dummy_attributes_succeeds_witness :
  exists g',
    _update_dummy_attributes 1 Instance.timed_line = Ok g' /\
    Timed.time g' !! ("Source", "Sink") = Some 0%Q.
Proof.
  destruct (update_dummy_attributes_succeeds 1 Instance.timed_line)
    as (g' & E & _ & Hss & _ & Ht & _).
  - cbn. tauto.
  - cbn. tauto.
  - intros i j [c Hc]. cbn.
    assert (H : (i, j) = ("Source", "a") \/ (i, j) = ("a", "Sink")
                \/ (i, j) = ("Source", "Sink")).
    { destruct (decide ((i, j) = ("Source", "a"))) as [|H1]; [tauto|].
      destruct (decide ((i, j) = ("a", "Sink"))) as [|H2]; [tauto|].
      destruct (decide ((i, j) = ("Source", "Sink"))) as [|H3]; [tauto|].
      exfalso. cbn in Hc. unfold Instance.line_network in Hc. cbn in Hc.
      rewrite !lookup_insert_ne in Hc by congruence.
      rewrite lookup_empty in Hc. discriminate. }
    destruct H as [H|[H|H]]; injection H as -> ->; tauto.
  - exists g'. split; [exact E|].
    rewrite (Ht ("Source", "Sink")); [reflexivity|].
    rewrite Hss. eauto.
Defined.

Lemma find_app_None {A} (f : A -> bool) (l l' : list A) :
  List.find f l = None -> List.find f (l ++ l') = List.find f l'.
Proof.
  induction l as [|x l IH]; [reflexivity|]. cbn.
  destruct (f x); [discriminate | exact IH].
Qed.

(** Without a node Sink, [_update_dummy_attributes] raises a [KeyError]:
    the edge from Source to Sink is added after the default attributes
    are set, so the new node Sink has no upper time window bound to
    read. *)
Theorem update_dummy_attributes_needs_sink (vehicle_types : Z) (g : Timed.t) :
  ~ In "Sink" (Network.node_names (Timed.network g)) ->
  _update_dummy_attributes vehicle_types g = Raise KeyError.
Proof.
  intros HK. unfold _update_dummy_attributes.
  rewrite set_zero_attributes_eq. cbn [Py.bind]. cbv zeta.
  set (net := {| Network.nodes := map _ _; Network.edges := _ |}).
  assert (Hnames : map fst (Network.nodes net)
                   = Network.node_names (Timed.network g)).
  { unfold Network.node_names, net. cbn. rewrite map_map. now apply map_ext. }
  unfold _readjust_sink_time_windows.
  assert (Hup : node_attribute
                  (Timed.network
                     (_set_time_to_zero_if_missing
                        {| Timed.network := add_source_sink vehicle_types net;
                           Timed.time := Timed.time g |})) "Sink" "upper"
                = Raise KeyError).
  { cbn [_set_time_to_zero_if_missing Timed.network]. unfold node_attribute.
    unfold add_source_sink. destruct (bool_decide _); cbn [Network.nodes].
    - rewrite find_name_not_In by now rewrite Hnames. reflexivity.
    - unfold add_node_if_missing at 1.
      assert (Hn : ~ In "Sink"
                     (map fst (add_node_if_missing "Source"
                                 (Network.nodes net)))).
      { unfold add_node_if_missing. destruct (existsb _ _).
        - now rewrite Hnames.
        - rewrite map_app, in_app_iff, Hnames. cbn.
          intros [H|[H|[]]]; [contradiction | discriminate]. }
      destruct (existsb _ _) eqn:Hex.
      { apply existsb_name in Hex. contradiction. }
      rewrite find_app_None by (now apply find_name_not_In). reflexivity. }
  rewrite Hup. reflexivity.
Qed.

Lemma update_dummy_attributes_needs_sink_witness :
  _update_dummy_attributes 1
    {| Timed.network := {| Network.nodes := [("Source", ∅)];
                           Network.edges := ∅ |};
       Timed.time := ∅ |} = Raise KeyError.
Proof.
  apply update_dummy_attributes_needs_sink. cbn. intros [H|[]]. discriminate.
Defined.


(** ** Fixed costs and arcs over capacity *)

Lemma for_each_app {A S} (xs ys : list A) (body : A -> S -> result S) (s : S) :
  Py.for_each (xs ++ ys) body s
  = Py.bind (Py.for_each xs body s) (Py.for_each ys body).
Proof.
  revert s. induction xs as [|x xs IH]; intros s; [reflexivity|].
  cbn [app Py.for_each]. destruct (body x s); cbn [Py.bind];
    [apply IH | reflexivity].
Qed.

(** The costs after the first [n] passes of the inner loop of
    [_add_fixed_costs]. *)
Lemma fixed_costs_step (fixed_cost costs : list Q) (n : nat) (c f : Q) :
  costs !! n = Some c -> fixed_cost !! n = Some f ->
  <[n := (c + f)%Q]>
    (imap (fun m c => if (m <? n)%nat then (c + nth m fixed_cost 0)%Q else c)
          costs)
  = imap (fun m c => if (m <? S n)%nat then (c + nth m fixed_cost 0)%Q else c)
         costs.
Proof.
  intros Hc Hf. apply list_eq. intros m.
  destruct (decide (m = n)) as [->|Hne].
  - rewrite list_lookup_insert_eq
      by (rewrite length_imap; apply lookup_lt_is_Some; eauto).
    rewrite list_lookup_imap, Hc.
    assert (Hlt : (n <? S n)%nat = true) by (apply Nat.ltb_lt; lia).
    cbn [fmap option_fmap option_map]. rewrite Hlt.
    rewrite (nth_lookup_Some _ _ _ _ Hf). reflexivity.
  - rewrite list_lookup_insert_ne by congruence.
    rewrite !list_lookup_imap. destruct (costs !! m); [|reflexivity].
    cbn [fmap option_fmap option_map]. f_equal.
    destruct (Nat.ltb_spec m n); destruct (Nat.ltb_spec m (S n));
      try reflexivity; lia.
Qed.

Lemma fixed_costs_inner (fixed_cost : list Q) (v : string) (n : nat) :
  forall g1 g1' costs,
    Py.for_each (map Z.of_nat (seq 0 n))
      (fun k g2 =>
         c <- Network.edge_cost g2 "Source" v k ;;
         f <- Py.index fixed_cost k ;;
         Network.set_edge_cost g2 "Source" v k (c + f)%Q) g1 = Ok g1' ->
    Network.edges g1 !! ("Source", v) = Some costs ->
    Network.nodes g1' = Network.nodes g1 /\
    Network.edges g1'
    = <[("Source", v) :=
          imap (fun m c => if (m <? n)%nat
                           then (c + nth m fixed_cost 0)%Q else c) costs]>
        (Network.edges g1).
Proof.
  induction n as [|n IH]; intros g1 g1' costs E Hc.
  - injection E as <-. split; [reflexivity|].
    rewrite insert_id; [reflexivity|]. rewrite Hc. f_equal.
    apply list_eq. intros m. rewrite list_lookup_imap.
    now destruct (costs !! m).
  - rewrite seq_S, map_app, for_each_app in E. cbn [Nat.add map] in E.
    apply bind_Ok in E as (gn & En & E).
    destruct (IH _ _ _ En Hc) as [Hnodes Hedges].
    cbn [Py.for_each] in E. apply bind_Ok in E as (g' & E & E').
    injection E' as <-.
    apply bind_Ok in E as (c & Hcost & E).
    apply bind_Ok in E as (f & Hf & E).
    apply set_edge_cost_spec in E as (Hn' & costs1 & Hc1 & _ & He'); [|lia].
    unfold Network.edge_cost in Hcost.
    rewrite Hedges, lookup_insert_eq in Hc1. injection Hc1 as <-.
    rewrite Hedges, lookup_insert_eq in Hcost. cbn [Py.of_option Py.bind] in Hcost.
    rewrite index_nonneg in Hcost, Hf by lia. rewrite Nat2Z.id in *.
    rewrite list_lookup_imap in Hcost.
    destruct (costs !! n) as [c0|] eqn:Hcn; [|discriminate].
    cbn [fmap option_fmap option_map Py.of_option] in Hcost.
    rewrite Nat.ltb_irrefl in Hcost. injection Hcost as <-.
    destruct (fixed_cost !! n) as [f0|] eqn:Hfn; [|discriminate].
    injection Hf as <-.
    split; [congruence|].
    rewrite He', Hedges, insert_insert_eq. f_equal.
    now apply fixed_costs_step.
Qed.

Lemma with_fixed_costs_nat (fixed_cost : list Q) (vehicle_types : Z)
    (costs : list Q) :
  imap (fun m c => if (m <? Z.to_nat vehicle_types)%nat
                   then (c + nth m fixed_cost 0)%Q else c) costs
  = with_fixed_costs fixed_cost vehicle_types costs.
Proof.
  unfold with_fixed_costs. apply imap_ext. intros m c _.
  destruct (Nat.ltb_spec m (Z.to_nat vehicle_types));
    destruct (Z.ltb_spec (Z.of_nat m) vehicle_types); try reflexivity; lia.
Qed.

Lemma fixed_costs_outer (fixed_cost : list Q) (vehicle_types : Z)
    (vs : list string) :
  forall g0 g',
    Py.for_each vs
      (fun v g1 =>
         Py.for_each (Py.range vehicle_types)
           (fun k g2 =>
              c <- Network.edge_cost g2 "Source" v k ;;
              f <- Py.index fixed_cost k ;;
              Network.set_edge_cost g2 "Source" v k (c + f)%Q) g1) g0
    = Ok g' ->
    List.NoDup vs ->
    (forall v, In v vs -> is_Some (Network.edges g0 !! ("Source", v))) ->
    Network.nodes g' = Network.nodes g0 /\
    forall i j,
      Network.edges g' !! (i, j)
      = if String.eqb i "Source" && bool_decide (j ∈ vs)
        then with_fixed_costs fixed_cost vehicle_types
               <$> Network.edges g0 !! (i, j)
        else Network.edges g0 !! (i, j).
Proof.
  induction vs as [|v vs IH]; intros g0 g' E Hnd Hin.
  - injection E as <-. split; [reflexivity|]. intros i j.
    rewrite bool_decide_eq_false_2 by apply not_elem_of_nil.
    now rewrite andb_false_r.
  - cbn [Py.for_each] in E. apply bind_Ok in E as (g1 & E1 & E).
    destruct (Hin v (or_introl eq_refl)) as [costs Hc].
    destruct (fixed_costs_inner _ _ _ _ _ _ E1 Hc) as [Hn1 He1].
    rewrite with_fixed_costs_nat in He1.
    inversion Hnd as [|? ? Hnv Hnd']; subst.
    destruct (IH _ _ E Hnd') as [Hn Hes].
    { intros w Hw. rewrite He1.
      rewrite lookup_insert_ne; [apply Hin; now right|].
      intros Heq. injection Heq as ->. contradiction. }
    split; [congruence|]. intros i j. rewrite Hes, He1.
    destruct (String.eqb_spec i "Source") as [->|Hi]; cbn [andb];
      [|rewrite lookup_insert_ne by congruence; reflexivity].
    destruct (bool_decide_reflect (j ∈ vs)) as [Hj|Hj].
    + assert (Hne : j <> v)
        by (intros ->; apply Hnv; now apply list_elem_of_In).
      rewrite lookup_insert_ne by congruence.
      rewrite bool_decide_eq_true_2; [reflexivity|].
      now apply list_elem_of_further.
    + destruct (decide (j = v)) as [->|Hne].
      * rewrite lookup_insert_eq, Hc.
        rewrite bool_decide_eq_true_2 by apply list_elem_of_here.
        reflexivity.
      * rewrite lookup_insert_ne by congruence.
        rewrite bool_decide_eq_false_2; [reflexivity|].
        intros H. apply elem_of_cons in H as [?|?]; contradiction.
Qed.

Lemma edge_list_NoDup (g : Network.t) : List.NoDup (edge_list g).
Proof.
  unfold edge_list. apply NoDup_ListNoDup, NoDup_fst_map_to_list.
Qed.

Lemma successors_spec (g : Network.t) (u : string) (vs : list string) :
  successors g u = Ok vs ->
  List.NoDup vs /\
  forall v, In v vs <-> is_Some (Network.edges g !! (u, v)).
Proof.
  unfold successors. destruct (existsb _ _); [|discriminate].
  intros H. injection H as <-. split.
  - apply Finite.Injective_map_NoDup_in;
      [|apply filter_NoDup, edge_list_NoDup].
    intros [i j] [i' j'] Hin Hin' Heq. cbn in Heq. subst j'.
    apply filter_In in Hin as [_ Hi]. apply filter_In in Hin' as [_ Hi'].
    cbn in Hi, Hi'. apply String.eqb_eq in Hi, Hi'. congruence.
  - intros v. rewrite in_map_iff. split.
    + intros ([i j] & <- & Hin). apply filter_In in Hin as [Hin Hv].
      cbn in Hv. apply String.eqb_eq in Hv. subst i.
      now apply edge_list_In.
    + intros Hs. exists (u, v). split; [reflexivity|]. apply filter_In.
      split; [now apply edge_list_In | apply String.eqb_refl].
Qed.

(** [_add_fixed_costs] adds the fixed cost of each vehicle type, once, to
    the cost of that type on every edge leaving Source; the nodes and the
    costs of the other edges stay as they are, and no edge is added or
    removed. *)
Theorem fixed_costs_are_added (fixed_cost : list Q) (vehicle_types : Z)
    (g g' : Network.t) :
  _add_fixed_costs fixed_cost vehicle_types g = Ok g' ->
  Network.nodes g' = Network.nodes g /\
  forall i j,
    Network.edges g' !! (i, j)
    = (fun costs => if String.eqb i "Source"
                    then with_fixed_costs fixed_cost vehicle_types costs
                    else costs) <$> Network.edges g !! (i, j).
Proof.
  unfold _add_fixed_costs. intros E.
  apply bind_Ok in E as (vs & Hvs & E).
  apply successors_spec in Hvs as [Hnd Hin].
  apply fixed_costs_outer in E as [Hn He]; [|exact Hnd|].
  2:{ intros v Hv. now apply Hin. }
  split; [exact Hn|]. intros i j. rewrite He.
  destruct (String.eqb_spec i "Source") as [->|Hi]; cbn [andb].
  - destruct (bool_decide_reflect (j ∈ vs)) as [Hj|Hj]; [reflexivity|].
    destruct (Network.edges g !! ("Source", j)) eqn:Ej; [|reflexivity].
    exfalso. apply Hj, list_elem_of_In, Hin. eauto.
  - now destruct (Network.edges g !! (i, j)).
Qed.

Lemma fixed_costs_are_added_witness :
  match _add_fixed_costs [5%Q] 1 Instance.line_network with
  | Ok g' =>
      Network.edges g' !! ("Source", "a") = Some [(1 + 5)%Q] /\
      Network.edges g' !! ("a", "Sink") = Some [1%Q]
  | Raise _ => False
  end.
Proof.
  destruct (_add_fixed_costs [5%Q] 1 Instance.line_network) as [g'|e] eqn:E.
  - destruct (fixed_costs_are_added _ _ _ _ E) as [_ H].
    split; rewrite H; reflexivity.
  - vm_compute in E. discriminate.
Defined.

(** The loop of [_remove_infeasible_arcs_capacities] that collects the
    arcs to remove. *)
Lemma infeasible_arcs_loop (g : Network.t) (max_capacity : Q)
    (es acc acc' : list (string * string)) :
  Py.for_each es
    (fun e (acc : list (string * string)) =>
       di <- node_attribute g (fst e) "demand" ;;
       dj <- node_attribute g (snd e) "demand" ;;
       if Py.Qgtb (di + dj) max_capacity then Ok (acc ++ [e]) else Ok acc)
    acc = Ok acc' ->
  (forall e, In e es -> exists di dj,
      node_attribute g (fst e) "demand" = Ok di /\
      node_attribute g (snd e) "demand" = Ok dj) /\
  (forall e, In e acc' <->
     In e acc \/ (In e es /\ exists di dj,
                    node_attribute g (fst e) "demand" = Ok di /\
                    node_attribute g (snd e) "demand" = Ok dj /\
                    (max_capacity < di + dj)%Q)).
Proof.
  revert acc. induction es as [|e0 es IH]; intros acc E.
  - injection E as <-. split; [intros e []|].
    intros e. split; [tauto | intros [H|[[] _]]; exact H].
  - cbn [Py.for_each] in E. apply bind_Ok in E as (acc1 & E1 & E).
    apply bind_Ok in E1 as (di & Hdi & E1).
    apply bind_Ok in E1 as (dj & Hdj & E1).
    destruct (IH _ E) as (Hall & Hiff).
    assert (Hacc1 : forall e, In e acc1 <->
                      In e acc \/ (e = e0 /\ (max_capacity < di + dj)%Q)).
    { intros e. destruct (Py.Qgtb (di + dj) max_capacity) eqn:Hgt;
        injection E1 as <-.
      - apply Qgtb_true in Hgt. rewrite in_app_iff. cbn.
        intuition congruence.
      - apply Qgtb_false in Hgt. split; [tauto|].
        intros [H|[_ H]]; [exact H|]. exfalso.
        exact (Qlt_not_le _ _ H Hgt). }
    split.
    + intros e [<-|Hin]; [eauto | now apply Hall].
    + intros e. rewrite Hiff, Hacc1. split.
      * intros [[H|[-> H]]|[Hin H]].
        -- now left.
        -- right. split; [now left|]. eauto.
        -- right. split; [now right | exact H].
      * intros [H|[[<-|Hin] (di' & dj' & Hdi' & Hdj' & Hlt)]].
        -- left. now left.
        -- left. right. split; [reflexivity|].
           assert (di' = di) by congruence.
           assert (dj' = dj) by congruence. now subst.
        -- right. split; [exact Hin|]. eauto.
Qed.

Lemma fold_delete_lookup (l : list (string * string))
    (m : gmap (string * string) (list Q)) (e : string * string) :
  fold_left (fun es e => delete e es) l m !! e
  = if bool_decide (e ∈ l) then None else m !! e.
Proof.
  revert m. induction l as [|e0 l IH]; intros m; cbn [fold_left].
  - now rewrite bool_decide_eq_false_2 by apply not_elem_of_nil.
  - rewrite IH. destruct (bool_decide_reflect (e ∈ l)) as [Hin|Hnin].
    + rewrite bool_decide_eq_true_2; [reflexivity|].
      now apply list_elem_of_further.
    + destruct (decide (e = e0)) as [->|Hne].
      * rewrite lookup_delete_eq.
        now rewrite bool_decide_eq_true_2 by apply list_elem_of_here.
      * rewrite lookup_delete_ne by congruence.
        rewrite bool_decide_eq_false_2; [reflexivity|].
        intros H. apply elem_of_cons in H as [?|?]; contradiction.
Qed.

(** [_remove_infeasible_arcs_capacities] keeps exactly the edges whose
    end points have demands that fit together in the largest vehicle, with
    their costs; the nodes stay as they are. *)
Theorem arcs_over_capacity_are_removed (max_capacity : Q)
    (g g' : Network.t) :
  _remove_infeasible_arcs_capacities max_capacity g = Ok g' ->
  Network.nodes g' = Network.nodes g /\
  forall i j costs,
    Network.edges g' !! (i, j) = Some costs <->
    Network.edges g !! (i, j) = Some costs /\ demands_fit g max_capacity i j.
Proof.
  unfold _remove_infeasible_arcs_capacities. intros E.
  apply bind_Ok in E as (arcs & Harcs & E). injection E as <-.
  apply infeasible_arcs_loop in Harcs as [Hall Hiff].
  split; [reflexivity|]. intros i j costs. cbn [Network.edges].
  rewrite fold_delete_lookup. split.
  - destruct (bool_decide_reflect ((i, j) ∈ arcs)) as [Hin|Hnin];
      [discriminate|].
    intros Hc. split; [exact Hc|].
    destruct (Hall (i, j)) as (di & dj & Hdi & Hdj).
    { apply edge_list_In. eauto. }
    exists di, dj. split; [exact Hdi|]. split; [exact Hdj|].
    apply Qnot_lt_le. intros Hlt. apply Hnin, list_elem_of_In, Hiff.
    right. split; [apply edge_list_In; eauto|]. eauto.
  - intros [Hc (di & dj & Hdi & Hdj & Hle)].
    rewrite bool_decide_eq_false_2; [exact Hc|].
    intros Hin. apply list_elem_of_In, Hiff in Hin
      as [[]|[_ (di' & dj' & Hdi' & Hdj' & Hlt)]].
    cbn [fst snd] in *.
    assert (di' = di) by congruence. assert (dj' = dj) by congruence. subst.
    exact (Qlt_not_le _ _ Hlt Hle).
Qed.

Lemma arcs_over_capacity_are_removed_witness :
  match _remove_infeasible_arcs_capacities 0 Instance.line_network with
  | Ok g' =>
      Network.edges g' !! ("Source", "Sink") = Some [0%Q] /\
      Network.edges g' !! ("Source", "a") = None
  | Raise _ => False
  end.
Proof.
  destruct (_remove_infeasible_arcs_capacities 0 Instance.line_network)
    as [g'|e] eqn:E.
  - destruct (arcs_over_capacity_are_removed _ _ _ E) as [_ H]. split.
    + apply H. split; [reflexivity|].
      exists 0%Q, 0%Q. repeat split; try reflexivity. discriminate.
    + destruct (Network.edges g' !! ("Source", "a")) as [c|] eqn:Ec;
        [|reflexivity].
      apply H in Ec as [_ (di & dj & Hdi & Hdj & Hle)].
      vm_compute in Hdi, Hdj. injection Hdi as <-. injection Hdj as <-.
      exfalso. apply Hle. reflexivity.
  - vm_compute in E. discriminate.
Defined.


(** ** Departures against arrivals *)

Lemma for_each_ext {A S} (xs : list A) (f g : A -> S -> result S) (s : S) :
  (forall x s, f x s = g x s) -> Py.for_each xs f s = Py.for_each xs g s.
Proof.
  intros Hfg. revert s. induction xs as [|x xs IH]; intros s; [reflexivity|].
  cbn [Py.for_each]. rewrite Hfg. destruct (g x s); cbn [Py.bind];
    [apply IH | reflexivity].
Qed.

Lemma getitem_assign_same {V} (k : string) (v : V) (d : list (string * V)) :
  getitem k (MasterSolvePulp.assign String.eqb k v d) = Ok v.
Proof.
  unfold getitem. induction d as [|[k' v'] d IH]; cbn.
  - now rewrite String.eqb_refl.
  - destruct (String.eqb k k') eqn:E; cbn.
    + now rewrite String.eqb_refl.
    + rewrite String.eqb_sym, E. exact IH.
Qed.

Lemma getitem_assign_other {V} (k k' : string) (v : V)
    (d : list (string * V)) :
  k' <> k ->
  getitem k' (MasterSolvePulp.assign String.eqb k v d) = getitem k' d.
Proof.
  intros Hne. unfold getitem. induction d as [|[k0 v0] d IH]; cbn.
  - now rewrite (proj2 (String.eqb_neq k k')) by congruence.
  - destruct (String.eqb_spec k k0) as [->|Hk]; cbn.
    + rewrite !(proj2 (String.eqb_neq k0 k')) by congruence. reflexivity.
    + destruct (String.eqb k0 k'); [reflexivity | exact IH].
Qed.

Lemma getitem_In {V} (k : string) (v : V) (d : list (string * V)) :
  getitem k d = Ok v -> In (k, v) d.
Proof.
  unfold getitem. destruct (List.find _ d) as [[k' v']|] eqn:E;
    [|discriminate].
  cbn. intros H. injection H as <-. apply find_some in E as [Hin Hk].
  cbn in Hk. apply String.eqb_eq in Hk. now subst.
Qed.

Lemma In_getitem {V} (k : string) (v : V) (d : list (string * V)) :
  List.NoDup (map fst d) -> In (k, v) d -> getitem k d = Ok v.
Proof.
  unfold getitem. induction d as [|[k' v'] d IH]; [intros _ []|].
  cbn [map fst List.find]. intros Hnd Hin.
  inversion Hnd as [|? ? Hnot Hnd']; subst.
  destruct Hin as [Heq|Hin].
  - injection Heq as -> ->. now rewrite String.eqb_refl.
  - destruct (String.eqb_spec k' k) as [->|Hne]; [|now apply IH].
    exfalso. apply Hnot. apply in_map_iff. now exists (k, v).
Qed.

Lemma assign_NoDup {V} (k : string) (v : V) (d : list (string * V)) :
  List.NoDup (map fst d) ->
  List.NoDup (map fst (MasterSolvePulp.assign String.eqb k v d)).
Proof.
  induction d as [|[k' v'] d IH]; cbn [MasterSolvePulp.assign map fst].
  - intros _. constructor; [intros [] | constructor].
  - intros Hnd. inversion Hnd as [|? ? Hnot Hnd']; subst.
    destruct (String.eqb_spec k k') as [->|Hne]; cbn [map fst].
    + now constructor.
    + constructor; [|now apply IH].
      rewrite (assign_keys String.eqb Seqb_spec). intros [?|?];
        [congruence | contradiction].
Qed.

Lemma max_monotone (a b c : Q) : (a <= b)%Q -> (Py.max a c <= Py.max b c)%Q.
Proof.
  intros Hab. unfold Py.max.
  destruct (Py.Qgtb c a) eqn:Ea; destruct (Py.Qgtb c b) eqn:Eb.
  - apply Qle_refl.
  - now apply Qgtb_false in Eb.
  - apply Qgtb_false in Ea. apply Qgtb_true in Eb. lra.
  - exact Hab.
Qed.

Lemma reach_monotone (H : Timed.t) (tail head : string) (x y rx ry : Q) :
  reach H tail head x = Ok rx -> reach H tail head y = Ok ry ->
  (x <= y)%Q -> (rx <= ry)%Q.
Proof.
  unfold reach. intros Hx Hy Hle.
  destruct (node_attribute _ tail "service_time") as [s|]; [|discriminate].
  destruct (Timed.edge_time H tail head) as [t|]; [|discriminate].
  destruct (node_attribute _ head "lower") as [l|]; [|discriminate].
  cbn in Hx, Hy. injection Hx as <-. injection Hy as <-.
  apply max_monotone. lra.
Qed.

(** The loops of [arrival_time] and [departure_time] over the same edges
    of a route. *)
Lemma departures_follow_arrivals (H : Timed.t) (es : list (string * string)) :
  (forall v s, node_attribute (Timed.network H) v "service_time" = Ok s ->
     (0 <= s)%Q) ->
  forall A0 D0 A1 D1,
    Py.for_each es
      (fun e (arrival : list (string * Q)) =>
         at_tail <- getitem (fst e) arrival ;;
         at_head <- reach H (fst e) (snd e) at_tail ;;
         Ok (MasterSolvePulp.assign String.eqb (snd e) at_head arrival)) A0
    = Ok A1 ->
    Py.for_each es
      (fun e (departure : list (string * Q)) =>
         at_tail <- getitem (fst e) departure ;;
         at_head <- reach H (fst e) (snd e) at_tail ;;
         service <- node_attribute (Timed.network H) (snd e) "service_time" ;;
         Ok (MasterSolvePulp.assign String.eqb (snd e) (at_head + service)%Q
                                    departure)) D0
    = Ok D1 ->
    departs_after H A0 D0 -> departs_after H A1 D1.
Proof.
  intros Hs. induction es as [|[t h] es IH]; intros A0 D0 A1 D1 EA ED Hinv.
  - injection EA as <-. injection ED as <-. exact Hinv.
  - cbn [Py.for_each fst snd] in EA, ED.
    apply bind_Ok in EA as (A & EA0 & EA). apply bind_Ok in ED as (D & ED0 & ED).
    apply (IH _ _ _ _ EA ED). clear IH EA ED.
    apply bind_Ok in EA0 as (ta & Hta & EA0).
    apply bind_Ok in EA0 as (ra & Hra & EA0). injection EA0 as <-.
    apply bind_Ok in ED0 as (td & Htd & ED0).
    apply bind_Ok in ED0 as (rd & Hrd & ED0).
    apply bind_Ok in ED0 as (s & Hsv & ED0). injection ED0 as <-.
    destruct (Hinv t ta Hta) as (td' & Htd' & Hle & _).
    assert (td' = td) by congruence. subst td'.
    pose proof (reach_monotone _ _ _ _ _ _ _ Hra Hrd Hle) as Hr.
    pose proof (Hs h s Hsv) as Hs0.
    intros v x Hx. destruct (String.eqb_spec v h) as [->|Hne].
    + rewrite getitem_assign_same in Hx. injection Hx as <-.
      exists (rd + s)%Q. split; [apply getitem_assign_same|].
      split; [lra|]. intros _. exists s. split; [exact Hsv | lra].
    + rewrite getitem_assign_other in Hx by exact Hne.
      rewrite getitem_assign_other by exact Hne. now apply Hinv.
Qed.

Lemma arrivals_keys_NoDup (H : Timed.t) (es : list (string * string))
    (A0 A1 : list (string * Q)) :
  Py.for_each es
    (fun e (arrival : list (string * Q)) =>
       at_tail <- getitem (fst e) arrival ;;
       at_head <- reach H (fst e) (snd e) at_tail ;;
       Ok (MasterSolvePulp.assign String.eqb (snd e) at_head arrival)) A0
  = Ok A1 ->
  List.NoDup (map fst A0) -> List.NoDup (map fst A1).
Proof.
  intros E H0.
  eapply (for_each_invariant (fun d => List.NoDup (map fst d)));
    [ | exact H0 | exact E].
  intros e d d' _ Hd Hb. cbv beta in Hb.
  apply bind_Ok in Hb as (at_tail & _ & Hb).
  apply bind_Ok in Hb as (at_head & _ & Hb). injection Hb as <-.
  now apply assign_NoDup.
Qed.

Lemma route_edges_last (route : list string) :
  route_edges route <> [] ->
  exists pre u w,
    route_edges route = pre ++ [(u, w)] /\ last route = Some w.
Proof.
  induction route as [|x [|y rest] IH]; [intros []; reflexivity | |].
  - intros []. reflexivity.
  - intros _. rewrite route_edges_cons.
    destruct (route_edges (y :: rest)) as [|e es] eqn:E.
    + exists [], x, y. split; [reflexivity|].
      destruct rest; [reflexivity | discriminate].
    + destruct IH as (pre & u & w & Hpre & Hlast); [discriminate|].
      exists ((x, y) :: pre), u, w. split; [now rewrite Hpre|].
      exact Hlast.
Qed.

(** One route: the arrival and departure dictionaries. *)
Lemma departure_after_arrival_route (H : Timed.t) (route : list string)
    (a d : list (string * Q)) :
  (forall v s, node_attribute (Timed.network H) v "service_time" = Ok s ->
     (0 <= s)%Q) ->
  arrivals_of_route H route = Ok a ->
  departures_of_route H route = Ok d ->
  forall v ta, In (v, ta) a -> v <> "Source" -> last route <> Some v ->
    exists td s,
      In (v, td) d /\
      node_attribute (Timed.network H) v "service_time" = Ok s /\
      (ta + s <= td)%Q.
Proof.
  intros Hs Ea Ed v ta Hin Hv Hlast.
  unfold arrivals_of_route in Ea. unfold departures_of_route in Ed.
  destruct (node_attribute (Timed.network H) "Source" "lower") as [start|];
    [|discriminate].
  cbn [Py.bind] in Ea, Ed.
  destruct (route_edges route) as [|e0 es0] eqn:Eedges.
  { injection Ea as <-. destruct Hin as [Heq|[]]. congruence. }
  destruct (route_edges_last route) as (pre & u & w & Hpre & Hw);
    [rewrite Eedges; discriminate|].
  rewrite <- Eedges, Hpre in Ea, Ed. clear Eedges.
  rewrite removelast_last in Ed. rewrite for_each_app in Ea.
  apply bind_Ok in Ea as (A & EA & Ea).
  assert (Hinv : departs_after H A d).
  { eapply departures_follow_arrivals; [exact Hs | exact EA | exact Ed |].
    intros x t Hx. exists t. split; [exact Hx|]. split; [apply Qle_refl|].
    intros Hne. exfalso. apply getitem_In in Hx as [Heq|[]]. congruence. }
  assert (Hnd : List.NoDup (map fst A)).
  { eapply arrivals_keys_NoDup; [exact EA|]. cbn.
    constructor; [intros [] | constructor]. }
  cbn [Py.for_each fst snd] in Ea. apply bind_Ok in Ea as (a' & Ea & Ea').
  injection Ea' as <-.
  apply bind_Ok in Ea as (at_tail & _ & Ea).
  apply bind_Ok in Ea as (at_head & _ & Ea). injection Ea as <-.
  apply (assign_In_inv String.eqb) in Hin as [[-> _]|Hin];
    [congruence|].
  apply In_getitem in Hin; [|exact Hnd].
  destruct (Hinv v ta Hin) as (td & Htd & _ & Hserv).
  destruct (Hserv Hv) as (s & Hsv & Hle).
  exists td, s. split; [now apply getitem_In|]. split; assumption.
Qed.

Lemma keys_NoDup_eq {V} (d : list (Z * V)) (i : Z) (x y : V) :
  List.NoDup (map fst d) -> In (i, x) d -> In (i, y) d -> x = y.
Proof.
  induction d as [|[k v] d IH]; [intros _ []|]. cbn [map fst].
  intros Hnd Hx Hy. inversion Hnd as [|? ? Hnot Hnd']; subst.
  destruct Hx as [Hx|Hx]; destruct Hy as [Hy|Hy].
  - congruence.
  - injection Hx as -> ->. exfalso. apply Hnot, in_map_iff. now exists (i, y).
  - injection Hy as -> ->. exfalso. apply Hnot, in_map_iff. now exists (i, x).
  - now apply IH.
Qed.

(** A loop that fills a dictionary with one value per route. *)
Lemma dictionary_loop {X} (F : list string -> result X)
    (best_routes : list (Z * list string)) (acc out : list (Z * X)) :
  Py.for_each best_routes
    (fun entry (acc : list (Z * X)) =>
       x <- F (snd entry) ;;
       Ok (MasterSolvePulp.assign Z.eqb (fst entry) x acc)) acc = Ok out ->
  forall i x, In (i, x) out ->
    In (i, x) acc \/ exists route, In (i, route) best_routes /\ F route = Ok x.
Proof.
  revert acc. induction best_routes as [|[i0 r0] rest IH]; intros acc E i x Hin.
  - injection E as <-. now left.
  - cbn [Py.for_each fst snd] in E. apply bind_Ok in E as (acc1 & E1 & E).
    apply bind_Ok in E1 as (x0 & Hx0 & E1). injection E1 as <-.
    destruct (IH _ E i x Hin) as [H1|(route & Hr & HF)].
    + apply (assign_In_inv Z.eqb) in H1 as [[-> ->]|H1]; [|now left].
      right. exists r0. split; [now left | exact Hx0].
    + right. exists route. split; [now right | exact HF].
Qed.

(** A vehicle never leaves a node before it has arrived and served it:
    when service times are not negative, the time [departure_time]
    reports for a node of a route is at least the time [arrival_time]
    reports for it plus the service time there.  The last node of a
    route has no departure time. *)
Theorem departure_not_before_service (H : Timed.t)
    (best_routes : list (Z * list string)) (duration : option Q)
    (time_windows : bool) (A D : list (Z * list (string * Q))) :
  (forall v s, node_attribute (Timed.network H) v "service_time" = Ok s ->
     (0 <= s)%Q) ->
  List.NoDup (map fst best_routes) ->
  arrival_time H best_routes duration time_windows = Ok A ->
  departure_time H best_routes duration time_windows = Ok D ->
  forall i route a d v ta,
    In (i, route) best_routes -> In (i, a) A -> In (i, d) D ->
    In (v, ta) a -> last route <> Some v ->
    exists td s,
      In (v, td) d /\
      node_attribute (Timed.network H) v "service_time" = Ok s /\
      (ta + s <= td)%Q.
Proof.
  intros Hs Hnd EA ED i route a d v ta Hr Ha Hd Hv Hlast.
  unfold arrival_time in EA. unfold departure_time in ED.
  destruct (_ && _); [injection EA as <-; destruct Ha|].
  rewrite (for_each_ext _ _
             (fun entry arrival =>
                x <- (a <- arrivals_of_route H (snd entry) ;;
                      delitem "Source" a) ;;
                Ok (MasterSolvePulp.assign Z.eqb (fst entry) x arrival)))
    in EA by (intros; now rewrite bind_assoc).
  destruct (dictionary_loop
              (fun r => a <- arrivals_of_route H r ;; delitem "Source" a)
              _ _ _ EA i a Ha) as [[]|(r1 & Hr1 & Ea)].
  destruct (dictionary_loop (departures_of_route H) _ _ _ ED i d Hd)
    as [[]|(r2 & Hr2 & Ed)].
  assert (r1 = route) by (eapply keys_NoDup_eq; eauto).
  assert (r2 = route) by (eapply keys_NoDup_eq; eauto). subst r1 r2.
  apply bind_Ok in Ea as (a0 & Ea0 & Hdel).
  unfold delitem in Hdel. destruct (existsb _ a0); [|discriminate].
  injection Hdel as <-. apply filter_In in Hv as [Hv Hne]. cbn in Hne.
  apply negb_true_iff, String.eqb_neq in Hne.
  eapply departure_after_arrival_route; eauto.
Qed.

Lemma departure_not_before_service_witness :
  match arrival_time Instance.timed_line [(1, ["Source"; "a"; "Sink"])]
                     None true,
        departure_time Instance.timed_line [(1, ["Source"; "a"; "Sink"])]
                       None true with
  | Ok A, Ok D =>
      forall a d ta, In (1, a) A -> In (1, d) D -> In ("a", ta) a ->
        exists td s,
          In ("a", td) d /\
          node_attribute (Timed.network Instance.timed_line) "a"
                         "service_time" = Ok s /\
          (ta + s <= td)%Q
  | _, _ => False
  end.
Proof.
  destruct (arrival_time Instance.timed_line [(1, ["Source"; "a"; "Sink"])]
                         None true) as [A|e] eqn:EA;
    [|vm_compute in EA; discriminate].
  destruct (departure_time Instance.timed_line
              [(1, ["Source"; "a"; "Sink"])] None true) as [D|e] eqn:ED;
    [|vm_compute in ED; discriminate].
  intros a d ta Ha Hd Hta.
  apply (departure_not_before_service Instance.timed_line
           [(1, ["Source"; "a"; "Sink"])] None true A D)
    with (i := 1) (route := ["Source"; "a"; "Sink"]) (a := a);
    try assumption.
  - intros v s Hv. unfold node_attribute in Hv. cbn [Instance.timed_line
      Timed.network Network.nodes List.find fst] in Hv.
    destruct (String.eqb "Source" v); [vm_compute in Hv; injection Hv as <-;
                                       discriminate|].
    destruct (String.eqb "a" v); [vm_compute in Hv; injection Hv as <-;
                                  discriminate|].
    destruct (String.eqb "Sink" v); [vm_compute in Hv; injection Hv as <-;
                                     discriminate|].
    discriminate.
  - cbn. constructor; [intros [] | constructor].
  - now left.
  - discriminate.
Defined.


(** ** Arrivals against durations *)




(** ** The benchmark report *)

Lemma gap_zero (a b : Q) : ~ (b == 0)%Q -> ((a - b) / b * 100 == 0 <-> a == b)%Q.
Proof.
  intros Hb. split; intros H.
  - assert (H1 : ((a - b) / b == 0)%Q).
    { apply Qmult_integral in H as [H|H]; [exact H | discriminate]. }
    assert (H2 : (b * ((a - b) / b) == a - b)%Q)
      by (apply Qmult_div_r; exact Hb).
    rewrite H1 in H2. lra.
  - rewrite H. unfold Qdiv. ring.
Qed.

(** The report of a benchmark run: the instance is reported optimal
    exactly when the best value found equals the best known solution, and
    the integrality gap is 0 exactly when the best value equals the last
    lower bound.  A report is only produced when that lower bound and the
    best known solution are not 0. *)
Theorem report_optimal_iff_best_known (best_value : Q)
    (_lower_bound : list (option Q)) (best_known_solution : Q)
    (r : Report.t) :
  Report.get_data_from_VRP_instance best_value _lower_bound best_known_solution
  = Ok r ->
  Report.upper_bound r = best_value /\
  last _lower_bound = Some (Some (Report.lower_bound r)) /\
  ~ (Report.lower_bound r == 0)%Q /\ ~ (best_known_solution == 0)%Q /\
  (Report.optimal r = true <-> (best_value == best_known_solution)%Q) /\
  ((Report.integrality_gap r == 0)%Q
   <-> (best_value == Report.lower_bound r)%Q).
Proof.
  unfold Report.get_data_from_VRP_instance. intros E.
  apply bind_Ok in E as (l & Hl & E). apply bind_Ok in E as (lower & Hlo & E).
  rewrite index_last in Hl.
  destruct (last _lower_bound) as [l'|] eqn:El; [|discriminate].
  injection Hl as ->. destruct l as [lo|]; [|discriminate].
  injection Hlo as ->.
  destruct (Qeq_bool lower 0) eqn:E0; [discriminate|].
  destruct (Qeq_bool best_known_solution 0) eqn:E1; [discriminate|].
  injection E as <-. cbn [Report.upper_bound Report.lower_bound
                            Report.optimal Report.integrality_gap].
  assert (H0 : ~ (lower == 0)%Q)
    by (intros H; apply Qeq_bool_iff in H; congruence).
  assert (H1 : ~ (best_known_solution == 0)%Q)
    by (intros H; apply Qeq_bool_iff in H; congruence).
  split; [reflexivity|]. split; [reflexivity|]. split; [exact H0|].
  split; [exact H1|]. split.
  - rewrite Qeq_bool_iff. now apply gap_zero.
  - now apply gap_zero.
Qed.

Lemma report_optimal_iff_best_known_witness :
  match Report.get_data_from_VRP_instance 10 [None; Some 8%Q] 10 with
  | Ok r => Report.optimal r = true
  | Raise _ => False
  end.
Proof.
  destruct (Report.get_data_from_VRP_instance 10 [None; Some 8%Q] 10)
    as [r|e] eqn:E.
  - apply (report_optimal_iff_best_known _ _ _ _ E). reflexivity.
  - vm_compute in E. discriminate.
Defined.

(** ** Fixed costs in the cost of a route *)

Lemma add_fixed_costs_edges (fixed_cost : list Q) (vehicle_types : Z)
    (g g' : Network.t) (i j : string) :
  _add_fixed_costs fixed_cost vehicle_types g = Ok g' ->
  Network.edges g' !! (i, j)
  = (fun costs => if String.eqb i "Source"
                  then with_fixed_costs fixed_cost vehicle_types costs
                  else costs) <$> Network.edges g !! (i, j).
Proof.
  unfold _add_fixed_costs. intros E.
  apply bind_Ok in E as (vs & Hvs & E).
  apply successors_spec in Hvs as [Hnd Hin].
  apply fixed_costs_outer in E as [Hn He]; [|exact Hnd|].
  2:{ intros v Hv. now apply Hin. }
  rewrite He.
  destruct (String.eqb_spec i "Source") as [->|Hi]; cbn [andb].
  - destruct (bool_decide_reflect (j ∈ vs)) as [Hj|Hj]; [reflexivity|].
    destruct (Network.edges g !! ("Source", j)) eqn:Ej; [|reflexivity].
    exfalso. apply Hj, list_elem_of_In, Hin. eauto.
  - now destruct (Network.edges g !! (i, j)).
Qed.

(** When an edge leaves Source, [_add_fixed_costs] reads a fixed cost for
    every vehicle type. *)
Lemma add_fixed_costs_bound (fixed_cost : list Q) (vehicle_types : Z)
    (g g' : Network.t) (v : string) (k : Z) :
  _add_fixed_costs fixed_cost vehicle_types g = Ok g' ->
  is_Some (Network.edges g !! ("Source", v)) ->
  0 <= k < vehicle_types ->
  exists f, fixed_cost !! Z.to_nat k = Some f.
Proof.
  unfold _add_fixed_costs. intros E Hv Hk.
  apply bind_Ok in E as (vs & Hvs & E).
  apply successors_spec in Hvs as [_ Hin]. apply Hin in Hv.
  destruct vs as [|v0 vs]; [destruct Hv|]. clear Hv Hin.
  cbn [Py.for_each] in E. apply bind_Ok in E as (g1 & E & _).
  assert (Hsplit : Py.range vehicle_types
                   = map Z.of_nat (seq 0 (Z.to_nat k)) ++ [k]
                     ++ map Z.of_nat (seq (S (Z.to_nat k))
                                          (Z.to_nat vehicle_types
                                           - S (Z.to_nat k)))).
  { unfold Py.range.
    replace (Z.to_nat vehicle_types)
      with (Z.to_nat k + S (Z.to_nat vehicle_types - S (Z.to_nat k)))%nat
      at 1 by lia.
    rewrite seq_app, map_app. cbn [seq map Nat.add]. rewrite Z2Nat.id by lia.
    reflexivity. }
  rewrite Hsplit, for_each_app in E. apply bind_Ok in E as (g2 & _ & E).
  cbn [app Py.for_each] in E. apply bind_Ok in E as (g3 & E & _).
  apply bind_Ok in E as (c & _ & E). apply bind_Ok in E as (f & Hf & _).
  rewrite index_nonneg in Hf by lia.
  destruct (fixed_cost !! Z.to_nat k) as [f0|]; [eauto | discriminate].
Qed.


Lemma index_with_fixed_costs (fixed_cost costs : list Q) (vehicle_types k : Z)
    (c f : Q) :
  0 <= k < vehicle_types ->
  Py.index costs k = Ok c -> fixed_cost !! Z.to_nat k = Some f ->
  Py.index (with_fixed_costs fixed_cost vehicle_types costs) k
  = Ok (c + f)%Q.
Proof.
  intros Hk Hc Hf. rewrite index_nonneg in * by lia.
  unfold with_fixed_costs. rewrite list_lookup_imap.
  destruct (costs !! Z.to_nat k) as [c0|]; [|discriminate].
  injection Hc as ->. cbn [fmap option_fmap option_map Py.of_option].
  rewrite Z2Nat.id by lia.
  destruct (Z.ltb_spec k vehicle_types); [|lia].
  now rewrite (nth_lookup_Some _ _ _ _ Hf).
Qed.



(** [_add_fixed_costs] is not idempotent: the network is changed in
    place, so running it again on the result adds the fixed costs a
    second time to the edges leaving Source. *)
Theorem fixed_costs_accumulate (fixed_cost : list Q) (vehicle_types : Z)
    (g g1 g2 : Network.t) (v : string) (k : Z) (c : Q) :
  _add_fixed_costs fixed_cost vehicle_types g = Ok g1 ->
  _add_fixed_costs fixed_cost vehicle_types g1 = Ok g2 ->
  0 <= k < vehicle_types ->
  Network.edge_cost g "Source" v k = Ok c ->
  exists f,
    Py.index fixed_cost k = Ok f /\
    Network.edge_cost g1 "Source" v k = Ok (c + f)%Q /\
    Network.edge_cost g2 "Source" v k = Ok (c + f + f)%Q.
Proof.
  intros E1 E2 Hk Hc. unfold Network.edge_cost in *.
  destruct (Network.edges g !! ("Source", v)) as [costs|] eqn:Ecosts;
    [|discriminate].
  cbn [Py.of_option Py.bind] in Hc.
  destruct (add_fixed_costs_bound _ _ _ _ v k E1) as [f Hf];
    [rewrite Ecosts; eauto | exact Hk |].
  exists f. split; [rewrite index_nonneg by lia; now rewrite Hf|].
  rewrite (add_fixed_costs_edges _ _ _ _ "Source" v E2).
  rewrite (add_fixed_costs_edges _ _ _ _ "Source" v E1), Ecosts.
  cbn [fmap option_fmap option_map Py.of_option Py.bind].
  replace (String.eqb "Source" "Source") with true by reflexivity.
  split; repeat apply index_with_fixed_costs; assumption.
Qed.

Lemma fixed_costs_accumulate_witness :
  match _add_fixed_costs [5%Q] 1 Instance.line_network with
  | Ok g1 =>
      match _add_fixed_costs [5%Q] 1 g1 with
      | Ok g2 => Network.edge_cost g2 "Source" "a" 0 = Ok (1 + 5 + 5)%Q
      | Raise _ => False
      end
  | Raise _ => False
  end.
Proof.
  destruct (_add_fixed_costs [5%Q] 1 Instance.line_network) as [g1|e] eqn:E1;
    [|vm_compute in E1; discriminate].
  destruct (_add_fixed_costs [5%Q] 1 g1) as [g2|e] eqn:E2.
  - destruct (fixed_costs_accumulate [5%Q] 1 Instance.line_network g1 g2
                "a" 0 1%Q E1 E2) as (f & Hf & _ & H2);
      [lia | reflexivity |].
    injection Hf as <-. exact H2.
  - exfalso. revert E2.
    assert (Hg : _add_fixed_costs [5%Q] 1 Instance.line_network
                 = Ok g1) by exact E1.
    vm_compute in Hg. injection Hg as <-. vm_compute. discriminate.
Defined.
